(* ===== verification/_CoqProject ===== *)
-Q . S2P
Prelude.v
Bytes.v
Sha256.v
Curve.v
Toy.v
Profile.v
Samples.v
Accumulator.v
Circuit.v
CircuitFacts.v
Statements.v
Backend.v
BackendFacts.v
ToyProofs.v
Protocol.v
ProtocolFacts.v
Security.v
Wire.v
Encodings.v
Text.v
Json.v
JsonStream.v
JsonFacts.v
JsonStreamFacts.v
Service.v
ServiceFacts.v
ServiceSteps.v
ServiceClaims.v
SetupEncoding.v
Setup.v
SetupFacts.v
Trust.v
Context.v
Vault.v
VaultFacts.v
VaultClaims.v
TrustFacts.v
TrustClaims.v
Ceremony.v
CeremonyFacts.v
Stdio.v
Native.v
NativeFacts.v
DemoEngine.v
DemoExport.v
DemoServer.v
DemoFacts.v
DemoFiles.v
DemoClaims.v
