(* ===== verification/Prelude.v ===== *)
(** * Lk-TRS native proof backend: a Rocq development

    The program is the Go module [src/src/nativeproof]: linkable k-times
    traceable ring signatures. Users hold a secret [x] and accounts
    [(U, Y = xU)]; a ring of accounts is accumulated over a q-SDH reference
    string; a Groth16 proof shows membership in the ring, a counter below the
    quota and the tags (nym, serial, trace tag) of the issue. Two signatures
    with one counter reveal the signer's trace key.

    Components, in the order of the calls between them:

    - [profile.go] (host arithmetic): [Profile], facts in [Accumulator];
    - [circuit.go], [witness.go] (the circuit): [Circuit], [CircuitFacts],
      [Statements];
    - [backend.go] (Groth16, verification, key loading): [Backend],
      [BackendFacts];
    - [protocol.go] (signers, registry, link, trace): [Protocol],
      [ProtocolFacts], theorems in [Security];
    - [wire.go] (signature bytes): [Wire];
    - [service.go] (the JSON service and its ledger): [Service],
      [ServiceFacts], [ServiceSteps], [ServiceClaims], over a model of
      [encoding/json] and base64 in [Json], [JsonFacts], [Text]; reading by
      tokens, as [rejectDuplicateJSON] does, in [JsonStream],
      [JsonStreamFacts];
    - [setup_encoding.go], [setup.go] (parameters, keys, bundles):
      [SetupEncoding], [Setup], [SetupFacts];
    - [vault.go] (encrypted wallets): [Vault], [VaultFacts], [VaultClaims];
    - [context.go] (published contexts): [Context];
    - [trust.go] (authorities, enrollment, authorized verification):
      [Trust], [TrustFacts], [TrustClaims];
    - [ceremony.go] (the q-SDH ceremony): [Ceremony], [CeremonyFacts];
    - [cmd/lktrs-native] (the stdio server and the commands): [Stdio],
      [Native], [NativeFacts];
    - [cmd/lktrs-demo] (a scripted scenario behind a local HTTP server):
      [DemoEngine] ([engine.go]), [DemoExport] ([export.go]), [DemoServer]
      ([server.go], [main.go]), theorems in [DemoFacts], [DemoFiles],
      [DemoClaims].

    [Prelude] has the error monad, congruences and list lemmas, [Bytes] byte
    strings with their integer and hex encodings, [Sha256] the hash function
    itself, [Encodings] digests, scalars, points and files, [Curve] the
    interface of the groups.

    ** How Go is modelled

    A function with an error result is a function into [result]; the error is
    its message. Panics (nil dereference, index out of range) are errors too.
    A method that mutates its receiver returns the new state. Mutexes make
    calls sequential, so histories are lists of calls or steps. Integers are
    [Z]; [uint32] and [uint64] arithmetic is reduced where it can wrap, and
    decoders of JSON and binary data enforce the widths. Maps are [gmap].
    Randomness, clocks, and failures of the file system are arguments; files
    that are replaced by rename are either the old or the new contents.

    Third-party code is a parameter with the laws the program relies on:
    [Crypto]/[CryptoLaws] (gnark-crypto's groups of prime order, pairing and
    encodings), [Groth16] with [Groth16Laws] (completeness) and
    [KnowledgeSound] (an extractor for accepted proofs), [SetupBackend] with
    [PointLaws] and [SetupLaws] (key and point codecs), [AEAD]/[AEADLaws],
    [Ed25519]/[Ed25519Laws], [Phase1Backend]/[Phase1Laws]. [Toy],
    [ToyProofs] and instances beside the claims give concrete functions with
    all these laws; every property with hypotheses has an instance over
    them, evaluated on concrete keys, rings and messages ([Samples]).

    ** What the theorems show

    - Security: repeated counters are traced to the registered user, a quota
      cannot be exceeded untraced, accepted signatures prove membership and
      their tags, honest signers are linked and never traced, honest
      signatures verify; the circuit decides the host relation.
    - Accumulator and registry: the accumulator is the product over the ring,
      witnesses verify exactly when they open it, valid parameters are the
      reference strings, a registry resolves a key to one user, revocation
      removes exactly a user's accounts.
    - Service: reachable states are well formed; replays, changed quotas and
      revoked users are refused through failures and restarts; errors leave
      the state unchanged; requests are read exactly, by tokens and as a
      whole, and no repeated key at any depth is accepted.
    - Wallets: no counter is used twice through crashes and reopening, and
      the counter on disk exceeds every released one; the wallet refines the
      in-memory signer with slots burned by failed proofs; its file round
      trips.
    - Setup and ceremony: exported setups load as they were, a pin determines
      the setup, key layouts are checked exactly; honest ceremonies finish
      with valid parameters, which are the sealed powers of a verified chain,
      and receipts bind transcripts. Where an argument rests on SHA-256, the
      theorem names the two different inputs at hand that would have to
      collide ([colliding_bundles], [colliding_contributions]).
    - Trust: enrollment proves possession; an authorized verifier accepts and
      traces only over registries its authorities signed.
    - Commands: a stdio session answers the framed requests in order and
      reaches a state of the service; samples verify under the same pin.
    - Demo: one worker at a time runs the steps in order, only trusted
      requests change the server, every report shown was verified, the
      exported files are the listed public ones with their contents; actions
      are read exactly.

    ** Bounds and fuel

    The JSON reader takes fuel twice the length of its input, enough by
    [parse_fuel]; the walk over tokens four times the length, enough by
    [rejectDuplicateJSON_fuel]; the ceremony's doubling loop takes 17 steps, enough for the
    largest capacity ([ceremony_domain_exact]); the stdio loop takes one more
    than the length of the input, enough by [serve_loop_fuel]; the loop over
    the fields of an action takes two rounds, enough by [action_fuel];
    trimming spaces takes the length of the text, since each round drops one.
    Everything else recurses on its data.

    ** Not modelled

    The [flag] package (commands start from parsed flags), process resource
    limits, [archive/zip], timeouts of the HTTP server and of the verifier
    process beyond their failures. A demo step is atomic on the engine: by
    [demo_serialized] nothing else uses the engine while its worker runs.
    The C++ prototype, scripts and the web page are outside the Go program.
    gnark, gnark-crypto, Ed25519 and XChaCha20-Poly1305 are parameters as
    above: their code is not in the repository. *)

From stdpp Require Export base gmap sets list strings list_numbers pretty.
From Stdlib Require Export ZArith Lia Ascii.
From Stdlib Require Import Zcong.

#[export] Set Default Goal Selector "!".
#[global] Open Scope Z_scope.

(** ** Errors and the result monad

    A Go function returning [(T, error)] is a function into [result T]; the
    error value is its message, as [error.Error()] gives it. *)

Definition error : Type := string.

Inductive result (A : Type) : Type :=
  | Ok (a : A)
  | Err (e : error).
Arguments Ok {A} a.
Arguments Err {A} e.

#[export] Instance result_ret : MRet result := fun A a => Ok a.
#[export] Instance result_bind : MBind result := fun A B f r =>
  match r with Ok a => f a | Err e => Err e end.
#[export] Instance result_fmap : FMap result := fun A B f r =>
  match r with Ok a => Ok (f a) | Err e => Err e end.

#[export] Instance result_eq_dec {A} `{EqDecision A} : EqDecision (result A).
Proof. solve_decision. Defined.

(** [if b { return ..., errors.New(e) }] *)
Definition fail_if (b : bool) (e : error) : result unit :=
  if b then Err e else Ok tt.

(** [fmt.Errorf("p: %w", err)] *)
Definition wrap {A} (p : error) (r : result A) : result A :=
  match r with Ok a => Ok a | Err e => Err (p +:+ ": " +:+ e) end.

(** Reading through a pointer: a nil pointer panics. *)
Definition deref {A} (p : option A) : result A :=
  match p with Some a => Ok a | None => Err "nil pointer dereference" end.

Definition is_ok {A} (r : result A) : bool :=
  match r with Ok _ => true | Err _ => false end.

Lemma bind_Ok {A B} (r : result A) (f : A -> result B) b :
  r ≫= f = Ok b <-> exists a, r = Ok a /\ f a = Ok b.
Proof. destruct r; cbn; naive_solver. Qed.

Lemma bind_Err {A B} (r : result A) (f : A -> result B) e :
  r ≫= f = Err e <-> r = Err e \/ exists a, r = Ok a /\ f a = Err e.
Proof. destruct r; cbn; naive_solver. Qed.

Lemma fail_if_Ok b e u : fail_if b e = Ok u <-> b = false.
Proof. destruct b, u; cbn; naive_solver. Qed.

Lemma wrap_Ok {A} p (r : result A) a : wrap p r = Ok a <-> r = Ok a.
Proof. destruct r; cbn; naive_solver. Qed.

Lemma deref_Ok {A} (p : option A) a : deref p = Ok a <-> p = Some a.
Proof. destruct p; cbn; naive_solver. Qed.

Lemma is_ok_exists {A} (r : result A) : is_ok r = true <-> exists a, r = Ok a.
Proof. destruct r; cbn; naive_solver. Qed.

Lemma mret_Ok {A} (a b : A) : mret a = Ok b <-> a = b.
Proof. unfold mret, result_ret. naive_solver. Qed.

(** [go_inv H] decomposes a hypothesis [H : body = Ok v] along the monadic
    structure of the body: every call becomes an equation, every guard that
    was passed becomes a boolean fact. *)
Ltac go_inv_step H :=
  lazymatch type of H with
  | mbind _ _ = Ok _ =>
      let a := fresh "a" in let H1 := fresh "Hc" in
      apply bind_Ok in H as (a & H1 & H); go_inv_step H1; cbn beta iota in H
  | result_bind _ _ _ _ = Ok _ =>
      let a := fresh "a" in let H1 := fresh "Hc" in
      apply bind_Ok in H as (a & H1 & H); go_inv_step H1; cbn beta iota in H
  | fail_if _ _ = Ok _ => apply fail_if_Ok in H
  | wrap _ _ = Ok _ => apply wrap_Ok in H
  | deref _ = Ok _ => apply deref_Ok in H
  | mret _ = Ok _ => apply mret_Ok in H
  | Ok _ = Ok _ => injection H as H
  | Err _ = Ok _ => discriminate H
  | _ => idtac
  end.
Ltac go_inv H := repeat (progress (go_inv_step H)).

(** Boolean guards as propositions. *)
Ltac bool_prop :=
  repeat match goal with
  | H : negb _ = true |- _ => apply negb_true_iff in H
  | H : negb _ = false |- _ => apply negb_false_iff in H
  | H : _ || _ = false |- _ => apply orb_false_iff in H as [? ?]
  | H : _ && _ = true |- _ => apply andb_true_iff in H as [? ?]
  | H : (_ <? _) = true |- _ => apply Z.ltb_lt in H
  | H : (_ <? _) = false |- _ => apply Z.ltb_ge in H
  | H : (_ <=? _) = true |- _ => apply Z.leb_le in H
  | H : (_ <=? _) = false |- _ => apply Z.leb_gt in H
  | H : (_ =? _) = true |- _ => apply Z.eqb_eq in H
  | H : (_ =? _) = false |- _ => apply Z.eqb_neq in H
  | H : bool_decide _ = true |- _ => apply bool_decide_eq_true in H
  | H : bool_decide _ = false |- _ => apply bool_decide_eq_false in H
  end.

(** ** Integers *)

(** [lia] with divisions and remainders by constants. *)
Ltac zlia := Z.to_euclidean_division_equations; lia.

(** [big.Int.ModInverse] (on an invertible argument). *)
Definition modinv (a m : Z) : Z := Z.invmod a m.

Lemma modinv_range a m : 0 < m -> 0 <= modinv a m < m.
Proof. intros Hm. unfold modinv, Z.invmod. by apply Z.mod_pos_bound. Qed.

Lemma modinv_l a m : Z.prime m -> a mod m <> 0 -> (modinv a m * a) mod m = 1.
Proof. apply Z.invmod_prime. Qed.

Lemma prime_gt_1 p : Z.prime p -> 1 < p.
Proof. intros [? _]. done. Qed.

(** Congruence modulo [m], as a setoid: [+], [-] and [*] are morphisms, so
    goals about scalars are rewritten modulo the group order. *)
Definition cong (m a b : Z) : Prop := a mod m = b mod m.
Notation "a ≡[ m ] b" := (cong m a b)
  (at level 70, m at level 200, b at next level, format "a  ≡[ m ]  b").

#[export] Instance cong_equiv m : Equivalence (cong m).
Proof. split; unfold cong; congruence. Qed.

#[export] Instance cong_dec m a b : Decision (a ≡[m] b).
Proof. unfold cong. apply _. Defined.

#[export] Instance cong_add m : Proper (cong m ==> cong m ==> cong m) Z.add.
Proof. intros a b H c d H'. unfold cong in *. by rewrite Zplus_mod, H, H', <- Zplus_mod. Qed.

#[export] Instance cong_mul m : Proper (cong m ==> cong m ==> cong m) Z.mul.
Proof. intros a b H c d H'. unfold cong in *. by rewrite Zmult_mod, H, H', <- Zmult_mod. Qed.

#[export] Instance cong_sub m : Proper (cong m ==> cong m ==> cong m) Z.sub.
Proof. intros a b H c d H'. unfold cong in *. by rewrite Zminus_mod, H, H', <- Zminus_mod. Qed.

#[export] Instance cong_opp m : Proper (cong m ==> cong m) Z.opp.
Proof. intros a b H. rewrite <- !Z.sub_0_l. by rewrite H. Qed.

Lemma cong_mod m a : a mod m ≡[m] a.
Proof. unfold cong. apply Zmod_mod. Qed.

Lemma cong_eq m a b : a = b -> a ≡[m] b.
Proof. by intros ->. Qed.

Lemma cong_sub_0 m a b : a - b ≡[m] 0 <-> a ≡[m] b.
Proof.
  split; intros H.
  - replace a with ((a - b) + b) by lia. rewrite H. by apply cong_eq.
  - rewrite H. apply cong_eq. lia.
Qed.

Lemma cong_small m a b : 0 <= a < m -> 0 <= b < m -> a ≡[m] b -> a = b.
Proof. intros ?? H. unfold cong in H. rewrite !Z.mod_small in H; done. Qed.

Lemma cong_0_mod m a : a ≡[m] 0 <-> a mod m = 0.
Proof. unfold cong. by rewrite Zmod_0_l. Qed.

Lemma modinv_cong a m : Z.prime m -> ~ a ≡[m] 0 -> modinv a m * a ≡[m] 1.
Proof.
  intros Hp Ha. rewrite cong_0_mod in Ha. unfold cong.
  rewrite modinv_l by done. symmetry. apply Z.mod_small.
  pose proof (prime_gt_1 _ Hp). lia.
Qed.

Lemma cong_1_0 m : Z.prime m -> ~ 1 ≡[m] 0.
Proof.
  intros Hp H. pose proof (prime_gt_1 _ Hp).
  apply cong_small in H; lia.
Qed.

(** Z modulo a prime has no zero divisors, and a nonzero factor cancels. *)
Lemma cong_cancel_l m c a b :
  Z.prime m -> ~ c ≡[m] 0 -> c * a ≡[m] c * b -> a ≡[m] b.
Proof.
  intros Hp Hc H. pose proof (modinv_cong c m Hp Hc) as Hi.
  assert (forall z, z ≡[m] modinv c m * (c * z)) as E.
  { intros z. rewrite Z.mul_assoc, Hi. apply cong_eq. lia. }
  rewrite (E a), (E b). by rewrite H.
Qed.

Lemma cong_mul_0 m a b :
  Z.prime m -> a * b ≡[m] 0 <-> a ≡[m] 0 \/ b ≡[m] 0.
Proof.
  intros Hp. split.
  - intros H. destruct (decide (a ≡[m] 0)) as [?|Ha]; [by left|right].
    apply (cong_cancel_l m a); [done..|]. rewrite H. apply cong_eq. lia.
  - intros [-> | ->]; apply cong_eq; lia.
Qed.

Lemma modinv_nonzero a m : Z.prime m -> ~ a ≡[m] 0 -> ~ modinv a m ≡[m] 0.
Proof.
  intros Hp Ha H. pose proof (modinv_cong a m Hp Ha) as Hi.
  rewrite H in Hi. apply (cong_1_0 m Hp). by rewrite <- Hi.
Qed.

Lemma modinv_inj a b m :
  Z.prime m -> ~ a ≡[m] 0 -> ~ b ≡[m] 0 -> modinv a m ≡[m] modinv b m -> a ≡[m] b.
Proof.
  intros Hp Ha Hb H.
  apply (cong_cancel_l m (modinv a m)); [done|by apply modinv_nonzero|].
  rewrite modinv_cong by done. by rewrite H, modinv_cong.
Qed.

Lemma cong_scalar_nonzero m a : 0 < a < m -> ~ a ≡[m] 0.
Proof. intros ? H. apply cong_small in H; lia. Qed.

(** ** Lists *)

Lemma insert_middle {A} (l1 l2 : list A) x y i :
  i = length l1 -> <[i := y]> (l1 ++ x :: l2) = l1 ++ y :: l2.
Proof. intros ->. replace (length l1) with (length l1 + 0)%nat by lia. by rewrite insert_app_r. Qed.

Lemma lookup_total_middle {A} `{!Inhabited A} (l1 l2 : list A) x i :
  i = length l1 -> (l1 ++ x :: l2) !!! i = x.
Proof. intros ->. apply list_lookup_total_correct. by apply list_lookup_middle. Qed.
