(* ===== verification/Bytes.v ===== *)
(** * Byte strings and their text encodings

    Bytes are [Byte.byte], byte slices and fixed-size arrays are lists of
    bytes, Go strings are [string] (a sequence of 8-bit characters, as in Go).
    The file holds what the backend uses of Go's [encoding/binary] (big-endian
    integers), [math/big] ([SetBytes], [FillBytes]), [encoding/hex], and
    [bytes.Reader] with [io.ReadFull]. *)

From S2P Require Import Prelude.
From Stdlib Require Import Strings.Byte.
Abbreviation byte := Corelib.Init.Byte.byte.

Abbreviation bytes := (list byte).

#[export] Instance byte_eq_dec : EqDecision byte := Byte.byte_eq_dec.

#[export] Instance byte_inhabited : Inhabited byte := populate Byte.x00.
#[export] Instance byte_countable : Countable byte :=
  inj_countable Byte.to_N Byte.of_N Byte.of_to_N.

(** ** Bytes as integers *)

Definition b2z (b : byte) : Z := Z.of_N (Byte.to_N b).
Definition z2b (z : Z) : byte :=
  default Byte.x00 (Byte.of_N (Z.to_N (z mod 256))).

Lemma b2z_range b : 0 <= b2z b < 256.
Proof. unfold b2z. pose proof (Byte.to_N_bounded b). lia. Qed.

Lemma b2z_z2b z : b2z (z2b z) = z mod 256.
Proof.
  unfold b2z, z2b. pose proof (Z.mod_pos_bound z 256 ltac:(lia)).
  destruct (Byte.of_N (Z.to_N (z mod 256))) eqn:E; cbn.
  - apply Byte.to_of_N in E. rewrite E. lia.
  - apply Byte.of_N_None_iff in E. lia.
Qed.

Lemma z2b_b2z b : z2b (b2z b) = b.
Proof.
  unfold z2b, b2z. pose proof (Byte.to_N_bounded b).
  rewrite Z.mod_small by lia. by rewrite N2Z.id, Byte.of_to_N.
Qed.

Lemma b2z_inj a b : b2z a = b2z b -> a = b.
Proof. intros H. by rewrite <- (z2b_b2z a), H, z2b_b2z. Qed.

(** [be_enc n z]: the [n] low-order bytes of [z], most significant first;
    [PutUint32], [binary.Write] and [FillBytes] of a value that fits. *)
Fixpoint be_enc (n : nat) (z : Z) : bytes :=
  match n with
  | O => []
  | S n => z2b (z / 256 ^ Z.of_nat n) :: be_enc n z
  end.

(** [be_dec]: [big.Int.SetBytes], [Uint32], [Uint64]. *)
Fixpoint be_dec_acc (acc : Z) (bs : bytes) : Z :=
  match bs with
  | [] => acc
  | b :: bs => be_dec_acc (acc * 256 + b2z b) bs
  end.
Definition be_dec (bs : bytes) : Z := be_dec_acc 0 bs.

Lemma length_be_enc n z : length (be_enc n z) = n.
Proof. induction n; cbn; congruence. Qed.

Lemma be_dec_acc_spec bs acc :
  be_dec_acc acc bs = acc * 256 ^ Z.of_nat (length bs) + be_dec bs.
Proof.
  unfold be_dec. revert acc. induction bs as [|b bs IH]; intros acc.
  - cbn. lia.
  - cbn [be_dec_acc length]. rewrite (IH (acc * 256 + b2z b)), (IH (0 * 256 + b2z b)).
    rewrite Nat2Z.inj_succ, Z.pow_succ_r by lia. lia.
Qed.

Lemma be_dec_cons b bs :
  be_dec (b :: bs) = b2z b * 256 ^ Z.of_nat (length bs) + be_dec bs.
Proof. unfold be_dec at 1. cbn [be_dec_acc]. rewrite be_dec_acc_spec. lia. Qed.

Lemma be_dec_nil : be_dec [] = 0.
Proof. done. Qed.

Lemma be_dec_app xs ys :
  be_dec (xs ++ ys) = be_dec xs * 256 ^ Z.of_nat (length ys) + be_dec ys.
Proof.
  induction xs as [|x xs IH]; [rewrite app_nil_l, be_dec_nil; lia|].
  rewrite <- app_comm_cons, !be_dec_cons, IH, length_app, Nat2Z.inj_add.
  rewrite Z.pow_add_r by lia. lia.
Qed.

Lemma be_dec_range bs : 0 <= be_dec bs < 256 ^ Z.of_nat (length bs).
Proof.
  induction bs as [|b bs IH]; [cbn; lia|].
  rewrite be_dec_cons. cbn [length]. pose proof (b2z_range b).
  rewrite Nat2Z.inj_succ, Z.pow_succ_r by lia. nia.
Qed.

Lemma be_dec_enc n z : be_dec (be_enc n z) = z mod 256 ^ Z.of_nat n.
Proof.
  induction n as [|n IH]; [by rewrite Z.mod_1_r|].
  cbn [be_enc]. rewrite be_dec_cons, length_be_enc, IH, b2z_z2b.
  rewrite Nat2Z.inj_succ, Z.pow_succ_r by lia.
  rewrite (Z.mul_comm 256), Z.rem_mul_r by lia. lia.
Qed.

Lemma be_dec_enc_small n z : 0 <= z < 256 ^ Z.of_nat n -> be_dec (be_enc n z) = z.
Proof. intros. by rewrite be_dec_enc, Z.mod_small. Qed.

Lemma be_dec_inj xs ys : length xs = length ys -> be_dec xs = be_dec ys -> xs = ys.
Proof.
  revert ys. induction xs as [|x xs IH]; intros [|y ys] Hl; try done.
  rewrite !be_dec_cons. injection Hl as Hl. rewrite Hl. intros H.
  pose proof (be_dec_range xs). pose proof (be_dec_range ys). rewrite Hl in *.
  assert (b2z x = b2z y) by nia.
  f_equal; [by apply b2z_inj | apply IH; [done|nia]].
Qed.

Lemma be_enc_dec bs n : length bs = n -> be_enc n (be_dec bs) = bs.
Proof.
  intros <-. apply be_dec_inj; [apply length_be_enc|].
  rewrite be_dec_enc. apply Z.mod_small, be_dec_range.
Qed.

Lemma be_enc_inj n a b :
  0 <= a < 256 ^ Z.of_nat n -> 0 <= b < 256 ^ Z.of_nat n ->
  be_enc n a = be_enc n b -> a = b.
Proof. intros ?? H. by rewrite <- (be_dec_enc_small n a), H, be_dec_enc_small. Qed.

Lemma be_enc_mod n z : be_enc n (z mod 256 ^ Z.of_nat n) = be_enc n z.
Proof.
  apply be_dec_inj; [by rewrite !length_be_enc|].
  by rewrite !be_dec_enc, Zmod_mod.
Qed.

(** ** Readers

    A [bytes.Reader] is the unread suffix of its slice. *)

(** [io.ReadFull(r, buf)] with its error returned. *)
Definition read_full (n : nat) (r : bytes) : result (bytes * bytes) :=
  if (length r <? n)%nat then Err (if decide (r = []) then "EOF" else "unexpected EOF")
  else Ok (take n r, drop n r).

(** [io.ReadFull(r, buf)] with its error dropped: a short read leaves the rest
    of the zeroed buffer alone. *)
Definition read_into (n : nat) (r : bytes) : bytes * bytes :=
  (resize n Byte.x00 r, drop n r).

(** [binary.Read(r, binary.BigEndian, &v)] into a zero [v], error dropped. *)
Definition read_uint (n : nat) (r : bytes) : Z * bytes :=
  if (length r <? n)%nat then (0, []) else (be_dec (take n r), drop n r).

Lemma read_full_app n xs r : length xs = n -> read_full n (xs ++ r) = Ok (xs, r).
Proof.
  intros <-. unfold read_full. rewrite length_app.
  destruct (Nat.ltb_spec (length xs + length r) (length xs)); [lia|].
  by rewrite take_app_length, drop_app_length.
Qed.

Lemma read_full_Ok n r xs r' :
  read_full n r = Ok (xs, r') <-> r = xs ++ r' /\ length xs = n.
Proof.
  split; [|intros [-> ?]; by apply read_full_app].
  unfold read_full. destruct (Nat.ltb_spec (length r) n); [done|].
  intros [= <- <-]. rewrite take_drop, length_take. split; [done|lia].
Qed.

Lemma read_into_app n xs r : length xs = n -> read_into n (xs ++ r) = (xs, r).
Proof.
  intros <-. unfold read_into. rewrite drop_app_length.
  by rewrite resize_app_le, resize_all by lia.
Qed.

Lemma read_uint_app n z r :
  0 <= z < 256 ^ Z.of_nat n -> read_uint n (be_enc n z ++ r) = (z, r).
Proof.
  intros Hz. unfold read_uint. rewrite length_app, length_be_enc.
  destruct (Nat.ltb_spec (n + length r) n); [lia|].
  rewrite take_app_length', drop_app_length' by (by rewrite length_be_enc).
  by rewrite be_dec_enc_small.
Qed.

Lemma read_into_split n r :
  (n <= length r)%nat -> r = (read_into n r).1 ++ (read_into n r).2 /\
  length (read_into n r).1 = n.
Proof.
  intros H. unfold read_into; cbn. rewrite length_resize. split; [|done].
  by rewrite resize_le, take_drop by lia.
Qed.

Lemma read_uint_split n r :
  (n <= length r)%nat ->
  r = be_enc n (read_uint n r).1 ++ (read_uint n r).2 /\
  0 <= (read_uint n r).1 < 256 ^ Z.of_nat n.
Proof.
  intros H. unfold read_uint. destruct (Nat.ltb_spec (length r) n); [lia|]. cbn.
  rewrite be_enc_dec by (rewrite length_take; lia).
  rewrite take_drop. split; [done|].
  pose proof (be_dec_range (take n r)) as Hr. rewrite length_take in Hr.
  by replace (n `min` length r)%nat with n in Hr by lia.
Qed.

(** ** Hexadecimal *)

Definition hex_digit (n : Z) : ascii :=
  default "0"%char (String.get (Z.to_nat n) "0123456789abcdef").

Definition hex_value (c : ascii) : option Z :=
  let n := Z.of_N (Ascii.N_of_ascii c) in
  if (48 <=? n) && (n <=? 57) then Some (n - 48)
  else if (97 <=? n) && (n <=? 102) then Some (n - 87)
  else if (65 <=? n) && (n <=? 70) then Some (n - 55)
  else None.

(** [hex.EncodeToString] *)
Fixpoint hex_encode (bs : bytes) : string :=
  match bs with
  | [] => ""
  | b :: bs => String (hex_digit (b2z b / 16)) (String (hex_digit (b2z b mod 16)) (hex_encode bs))
  end.

(** [hex.DecodeString]: both letter cases are accepted. *)
Fixpoint hex_decode (s : string) : result bytes :=
  match s with
  | EmptyString => Ok []
  | String c EmptyString =>
      match hex_value c with
      | None => Err "encoding/hex: invalid byte"
      | Some _ => Err "encoding/hex: odd length hex string"
      end
  | String c (String d s) =>
      match hex_value c, hex_value d with
      | Some x, Some y => bs ← hex_decode s; Ok (z2b (16 * x + y) :: bs)
      | _, _ => Err "encoding/hex: invalid byte"
      end
  end.

Lemma hex_value_digit n : 0 <= n < 16 -> hex_value (hex_digit n) = Some n.
Proof.
  intros Hn.
  assert (n ∈ seqZ 0 16) as Hin by (apply elem_of_seqZ; lia).
  revert Hin. generalize n. apply Forall_forall. vm_compute.
  repeat constructor.
Qed.

Lemma hex_decode_encode bs : hex_decode (hex_encode bs) = Ok bs.
Proof.
  induction bs as [|b bs IH]; [done|]. cbn [hex_encode hex_decode].
  pose proof (b2z_range b).
  rewrite !hex_value_digit by zlia.
  rewrite IH. cbn. rewrite <- Z.div_mod by lia. by rewrite z2b_b2z.
Qed.

Lemma hex_encode_inj bs bs' : hex_encode bs = hex_encode bs' -> bs = bs'.
Proof.
  intros H. apply (f_equal hex_decode) in H. rewrite !hex_decode_encode in H.
  by injection H.
Qed.

(** [decodeIssue] and [ParseDigest] share this body: exactly the lowercase
    encoding of [n] bytes is accepted. *)
Definition hex_canonical (n : nat) (e : error) (s : string) : result bytes :=
  match hex_decode s with
  | Ok b => if (length b =? n)%nat && String.eqb (hex_encode b) s then Ok b else Err e
  | Err _ => Err e
  end.

Lemma hex_canonical_Ok n e s b :
  hex_canonical n e s = Ok b <-> s = hex_encode b /\ length b = n.
Proof.
  unfold hex_canonical. split.
  - destruct (hex_decode s) as [b'|] eqn:E; [|done].
    destruct (Nat.eqb_spec (length b') n), (String.eqb_spec (hex_encode b') s); cbn;
      try done. intros [= <-]. done.
  - intros [-> <-]. rewrite hex_decode_encode, Nat.eqb_refl, String.eqb_refl. done.
Qed.
