(* ===== verification/Sha256.v ===== *)
(** * SHA-256

    Go's [crypto/sha256] ([sha256.Sum256]), as FIPS 180-4 specifies it: 32-bit
    words are integers below [2^32], the message is padded to 64-byte blocks
    and each block is absorbed by 64 rounds over a sliding message schedule.
    The backend's member handles, seeds, challenges, ring digests, envelope
    digests and artifact digests are all computed with it. *)

From S2P Require Import Prelude Bytes.
From Stdlib Require Import Strings.Byte.

Module Sha256.

Definition w32 (z : Z) : Z := Z.land z 0xffffffff.
Definition add32 (a b : Z) : Z := w32 (a + b).
Definition rotr (n x : Z) : Z := Z.lor (Z.shiftr x n) (w32 (Z.shiftl x (32 - n))).

Definition big_sigma0 x := Z.lxor (rotr 2 x) (Z.lxor (rotr 13 x) (rotr 22 x)).
Definition big_sigma1 x := Z.lxor (rotr 6 x) (Z.lxor (rotr 11 x) (rotr 25 x)).
Definition small_sigma0 x := Z.lxor (rotr 7 x) (Z.lxor (rotr 18 x) (Z.shiftr x 3)).
Definition small_sigma1 x := Z.lxor (rotr 17 x) (Z.lxor (rotr 19 x) (Z.shiftr x 10)).
Definition ch x y z := Z.lxor (Z.land x y) (Z.land (Z.lxor x 0xffffffff) z).
Definition maj x y z := Z.lxor (Z.land x y) (Z.lxor (Z.land x z) (Z.land y z)).

(** The constants are the first 32 bits of the fractional parts of the cube
    roots (round constants) and square roots (initial state) of the first
    primes. *)
Definition is_prime (n : Z) : bool := forallb (fun d => negb (n mod d =? 0)) (seqZ 2 (n - 2)).
Definition small_primes : list Z := Eval vm_compute in List.filter is_prime (seqZ 2 310).

Fixpoint cube_root (bits : nat) (x n : Z) : Z :=
  match bits with
  | O => x
  | S bits => let y := x + 2 ^ Z.of_nat bits in
              cube_root bits (if y * y * y <=? n then y else x) n
  end.

Definition round_constants : list Z :=
  Eval vm_compute in (fun p => w32 (cube_root 36 0 (p * 2 ^ 96))) <$> small_primes.

Definition state : Type := Z * Z * Z * Z * Z * Z * Z * Z.

Definition root_bits (p : Z) : Z := w32 (Z.sqrt (p * 2 ^ 64)).
Definition initial : state :=
  Eval vm_compute in
  (root_bits 2, root_bits 3, root_bits 5, root_bits 7,
   root_bits 11, root_bits 13, root_bits 17, root_bits 19).

Definition round (k w : Z) (st : state) : state :=
  let '(a, b, c, d, e, f, g, h) := st in
  let t1 := w32 (h + big_sigma1 e + ch e f g + k + w) in
  let t2 := add32 (big_sigma0 a) (maj a b c) in
  (add32 t1 t2, a, b, c, add32 d t1, e, f, g).

(** One round per constant; the schedule window holds [w_t .. w_{t+15}]. *)
Fixpoint rounds (ks : list Z) (window : list Z) (st : state) : state :=
  match ks, window with
  | k :: ks, w :: ws =>
      let next := w32 (small_sigma1 (ws !!! 13%nat) + ws !!! 8%nat
                       + small_sigma0 (ws !!! 0%nat) + w) in
      rounds ks (ws ++ [next]) (round k w st)
  | _, _ => st
  end.

Definition absorb (st : state) (block : list Z) : state :=
  let '(a, b, c, d, e, f, g, h) := st in
  let '(a', b', c', d', e', f', g', h') := rounds round_constants block st in
  (add32 a a', add32 b b', add32 c c', add32 d d',
   add32 e e', add32 f f', add32 g g', add32 h h').

Definition pad (m : bytes) : bytes :=
  m ++ [x80] ++ replicate (Z.to_nat ((55 - Z.of_nat (length m)) mod 64)) x00
    ++ be_enc 8 (8 * Z.of_nat (length m)).

(** The next [n] big-endian words of a byte string. *)
Fixpoint words (n : nat) (m : bytes) : list Z :=
  match n with
  | O => []
  | S n => be_dec (take 4 m) :: words n (drop 4 m)
  end.

Fixpoint absorb_blocks (n : nat) (m : bytes) (st : state) : state :=
  match n with
  | O => st
  | S n => absorb_blocks n (drop 64 m) (absorb st (words 16 m))
  end.

Definition output (st : state) : bytes :=
  let '(a, b, c, d, e, f, g, h) := st in
  be_enc 4 a ++ be_enc 4 b ++ be_enc 4 c ++ be_enc 4 d
  ++ be_enc 4 e ++ be_enc 4 f ++ be_enc 4 g ++ be_enc 4 h.

(** [sha256.Sum256] *)
Definition Sum256 (m : bytes) : bytes :=
  let p := pad m in
  output (absorb_blocks (length p / 64) p initial).

Lemma length_Sum256 m : length (Sum256 m) = 32%nat.
Proof.
  unfold Sum256, output. destruct (absorb_blocks _ _ _) as [[[[[[[]]]]]]].
  by rewrite !length_app, !length_be_enc.
Qed.

(** The padded message is a whole number of blocks. *)
Lemma length_pad m : (Z.of_nat (length (pad m))) mod 64 = 0.
Proof.
  unfold pad. rewrite !length_app, length_replicate, length_be_enc. cbn [length].
  rewrite !Nat2Z.inj_add, Z2Nat.id by (apply Z.mod_pos_bound; lia). zlia.
Qed.

(** FIPS 180-4 example values: the empty message, a one-block message, a
    two-block message. *)
Example Sum256_empty :
  hex_encode (Sum256 []) = "e3b0c44298fc1c149afbf4c8996fb92427ae41e4649b934ca495991b7852b855".
Proof. vm_compute. reflexivity. Qed.

Example Sum256_abc :
  hex_encode (Sum256 (String.list_byte_of_string "abc"))
  = "ba7816bf8f01cfea414140de5dae2223b00361a396177a9cb410ff61f20015ad".
Proof. vm_compute. reflexivity. Qed.

Example Sum256_two_blocks :
  hex_encode (Sum256 (String.list_byte_of_string "abcdbcdecdefdefgefghfghighijhijkijkljklmklmnlmnomnopnopq"))
  = "248d6a61d20638b8e5c026930c3e6039a33ce45964ff2167f6ecedd419db06c1".
Proof. vm_compute. reflexivity. Qed.

End Sha256.

Abbreviation sha256 := Sha256.Sum256.

(** [[]byte("...")] *)
Definition ascii_bytes (s : string) : bytes := String.list_byte_of_string s.

#[global] Arguments Sha256.Sum256 : simpl never.
#[global] Opaque Sha256.Sum256.
