(* ===== verification/Curve.v ===== *)
(** * Curves and pairing: the interface to gnark-crypto

    The backend computes in three groups of the third-party library
    gnark-crypto: [bn254.G1Affine] ([BN]), [bn254.G2Affine] ([BN2]) and
    [secp256k1.G1Affine] ([Secp]). The classes below declare the operations
    the Go sources call ([Group], [Coords], [Crypto]) and the documented
    behaviour the backend relies on ([GroupLaws], [CoordsLaws],
    [CryptoLaws]): valid points form a cyclic group of prime order, affine
    coordinates are canonical field elements, and [PairingCheck] decides
    whether the product of pairings is one. The laws are stated in exponent
    form, relative to the fixed generator. *)

From S2P Require Import Prelude Bytes.

(** ** One group *)

Class Group (P : Type) := {
  #[global] g_eq_dec :: EqDecision P;   (* Equal *)
  g_order : Z;                          (* fr.Modulus() *)
  g_inf : P;                            (* SetInfinity *)
  g_gen : P;                            (* Generators() *)
  g_add : P -> P -> P;                  (* Add *)
  g_sub : P -> P -> P;                  (* Sub *)
  g_neg : P -> P;                       (* Neg *)
  g_mul : Z -> P -> P;                  (* ScalarMultiplication *)
  g_on_curve : P -> bool;               (* IsOnCurve *)
  g_in_subgroup : P -> bool;            (* IsInSubGroup *)
}.
#[global] Arguments g_order P {_}.
#[global] Arguments g_gen P {_}.
#[global] Arguments g_inf P {_}.

(** [IsInfinity] *)
Definition g_is_inf {P} `{!Group P} (p : P) : bool := bool_decide (p = g_inf P).

(** The generator's multiple by a residue: every valid point is one. *)
Definition g_pow (P : Type) `{!Group P} (a : Z) : P := g_mul (a mod g_order P) (g_gen P).

#[global] Arguments g_pow : simpl never.

Class GroupLaws (P : Type) `{!Group P} : Prop := {
  order_prime : Z.prime (g_order P);
  order_lower : 2 ^ 33 < g_order P;
  order_upper : g_order P < 2 ^ 256;
  valid_pow p : g_on_curve p = true -> g_in_subgroup p = true -> exists a, p = g_pow P a;
  pow_on_curve a : g_on_curve (g_pow P a) = true;
  pow_in_subgroup a : g_in_subgroup (g_pow P a) = true;
  pow_inj a b : g_pow P a = g_pow P b -> a ≡[g_order P] b;
  pow_0 : g_pow P 0 = g_inf P;
  pow_1 : g_pow P 1 = g_gen P;
  add_pow a b : g_add (g_pow P a) (g_pow P b) = g_pow P (a + b);
  sub_pow a b : g_sub (g_pow P a) (g_pow P b) = g_pow P (a - b);
  neg_pow a : g_neg (g_pow P a) = g_pow P (- a);
  mul_pow k a : 0 <= k -> g_mul k (g_pow P a) = g_pow P (k * a);
}.


(** Affine coordinates as canonical integers ([fp.Element] values). *)
Class Coords (P : Type) := {
  c_mod : Z;                 (* fp.Modulus() *)
  c_x : P -> Z;
  c_y : P -> Z;
  c_mk : Z -> Z -> P;        (* G1Affine{X: x, Y: y} *)
}.
#[global] Arguments c_mod P {_}.

Class CoordsLaws (P : Type) `{!Coords P} : Prop := {
  c_mod_upper : c_mod P < 2 ^ 256;
  c_x_range p : 0 <= c_x p < c_mod P;
  c_y_range p : 0 <= c_y p < c_mod P;
  c_mk_xy p : c_mk (c_x p) (c_y p) = p;
  c_x_mk x y : 0 <= x < c_mod P -> 0 <= y < c_mod P -> c_x (c_mk x y) = x;
  c_y_mk x y : 0 <= x < c_mod P -> 0 <= y < c_mod P -> c_y (c_mk x y) = y;
}.

(** ** The three groups together *)

Class Crypto := {
  BN : Type;
  BN2 : Type;
  Secp : Type;
  #[global] bn_group :: Group BN;
  #[global] bn2_group :: Group BN2;
  #[global] secp_group :: Group Secp;
  #[global] bn_coords :: Coords BN;
  #[global] secp_coords :: Coords Secp;
  bn_pairing_check : list BN -> list BN2 -> result bool;   (* bn254.PairingCheck *)
  bn_hash_to_g1 : bytes -> bytes -> result BN;             (* bn254.HashToG1 *)
  secp_hash_to_g1 : bytes -> bytes -> result Secp;         (* secp256k1.HashToG1 *)
}.

(** The product of the pairings [e([a_i]g, [b_i]h)] is [e(g, h)] to the sum of
    the [a_i b_i]. *)
Definition pairing_exponent (xs : list (Z * Z)) : Z :=
  foldr (fun ab acc => ab.1 * ab.2 + acc) 0 xs.

Class CryptoLaws `{!Crypto} : Prop := {
  #[global] bn_group_laws :: GroupLaws BN;
  #[global] bn2_group_laws :: GroupLaws BN2;
  #[global] secp_group_laws :: GroupLaws Secp;
  #[global] bn_coords_laws :: CoordsLaws BN;
  #[global] secp_coords_laws :: CoordsLaws Secp;
  bn2_order : g_order BN2 = g_order BN;
  (* infinity is encoded as (0, 0) *)
  bn_inf_x : c_x (g_inf BN) = 0;
  bn_inf_y : c_y (g_inf BN) = 0;
  secp_inf_x : c_x (g_inf Secp) = 0;
  secp_inf_y : c_y (g_inf Secp) = 0;
  (* secp256k1 has cofactor one *)
  secp_cofactor (p : Secp) : g_on_curve p = true -> g_in_subgroup p = true;
  pairing_check_pow (xs : list (Z * Z)) : xs <> [] ->
    bn_pairing_check (g_pow BN ∘ fst <$> xs) (g_pow BN2 ∘ snd <$> xs)
    = Ok (bool_decide (pairing_exponent xs ≡[g_order BN] 0));
}.

(** ** Consequences of the group laws *)

(** [goodBN], [goodBN2] and [goodSecp] are this predicate at the three types. *)
Definition good {P} `{!Group P} (p : P) : bool :=
  negb (g_is_inf p) && g_on_curve p && g_in_subgroup p.

Section group.
Context {P : Type} `{GP : !Group P, GL : !GroupLaws P}.
Abbreviation n := (g_order P).
Implicit Types p q : P.

Lemma order_pos : 0 < n.
Proof using Type*. pose proof (order_lower (P:=P)). lia. Qed.

#[global] Instance g_pow_proper : Proper (cong n ==> eq) (g_pow P).
Proof using Type*. intros a b H. unfold g_pow. unfold cong in H. by rewrite H. Qed.

Lemma pow_eq a b : g_pow P a = g_pow P b <-> a ≡[n] b.
Proof using Type*. split; [apply pow_inj | by intros ->]. Qed.

Lemma pow_inf a : g_pow P a = g_inf P <-> a ≡[n] 0.
Proof using Type*. by rewrite <- pow_0, pow_eq. Qed.

Lemma mul_gen k : 0 <= k -> g_mul k (g_gen P) = g_pow P k.
Proof using Type*. intros Hk. rewrite <- pow_1, mul_pow by done. by rewrite Z.mul_1_r. Qed.

Lemma good_pow a : good (g_pow P a) = true <-> ~ a ≡[n] 0.
Proof using Type*.
  unfold good, g_is_inf. rewrite pow_on_curve, pow_in_subgroup, !andb_true_r.
  rewrite negb_true_iff, bool_decide_eq_false. by rewrite pow_inf.
Qed.

Lemma good_exists p : good p = true -> exists a, p = g_pow P a /\ 0 < a < n.
Proof using Type*.
  intros Hg. assert (exists a, p = g_pow P a) as [a ->].
  { unfold good in Hg. apply andb_true_iff in Hg as [[_ ?]%andb_true_iff ?].
    by apply valid_pow. }
  exists (a mod n). rewrite good_pow, cong_0_mod in Hg.
  pose proof (Z.mod_pos_bound a n order_pos).
  split; [|lia]. by rewrite cong_mod.
Qed.

Lemma inf_pow : g_inf P = g_pow P 0.
Proof using Type*. by rewrite pow_0. Qed.

Lemma gen_pow : g_gen P = g_pow P 1.
Proof using Type*. by rewrite pow_1. Qed.

Lemma good_gen : good (g_gen P) = true.
Proof using Type*. rewrite gen_pow, good_pow. apply cong_1_0, order_prime. Qed.

Lemma good_mul k p : 0 <= k -> ~ k ≡[n] 0 -> good p = true -> good (g_mul k p) = true.
Proof using Type*.
  intros ? Hk [a [-> Ha]]%good_exists. rewrite mul_pow by done.
  rewrite good_pow, cong_mul_0 by apply order_prime.
  apply cong_scalar_nonzero in Ha. tauto.
Qed.
End group.

(** Push group expressions into exponent form, then compare exponents. *)
Create Rewrite HintDb pow.
#[export] Hint Rewrite @inf_pow @gen_pow using typeclasses eauto : pow.
#[export] Hint Rewrite @add_pow @sub_pow @neg_pow using typeclasses eauto : pow.

Ltac exps :=
  repeat match goal with
  | H : good ?p = true |- _ =>
      let a := fresh "e" in let Ha := fresh "He" in
      apply good_exists in H as (a & ? & Ha); first [subst p | idtac]
  end.
