(* ===== verification/Toy.v ===== *)
(** * A concrete instance of the curve interface

    The witnesses of the development evaluate the model on concrete inputs.
    They instantiate [Crypto] with additive groups of prime order: a point is
    a pair of residues, the diagonal is the curve, [[a]g] is [(a, a)] and the
    pairing multiplies exponents. The two orders are distinct primes above
    [2^33], as the two scalar fields of the backend are. The instance proves
    that the laws assumed of gnark-crypto are consistent. *)

From S2P Require Import Prelude Bytes Sha256 Curve.

(** ** Primality by trial division *)

(** No divisor of the form [d + 6 i] or [d + 6 i + 2] up to the square root. *)
Fixpoint no_divisor (fuel : nat) (d p : Z) : bool :=
  match fuel with
  | O => false
  | S fuel => if p <? d * d then true
              else if (p mod d =? 0) || (p mod (d + 2) =? 0) then false
              else no_divisor fuel (d + 6) p
  end.

Lemma no_divisor_sound fuel d p :
  2 <= d -> no_divisor fuel d p = true ->
  forall i e, 0 <= i -> e = d + 6 * i \/ e = d + 6 * i + 2 -> e * e <= p -> p mod e <> 0.
Proof.
  revert d. induction fuel as [|fuel IH]; intros d Hd; cbn; [done|].
  destruct (Z.ltb_spec p (d * d)); [intros _ i e ???; nia|].
  destruct (Z.eqb_spec (p mod d) 0), (Z.eqb_spec (p mod (d + 2)) 0); try done.
  cbn. intros H' i e Hi He Hp.
  destruct (decide (i = 0)) as [->|].
  - destruct He as [->| ->]; [by rewrite Z.add_0_r|].
    by replace (d + 6 * 0 + 2) with (d + 2) by lia.
  - apply (IH (d + 6) ltac:(lia) H' (i - 1) e); [lia| |done]. lia.
Qed.

Lemma divides_mod d p e : d <> 0 -> e mod d = 0 -> e <> 0 -> p mod e = 0 -> p mod d = 0.
Proof.
  intros Hd He He0 Hp. apply Z.mod_divide in He; [|done]. apply Z.mod_divide in Hp; [|done].
  apply Z.mod_divide; [done|]. by transitivity e.
Qed.

Lemma trial_prime fuel p :
  1 < p -> p mod 2 <> 0 -> p mod 3 <> 0 -> no_divisor fuel 5 p = true -> Z.prime p.
Proof.
  intros Hp H2 H3 H.
  assert (forall e, 1 < e -> e * e <= p -> p mod e <> 0) as Hnd.
  { intros e He Hep E.
    destruct (decide (e mod 2 = 0)); [by apply H2, (divides_mod 2 p e); lia|].
    destruct (decide (e mod 3 = 0)); [by apply H3, (divides_mod 3 p e); lia|].
    apply (no_divisor_sound fuel 5 p ltac:(lia) H ((e - 5) / 6) e); [zlia|zlia|done|done]. }
  split; [done|]. intros n Hn [k Hk].
  assert (0 < k) by nia.
  destruct (Z.le_gt_cases (n * n) p).
  - apply (Hnd n); [lia|done|]. rewrite Hk. apply Z.mod_mul. lia.
  - apply (Hnd k); [nia|nia|]. rewrite Hk, Z.mul_comm. apply Z.mod_mul. lia.
Qed.

(** ** The group of residues *)

Record toy (q : positive) := Toy {
  tx : Z;
  ty : Z;
  t_ok : Is_true ((0 <=? tx) && (tx <? Zpos q) && (0 <=? ty) && (ty <? Zpos q));
}.
Arguments Toy {q}.
Arguments tx {q}.
Arguments ty {q}.
Arguments t_ok {q}.

Section toy.
Context (q : positive).
Implicit Types a b : toy q.

Lemma toy_range a : 0 <= tx a < Zpos q /\ 0 <= ty a < Zpos q.
Proof. destruct a as [x y H]. cbn. apply Is_true_true in H. bool_prop. lia. Qed.

Lemma toy_eq a b : tx a = tx b -> ty a = ty b -> a = b.
Proof. destruct a, b. cbn. intros -> ->. f_equal. apply proof_irrel. Qed.

#[global] Instance toy_eq_dec : EqDecision (toy q).
Proof.
  intros a b. destruct (decide (tx a = tx b)); [|right; congruence].
  destruct (decide (ty a = ty b)); [|right; congruence].
  left. by apply toy_eq.
Defined.

Lemma toy_mk_ok x y :
  Is_true ((0 <=? x mod Zpos q) && (x mod Zpos q <? Zpos q)
           && (0 <=? y mod Zpos q) && (y mod Zpos q <? Zpos q)).
Proof.
  pose proof (Z.mod_pos_bound x (Zpos q) eq_refl).
  pose proof (Z.mod_pos_bound y (Zpos q) eq_refl).
  apply Is_true_true. rewrite !andb_true_iff, !Z.leb_le, !Z.ltb_lt. lia.
Qed.

Definition toy_mk (x y : Z) : toy q := Toy (x mod Zpos q) (y mod Zpos q) (toy_mk_ok x y).
Definition toy_pt (z : Z) : toy q := toy_mk z z.

#[global] Instance toy_group : Group (toy q) := {|
  g_eq_dec := toy_eq_dec;
  g_order := Zpos q;
  g_inf := toy_pt 0;
  g_gen := toy_pt 1;
  g_add a b := toy_mk (tx a + tx b) (ty a + ty b);
  g_sub a b := toy_mk (tx a - tx b) (ty a - ty b);
  g_neg a := toy_mk (- tx a) (- ty a);
  g_mul k a := toy_mk (k * tx a) (k * ty a);
  g_on_curve a := tx a =? ty a;
  g_in_subgroup _ := true;
|}.

#[global] Instance toy_coords : Coords (toy q) := {|
  c_mod := Zpos q; c_x := tx; c_y := ty; c_mk := toy_mk;
|}.

Lemma toy_pow z : g_pow (toy q) z = toy_pt z.
Proof.
  unfold g_pow. apply toy_eq; cbn; by rewrite Zmult_mod_idemp_r, Z.mul_1_r, Zmod_mod.
Qed.

Lemma toy_coords_laws : Zpos q < 2 ^ 256 -> CoordsLaws (toy q).
Proof.
  intros Hq. split; cbn; [done|apply toy_range|apply toy_range| | |].
  - intros p. pose proof (toy_range p).
    apply toy_eq; cbn; rewrite Z.mod_small; lia.
  - intros x y ??. by rewrite Z.mod_small.
  - intros x y ??. by rewrite Z.mod_small.
Qed.

Lemma toy_group_laws :
  Z.prime (Zpos q) -> 2 ^ 33 < Zpos q -> Zpos q < 2 ^ 256 -> GroupLaws (toy q).
Proof.
  intros Hp Hl Hu.
  split; try done; intros *; rewrite ?toy_pow; try done.
  - intros E _. cbn in E. apply Z.eqb_eq in E. exists (tx p).
    pose proof (toy_range p). rewrite toy_pow.
    apply toy_eq; cbn; rewrite Z.mod_small; lia.
  - cbn. apply Z.eqb_refl.
  - intros H. injection H as H. exact H.
  - apply toy_eq; cbn; by rewrite <- Zplus_mod.
  - apply toy_eq; cbn; by rewrite <- Zminus_mod.
  - apply toy_eq; cbn; by rewrite <- Z.sub_0_l, Zminus_mod_idemp_r, Z.sub_0_l.
  - intros _. apply toy_eq; cbn; by rewrite Zmult_mod_idemp_r.
Qed.

Definition toy_hash (msg dst : bytes) : result (toy q) :=
  Ok (toy_pt (1 + be_dec (sha256 (dst ++ msg)) mod (Zpos q - 1))).
End toy.

Definition toy_bn_order : positive := 8589934609.
Definition toy_secp_order : positive := 8589934621.

Definition toy_pairing (xs ys : list (toy toy_bn_order)) : result bool :=
  Ok (bool_decide (pairing_exponent (zip (tx <$> xs) (tx <$> ys)) ≡[Zpos toy_bn_order] 0)).

#[export] Instance toy_crypto : Crypto := {|
  BN := toy toy_bn_order;
  BN2 := toy toy_bn_order;
  Secp := toy toy_secp_order;
  bn_pairing_check := toy_pairing;
  bn_hash_to_g1 := toy_hash toy_bn_order;
  secp_hash_to_g1 := toy_hash toy_secp_order;
|}.

Lemma toy_bn_prime : Z.prime (Zpos toy_bn_order).
Proof. by apply (trial_prime (Z.to_nat 16000)); vm_compute. Qed.

Lemma toy_secp_prime : Z.prime (Zpos toy_secp_order).
Proof. by apply (trial_prime (Z.to_nat 16000)); vm_compute. Qed.

Lemma toy_pairing_exponent (xs : list (Z * Z)) :
  pairing_exponent (zip (tx <$> (g_pow (toy toy_bn_order) ∘ fst <$> xs))
                        (tx <$> (g_pow (toy toy_bn_order) ∘ snd <$> xs)))
  ≡[Zpos toy_bn_order] pairing_exponent xs.
Proof.
  induction xs as [|[a b] xs IH]; [done|].
  rewrite !fmap_cons. cbn [zip_with pairing_exponent foldr compose fst snd].
  rewrite !toy_pow.
  change (pairing_exponent ?l) with (foldr (fun ab acc => ab.1 * ab.2 + acc) 0 l) in IH.
  rewrite IH. change (tx (toy_pt _ ?z)) with (z mod Zpos toy_bn_order).
  by rewrite !cong_mod.
Qed.

#[export] Instance toy_crypto_laws : CryptoLaws.
Proof.
  split.
  - exact (toy_group_laws _ toy_bn_prime eq_refl eq_refl).
  - exact (toy_group_laws _ toy_bn_prime eq_refl eq_refl).
  - exact (toy_group_laws _ toy_secp_prime eq_refl eq_refl).
  - apply toy_coords_laws. reflexivity.
  - apply toy_coords_laws. reflexivity.
  - reflexivity.
  - reflexivity.
  - reflexivity.
  - reflexivity.
  - reflexivity.
  - done.
  - intros xs _. cbn -[pairing_exponent]. unfold toy_pairing. f_equal.
    apply bool_decide_ext. by rewrite toy_pairing_exponent.
Qed.
