(* ===== verification/Profile.v ===== *)
(** * The host profile ([nativeproof/profile.go])

    Public q-SDH parameters and their validation, accounts and member
    handles, the accumulator with its membership witnesses, the statement a
    signature proves, and immutable ring snapshots. A [*big.Int] that may be
    nil is an [option Z]; [int], [uint32] and [uint64] values are integers in
    their range; a [[32]byte] is a list of 32 bytes. Cloning is the identity
    on values: the model has no aliasing to protect against. *)

From S2P Require Import Prelude Bytes Sha256 Curve.
From Stdlib Require Import Strings.Byte.

Section defs.
Context `{CR : !Crypto}.

Definition MemberDomain := "lktrs/member/v1".
Definition ChallengeDomain := "lktrs/challenge/v1".
Definition RingDomain := "lktrs/ring/v1".
Definition NymDST := "LKTRS-BN254-NYM-V1".
Definition IssueDST := "LKTRS-SECP256K1-ISSUE-V1".

Record Params := mkParams {
  p_G : BN;
  p_H : BN2;
  p_HTau : BN2;
  p_Powers : list BN;
}.

Record Account := mkAccount {
  a_U : Secp;
  a_Y : Secp;
  a_D : option Z;
}.

Record Statement := mkStatement {
  st_V : BN;
  st_Nym : BN;
  st_S : Secp;
  st_T : Secp;
  st_Issue : bytes;
  st_RingDigest : bytes;
  st_MessageDigest : bytes;
  st_Timestamp : Z;
  st_K : Z;
  st_R : option Z;
}.

Record SecretWitness := mkSecretWitness {
  w_X : option Z;
  w_D : option Z;
  w_Account : Account;
  w_W : BN;
  w_Counter : Z;
}.

(** ** Scalars *)

Definition canonicalNonzero (n : option Z) (modulus : Z) : bool :=
  match n with
  | None => false
  | Some n => (0 <? n) && (n <? modulus)
  end.

(** [rand.Int(rand.Reader, upper)] is the argument [rand] at [upper]. *)
Definition randomNonzero (rand : Z -> result Z) (modulus : Z) : result Z :=
  n ← rand (modulus - 1);
  Ok (n + 1).

(** ** q-SDH parameters *)

Fixpoint setup_powers (n : nat) (tau power : Z) : list BN :=
  match n with
  | O => []
  | S n => g_mul power (g_gen BN) :: setup_powers n tau ((power * tau) mod g_order BN)
  end.

Definition Setup (rand : Z -> result Z) (capacity : Z) : result Params :=
  _ ← fail_if ((capacity <? 1) || (2 ^ 16 <? capacity)) "setup capacity must be in [1,65536]";
  tau ← wrap "setup randomness" (randomNonzero rand (g_order BN));
  Ok {| p_G := g_gen BN; p_H := g_gen BN2;
        p_HTau := g_mul tau (g_gen BN2);
        p_Powers := setup_powers (Z.to_nat (capacity + 1)) tau 1 |}.

Definition goodBN (p : BN) : bool := good p.
Definition goodBN2 (p : BN2) : bool := good p.
Definition goodSecp (p : Secp) : bool := good p.

(** The loop over [p.Powers]: [prev] is [p.Powers[i-1]], absent at [i = 0]. *)
Fixpoint validate_powers (p : Params) (i : nat) (prev : option BN) (ps : list BN) : result unit :=
  match ps with
  | [] => Ok tt
  | q :: ps =>
      _ ← fail_if (negb (goodBN q)) ("invalid powers point " +:+ pretty i);
      _ ← match prev with
          | None => Ok tt
          | Some r =>
              match bn_pairing_check [q; g_neg r] [p_H p; p_HTau p] with
              | Ok true => Ok tt
              | _ => Err ("inconsistent powers at " +:+ pretty i)
              end
          end;
      validate_powers p (S i) (Some q) ps
  end.

Definition ValidateParams (p : Params) : result unit :=
  let n := Z.of_nat (length (p_Powers p)) in
  _ ← fail_if ((n <? 2) || (2 ^ 16 + 1 <? n)) "invalid powers length";
  _ ← fail_if (negb (goodBN (p_G p)) || negb (goodBN2 (p_H p)) || negb (goodBN2 (p_HTau p)))
        "invalid setup point";
  _ ← fail_if (negb (bool_decide (p_G p = g_gen BN)) || negb (bool_decide (p_H p = g_gen BN2))
               || negb (bool_decide (head (p_Powers p) = Some (p_G p))))
        "unexpected setup generators";
  validate_powers p 0 None (p_Powers p).

(** ** Hashing to scalars and point encodings *)

Definition HashScalar (data : bytes) (modulus : option Z) : result Z :=
  match modulus with
  | None => Err "invalid scalar modulus"
  | Some m =>
      _ ← fail_if (m <? 2) "invalid scalar modulus";
      let n := be_dec (sha256 data) mod m in
      _ ← fail_if (n =? 0) "hash reduced to zero";
      Ok n
  end.

Definition EncodeBNPoint (p : BN) : bytes := be_enc 32 (c_x p) ++ be_enc 32 (c_y p).
Definition EncodeSecpPoint (p : Secp) : bytes := be_enc 32 (c_x p) ++ be_enc 32 (c_y p).

Definition Seeds (x : option Z) (issue : bytes) : result (Z * Z) :=
  _ ← fail_if (negb (canonicalNonzero x (g_order Secp))) "x is not a canonical nonzero secp scalar";
  x ← deref x;
  s ← HashScalar (be_enc 32 x ++ issue ++ [x00]) (Some (g_order Secp));
  t ← HashScalar (be_enc 32 x ++ issue ++ [x01]) (Some (g_order Secp));
  Ok (s, t).

Definition Bases : result (list BN) :=
  mapM (fun label =>
    p ← bn_hash_to_g1 (ascii_bytes label) (ascii_bytes NymDST);
    _ ← fail_if (negb (goodBN p)) "hash-derived nym base is invalid";
    Ok p) ["g0"; "g1"; "g2"].

Definition IssueBase (issue : bytes) : result Secp :=
  p ← secp_hash_to_g1 issue (ascii_bytes IssueDST);
  _ ← fail_if (negb (goodSecp p)) "invalid issue base";
  Ok p.

Definition TraceKey (x : option Z) : result Secp :=
  _ ← fail_if (negb (canonicalNonzero x (g_order Secp))) "invalid user secret";
  x ← deref x;
  Ok (g_mul x (g_gen Secp)).

(** ** Accounts *)

Definition validateAccount (a : Account) : result unit :=
  _ ← fail_if (negb (goodSecp (a_U a)) || negb (goodSecp (a_Y a)))
        "account contains invalid or identity point";
  match a_D a with
  | None => Ok tt
  | Some d =>
      _ ← fail_if (negb (canonicalNonzero (Some d) (g_order Secp))) "invalid public account d";
      fail_if (negb (bool_decide (g_mul d (g_gen Secp) = a_U a))) "account U does not match d"
  end.

Definition NewAccount (x d : option Z) : result Account :=
  _ ← fail_if (negb (canonicalNonzero x (g_order Secp)) || negb (canonicalNonzero d (g_order Secp)))
        "account scalars must be canonical nonzero secp scalars";
  x ← deref x;
  d ← deref d;
  let u := g_mul d (g_gen Secp) in
  let a := {| a_U := u; a_Y := g_mul x u; a_D := Some d |} in
  _ ← validateAccount a;
  Ok a.

(** The two draws of [crypto/rand] are the arguments [randx] and [randd]. *)
Definition KeyGen (randx randd : Z -> result Z) (existingX : option Z) : result (Account * Z) :=
  x ← match existingX with
      | None => randomNonzero randx (g_order Secp)
      | Some x =>
          _ ← fail_if (negb (canonicalNonzero existingX (g_order Secp))) "invalid existing user secret";
          Ok x
      end;
  d ← randomNonzero randd (g_order Secp);
  a ← NewAccount (Some x) (Some d);
  Ok (a, x).

Definition Member (a : Account) : result Z :=
  _ ← validateAccount a;
  HashScalar (ascii_bytes MemberDomain ++ EncodeSecpPoint (a_U a) ++ EncodeSecpPoint (a_Y a))
    (Some (g_order BN)).

(** The loop of [membersOf]: [seen] holds the handles met so far. *)
Fixpoint members_loop (i : nat) (seen : gset Z) (accounts : list Account) : result (list Z) :=
  match accounts with
  | [] => Ok []
  | a :: accounts =>
      member ← wrap ("account " +:+ pretty i) (Member a);
      _ ← fail_if (bool_decide (member ∈ seen)) "duplicate member handle";
      members ← members_loop (S i) ({[member]} ∪ seen) accounts;
      Ok (member :: members)
  end.

Definition membersOf (accounts : list Account) : result (list Z) :=
  let n := Z.of_nat (length accounts) in
  _ ← fail_if ((n =? 0) || (2 ^ 32 - 1 <? n)) "ring must be nonempty and fit uint32 count";
  members_loop 0 ∅ accounts.

Definition RingDigest (accounts : list Account) : result bytes :=
  _ ← membersOf accounts;
  Ok (sha256 (ascii_bytes RingDomain ++ be_enc 4 (Z.of_nat (length accounts))
              ++ concat ((fun a => EncodeSecpPoint (a_U a) ++ EncodeSecpPoint (a_Y a)) <$> accounts))).

Definition challenge_preimage (st : Statement) : bytes :=
  ascii_bytes ChallengeDomain ++ st_Issue st ++ st_RingDigest st ++ st_MessageDigest st
  ++ EncodeBNPoint (st_Nym st) ++ be_enc 8 (st_Timestamp st) ++ be_enc 4 (st_K st).

Definition Challenge (st : Statement) : result Z :=
  _ ← fail_if ((st_K st =? 0) || negb (goodBN (st_Nym st))) "invalid challenge k or nym";
  HashScalar (challenge_preimage st) (Some (g_order Secp)).

(** ** The accumulator *)

(** One iteration of the inner loop of [memberPolynomial]: coefficient [c] of
    degree [i] contributes to degrees [i] and [i+1] of [next]. *)
Definition poly_step (member : Z) (next : list Z) (ic : nat * Z) : list Z :=
  let '(i, c) := ic in
  let next := <[i := (next !!! i + c * member) mod g_order BN]> next in
  <[S i := (next !!! S i + c) mod g_order BN]> next.

Definition poly_mul (coefficients : list Z) (member : Z) : list Z :=
  foldl (poly_step member) (replicate (length coefficients + 1) 0)
        (zip (seq 0 (length coefficients)) coefficients).

(** Coefficients in ascending degree, in the scalar field of [BN]. *)
Definition memberPolynomial (members : list Z) : list Z := foldl poly_mul [1] members.

(** The sum over the coefficients; [Powers[i]] out of range panics. *)
Fixpoint combine_loop (sum : BN) (powers : list BN) (coefficients : list Z)
    {struct coefficients} : result BN :=
  match coefficients with
  | [] => Ok sum
  | c :: cs =>
      match powers with
      | [] => Err "index out of range"
      | q :: powers => combine_loop (g_add sum (g_mul c q)) powers cs
      end
  end.

Definition combinePowers (p : Params) (members : list Z) : result BN :=
  _ ← fail_if (length (p_Powers p) <=? length members)%nat "ring exceeds public powers capacity";
  sum ← combine_loop (g_inf BN) (p_Powers p) (memberPolynomial members);
  _ ← fail_if (negb (goodBN sum)) "accumulator polynomial has an identity result";
  Ok sum.

Definition Accumulate (p : Params) (accounts : list Account) : result BN :=
  _ ← ValidateParams p;
  if (length accounts =? 0)%nat then Ok (p_G p)
  else
    members ← membersOf accounts;
    combinePowers p members.

Definition MembershipWitness (p : Params) (accounts : list Account) (selectedIdx : Z) : result BN :=
  _ ← ValidateParams p;
  _ ← fail_if ((selectedIdx <? 0) || (Z.of_nat (length accounts) <=? selectedIdx))
        "selected index out of range";
  members ← membersOf accounts;
  _ ← fail_if (length (p_Powers p) <=? length members)%nat "ring exceeds capacity";
  let i := Z.to_nat selectedIdx in
  combinePowers p (take i members ++ drop (S i) members).

Definition VerifyMembership (p : Params) (v w : BN) (member : option Z) : bool :=
  if negb (canonicalNonzero member (g_order BN)) || negb (goodBN v) || negb (goodBN w)
     || negb (is_ok (ValidateParams p))
  then false
  else
    let hat := g_add (g_mul (default 0 member) (p_H p)) (p_HTau p) in
    if negb (goodBN2 hat) then false
    else
      match bn_pairing_check [w; g_neg v] [hat; p_H p] with
      | Ok ok => ok
      | Err _ => false
      end.

(** ** The signed statement *)

Definition make_nym (bases : list BN) (scalars : list Z) : BN :=
  foldl (fun nym bs => g_add nym (g_mul (bs.2 mod g_order BN) bs.1)) (g_inf BN) (zip bases scalars).

Definition MakeStatement (p : Params) (accounts : list Account) (selectedIdx : Z) (x d : option Z)
    (issue messageDigest : bytes) (timestamp k counter : Z) : result (Statement * SecretWitness) :=
  _ ← fail_if ((k =? 0) || (k <=? counter)) "counter must be in [0,k)";
  _ ← fail_if ((selectedIdx <? 0) || (Z.of_nat (length accounts) <=? selectedIdx))
        "selected index out of range";
  selected ← NewAccount x d;
  at_idx ← deref (accounts !! Z.to_nat selectedIdx);
  _ ← fail_if (negb (bool_decide (a_U selected = a_U at_idx)) || negb (bool_decide (a_Y selected = a_Y at_idx)))
        "secret does not match selected account";
  _ ← fail_if (match a_D at_idx with None => false | Some _ => negb (bool_decide (a_D at_idx = d)) end)
        "d differs from selected metadata";
  v ← Accumulate p accounts;
  w ← MembershipWitness p accounts selectedIdx;
  ring ← RingDigest accounts;
  '(s, t) ← Seeds x issue;
  bases ← Bases;
  x ← deref x;
  let nym := make_nym bases [s; t; x] in
  _ ← fail_if (negb (goodBN nym)) "identity nym";
  let st := {| st_V := v; st_Nym := nym; st_S := g_inf Secp; st_T := g_inf Secp;
               st_Issue := issue; st_RingDigest := ring; st_MessageDigest := messageDigest;
               st_Timestamp := timestamp; st_K := k; st_R := None |} in
  r ← Challenge st;
  ut ← IssueBase issue;
  let m := g_order Secp in
  let offset := counter + 1 in
  let ds := (s + offset) mod m in
  let dt := (t + offset) mod m in
  _ ← fail_if ((ds =? 0) || (dt =? 0)) "zero seed/counter denominator";
  let S := g_mul (modinv ds m) ut in
  let T := g_add (g_mul x (g_gen Secp)) (g_mul ((r * modinv dt m) mod m) ut) in
  _ ← fail_if (negb (goodSecp S) || negb (goodSecp T)) "identity S or T";
  Ok ({| st_V := v; st_Nym := nym; st_S := S; st_T := T;
         st_Issue := issue; st_RingDigest := ring; st_MessageDigest := messageDigest;
         st_Timestamp := timestamp; st_K := k; st_R := Some r |},
      {| w_X := Some x; w_D := d; w_Account := selected; w_W := w; w_Counter := counter |}).

(** ** Snapshots *)

Record Snapshot := mkSnapshot {
  sn_params : Params;
  sn_accounts : list Account;
  sn_value : BN;
}.

Definition NewSnapshot (p : Params) (accounts : list Account) : result Snapshot :=
  v ← Accumulate p accounts;
  Ok {| sn_params := p; sn_accounts := accounts; sn_value := v |}.

Definition Join (s : Snapshot) (a : Account) : result Snapshot :=
  NewSnapshot (sn_params s) (sn_accounts s ++ [a]).

(** The loop of [Exit]: the accounts kept, and whether the member was found. *)
Fixpoint exit_loop (member : Z) (accounts : list Account) : result (list Account * bool) :=
  match accounts with
  | [] => Ok ([], false)
  | a :: accounts =>
      m ← Member a;
      '(keep, found) ← exit_loop member accounts;
      if m =? member then Ok (keep, true) else Ok (a :: keep, found)
  end.

Definition Exit (s : Snapshot) (member : option Z) : result Snapshot :=
  _ ← fail_if (negb (canonicalNonzero member (g_order BN))) "invalid exit member";
  member ← deref member;
  '(keep, found) ← exit_loop member (sn_accounts s);
  _ ← fail_if (negb found) "exit member not found";
  NewSnapshot (sn_params s) keep.

(** [NewProfile] and [Profile.Snapshot] *)
Definition NewProfile (rand : Z -> result Z) (capacity : Z) : result Params := Setup rand capacity.
Definition ProfileSnapshot (p : Params) (accounts : list Account) : result Snapshot :=
  NewSnapshot p accounts.

End defs.
