(* ===== verification/Samples.v ===== *)
(** * Concrete inputs

    A small deployment over the residue groups of [Toy], used by the
    witnesses of the development: parameters of capacity 4, two accounts of
    one user, one account of another user, and an issue. *)

From S2P Require Import Prelude Bytes Sha256 Curve Toy Profile.
From Stdlib Require Import Strings.Byte.

(** A source of randomness that always draws [n]. *)
Definition fixed_rand (n : Z) : Z -> result Z := fun u => Ok (n mod u).

Lemma fixed_rand_in_range n u z : 0 < u -> fixed_rand n u = Ok z -> 0 <= z < u.
Proof. intros Hu [= <-]. by apply Z.mod_pos_bound. Qed.

Definition get_ok {A} (d : A) (r : result A) : A := match r with Ok a => a | Err _ => d end.

Lemma get_ok_eq {A} (d : A) r : is_ok r = true -> r = Ok (get_ok d r).
Proof. by destruct r. Qed.

Definition no_params : Params := mkParams (g_inf BN) (g_inf BN2) (g_inf BN2) [].
Definition no_account : Account := mkAccount (g_inf Secp) (g_inf Secp) None.

Definition sample_params : Params := get_ok no_params (Setup (fixed_rand 12345) 4).

Definition alice_x : Z := 778.
Definition bob_x : Z := 6.
Definition alice_up : Account := get_ok no_account (NewAccount (Some alice_x) (Some 889)).
Definition alice_est : Account := get_ok no_account (NewAccount (Some alice_x) (Some 1000)).
Definition bob_trib : Account := get_ok no_account (NewAccount (Some bob_x) (Some 7)).
Definition sample_ring : list Account := [alice_up; alice_est; bob_trib].
Definition sample_issue : bytes := replicate 32 x07.
Definition other_issue : bytes := replicate 32 x08.

Lemma sample_setup : Setup (fixed_rand 12345) 4 = Ok sample_params.
Proof. apply get_ok_eq. vm_compute. reflexivity. Qed.
