(* ===== verification/Accumulator.v ===== *)
(** * Correctness of the q-SDH parameters and the accumulator

    Theorems about [profile.go]: which parameters [ValidateParams] accepts,
    that [Setup] produces such parameters, what the accumulator and its
    membership witnesses are as group elements, that membership verification
    accepts exactly the algebraic relation, and how snapshots evolve. *)

From S2P Require Import Prelude Bytes Sha256 Curve Toy Profile Samples.
From Stdlib Require Import Permutation.

Section facts.
Context `{CR : !Crypto, CL : !CryptoLaws}.
Abbreviation r := (g_order BN).
Implicit Types p : Params.

(** ** Structured reference strings *)

(** [n] successive powers: exponents [a], [a tau], [a tau^2], ... *)
Fixpoint powers_from (n : nat) (tau a : Z) : list BN :=
  match n with
  | O => []
  | S n => g_pow BN a :: powers_from n tau (a * tau)
  end.

(** The parameters are those of the trapdoor [tau]. *)
Record srs p (tau : Z) : Prop := mk_srs {
  srs_tau : 0 < tau < r;
  srs_G : p_G p = g_gen BN;
  srs_H : p_H p = g_gen BN2;
  srs_HTau : p_HTau p = g_pow BN2 tau;
  srs_Powers : p_Powers p = powers_from (length (p_Powers p)) tau 1;
  srs_length : 2 <= Z.of_nat (length (p_Powers p)) <= 2 ^ 16 + 1;
}.

Lemma length_powers_from n tau a : length (powers_from n tau a) = n.
Proof. revert a. induction n; intros; cbn; auto. Qed.

Lemma powers_from_proper n tau a b : a ≡[r] b -> powers_from n tau a = powers_from n tau b.
Proof using Type*.
  revert a b. induction n as [|n IH]; intros a b H; [done|]. cbn. f_equal.
  - by rewrite H.
  - apply IH. by rewrite H.
Qed.

Lemma lookup_powers_from n tau a i :
  (i < n)%nat -> powers_from n tau a !! i = Some (g_pow BN (a * tau ^ Z.of_nat i)).
Proof.
  revert a i. induction n as [|n IH]; intros a i Hi; [lia|]. destruct i as [|i].
  - cbn. by rewrite Z.mul_1_r.
  - cbn. rewrite IH by lia. do 2 f_equal.
    rewrite <- Z.mul_assoc, <- Z.pow_succ_r by lia. do 2 f_equal. lia.
Qed.

Lemma bn2_pow_inj a b : g_pow BN2 a = g_pow BN2 b -> a ≡[r] b.
Proof using Type*. intros H%pow_inj. by rewrite bn2_order in H. Qed.

Lemma bn2_good_exists (q : BN2) : good q = true -> exists a, q = g_pow BN2 a /\ 0 < a < r.
Proof using Type*. intros (a & -> & H)%good_exists. rewrite bn2_order in H. eauto. Qed.

(** A check of two pairings with the second one inverted. *)
Lemma pairing_two a b c d :
  bn_pairing_check [g_pow BN a; g_neg (g_pow BN b)] [g_pow BN2 c; g_pow BN2 d]
  = Ok (bool_decide (a * c ≡[r] b * d)).
Proof using Type*.
  rewrite neg_pow. pose proof (pairing_check_pow [(a, c); (-b, d)]) as E.
  cbn in E. rewrite E by done. f_equal. apply bool_decide_ext.
  rewrite <- (cong_sub_0 _ (a * c)).
  by replace (a * c - b * d) with (a * c + (- b * d + 0)) by lia.
Qed.

Lemma srs_tau_unique p tau tau' : srs p tau -> srs p tau' -> tau ≡[r] tau'.
Proof using Type*.
  intros Hs Hs'. pose proof (srs_HTau _ _ Hs') as E. rewrite (srs_HTau _ _ Hs) in E.
  by apply bn2_pow_inj in E.
Qed.

Lemma validate_powers_spec p tau i a ps :
  p_H p = g_pow BN2 1 -> p_HTau p = g_pow BN2 tau -> ~ tau ≡[r] 0 -> ~ a ≡[r] 0 ->
  validate_powers p i (Some (g_pow BN a)) ps = Ok tt
  <-> ps = powers_from (length ps) tau (a * tau).
Proof using Type*.
  intros HH HT Htau. revert i a. induction ps as [|q ps IH]; intros i a Ha; [done|].
  assert (~ a * tau ≡[r] 0) as Hat.
  { rewrite cong_mul_0 by apply order_prime. tauto. }
  cbn [validate_powers length powers_from]. split.
  - intros E. go_inv E. apply negb_false_iff in Hc.
    apply good_exists in Hc as (e & -> & He). rewrite HH, HT, pairing_two, Z.mul_1_r in Hc0.
    case_bool_decide as Hs; [|done].
    assert (g_pow BN e = g_pow BN (a * tau)) as Eq by (by rewrite Hs).
    rewrite Eq in E. apply IH in E; [|done]. rewrite Eq. congruence.
  - intros [= -> E]. apply good_pow in Hat as Hg. unfold goodBN. rewrite Hg. cbn.
    rewrite HH, HT, pairing_two, Z.mul_1_r, bool_decide_true by done. cbn.
    apply IH; [|done]. by apply good_pow.
Qed.

Lemma good_HTau tau : 0 < tau < r -> good (g_pow BN2 tau) = true.
Proof using Type*.
  intros ?. apply good_pow, cong_scalar_nonzero. by rewrite bn2_order.
Qed.

Lemma ValidateParams_srs p : ValidateParams p = Ok tt <-> exists tau, srs p tau.
Proof using Type*.
  unfold ValidateParams, goodBN, goodBN2. split.
  - intros E. go_inv E. bool_prop.
    rename select (good (p_HTau p) = true) into HgT.
    apply bn2_good_exists in HgT as (tau & Ht & Htau).
    rename select (head _ = _) into Hhd. rename select (p_G p = _) into HG.
    rename select (p_H p = _) into HH.
    destruct (p_Powers p) as [|q ps] eqn:EP; [done|].
    injection Hhd as ->. cbn [validate_powers] in E. go_inv E. exists tau.
    rewrite HG, gen_pow in E.
    apply (validate_powers_spec _ tau) in E;
      [|by rewrite HH, gen_pow|done|by apply cong_scalar_nonzero|apply cong_1_0, order_prime].
    split; rewrite ?EP; [done..| |lia].
    cbn. rewrite HG, <- gen_pow. f_equal. by rewrite E at 1.
  - intros [tau [Htau HG HH HT HP HL]].
    destruct (Z.ltb_spec (Z.of_nat (length (p_Powers p))) 2); [lia|].
    destruct (Z.ltb_spec (2 ^ 16 + 1) (Z.of_nat (length (p_Powers p)))); [lia|]. cbn [orb fail_if].
    rewrite HG, HH, HT, !good_gen, good_HTau by done. cbn.
    rewrite !bool_decide_true by done.
    destruct (p_Powers p) as [|q ps] eqn:EP; [cbn in *; lia|].
    injection HP as Hq HP. rewrite Hq, pow_1. cbn.
    rewrite bool_decide_true by done. cbn. unfold goodBN. rewrite good_gen. cbn.
    rewrite gen_pow. apply (validate_powers_spec _ tau); [by rewrite HH, gen_pow|done| | |done].
    + by apply cong_scalar_nonzero.
    + apply cong_1_0, order_prime.
Qed.

(** ** Setup *)

(** What [rand.Int] documents: a value below the bound. *)
Definition rand_in_range (rand : Z -> result Z) : Prop :=
  forall u n, 0 < u -> rand u = Ok n -> 0 <= n < u.

Lemma randomNonzero_range rand m n :
  rand_in_range rand -> 1 < m -> randomNonzero rand m = Ok n -> 0 < n < m.
Proof.
  intros Hr Hm E. unfold randomNonzero in E. go_inv E. apply Hr in Hc; lia.
Qed.

Lemma setup_powers_from n tau a :
  0 <= a -> setup_powers n tau a = powers_from n tau a.
Proof using Type*.
  revert a. induction n as [|n IH]; intros a Ha; [done|]. cbn. f_equal.
  - by rewrite mul_gen.
  - rewrite IH by (apply Z.mod_pos_bound, order_pos). apply powers_from_proper, cong_mod.
Qed.

Lemma Setup_srs rand capacity p :
  rand_in_range rand -> Setup rand capacity = Ok p ->
  1 <= capacity <= 2 ^ 16 /\ Z.of_nat (length (p_Powers p)) = capacity + 1 /\
  exists tau, srs p tau.
Proof using Type*.
  intros Hr E. unfold Setup in E. go_inv E. bool_prop. subst p.
  apply randomNonzero_range in Hc0; [|done|apply prime_gt_1, order_prime]. cbn.
  rewrite setup_powers_from, length_powers_from, Z2Nat.id by lia.
  split; [lia|]. split; [done|]. exists a0.
  split; cbn; rewrite ?length_powers_from; try done; [|lia].
  rewrite mul_gen; [done|lia].
Qed.

(** ** The member polynomial *)

Definition poly_eval (cs : list Z) (t : Z) : Z := foldr (fun c acc => c + t * acc) 0 cs.

(** The product of [t + m] over the members. *)
Definition member_product (t : Z) (ms : list Z) : Z := foldr (fun m acc => (t + m) * acc) 1 ms.

(** The inner loop in streaming form: [acc] is the pending [next[i]]. *)
Fixpoint poly_stream (m acc : Z) (cs : list Z) : list Z :=
  match cs with
  | [] => [acc]
  | c :: cs => ((acc + c * m) mod r) :: poly_stream m (c mod r) cs
  end.

Lemma poly_loop_stream m pre acc cs :
  foldl (poly_step m) (pre ++ acc :: replicate (length cs) 0) (zip (seq (length pre) (length cs)) cs)
  = pre ++ poly_stream m acc cs.
Proof.
  revert pre acc. induction cs as [|c cs IH]; intros pre acc; [done|].
  cbn [length replicate seq zip_with foldl poly_stream].
  specialize (IH (pre ++ [(acc + c * m) mod r]) (c mod r)).
  rewrite length_app, Nat.add_1_r, <- !app_assoc in IH. cbn [app] in IH.
  rewrite <- IH. do 2 f_equal. unfold poly_step.
  rewrite lookup_total_middle, insert_middle by done.
  set (v := (acc + c * m) mod r).
  change (pre ++ v :: 0 :: ?k) with (pre ++ [v] ++ 0 :: k). rewrite app_assoc.
  rewrite lookup_total_middle, insert_middle by (rewrite length_app; cbn; lia).
  by rewrite <- app_assoc.
Qed.

Lemma poly_mul_stream cs m : poly_mul cs m = poly_stream m 0 cs.
Proof.
  unfold poly_mul. rewrite Nat.add_1_r. apply (poly_loop_stream m [] 0 cs).
Qed.

Lemma poly_stream_eval m acc cs t :
  poly_eval (poly_stream m acc cs) t ≡[r] acc + (t + m) * poly_eval cs t.
Proof using Type*.
  revert acc. induction cs as [|c cs IH]; intros acc; cbn; [apply cong_eq; lia|].
  change (foldr _ 0 (poly_stream m ?a cs)) with (poly_eval (poly_stream m a cs) t).
  rewrite IH, !cong_mod. apply cong_eq. unfold poly_eval. lia.
Qed.

Lemma poly_stream_length m acc cs : length (poly_stream m acc cs) = S (length cs).
Proof. revert acc. induction cs; intros; cbn; auto. Qed.

Lemma poly_stream_nonneg m acc cs :
  0 <= acc -> Forall (fun c => 0 <= c) (poly_stream m acc cs).
Proof using Type*.
  pose proof (order_pos (P:=BN)). revert acc. induction cs as [|c cs IH]; intros acc Ha; cbn; [by apply Forall_singleton|].
  constructor; [by apply Z.mod_pos_bound|]. apply IH. by apply Z.mod_pos_bound.
Qed.

Lemma memberPolynomial_snoc ms m :
  memberPolynomial (ms ++ [m]) = poly_stream m 0 (memberPolynomial ms).
Proof. unfold memberPolynomial. rewrite foldl_app. apply poly_mul_stream. Qed.

Lemma member_product_app t ms ms' :
  member_product t (ms ++ ms') = member_product t ms * member_product t ms'.
Proof. unfold member_product. induction ms as [|m ms IH]; cbn [app foldr]; [lia|]. rewrite IH. lia. Qed.

Lemma memberPolynomial_spec ms :
  length (memberPolynomial ms) = S (length ms) /\
  Forall (fun c => 0 <= c) (memberPolynomial ms) /\
  forall t, poly_eval (memberPolynomial ms) t ≡[r] member_product t ms.
Proof using Type*.
  induction ms as [|m ms IH] using rev_ind.
  - split; [done|]. split; [by apply Forall_singleton|]. intros t. apply cong_eq. cbn. lia.
  - destruct IH as (Hl & _ & He). rewrite memberPolynomial_snoc.
    rewrite poly_stream_length, length_app, Hl. split; [cbn; lia|].
    split; [by apply poly_stream_nonneg|]. intros t.
    rewrite poly_stream_eval, He, member_product_app. apply cong_eq. cbn. lia.
Qed.

#[local] Instance member_product_perm t : Proper ((≡ₚ) ==> eq) (member_product t).
Proof. intros l l' H. unfold member_product. apply (foldr_permutation _ _ _ _); [|done]. intros. cbn. lia. Qed.

(** ** The accumulator *)

Lemma combine_loop_spec n tau a s cs :
  Forall (fun c => 0 <= c) cs -> (length cs <= n)%nat ->
  combine_loop (g_pow BN s) (powers_from n tau a) cs = Ok (g_pow BN (s + a * poly_eval cs tau)).
Proof using Type*.
  revert n a s. induction cs as [|c cs IH]; intros n a s Hc Hn; cbn.
  - do 2 f_equal. lia.
  - destruct n as [|n]; [cbn in *; lia|]. cbn. inversion_clear Hc.
    rewrite mul_pow, add_pow, IH by (cbn in *; done || lia).
    do 2 f_equal. unfold poly_eval. lia.
Qed.

Lemma combinePowers_srs p tau ms v :
  srs p tau ->
  combinePowers p ms = Ok v <->
  (length ms < length (p_Powers p))%nat /\
  ~ member_product tau ms ≡[r] 0 /\ v = g_pow BN (member_product tau ms).
Proof using Type*.
  intros Hsrs. unfold combinePowers, goodBN.
  destruct (memberPolynomial_spec ms) as (Hl & Hn & He).
  assert ((length ms < length (p_Powers p))%nat ->
    combine_loop (g_inf BN) (p_Powers p) (memberPolynomial ms)
    = Ok (g_pow BN (member_product tau ms))) as E.
  { intros ?. rewrite (srs_Powers _ _ Hsrs), <- pow_0, combine_loop_spec by (done || lia).
    f_equal. rewrite Z.add_0_l, Z.mul_1_l. by rewrite He. }
  destruct (Nat.leb_spec (length (p_Powers p)) (length ms)); cbn [fail_if]; cbn.
  - split; [done|lia].
  - rewrite E by done. cbn. rewrite <- good_pow.
    destruct (good (g_pow BN (member_product tau ms))) eqn:Hg; cbn; naive_solver.
Qed.

(** ** Rings of accounts *)

(** The handles of a ring, in order and without duplicates. *)
Definition ring_members (accounts : list Account) (ms : list Z) : Prop :=
  Forall2 (fun a m => Member a = Ok m) accounts ms /\ NoDup ms.

Lemma members_loop_spec i seen accounts ms :
  members_loop i seen accounts = Ok ms <->
  ring_members accounts ms /\ Forall (fun m => m ∉ seen) ms.
Proof.
  unfold ring_members.
  revert i seen ms. induction accounts as [|a accounts IH]; intros i seen ms; cbn.
  - split; [intros [= <-]; repeat split; constructor|].
    intros [[H _] _]. by inversion H.
  - split.
    + intros E. go_inv E. apply IH in Hc1 as [[HF HN] Hs]. bool_prop. subst ms.
      rewrite Forall_forall in Hs. split; [split|].
      * by constructor.
      * constructor; [|done]. intros Hin. apply (Hs _ Hin). set_solver.
      * constructor; [done|]. apply Forall_forall. intros m Hm Hin. apply (Hs _ Hm). set_solver.
    + intros [[HF HN] Hs]. inversion HF as [|? m ? ms' Hm HF']; subst.
      inversion_clear HN. inversion_clear Hs. rewrite Hm. cbn.
      rewrite bool_decide_false by done. cbn.
      rewrite (proj2 (IH (S i) ({[m]} ∪ seen) ms')); [done|]. split; [done|].
      apply Forall_forall. intros m' Hm'. rewrite Forall_forall in *. set_solver.
Qed.

Lemma membersOf_spec accounts ms :
  membersOf accounts = Ok ms <->
  ring_members accounts ms /\ accounts <> [] /\ Z.of_nat (length accounts) <= 2 ^ 32 - 1.
Proof.
  unfold membersOf.
  destruct (Z.eqb_spec (Z.of_nat (length accounts)) 0) as [E|E].
  { cbn. split; [done|]. intros (_ & Hn & _). destruct accounts; [done|cbn in E; lia]. }
  destruct (Z.ltb_spec (2 ^ 32 - 1) (Z.of_nat (length accounts))); cbn [orb fail_if]; cbn.
  { split; [done|lia]. }
  rewrite members_loop_spec. split.
  - intros [? _]. split; [done|]. split; [|lia]. by intros ->.
  - intros (? & _). split; [done|]. apply Forall_forall. set_solver.
Qed.

Lemma ring_members_length accounts ms : ring_members accounts ms -> length accounts = length ms.
Proof. intros [H _]. by apply Forall2_length in H. Qed.

Lemma ring_members_det accounts ms ms' :
  ring_members accounts ms -> ring_members accounts ms' -> ms = ms'.
Proof.
  intros [H _] [H' _]. revert ms' H'. induction H; intros ms' H'; inversion H'; subst; [done|].
  f_equal; [congruence|auto].
Qed.

Lemma ring_members_perm accounts accounts' ms :
  accounts ≡ₚ accounts' -> ring_members accounts ms ->
  exists ms', ms ≡ₚ ms' /\ ring_members accounts' ms'.
Proof.
  intros HP [HF HN]. destruct (Permutation_Forall2 HP HF) as (ms' & Hp & HF').
  exists ms'. split; [done|]. split; [done|]. by rewrite <- Hp.
Qed.

(** The accumulator is the [G]-multiple by the product of [tau + m]. *)
Lemma Accumulate_Ok p accounts v :
  Accumulate p accounts = Ok v <->
  exists tau ms, srs p tau /\ ring_members accounts ms /\
    (length accounts < length (p_Powers p))%nat /\
    ~ member_product tau ms ≡[r] 0 /\ v = g_pow BN (member_product tau ms).
Proof using Type*.
  unfold Accumulate. split.
  - intros E. go_inv E. destruct a. apply ValidateParams_srs in Hc as [tau Hs].
    destruct accounts as [|a accounts].
    + cbn in E. injection E as <-. exists tau, []. split; [done|].
      split; [split; constructor|]. pose proof (srs_length _ _ Hs).
      cbn. split; [lia|]. split; [apply cong_1_0, order_prime|]. by rewrite (srs_G _ _ Hs), gen_pow.
    + cbn [length Nat.eqb] in E. go_inv E. apply membersOf_spec in Hc as (Hm & _ & _).
      apply (combinePowers_srs _ _ _ _ Hs) in E as (Hl & Hz & Hv).
      exists tau, a0. rewrite (ring_members_length _ _ Hm). done.
  - intros (tau & ms & Hs & Hm & Hl & Hz & Hv).
    rewrite (proj2 (ValidateParams_srs p)) by eauto. cbn.
    destruct accounts as [|a accounts]; cbn [length Nat.eqb].
    + destruct Hm as [Hm _]. inversion Hm; subst. cbn. by rewrite (srs_G _ _ Hs), gen_pow.
    + pose proof (srs_length _ _ Hs).
      rewrite (proj2 (membersOf_spec (a :: accounts) ms)) by (split; [done|split; [done|lia]]).
      cbn. apply (combinePowers_srs _ _ _ _ Hs).
      by rewrite <- (ring_members_length _ _ Hm).
Qed.

Lemma Accumulate_good p accounts v : Accumulate p accounts = Ok v -> good v = true.
Proof using Type*. intros (tau & ms & _ & _ & _ & Hz & ->)%Accumulate_Ok. by apply good_pow. Qed.

(** ** Membership *)

Lemma member_product_delete t ms i m :
  ms !! i = Some m ->
  member_product t ms = (t + m) * member_product t (take i ms ++ drop (S i) ms).
Proof.
  intros H. rewrite <- (take_drop_middle _ _ _ H) at 1.
  rewrite !member_product_app. cbn. unfold member_product. lia.
Qed.

Lemma ring_members_nonempty accounts ms i m :
  ring_members accounts ms -> ms !! i = Some m -> accounts <> [].
Proof. intros [H _] Hi ->. inversion H; by subst. Qed.

Lemma MembershipWitness_srs p accounts i w tau ms m :
  srs p tau -> ring_members accounts ms -> ms !! i = Some m ->
  (length accounts < length (p_Powers p))%nat ->
  MembershipWitness p accounts (Z.of_nat i) = Ok w <->
  ~ member_product tau (take i ms ++ drop (S i) ms) ≡[r] 0 /\
  w = g_pow BN (member_product tau (take i ms ++ drop (S i) ms)).
Proof using Type*.
  intros Hs Hm Hi Hl. unfold MembershipWitness.
  rewrite (proj2 (ValidateParams_srs p)) by eauto.
  pose proof (lookup_lt_Some _ _ _ Hi) as Hlt. pose proof (ring_members_length _ _ Hm) as Hlen.
  pose proof (srs_length _ _ Hs).
  destruct (Z.ltb_spec (Z.of_nat i) 0); [lia|].
  destruct (Z.leb_spec (Z.of_nat (length accounts)) (Z.of_nat i)); [lia|].
  rewrite (proj2 (membersOf_spec accounts ms))
    by (split; [done|split; [by eapply ring_members_nonempty|lia]]).
  cbn [orb fail_if mbind result_bind].
  destruct (Nat.leb_spec (length (p_Powers p)) (length ms)); [lia|]. cbn [fail_if mbind result_bind].
  rewrite Nat2Z.id, (combinePowers_srs _ tau) by done.
  rewrite length_app, length_take, length_drop. naive_solver lia.
Qed.

(** Membership verification is the q-SDH relation. *)
Lemma VerifyMembership_spec p v w m :
  VerifyMembership p v w (Some m) = true <->
  0 < m < r /\ good v = true /\ good w = true /\
  exists tau, srs p tau /\ ~ tau + m ≡[r] 0 /\ v = g_mul ((tau + m) mod r) w.
Proof using Type*.
  unfold VerifyMembership, goodBN, goodBN2, canonicalNonzero. change (default 0 (Some m)) with m.
  destruct (Z.ltb_spec 0 m), (Z.ltb_spec m r); cbn [andb negb orb]; try by (split; [done|lia]).
  destruct (good v) eqn:Hv; [|naive_solver]. destruct (good w) eqn:Hw; [|naive_solver].
  destruct (is_ok (ValidateParams p)) eqn:HV; cbn [negb orb]; last first.
  { split; [done|]. intros (_ & _ & _ & tau & Hs & _).
    rewrite (proj2 (ValidateParams_srs p)) in HV by eauto. done. }
  apply is_ok_exists in HV as [[] [tau Hs]%ValidateParams_srs].
  apply good_exists in Hv as (a & -> & Ha). apply good_exists in Hw as (b & -> & Hb).
  assert (g_add (g_mul m (p_H p)) (p_HTau p) = g_pow BN2 (tau + m)) as Ehat.
  { rewrite (srs_H _ _ Hs), (srs_HTau _ _ Hs), mul_gen, add_pow by lia. f_equal. lia. }
  rewrite Ehat, (srs_H _ _ Hs), gen_pow.
  assert (good (g_pow BN2 (tau + m)) = true <-> ~ tau + m ≡[r] 0) as Hhat
    by (by rewrite good_pow, bn2_order).
  rewrite pairing_two, Z.mul_1_r.
  assert (forall t, g_mul ((t + m) mod r) (g_pow BN b) = g_pow BN (b * (t + m))) as Emul.
  { intros t. rewrite mul_pow by (apply Z.mod_pos_bound, order_pos). by rewrite cong_mod, Z.mul_comm. }
  destruct (good (g_pow BN2 (tau + m))) eqn:Hg; cbn [negb].
  - rewrite bool_decide_eq_true. split.
    + intros E. repeat (split; [done|]). exists tau. split; [done|]. split; [by apply Hhat|].
      by rewrite <- E, Emul.
    + intros (_ & _ & _ & tau' & Hs' & _ & E). rewrite Emul in E. apply pow_inj in E.
      by rewrite E, (srs_tau_unique _ _ _ Hs Hs').
  - split; [done|]. intros (_ & _ & _ & tau' & Hs' & Hz & _). exfalso.
    rewrite <- (srs_tau_unique _ _ _ Hs Hs') in Hz. apply Hhat in Hz. congruence.
Qed.

Lemma HashScalar_range data m n : HashScalar data (Some m) = Ok n -> 0 < n < m.
Proof.
  unfold HashScalar. intros E. go_inv E. bool_prop. subst n.
  pose proof (Z.mod_pos_bound (be_dec (sha256 data)) m). lia.
Qed.

Lemma Member_range a m : Member a = Ok m -> 0 < m < r.
Proof. unfold Member. intros E. go_inv E. by apply HashScalar_range in E. Qed.

Lemma membership_honest p accounts v i a :
  Accumulate p accounts = Ok v -> accounts !! i = Some a ->
  exists w m, MembershipWitness p accounts (Z.of_nat i) = Ok w /\ Member a = Ok m /\
              VerifyMembership p v w (Some m) = true.
Proof using Type*.
  intros (tau & ms & Hs & Hm & Hl & Hz & ->)%Accumulate_Ok Hi.
  destruct (Forall2_lookup_l _ _ _ _ _ (proj1 Hm) Hi) as (m & Hmi & HM).
  rewrite (member_product_delete _ _ _ _ Hmi) in *.
  set (q := member_product tau (take i ms ++ drop (S i) ms)) in *.
  rewrite cong_mul_0 in Hz by apply order_prime.
  exists (g_pow BN q), m. split; [|split; [done|]].
  { apply (MembershipWitness_srs p accounts i _ tau ms m); tauto. }
  apply VerifyMembership_spec. split; [by apply Member_range in HM|].
  split; [apply good_pow; rewrite cong_mul_0 by apply order_prime; tauto|].
  split; [apply good_pow; tauto|]. exists tau. split; [done|]. split; [tauto|].
  rewrite mul_pow by (apply Z.mod_pos_bound, order_pos). by rewrite cong_mod.
Qed.

(** ** Snapshots *)

Lemma exit_loop_absent m accounts ms :
  Forall2 (fun a m => Member a = Ok m) accounts ms -> m ∉ ms ->
  exit_loop m accounts = Ok (accounts, false).
Proof.
  induction 1 as [|a m' accounts ms Hm _ IH]; intros Hn; [done|].
  apply not_elem_of_cons in Hn as [Hne Hn]. cbn. rewrite Hm. cbn. rewrite IH by done. cbn.
  destruct (Z.eqb_spec m' m); [congruence|done].
Qed.

Lemma exit_loop_present m l1 a l2 ms1 ms2 :
  Forall2 (fun a m => Member a = Ok m) l1 ms1 -> Forall2 (fun a m => Member a = Ok m) l2 ms2 ->
  Member a = Ok m -> m ∉ ms1 -> m ∉ ms2 ->
  exit_loop m (l1 ++ a :: l2) = Ok (l1 ++ l2, true).
Proof.
  intros H1 H2 Ha. induction H1 as [|b m' l1 ms1 Hm _ IH]; intros Hn1 Hn2; cbn.
  - rewrite Ha, (exit_loop_absent m l2 ms2) by done. cbn. by rewrite Z.eqb_refl.
  - apply not_elem_of_cons in Hn1 as [Hne Hn1]. rewrite Hm. cbn. rewrite IH by done. cbn.
    destruct (Z.eqb_spec m' m); [congruence|done].
Qed.

Lemma NewSnapshot_Ok p accounts s :
  NewSnapshot p accounts = Ok s <->
  exists v, Accumulate p accounts = Ok v /\ s = mkSnapshot p accounts v.
Proof.
  unfold NewSnapshot. destruct (Accumulate p accounts); cbn; [|naive_solver].
  split; [intros [= <-]; eauto | intros (v & [= ->] & ->); done].
Qed.

(** The handles of a ring around one of its accounts. *)
Lemma ring_members_middle l1 a l2 ms :
  ring_members (l1 ++ a :: l2) ms ->
  exists m ms1 ms2, ms = ms1 ++ m :: ms2 /\ Member a = Ok m /\
    Forall2 (fun a m => Member a = Ok m) l1 ms1 /\ Forall2 (fun a m => Member a = Ok m) l2 ms2 /\
    (m ∉ ms1) /\ (m ∉ ms2) /\ NoDup (ms1 ++ ms2).
Proof.
  intros [HF HN]. apply Forall2_app_inv_l in HF as (ms1 & ms2' & H1 & H2 & ->).
  inversion H2 as [|? m ? ms2 Hm H2']; subst. exists m, ms1, ms2.
  apply NoDup_app in HN as (HN1 & Hd & HN2). apply NoDup_cons in HN2 as [Hm2 HN2].
  repeat (split; [done|]). split; [intros Hin; apply (Hd m Hin); set_solver|].
  split; [done|]. apply NoDup_app. split; [done|]. split; [|done].
  intros x Hx Hx2. apply (Hd x Hx). set_solver.
Qed.

Lemma Exit_middle p l1 a l2 s m :
  NewSnapshot p (l1 ++ a :: l2) = Ok s -> Member a = Ok m ->
  exists s', Exit s (Some m) = Ok s' /\ NewSnapshot p (l1 ++ l2) = Ok s'.
Proof using Type*.
  intros (v & HA & ->)%NewSnapshot_Ok Hm.
  apply Accumulate_Ok in HA as (tau & ms & Hs & Hms & Hl & Hz & ->).
  apply ring_members_middle in Hms as (m' & ms1 & ms2 & -> & Hm' & H1 & H2 & Hn1 & Hn2 & HN).
  assert (m' = m) as -> by congruence.
  unfold Exit, canonicalNonzero; cbn.
  apply Member_range in Hm as Hr. destruct (Z.ltb_spec 0 m), (Z.ltb_spec m r); try lia. cbn.
  rewrite (exit_loop_present m l1 a l2 ms1 ms2) by done. cbn.
  assert (NewSnapshot p (l1 ++ l2)
          = Ok (mkSnapshot p (l1 ++ l2) (g_pow BN (member_product tau (ms1 ++ ms2))))) as E.
  { apply NewSnapshot_Ok. eexists. split; [|done]. apply Accumulate_Ok. exists tau, (ms1 ++ ms2).
    split; [done|]. split; [split; [by apply Forall2_app|done]|].
    split; [rewrite length_app in *; cbn in *; lia|]. split; [|done].
    intros Hz'. apply Hz. rewrite member_product_app in *. cbn.
    rewrite Z.mul_assoc, (Z.mul_comm _ (tau + m)), <- Z.mul_assoc.
    unfold member_product in *. rewrite Hz'. apply cong_eq. lia. }
  eauto.
Qed.

(** ** Theorems *)

(** The parameters [ValidateParams] accepts are exactly the structured
    reference strings: there is a trapdoor [tau], nonzero modulo the pairing
    order, with [HTau = [tau]H] and [Powers[i] = [tau^i]G] for 2 to 65,537
    powers over the fixed generators. *)
Theorem ValidateParams_characterised p :
  ValidateParams p = Ok tt <-> exists tau, srs p tau.
Proof using Type*. apply ValidateParams_srs. Qed.

(** With an in-range random source, [Setup] accepts exactly the
    capacities 1 to 65,536 and produces parameters that [ValidateParams]
    accepts, with one more power than the capacity. *)
Theorem Setup_valid rand capacity :
  rand_in_range rand -> is_ok (rand (r - 1)) = true ->
  match Setup rand capacity with
  | Ok p => 1 <= capacity <= 2 ^ 16 /\ ValidateParams p = Ok tt
            /\ Z.of_nat (length (p_Powers p)) = capacity + 1
  | Err _ => ~ 1 <= capacity <= 2 ^ 16
  end.
Proof using Type*.
  intros Hr [n Hn]%is_ok_exists. destruct (Setup rand capacity) as [p|e] eqn:E.
  - apply Setup_srs in E as (Hc & Hl & Hs); [|done]. split; [done|]. split; [|done].
    by apply ValidateParams_srs.
  - unfold Setup, randomNonzero in E. rewrite Hn in E.
    destruct (Z.ltb_spec capacity 1), (Z.ltb_spec (2 ^ 16) capacity); try lia. done.
Qed.

(** C39: [Accumulate] succeeds exactly when the parameters are well formed,
    every account has a handle, handles are distinct, the ring fits the
    powers and no factor [tau + m] vanishes; the value is then [G] multiplied
    by the product of [tau + m] over the ring's handles. *)
Theorem Accumulate_characterised p accounts v :
  Accumulate p accounts = Ok v <->
  exists tau ms, srs p tau /\ ring_members accounts ms /\
    (length accounts < length (p_Powers p))%nat /\
    ~ member_product tau ms ≡[r] 0 /\ v = g_pow BN (member_product tau ms).
Proof using Type*. apply Accumulate_Ok. Qed.

(** The accumulator value depends on the set of accounts, not on their
    order in the ring. *)
Theorem Accumulate_order_independent p accounts accounts' :
  accounts ≡ₚ accounts' ->
  forall v, Accumulate p accounts = Ok v -> Accumulate p accounts' = Ok v.
Proof using Type*.
  intros HP v (tau & ms & Hs & Hm & Hl & Hz & ->)%Accumulate_Ok.
  destruct (ring_members_perm _ _ _ HP Hm) as (ms' & Hp & Hm').
  apply Accumulate_Ok. exists tau, ms'. apply Permutation_length in HP. rewrite <- HP.
  rewrite <- (member_product_perm tau _ _ Hp). done.
Qed.

(** Completeness of membership. For every account of an accumulated
    ring, [MembershipWitness] succeeds and its witness passes
    [VerifyMembership] against the accumulator and the account's handle. *)
Theorem membership_complete p accounts v i a :
  Accumulate p accounts = Ok v -> accounts !! i = Some a ->
  exists w m, MembershipWitness p accounts (Z.of_nat i) = Ok w /\ Member a = Ok m /\
              VerifyMembership p v w (Some m) = true.
Proof using Type*. apply membership_honest. Qed.

(** Soundness of membership as an algebraic relation. [VerifyMembership]
    accepts exactly when the points are valid, the handle is canonical and
    [V = [tau + m]W] for the trapdoor [tau] of the parameters. *)
Theorem membership_relation p v w m :
  VerifyMembership p v w (Some m) = true <->
  0 < m < r /\ good v = true /\ good w = true /\
  exists tau, srs p tau /\ ~ tau + m ≡[r] 0 /\ v = g_mul ((tau + m) mod r) w.
Proof using Type*. apply VerifyMembership_spec. Qed.

(** [Exit] is the inverse of [Join]. Joining an account and exiting by
    its handle gives back the snapshot, accounts and value. *)
Theorem join_exit p accounts s a s' m :
  NewSnapshot p accounts = Ok s -> Join s a = Ok s' -> Member a = Ok m ->
  Exit s' (Some m) = Ok s.
Proof using Type*.
  intros Hs HJ Hm. unfold Join in HJ. apply NewSnapshot_Ok in Hs as Hs'.
  destruct Hs' as (v & _ & ->). cbn in HJ.
  destruct (Exit_middle p accounts a [] s' m HJ Hm) as (s'' & HE & HN).
  rewrite app_nil_r in HN. congruence.
Qed.

(** Exiting a member of any snapshot succeeds and removes exactly that
    account, keeping the order of the others. *)
Theorem exit_removes_member p l1 a l2 s m :
  NewSnapshot p (l1 ++ a :: l2) = Ok s -> Member a = Ok m ->
  exists s', Exit s (Some m) = Ok s' /\ NewSnapshot p (l1 ++ l2) = Ok s'
             /\ sn_accounts s' = l1 ++ l2.
Proof using Type*.
  intros Hs Hm. destruct (Exit_middle _ _ _ _ _ _ Hs Hm) as (s' & HE & HN).
  exists s'. split; [done|]. split; [done|].
  apply NewSnapshot_Ok in HN as (v & _ & ->). done.
Qed.
End facts.

(** ** Witnesses *)

Definition sample_handle (a : Account) : Z := get_ok 0 (Member a).

Lemma Setup_valid_witness :
  match Setup (fixed_rand 12345) 4 with
  | Ok p => 1 <= 4 <= 2 ^ 16 /\ ValidateParams p = Ok tt
            /\ Z.of_nat (length (p_Powers p)) = 4 + 1
  | Err _ => ~ 1 <= 4 <= 2 ^ 16
  end.
Proof. apply (Setup_valid (fixed_rand 12345) 4); [exact (fixed_rand_in_range 12345)|reflexivity]. Defined.

Lemma ValidateParams_characterised_witness : exists tau, srs sample_params tau.
Proof. apply (ValidateParams_characterised sample_params). vm_compute. reflexivity. Defined.

Lemma Accumulate_characterised_witness :
  exists tau ms, srs sample_params tau /\ ring_members sample_ring ms /\
    (length sample_ring < length (p_Powers sample_params))%nat /\
    ~ member_product tau ms ≡[g_order BN] 0 /\
    get_ok (g_inf BN) (Accumulate sample_params sample_ring) = g_pow BN (member_product tau ms).
Proof.
  refine (proj1 (Accumulate_characterised sample_params sample_ring _) (get_ok_eq _ _ _)).
  vm_compute. reflexivity.
Defined.

Lemma Accumulate_order_independent_witness :
  Accumulate sample_params (rev sample_ring)
  = Ok (get_ok (g_inf BN) (Accumulate sample_params sample_ring)).
Proof.
  apply (Accumulate_order_independent sample_params sample_ring);
    [apply Permutation_rev | apply get_ok_eq; vm_compute; reflexivity].
Defined.

Lemma membership_complete_witness :
  exists w m, MembershipWitness sample_params sample_ring 1 = Ok w /\ Member alice_est = Ok m /\
    VerifyMembership sample_params (get_ok (g_inf BN) (Accumulate sample_params sample_ring)) w (Some m)
    = true.
Proof.
  apply (membership_complete sample_params sample_ring _ 1);
    [apply get_ok_eq; vm_compute; reflexivity | reflexivity].
Defined.

Lemma membership_relation_witness :
  exists tau, srs sample_params tau /\ ~ tau + sample_handle bob_trib ≡[g_order BN] 0 /\
    get_ok (g_inf BN) (Accumulate sample_params sample_ring)
    = g_mul ((tau + sample_handle bob_trib) mod g_order BN)
            (get_ok (g_inf BN) (MembershipWitness sample_params sample_ring 2)).
Proof.
  refine (proj2 (proj2 (proj2 (proj1 (membership_relation sample_params _ _ _) _)))).
  vm_compute. reflexivity.
Defined.

Definition no_snapshot : Snapshot := mkSnapshot no_params [] (g_inf BN).
Definition sample_snapshot (l : list Account) : Snapshot :=
  get_ok no_snapshot (NewSnapshot sample_params l).

Lemma join_exit_witness :
  Exit (sample_snapshot sample_ring) (Some (sample_handle bob_trib))
  = Ok (sample_snapshot [alice_up; alice_est]).
Proof.
  apply (join_exit sample_params [alice_up; alice_est] _ bob_trib);
    apply get_ok_eq; vm_compute; reflexivity.
Defined.

Lemma exit_removes_member_witness :
  exists s', Exit (sample_snapshot sample_ring) (Some (sample_handle alice_est)) = Ok s' /\
    NewSnapshot sample_params ([alice_up] ++ [bob_trib]) = Ok s' /\
    sn_accounts s' = [alice_up] ++ [bob_trib].
Proof.
  apply (exit_removes_member sample_params [alice_up] alice_est [bob_trib]);
    apply get_ok_eq; vm_compute; reflexivity.
Defined.
