(* ===== verification/Circuit.v ===== *)
(** * The circuit and its assignments ([nativeproof/circuit.go], [witness.go])

    [Define] is run on assigned values: a gadget computes the value its
    wires carry, an assertion fails when the values violate it, so [Define c]
    is [Ok tt] exactly when the assignment [c] satisfies the compiled
    constraint system. Native variables are integers modulo the BN254 scalar
    order, emulated elements are their integer value, points are points of
    [Curve]. gnark's gadgets (emulated arithmetic, curve operations, SHA-256,
    pairing check, bit decompositions) stand for the functions they
    implement; the helpers of [circuit.go] that combine them are translated
    bit by bit. *)

From S2P Require Import Prelude Bytes Sha256 Curve Profile.
From Stdlib Require Import Strings.Byte.

(** ** Bits *)

(** [n] bits of a nonnegative integer, least significant first. *)
Fixpoint bits_of (n : nat) (z : Z) : list bool :=
  match n with
  | O => []
  | S n => Z.odd z :: bits_of n (z / 2)
  end.

(** [api.FromBinary] (and [emulated.Field.FromBits]) before reduction. *)
Fixpoint bits_value (bs : list bool) : Z :=
  match bs with
  | [] => 0
  | b :: bs => Z.b2z b + 2 * bits_value bs
  end.

Definition bit_length (m : Z) : nat := Z.to_nat (Z.log2 m + 1).

Section defs.
Context `{CR : !Crypto}.

Record CircuitPublic := mkCircuitPublic {
  c_V : BN;
  c_Nym : BN;
  c_H : BN2;
  c_HTau : BN2;
  c_Ut : Secp;
  c_SPoint : Secp;
  c_TPoint : Secp;
  c_Issue : bytes;
  c_RingDigest : bytes;
  c_MessageDigest : bytes;
  c_Timestamp : Z;
  c_K : Z;
  c_R : Z;
}.

Record CircuitSecret := mkCircuitSecret {
  c_X : Z;
  c_D : Z;
  c_AccountU : Secp;
  c_AccountY : Secp;
  c_W : BN;
  c_Counter : Z;
}.

Record Circuit := mkCircuit {
  c_public : CircuitPublic;
  c_secret : CircuitSecret;
}.

(** ** Assignments (witness.go) *)

Definition PublicAssignment (p : Params) (st : Statement) : result CircuitPublic :=
  match st_R st with
  | None => Err "missing challenge"
  | Some r =>
      ut ← IssueBase (st_Issue st);
      Ok {| c_V := st_V st; c_Nym := st_Nym st; c_H := p_H p; c_HTau := p_HTau p;
            c_Ut := ut; c_SPoint := st_S st; c_TPoint := st_T st;
            c_Issue := st_Issue st; c_RingDigest := st_RingDigest st;
            c_MessageDigest := st_MessageDigest st;
            c_Timestamp := st_Timestamp st; c_K := st_K st; c_R := r |}
  end.

Definition Assignment (p : Params) (st : Statement) (w : SecretWitness) : result Circuit :=
  match w_X w, w_D w with
  | Some x, Some d =>
      c ← PublicAssignment p st;
      Ok {| c_public := c;
            c_secret := {| c_X := x; c_D := d; c_AccountU := a_U (w_Account w);
                           c_AccountY := a_Y (w_Account w); c_W := w_W w;
                           c_Counter := w_Counter w |} |}
  | _, _ => Err "missing secret"
  end.

(** ** Gadgets *)

Abbreviation F := (g_order BN).      (* the native field: BN254 Fr *)
Abbreviation ell := (g_order Secp).  (* secp256k1 Fr *)

Definition unsatisfied : error := "constraint is not satisfied".
Definition assert (b : bool) : result unit := fail_if (negb b) unsatisfied.

(** [api.ToBinary(v, n)]: the value fits [n] bits. *)
Definition ToBinary (v : Z) (n : nat) : result (list bool) :=
  _ ← assert (v mod F <? 2 ^ Z.of_nat n);
  Ok (bits_of n (v mod F)).

(** [api.ToBinary(v)]: all bits of the canonical value. *)
Definition ToBinaryFull (v : Z) : list bool := bits_of (bit_length F) (v mod F).

Definition sha (data : bytes) : bytes := sha256 data.

(** Little-endian bits of the big-endian integer [data]. *)
Fixpoint bytesBits_loop (rev_data : bytes) : result (list bool) :=
  match rev_data with
  | [] => Ok []
  | b :: data =>
      bs ← ToBinary (b2z b) 8;
      rest ← bytesBits_loop data;
      Ok (bs ++ rest)
  end.
Definition bytesBits (data : bytes) : result (list bool) := bytesBits_loop (rev data).

(** [out[width-1-i] = FromBinary(padded[i*8 : (i+1)*8])] *)
Definition integerBytes (bs : list bool) (width : nat) : result bytes :=
  _ ← fail_if (8 * width <? length bs)%nat "integer exceeds encoding width";
  let padded := bs ++ replicate (8 * width - length bs) false in
  Ok ((fun j => let i := (width - 1 - j)%nat in
                z2b (bits_value (take 8 (drop (i * 8) padded)))) <$> seq 0 width).

(** [fieldBytes] over the emulated field of modulus [m]. *)
Definition fieldBytes (m value : Z) : result bytes :=
  _ ← assert ((0 <=? value) && (value <? m));
  integerBytes (bits_of (bit_length m) value) 32.

Fixpoint nativeValue_loop (out : Z) (data : bytes) : result Z :=
  match data with
  | [] => Ok out
  | b :: data =>
      _ ← ToBinary (b2z b) 8;
      nativeValue_loop ((out * 256 + b2z b) mod F) data
  end.
Definition nativeValue (data : bytes) : result Z := nativeValue_loop 0 data.

Definition secpValue (data : bytes) : result Z :=
  bs ← bytesBits data;
  Ok (bits_value bs mod ell).

Definition secpEncoding (p : Secp) : result bytes :=
  x ← fieldBytes (c_mod Secp) (c_x p);
  y ← fieldBytes (c_mod Secp) (c_y p);
  Ok (x ++ y).

Definition nonzeroPoint {P} `{!Coords P} (p : P) : result unit :=
  assert (negb ((c_x p =? 0) && (c_y p =? 0))).

(** [bfr.FromBits(api.ToBinary(v)...)]: a native value as a BN254 scalar. *)
Definition nativeScalar (v : Z) : Z := bits_value (ToBinaryFull v).

(** [HashToG1] of the three nym labels. *)
Definition circuitBases : result (list BN) :=
  mapM (fun label => bn_hash_to_g1 (ascii_bytes label) (ascii_bytes "LKTRS-BN254-NYM-V1"))
       ["g0"; "g1"; "g2"].

Definition assert_secp_point (p : Secp) : result unit :=
  _ ← assert (g_on_curve p);
  nonzeroPoint p.

Definition assert_g1_point (p : BN) : result unit :=
  _ ← assert (g_on_curve p && g_in_subgroup p);
  nonzeroPoint p.

Definition assert_g2_point (p : BN2) : result unit :=
  _ ← assert (g_on_curve p && g_in_subgroup p);
  assert (negb (g_is_inf p)).

(** [AssertIsInRange] followed by [AssertIsDifferent] from zero. *)
Definition assert_scalar (s : Z) : result unit :=
  _ ← assert ((0 <=? s) && (s <? ell));
  assert (negb (s mod ell =? 0)).

(** ** The circuit *)

Definition Define (c : Circuit) : result unit :=
  let u := c_public c in
  let w := c_secret c in
  _ ← assert_secp_point (c_Ut u);
  _ ← assert_secp_point (c_SPoint u);
  _ ← assert_secp_point (c_TPoint u);
  _ ← assert_secp_point (c_AccountU w);
  _ ← assert_secp_point (c_AccountY w);
  _ ← assert_g1_point (c_V u);
  _ ← assert_g1_point (c_W w);
  _ ← assert_g1_point (c_Nym u);
  _ ← assert_g2_point (c_H u);
  _ ← assert_g2_point (c_HTau u);
  _ ← assert_scalar (c_X w);
  _ ← assert_scalar (c_D w);
  _ ← assert_scalar (c_R u);
  cntBits ← ToBinary (c_Counter w) 32;
  _ ← ToBinary (c_K u) 32;
  _ ← assert (negb (c_K u mod F =? 0));
  _ ← ToBinary (c_K u - c_Counter w - 1) 32;
  let cnt := bits_value cntBits in
  (* seeds *)
  xbytes ← fieldBytes ell (c_X w);
  let seedMessage := xbytes ++ c_Issue u in
  let sh := sha (seedMessage ++ [x00]) in
  let th := sha (seedMessage ++ [x01]) in
  s ← secpValue sh;
  t ← secpValue th;
  _ ← assert (negb (s mod ell =? 0));
  _ ← assert (negb (t mod ell =? 0));
  (* nym *)
  xnat ← nativeValue xbytes;
  sbytes ← fieldBytes ell s;
  snat ← nativeValue sbytes;
  tbytes ← fieldBytes ell t;
  tnat ← nativeValue tbytes;
  g ← circuitBases;
  let xbn := nativeScalar xnat in
  let sbn := nativeScalar snat in
  let tbn := nativeScalar tnat in
  nym ← match g with
        | [g0; g1; g2] => Ok (g_add (g_add (g_mul sbn g0) (g_mul tbn g1)) (g_mul xbn g2))
        | _ => Err unsatisfied
        end;
  _ ← assert (bool_decide (nym = c_Nym u));
  (* account ownership and member handle *)
  _ ← assert (bool_decide (g_mul (c_D w) (g_gen Secp) = c_AccountU w));
  _ ← assert (bool_decide (g_mul (c_X w) (c_AccountU w) = c_AccountY w));
  ubytes ← secpEncoding (c_AccountU w);
  ybytes ← secpEncoding (c_AccountY w);
  let mh := sha (ascii_bytes "lktrs/member/v1" ++ ubytes ++ ybytes) in
  aNative ← nativeValue mh;
  _ ← assert (negb (aNative mod F =? 0));
  let a := nativeScalar aNative in
  (* q-SDH membership *)
  let aWminusV := g_add (g_mul a (c_W w)) (g_neg (c_V u)) in
  ok ← bn_pairing_check [aWminusV; c_W w] [c_H u; c_HTau u];
  _ ← assert ok;
  (* challenge *)
  nx ← fieldBytes (c_mod BN) (c_x (c_Nym u));
  ny ← fieldBytes (c_mod BN) (c_y (c_Nym u));
  tsBits ← ToBinary (c_Timestamp u) 64;
  ts ← integerBytes tsBits 8;
  kBits ← ToBinary (c_K u) 32;
  kb ← integerBytes kBits 4;
  let rh := sha (ascii_bytes "lktrs/challenge/v1" ++ c_Issue u ++ c_RingDigest u
                 ++ c_MessageDigest u ++ nx ++ ny ++ ts ++ kb) in
  r ← secpValue rh;
  _ ← assert (r mod ell =? c_R u mod ell);
  (* serial and trace tag *)
  let denS := (s + cnt + 1) mod ell in
  _ ← assert (negb (denS mod ell =? 0));
  _ ← assert (bool_decide (g_mul (modinv denS ell) (c_Ut u) = c_SPoint u));
  let denT := (t + cnt + 1) mod ell in
  _ ← assert (negb (denT mod ell =? 0));
  let tp := g_add (g_mul (c_X w) (g_gen Secp)) (g_mul ((r * modinv denT ell) mod ell) (c_Ut u)) in
  assert (bool_decide (tp = c_TPoint u)).

End defs.
