(* ===== verification/CircuitFacts.v ===== *)
(** * The circuit computes the host relation

    The gadget helpers of [circuit.go] produce the host encodings, the
    circuit is satisfied exactly by the relation the host code states, and
    the assignment of an honest statement satisfies it. *)

From S2P Require Import Prelude Bytes Sha256 Curve Toy Profile Samples Accumulator Circuit.
From Stdlib Require Import Strings.Byte.

(** ** Bit decompositions *)

Lemma length_bits_of n z : length (bits_of n z) = n.
Proof. revert z. induction n; intros; cbn; auto. Qed.

Lemma bits_value_of n z : bits_value (bits_of n z) = z mod 2 ^ Z.of_nat n.
Proof.
  revert z. induction n as [|n IH]; intros z; [by rewrite Z.mod_1_r|].
  cbn [bits_of bits_value]. rewrite IH, Nat2Z.inj_succ, Z.pow_succ_r by lia.
  rewrite Z.rem_mul_r, Zmod_odd by lia. by destruct (Z.odd z).
Qed.

Lemma bits_value_app xs ys : bits_value (xs ++ ys) = bits_value xs + 2 ^ Z.of_nat (length xs) * bits_value ys.
Proof.
  induction xs as [|b xs IH]; cbn [app bits_value length].
  - rewrite Z.pow_0_r. lia.
  - rewrite IH, Nat2Z.inj_succ, Z.pow_succ_r by lia. lia.
Qed.

Lemma drop_bits_of k n z : drop k (bits_of n z) = bits_of (n - k) (z / 2 ^ Z.of_nat k).
Proof.
  revert n z. induction k as [|k IH]; intros n z.
  - rewrite Nat.sub_0_r, Z.pow_0_r, Z.div_1_r. done.
  - destruct n as [|n]; [done|]. cbn [bits_of drop]. rewrite IH.
    rewrite Nat2Z.inj_succ, Z.pow_succ_r, <- Zdiv_Zdiv by lia. done.
Qed.

Lemma take_bits_of k n z : (k <= n)%nat -> take k (bits_of n z) = bits_of k z.
Proof.
  revert n z. induction k as [|k IH]; intros n z Hk; [done|].
  destruct n as [|n]; [lia|]. cbn. by rewrite IH by lia.
Qed.

Lemma bits_of_pad n m z :
  0 <= z < 2 ^ Z.of_nat n -> bits_of n z ++ replicate m false = bits_of (n + m) z.
Proof.
  revert z. induction n as [|n IH]; intros z Hz; cbn [bits_of app Nat.add].
  - assert (z = 0) as -> by (cbn in Hz; lia).
    clear. induction m as [|m IH]; [done|]. cbn. f_equal. exact IH.
  - rewrite IH; [done|]. rewrite Nat2Z.inj_succ, Z.pow_succ_r in Hz by lia. zlia.
Qed.

Lemma be_enc_seq n z :
  be_enc n z = (fun j => z2b (z / 256 ^ Z.of_nat (n - 1 - j))) <$> seq 0 n.
Proof.
  induction n as [|n IH]; [done|]. cbn [be_enc seq]. rewrite fmap_cons. f_equal.
  - do 3 f_equal. lia.
  - rewrite IH, <- fmap_S_seq, <- list_fmap_compose. apply list_fmap_ext.
    intros i j _. cbn. do 4 f_equal. lia.
Qed.

Lemma z2b_mod z : z2b (z mod 256) = z2b z.
Proof. unfold z2b. by rewrite Zmod_mod. Qed.

Section facts.
Context `{CR : !Crypto, CL : !CryptoLaws}.
Abbreviation F := (g_order BN).
Abbreviation ell := (g_order Secp).

(** ** Gadgets compute the host encodings *)

Lemma integerBytes_spec n v width :
  0 <= v < 2 ^ Z.of_nat n -> (n <= 8 * width)%nat ->
  integerBytes (bits_of n v) width = Ok (be_enc width v).
Proof.
  intros Hv Hn. unfold integerBytes. rewrite length_bits_of.
  destruct (Nat.ltb_spec (8 * width) n); [lia|]. cbn [fail_if mbind result_bind].
  f_equal. rewrite be_enc_seq, bits_of_pad by done.
  apply list_fmap_ext. intros i j Hj. apply lookup_seq in Hj as [-> Hj]. cbn [Nat.add].
  rewrite drop_bits_of, take_bits_of by lia. rewrite bits_value_of.
  change (2 ^ Z.of_nat 8) with 256. rewrite z2b_mod. do 2 f_equal.
  replace 256 with (2 ^ 8) by done. rewrite <- Z.pow_mul_r by lia. f_equal. lia.
Qed.

Lemma bit_length_spec m v : 0 <= v < m -> 0 <= v < 2 ^ Z.of_nat (bit_length m).
Proof.
  intros Hv. unfold bit_length. pose proof (Z.log2_nonneg m).
  rewrite Z2Nat.id by lia. pose proof (Z.log2_spec m ltac:(lia)).
  replace (Z.log2 m + 1) with (Z.succ (Z.log2 m)) by lia. lia.
Qed.

Lemma bit_length_256 m : 0 < m < 2 ^ 256 -> (bit_length m <= 256)%nat.
Proof.
  intros [Hm Hu]. unfold bit_length. apply Z.log2_lt_pow2 in Hu; lia.
Qed.

Lemma fieldBytes_Ok m v b :
  m < 2 ^ 256 -> fieldBytes m v = Ok b <-> 0 <= v < m /\ b = be_enc 32 v.
Proof.
  intros Hm. unfold fieldBytes, assert.
  destruct (Z.leb_spec 0 v), (Z.ltb_spec v m); cbn [andb negb fail_if mbind result_bind];
    try by (split; [done|lia]).
  rewrite integerBytes_spec; [naive_solver| |].
  - by apply bit_length_spec.
  - apply (bit_length_256 m). lia.
Qed.

Lemma byte_native b : b2z b mod F = b2z b.
Proof using CL.
  apply Z.mod_small. pose proof (b2z_range b). pose proof (order_lower (P:=BN)). lia.
Qed.

Lemma ToBinary_byte b : ToBinary (b2z b) 8 = Ok (bits_of 8 (b2z b)).
Proof using CL.
  unfold ToBinary, assert. rewrite byte_native. pose proof (b2z_range b).
  destruct (Z.ltb_spec (b2z b) (2 ^ Z.of_nat 8)); [done|cbn in *; lia].
Qed.

Lemma bytesBits_spec data : exists bs, bytesBits data = Ok bs /\ bits_value bs = be_dec data.
Proof using CL.
  unfold bytesBits. induction data as [|b data IH] using rev_ind.
  - by exists [].
  - rewrite rev_unit. destruct IH as (bs & E & Hbs). cbn. rewrite ToBinary_byte, E. cbn.
    eexists. split; [done|].
    change (bits_value (bits_of 8 (b2z b) ++ bs) = be_dec (data ++ [b])).
    rewrite bits_value_app, bits_value_of, length_bits_of, Hbs, be_dec_app, be_dec_cons, be_dec_nil.
    pose proof (b2z_range b). cbn [length].
    change (2 ^ Z.of_nat 8) with 256. rewrite Z.mod_small by lia. cbn. lia.
Qed.

Lemma secpValue_spec data : secpValue data = Ok (be_dec data mod ell).
Proof using CL.
  unfold secpValue. destruct (bytesBits_spec data) as (bs & -> & Hbs). cbn. by rewrite Hbs.
Qed.

Lemma nativeValue_loop_spec data out :
  out mod F = out -> nativeValue_loop out data = Ok (be_dec_acc out data mod F).
Proof using CL.
  revert out. induction data as [|b data IH]; intros out Ho; cbn.
  - by rewrite Ho.
  - rewrite ToBinary_byte. cbn. rewrite IH by apply Zmod_mod. f_equal.
    rewrite !be_dec_acc_spec. apply (cong_add F); [|done]. apply (cong_mul F); [apply cong_mod|done].
Qed.

Lemma nativeValue_spec data : nativeValue data = Ok (be_dec data mod F).
Proof using CL. apply nativeValue_loop_spec, Zmod_0_l. Qed.

Lemma nativeScalar_spec v : nativeScalar v = v mod F.
Proof using CL.
  unfold nativeScalar, ToBinaryFull. rewrite bits_value_of. apply Z.mod_small.
  apply bit_length_spec, Z.mod_pos_bound, order_pos.
Qed.

Lemma secpEncoding_spec p : secpEncoding p = Ok (EncodeSecpPoint p).
Proof using CL.
  unfold secpEncoding, EncodeSecpPoint.
  rewrite (proj2 (fieldBytes_Ok _ (c_x p) _ c_mod_upper)) by (split; [apply c_x_range|done]).
  cbn. rewrite (proj2 (fieldBytes_Ok _ (c_y p) _ c_mod_upper)) by (split; [apply c_y_range|done]).
  done.
Qed.

Lemma ToBinary_Ok v n bs :
  ToBinary v n = Ok bs <-> v mod F < 2 ^ Z.of_nat n /\ bs = bits_of n (v mod F).
Proof.
  unfold ToBinary, assert.
  destruct (Z.ltb_spec (v mod F) (2 ^ Z.of_nat n)); cbn [negb fail_if mbind result_bind];
    [naive_solver|]. split; [done|lia].
Qed.

(** A 32-bit counter below a 32-bit quota, without field wrap-around. *)
Lemma counter_range k c :
  0 <= c < F -> 0 <= k < F ->
  c mod F < 2 ^ 32 /\ k mod F < 2 ^ 32 /\ (k - c - 1) mod F < 2 ^ 32 <->
  c < k < 2 ^ 32.
Proof using CL.
  intros Hc Hk. pose proof (order_lower (P:=BN)).
  rewrite (Z.mod_small c), (Z.mod_small k) by lia.
  destruct (Z.le_gt_cases k c).
  - split; [|lia]. intros (? & ? & E).
    replace (k - c - 1) with (k - c - 1 + F + -1 * F) in E by lia.
    rewrite Z.mod_add in E by lia. rewrite Z.mod_small in E by lia. lia.
  - rewrite Z.mod_small by lia. lia.
Qed.

(** ** The relation *)

Lemma assert_Ok b u : assert b = Ok u <-> b = true.
Proof. unfold assert. rewrite fail_if_Ok. apply negb_false_iff. Qed.

Lemma nonzero_secp (p : Secp) : negb ((c_x p =? 0) && (c_y p =? 0)) = negb (g_is_inf p).
Proof using CL.
  f_equal. unfold g_is_inf. apply eq_true_iff_eq. rewrite bool_decide_eq_true, andb_true_iff, !Z.eqb_eq.
  split; [|intros ->; split; [apply secp_inf_x|apply secp_inf_y]].
  intros [Hx Hy]. rewrite <- (c_mk_xy p), Hx, Hy, <- (c_mk_xy (g_inf Secp)). by rewrite secp_inf_x, secp_inf_y.
Qed.

Lemma nonzero_bn (p : BN) : negb ((c_x p =? 0) && (c_y p =? 0)) = negb (g_is_inf p).
Proof using CL.
  f_equal. unfold g_is_inf. apply eq_true_iff_eq. rewrite bool_decide_eq_true, andb_true_iff, !Z.eqb_eq.
  split; [|intros ->; split; [apply bn_inf_x|apply bn_inf_y]].
  intros [Hx Hy]. rewrite <- (c_mk_xy p), Hx, Hy, <- (c_mk_xy (g_inf BN)). by rewrite bn_inf_x, bn_inf_y.
Qed.

(** Monadic steps of the circuit as conjunctions. *)
Section steps.
Context {A : Type} (x : A).

Lemma bind_assert b (k : unit -> result A) : assert b ≫= k = Ok x <-> b = true /\ k tt = Ok x.
Proof. destruct b; cbn; naive_solver. Qed.

Lemma bind_secp_point p (k : unit -> result A) :
  assert_secp_point p ≫= k = Ok x <-> good p = true /\ k tt = Ok x.
Proof using CL.
  unfold assert_secp_point, nonzeroPoint, good. rewrite nonzero_secp.
  pose proof (secp_cofactor p). destruct (g_is_inf p), (g_on_curve p), (g_in_subgroup p); cbn; naive_solver.
Qed.

Lemma bind_g1_point p (k : unit -> result A) :
  assert_g1_point p ≫= k = Ok x <-> good p = true /\ k tt = Ok x.
Proof using CL.
  unfold assert_g1_point, nonzeroPoint, good. rewrite nonzero_bn.
  destruct (g_is_inf p), (g_on_curve p), (g_in_subgroup p); cbn; naive_solver.
Qed.

Lemma bind_g2_point p (k : unit -> result A) :
  assert_g2_point p ≫= k = Ok x <-> good p = true /\ k tt = Ok x.
Proof.
  unfold assert_g2_point, good.
  destruct (g_is_inf p), (g_on_curve p), (g_in_subgroup p); cbn; naive_solver.
Qed.

Lemma bind_scalar s (k : unit -> result A) :
  assert_scalar s ≫= k = Ok x <-> 0 < s < ell /\ k tt = Ok x.
Proof.
  unfold assert_scalar, assert.
  destruct (Z.leb_spec 0 s), (Z.ltb_spec s ell); cbn; try by (split; [done|lia]).
  rewrite Z.mod_small by lia. destruct (Z.eqb_spec s 0); cbn; [split; [done|lia]|].
  split; [intros ?; split; [lia|done] | by intros [_ ?]].
Qed.

Lemma bind_ToBinary v n (k : list bool -> result A) :
  ToBinary v n ≫= k = Ok x <-> v mod F < 2 ^ Z.of_nat n /\ k (bits_of n (v mod F)) = Ok x.
Proof. rewrite bind_Ok. setoid_rewrite ToBinary_Ok. naive_solver. Qed.

Lemma bind_fieldBytes m v (k : bytes -> result A) :
  m < 2 ^ 256 -> fieldBytes m v ≫= k = Ok x <-> 0 <= v < m /\ k (be_enc 32 v) = Ok x.
Proof. intros Hm. rewrite bind_Ok. setoid_rewrite (fieldBytes_Ok m); [|done]. naive_solver. Qed.

Lemma bind_value {B} (b : B) (k : B -> result A) : Ok b ≫= k = Ok x <-> k b = Ok x.
Proof. done. Qed.
End steps.

Lemma integerBytes_exact width v : integerBytes (bits_of (8 * width) v) width = Ok (be_enc width v).
Proof.
  unfold integerBytes. rewrite length_bits_of, Nat.ltb_irrefl. cbn [fail_if mbind result_bind].
  f_equal. rewrite be_enc_seq, Nat.sub_diag, app_nil_r.
  apply list_fmap_ext. intros i j Hj. apply lookup_seq in Hj as [-> Hj]. cbn [Nat.add].
  rewrite drop_bits_of, take_bits_of by lia. rewrite bits_value_of.
  change (2 ^ Z.of_nat 8) with 256. rewrite z2b_mod. do 2 f_equal.
  replace 256 with (2 ^ 8) by done. rewrite <- Z.pow_mul_r by lia. f_equal. lia.
Qed.

Definition seed_hash (x : Z) (issue : bytes) (b : byte) : Z :=
  be_dec (sha256 (be_enc 32 x ++ issue ++ [b])) mod ell.

(** The public part of an assignment as a statement. *)
Definition statement_of (u : CircuitPublic) : Statement :=
  mkStatement (c_V u) (c_Nym u) (c_SPoint u) (c_TPoint u) (c_Issue u) (c_RingDigest u)
    (c_MessageDigest u) (c_Timestamp u) (c_K u) (Some (c_R u)).

(** What a satisfied circuit establishes, in terms of the host functions. *)
Record Relation (bases : list BN) (c : Circuit) (s t a : Z) : Prop := mk_relation {
  rel_secp_points : Forall (fun p : Secp => good p = true)
    [c_Ut (c_public c); c_SPoint (c_public c); c_TPoint (c_public c);
     c_AccountU (c_secret c); c_AccountY (c_secret c)];
  rel_g1_points : Forall (fun p : BN => good p = true)
    [c_V (c_public c); c_W (c_secret c); c_Nym (c_public c)];
  rel_g2_points : Forall (fun p : BN2 => good p = true) [c_H (c_public c); c_HTau (c_public c)];
  rel_scalars : Forall (fun z => 0 < z < ell) [c_X (c_secret c); c_D (c_secret c); c_R (c_public c)];
  rel_counter : 0 <= c_Counter (c_secret c) < c_K (c_public c) /\ c_K (c_public c) < 2 ^ 32;
  rel_timestamp : 0 <= c_Timestamp (c_public c) < 2 ^ 64;
  rel_seeds : Seeds (Some (c_X (c_secret c))) (c_Issue (c_public c)) = Ok (s, t);
  rel_nym : c_Nym (c_public c) = make_nym bases [s; t; c_X (c_secret c)];
  rel_account : NewAccount (Some (c_X (c_secret c))) (Some (c_D (c_secret c)))
    = Ok (mkAccount (c_AccountU (c_secret c)) (c_AccountY (c_secret c)) (Some (c_D (c_secret c))));
  rel_member :
    Member (mkAccount (c_AccountU (c_secret c)) (c_AccountY (c_secret c)) (Some (c_D (c_secret c)))) = Ok a;
  rel_membership :
    bn_pairing_check [g_add (g_mul a (c_W (c_secret c))) (g_neg (c_V (c_public c))); c_W (c_secret c)]
                     [c_H (c_public c); c_HTau (c_public c)] = Ok true;
  rel_challenge : Challenge (statement_of (c_public c)) = Ok (c_R (c_public c));
  rel_serial_den : ~ s + c_Counter (c_secret c) + 1 ≡[ell] 0;
  rel_tag_den : ~ t + c_Counter (c_secret c) + 1 ≡[ell] 0;
  rel_serial : c_SPoint (c_public c)
    = g_mul (modinv ((s + c_Counter (c_secret c) + 1) mod ell) ell) (c_Ut (c_public c));
  rel_tag : c_TPoint (c_public c)
    = g_add (g_mul (c_X (c_secret c)) (g_gen Secp))
            (g_mul ((c_R (c_public c) * modinv ((t + c_Counter (c_secret c) + 1) mod ell) ell) mod ell)
                   (c_Ut (c_public c)));
}.

(** Native variables of an assignment are canonical field elements. *)
Definition native_canonical (c : Circuit) : Prop :=
  0 <= c_Counter (c_secret c) < F /\ 0 <= c_K (c_public c) < F /\ 0 <= c_Timestamp (c_public c) < F.

(** The satisfied circuit as a conjunction, in the order of [Define]. *)
Definition satisfied (c : Circuit) (bases : list BN) (s t a : Z) : Prop :=
  let u := c_public c in
  let w := c_secret c in
  good (c_Ut u) = true /\ good (c_SPoint u) = true /\ good (c_TPoint u) = true /\
  good (c_AccountU w) = true /\ good (c_AccountY w) = true /\
  good (c_V u) = true /\ good (c_W w) = true /\ good (c_Nym u) = true /\
  good (c_H u) = true /\ good (c_HTau u) = true /\
  0 < c_X w < ell /\ 0 < c_D w < ell /\ 0 < c_R u < ell /\
  c_Counter w mod F < 2 ^ 32 /\ c_K u mod F < 2 ^ 32 /\ negb (c_K u mod F =? 0) = true /\
  (c_K u - c_Counter w - 1) mod F < 2 ^ 32 /\
  negb (s =? 0) = true /\ negb (t =? 0) = true /\
  bool_decide (make_nym bases [s; t; c_X w] = c_Nym u) = true /\
  bool_decide (g_mul (c_D w) (g_gen Secp) = c_AccountU w) = true /\
  bool_decide (g_mul (c_X w) (c_AccountU w) = c_AccountY w) = true /\
  negb (a =? 0) = true /\
  bn_pairing_check [g_add (g_mul a (c_W w)) (g_neg (c_V u)); c_W w] [c_H u; c_HTau u] = Ok true /\
  c_Timestamp u mod F < 2 ^ 64 /\
  be_dec (sha256 (ascii_bytes ChallengeDomain ++ c_Issue u ++ c_RingDigest u ++ c_MessageDigest u
                  ++ EncodeBNPoint (c_Nym u) ++ be_enc 8 (c_Timestamp u mod F) ++ be_enc 4 (c_K u mod F)))
    mod ell = c_R u /\
  negb ((s + c_Counter w mod F + 1) mod ell =? 0) = true /\
  bool_decide (g_mul (modinv ((s + c_Counter w mod F + 1) mod ell) ell) (c_Ut u) = c_SPoint u) = true /\
  negb ((t + c_Counter w mod F + 1) mod ell =? 0) = true /\
  bool_decide (g_add (g_mul (c_X w) (g_gen Secp))
                 (g_mul ((c_R u * modinv ((t + c_Counter w mod F + 1) mod ell) ell) mod ell) (c_Ut u))
               = c_TPoint u) = true.

(** The bases of the host and of the circuit are the same points. *)
Lemma mapM_checked {A B} (f : A -> result B) (ok : B -> bool) e l k :
  mapM (fun x => y ← f x; _ ← fail_if (negb (ok y)) e; Ok y) l = Ok k ->
  mapM f l = Ok k /\ Forall (fun y => ok y = true) k /\ length k = length l.
Proof.
  revert k. induction l as [|x l IH]; intros k.
  - intros [= <-]. done.
  - cbn [mapM]. destruct (f x) as [y|]; [|done]. cbn [mbind result_bind].
    destruct (ok y) eqn:Hy; [|done]. cbn [negb fail_if].
    destruct (mapM _ l) as [k'|]; [|done]. intros [= <-].
    destruct (IH k' eq_refl) as (-> & HF & Hl). split; [done|]. split; [by constructor|].
    cbn. by rewrite Hl.
Qed.

Lemma Bases_inv bases :
  Bases = Ok bases ->
  exists g0 g1 g2 : BN, bases = [g0; g1; g2] /\
    good g0 = true /\ good g1 = true /\ good g2 = true /\ circuitBases = Ok bases.
Proof.
  intros (HC & HF & HL)%mapM_checked. destruct bases as [|g0 [|g1 [|g2 [|]]]]; try done.
  exists g0, g1, g2. rewrite !Forall_cons in HF. destruct HF as (? & ? & ? & _). done.
Qed.

Lemma make_nym_3 g0 g1 g2 s t x :
  good g0 = true -> good g1 = true -> good g2 = true ->
  make_nym [g0; g1; g2] [s; t; x]
  = g_add (g_add (g_mul (s mod F) g0) (g_mul (t mod F) g1)) (g_mul (x mod F) g2).
Proof using CL.
  intros (a & -> & _)%good_exists (b & -> & _)%good_exists (c & -> & _)%good_exists.
  unfold make_nym. cbn. rewrite inf_pow, !mul_pow, !add_pow by (apply Z.mod_pos_bound, order_pos). done.
Qed.

(** The circuit's own seeds and member handle. *)
Definition circuit_seed (c : Circuit) (b : byte) : Z :=
  be_dec (sha256 ((be_enc 32 (c_X (c_secret c)) ++ c_Issue (c_public c)) ++ [b])) mod ell.
Definition circuit_handle (c : Circuit) : Z :=
  be_dec (sha256 (ascii_bytes MemberDomain ++ EncodeSecpPoint (c_AccountU (c_secret c))
                  ++ EncodeSecpPoint (c_AccountY (c_secret c)))) mod F.

Lemma be_dec_enc_scalar v : 0 <= v < ell -> be_dec (be_enc 32 v) = v.
Proof using CL.
  intros Hv. apply be_dec_enc_small. pose proof (order_upper (P:=Secp)). cbn. lia.
Qed.

Lemma seed_range c b : 0 <= circuit_seed c b < ell.
Proof using CL. apply Z.mod_pos_bound, order_pos. Qed.


(** Conjunct by conjunct, each under the earlier ones. *)
Lemma and_step {P Q Q' : Prop} : (P -> (Q <-> Q')) -> P /\ Q <-> P /\ Q'.
Proof. tauto. Qed.
Lemma and_implied {P Q Q' : Prop} : P -> (Q <-> Q') -> P /\ Q <-> Q'.
Proof. tauto. Qed.
Lemma and_step_eq {P P' Q Q' : Prop} : (P <-> P') -> (P -> (Q <-> Q')) -> P /\ Q <-> P' /\ Q'.
Proof. tauto. Qed.

Lemma bind_check (r : result bool) (k : unit -> result unit) :
  (r ≫= fun ok => assert ok ≫= k) = Ok tt <-> r = Ok true /\ k tt = Ok tt.
Proof. destruct r as [[]|]; cbn; naive_solver. Qed.

Ltac peel_step :=
  first [ rewrite bind_secp_point | rewrite bind_g1_point | rewrite bind_g2_point
        | rewrite bind_scalar | rewrite bind_check | rewrite bind_assert | rewrite bind_ToBinary ];
  apply and_step; intros ?.

Lemma scalar_bytes_native v : 0 <= v < ell -> nativeValue (be_enc 32 v) = Ok (v mod F).
Proof using CL. intros Hv. by rewrite nativeValue_spec, be_dec_enc_scalar. Qed.

Lemma nativeScalar_mod v : nativeScalar (v mod F) = v mod F.
Proof using CL. by rewrite nativeScalar_spec, Zmod_mod. Qed.

Lemma secpValue_seed c b :
  secpValue (sha256 ((be_enc 32 (c_X (c_secret c)) ++ c_Issue (c_public c)) ++ [b])) = Ok (circuit_seed c b).
Proof using CL. apply secpValue_spec. Qed.

Lemma nativeValue_handle c :
  nativeValue (sha256 (ascii_bytes "lktrs/member/v1" ++ EncodeSecpPoint (c_AccountU (c_secret c))
                       ++ EncodeSecpPoint (c_AccountY (c_secret c)))) = Ok (circuit_handle c).
Proof using CL. apply nativeValue_spec. Qed.

Lemma handle_range c : 0 <= circuit_handle c < F.
Proof using CL. apply Z.mod_pos_bound, order_pos. Qed.

Lemma nativeScalar_handle c : nativeScalar (circuit_handle c) = circuit_handle c.
Proof using CL. rewrite nativeScalar_spec. apply Z.mod_small, handle_range. Qed.

Lemma Define_satisfied c bases :
  Bases = Ok bases ->
  Define c = Ok tt <->
  satisfied c bases (circuit_seed c x00) (circuit_seed c x01) (circuit_handle c).
Proof using CL.
  intros (g0 & g1 & g2 & -> & H0 & H1 & H2 & HB)%Bases_inv.
  pose proof (order_upper (P:=Secp)) as Hell. pose proof (order_lower (P:=BN)) as HF.
  pose proof (c_mod_upper (P:=BN)) as Hp.
  unfold Define, satisfied, sha. rewrite HB, make_nym_3 by done. cbv zeta.
  do 17 peel_step.
  rename select (0 < c_X _ < _) into Hx. rename select (0 < c_R _ < _) into HR.
  rewrite bind_fieldBytes by done. apply and_implied; [lia|].
  rewrite !secpValue_seed.
  pose proof (seed_range c x00) as Hs. pose proof (seed_range c x01) as Ht.
  rewrite !bind_value, !(Z.mod_small (circuit_seed c _) ell) by done.
  do 2 peel_step. rewrite (scalar_bytes_native (c_X _)), bind_value by lia.
  do 2 (rewrite bind_fieldBytes by done; apply and_implied; [lia|];
        rewrite scalar_bytes_native, bind_value by done).
  rewrite !bind_value, !nativeScalar_mod. do 3 peel_step.
  rewrite !secpEncoding_spec, !bind_value, nativeValue_handle, bind_value, nativeScalar_handle.
  rewrite (Z.mod_small (circuit_handle c)) by apply handle_range.
  do 2 peel_step. do 2 (rewrite bind_fieldBytes by done).
  apply and_implied; [apply c_x_range|]. apply and_implied; [apply c_y_range|].
  peel_step. rewrite (integerBytes_exact 8), bind_value.
  rewrite bind_ToBinary. apply and_implied; [done|].
  rewrite (integerBytes_exact 4), bind_value, secpValue_spec, bind_value, bind_assert.
  rewrite bits_value_of. rewrite (Z.mod_small (c_Counter _ mod F)) by (split; [apply Z.mod_pos_bound; lia|done]).
  unfold EncodeBNPoint. rewrite <- app_assoc.
  change (ascii_bytes "lktrs/challenge/v1") with (ascii_bytes ChallengeDomain).
  generalize (be_dec (sha256 (ascii_bytes ChallengeDomain ++ c_Issue (c_public c) ++
    c_RingDigest (c_public c) ++ c_MessageDigest (c_public c) ++
    be_enc 32 (c_x (c_Nym (c_public c))) ++ be_enc 32 (c_y (c_Nym (c_public c))) ++
    be_enc 8 (c_Timestamp (c_public c) mod F) ++ be_enc 4 (c_K (c_public c) mod F)))).
  intros h. rewrite !Zmod_mod, (Z.mod_small (c_R _)) by lia.
  apply and_step_eq; [by rewrite Z.eqb_eq|]. intros ->%Z.eqb_eq.
  do 3 (rewrite bind_assert; apply and_step; intros ?). by rewrite assert_Ok.
Qed.

Lemma HashScalar_Ok data m n :
  HashScalar data (Some m) = Ok n <-> 2 <= m /\ n = be_dec (sha256 data) mod m /\ n <> 0.
Proof.
  unfold HashScalar. generalize (be_dec (sha256 data)). intros h.
  destruct (Z.ltb_spec m 2); cbn [fail_if mbind result_bind]; [split; [done|lia]|].
  destruct (Z.eqb_spec (h mod m) 0); cbn [fail_if mbind result_bind]; naive_solver.
Qed.

Lemma canonicalNonzero_Some n m : canonicalNonzero (Some n) m = true <-> 0 < n < m.
Proof. unfold canonicalNonzero. rewrite andb_true_iff, !Z.ltb_lt. done. Qed.

Lemma Seeds_Ok x issue s t :
  Seeds (Some x) issue = Ok (s, t) <->
  0 < x < ell /\ HashScalar (be_enc 32 x ++ issue ++ [x00]) (Some ell) = Ok s /\
  HashScalar (be_enc 32 x ++ issue ++ [x01]) (Some ell) = Ok t.
Proof.
  unfold Seeds. rewrite <- canonicalNonzero_Some.
  destruct (canonicalNonzero (Some x) ell); cbn [negb fail_if mbind result_bind deref]; [|naive_solver].
  split.
  - intros (s' & Hs & (t' & Ht & [= <- <-])%bind_Ok)%bind_Ok. done.
  - intros (_ & -> & E). cbn [mbind result_bind]. by rewrite E.
Qed.

Lemma validateAccount_Ok u y d :
  validateAccount (mkAccount u y (Some d)) = Ok tt <->
  good u = true /\ good y = true /\ 0 < d < ell /\ g_mul d (g_gen Secp) = u.
Proof.
  unfold validateAccount, goodSecp. cbn [a_U a_Y a_D]. rewrite <- canonicalNonzero_Some.
  destruct (good u), (good y), (canonicalNonzero (Some d) ell);
    cbn [negb orb fail_if mbind result_bind]; try naive_solver.
  rewrite fail_if_Ok, negb_false_iff, bool_decide_eq_true. naive_solver.
Qed.

Lemma NewAccount_Ok x d a :
  NewAccount (Some x) (Some d) = Ok a <->
  0 < x < ell /\ 0 < d < ell /\ good (a_U a) = true /\ good (a_Y a) = true /\
  a_U a = g_mul d (g_gen Secp) /\ a_Y a = g_mul x (a_U a) /\ a_D a = Some d.
Proof.
  unfold NewAccount. rewrite <- (canonicalNonzero_Some x), <- (canonicalNonzero_Some d).
  destruct (canonicalNonzero (Some x) ell); cbn [negb orb fail_if mbind result_bind deref]; [|naive_solver].
  destruct (canonicalNonzero (Some d) ell) eqn:Hd; cbn [negb orb fail_if mbind result_bind]; [|naive_solver].
  apply canonicalNonzero_Some in Hd. destruct (validateAccount _) as [[]|e] eqn:E; cbn.
  - apply validateAccount_Ok in E as (? & ? & _ & _). destruct a as [u y d']. naive_solver.
  - split; [done|]. intros (_ & _ & Hu & Hy & Eu & Ey & _). destruct a as [u y d']. cbn in *. subst.
    rewrite (proj2 (validateAccount_Ok _ _ _)) in E by done. done.
Qed.

Lemma Member_Ok u y d a :
  Member (mkAccount u y (Some d)) = Ok a <->
  (good u = true /\ good y = true /\ 0 < d < ell /\ g_mul d (g_gen Secp) = u) /\
  HashScalar (ascii_bytes MemberDomain ++ EncodeSecpPoint u ++ EncodeSecpPoint y) (Some F) = Ok a.
Proof.
  unfold Member. rewrite bind_Ok. rewrite <- (validateAccount_Ok u y d). cbn [a_U a_Y].
  split; [intros ([] & ? & ?); done | intros [? ?]; by exists tt].
Qed.

Lemma Challenge_Ok st r :
  Challenge st = Ok r <->
  st_K st <> 0 /\ good (st_Nym st) = true /\ HashScalar (challenge_preimage st) (Some ell) = Ok r.
Proof.
  unfold Challenge, goodBN. destruct (Z.eqb_spec (st_K st) 0); cbn [orb fail_if mbind result_bind]; [naive_solver|].
  destruct (good (st_Nym st)); cbn [negb fail_if mbind result_bind]; naive_solver.
Qed.

Lemma satisfied_relation c bases s t a :
  s = circuit_seed c x00 -> t = circuit_seed c x01 -> a = circuit_handle c -> native_canonical c ->
  satisfied c bases s t a <-> Relation bases c s t a.
Proof using CL.
  intros Es Et Ea (Hcnt & HK & HT). unfold circuit_seed in Es, Et. unfold circuit_handle in Ea.
  pose proof (order_lower (P:=Secp)) as Hell. pose proof (order_lower (P:=BN)) as HF.
  pose proof (counter_range _ _ Hcnt HK) as HC. unfold satisfied.
  rewrite !(Z.mod_small (c_Counter _)), !(Z.mod_small (c_K _)), !(Z.mod_small (c_Timestamp _)) in * by done.
  rewrite !negb_true_iff, !bool_decide_eq_true, !Z.eqb_neq.
  rewrite <- (app_assoc (be_enc 32 _) (c_Issue _)) in Es, Et.
  split.
  - intros (G1 & G2 & G3 & G4 & G5 & G6 & G7 & G8 & G9 & G10 & HX & HD & HR & C1 & C2 & C3 & C4 &
      Hs & Ht & HN & HU & HY & Ha & HP & HTs & Hr & Dn1 & HS & Dn2 & HTp).
    constructor.
    + rewrite !Forall_cons, Forall_nil. tauto.
    + rewrite !Forall_cons, Forall_nil. tauto.
    + rewrite !Forall_cons, Forall_nil. tauto.
    + rewrite !Forall_cons, Forall_nil. tauto.
    + lia.
    + lia.
    + apply Seeds_Ok. rewrite !HashScalar_Ok. split; [done|]. split; (split; [lia|split; assumption]).
    + done.
    + apply NewAccount_Ok. cbn [a_U a_Y a_D]. rewrite HU, HY. tauto.
    + apply Member_Ok. rewrite HashScalar_Ok. 
      split; [tauto|]. split; [lia|split; assumption].
    + done.
    + apply Challenge_Ok. rewrite HashScalar_Ok. split; [exact C3|]. split; [exact G8|]. split; [lia|].
      split; [symmetry; exact Hr|lia].
    + by rewrite cong_0_mod.
    + by rewrite cong_0_mod.
    + done.
    + done.
  - intros [HG1 HG2 HG3 HG4 HC' HTs Hsd HN HA HM HP Hr Dn1 Dn2 HS HTp].
    rewrite !Forall_cons in *. apply Seeds_Ok in Hsd as (_ & Hs & Ht).
    apply HashScalar_Ok in Hs as (_ & _ & Hs). apply HashScalar_Ok in Ht as (_ & _ & Ht).
    apply NewAccount_Ok in HA as (_ & _ & _ & _ & HU & HY & _). cbn [a_U a_Y a_D] in HU, HY.
    apply Member_Ok in HM as (_ & (_ & _ & Ha)%HashScalar_Ok).
    apply Challenge_Ok in Hr as (HK0 & _ & (_ & Hr & _)%HashScalar_Ok).
    rewrite cong_0_mod in Dn1, Dn2. split_and!; try (tauto || assumption || lia || congruence).
    symmetry. exact Hr.
Qed.

(** The seeds and the handle of a relation are the circuit's. *)
Lemma Relation_seeds bases c s t a :
  Relation bases c s t a -> s = circuit_seed c x00 /\ t = circuit_seed c x01 /\ a = circuit_handle c.
Proof.
  intros [_ _ _ _ _ _ Hsd _ _ HM _ _ _ _ _ _]. unfold circuit_seed, circuit_handle.
  rewrite <- !app_assoc. apply Seeds_Ok in Hsd as (_ & Hs & Ht).
  apply HashScalar_Ok in Hs as (_ & Hs & _). apply HashScalar_Ok in Ht as (_ & Ht & _).
  apply Member_Ok in HM as (_ & (_ & Ha & _)%HashScalar_Ok).
  split; [exact Hs|]. split; [exact Ht|exact Ha].
Qed.

Lemma Define_relation c bases :
  Bases = Ok bases -> native_canonical c ->
  Define c = Ok tt <-> exists s t a, Relation bases c s t a.
Proof using CL.
  intros HB HC. rewrite (Define_satisfied c bases HB). split.
  - intros Hsat. eexists _, _, _. by apply satisfied_relation in Hsat.
  - intros (s & t & a & HR). destruct (Relation_seeds _ _ _ _ _ HR) as (Es & Et & Ea).
    rewrite <- Es, <- Et, <- Ea. by apply satisfied_relation.
Qed.

End facts.
