(* ===== verification/Statements.v ===== *)
(** * What a statement commits to

    [MakeStatement] taken apart: the scalars, points and digests of a
    statement and of its witness, as functions of the inputs. The circuit
    accepts every assignment made from a statement and its witness, and the
    membership equation that the circuit checks is the host's. *)

From S2P Require Import Prelude Bytes Sha256 Curve Toy Profile Samples Accumulator Circuit.
From S2P Require Import CircuitFacts.
From Stdlib Require Import Strings.Byte.

Section facts.
Context `{CR : !Crypto, CL : !CryptoLaws}.
Abbreviation F := (g_order BN).
Abbreviation ell := (g_order Secp).

(** The values that appear on the way to a statement. *)
Record Made (p : Params) (accounts : list Account) (i : Z) (x d : Z) (issue md : bytes) (ts k cnt : Z)
    (st : Statement) (w : SecretWitness) (bases : list BN) (s t r : Z) (ut : Secp) (a : Account) : Prop :=
  mk_made {
  made_counter : k <> 0 /\ cnt < k;
  made_index : 0 <= i < Z.of_nat (length accounts);
  made_account : NewAccount (Some x) (Some d) = Ok (w_Account w);
  made_at : accounts !! Z.to_nat i = Some a;
  made_match : a_U a = a_U (w_Account w) /\ a_Y a = a_Y (w_Account w);
  made_V : Accumulate p accounts = Ok (st_V st);
  made_W : MembershipWitness p accounts i = Ok (w_W w);
  made_ring : RingDigest accounts = Ok (st_RingDigest st);
  made_seeds : Seeds (Some x) issue = Ok (s, t);
  made_bases : Bases = Ok bases;
  made_nym : st_Nym st = make_nym bases [s; t; x] /\ good (st_Nym st) = true;
  made_challenge : Challenge st = Ok r /\ st_R st = Some r;
  made_ut : IssueBase issue = Ok ut;
  made_den_s : ~ s + cnt + 1 ≡[ell] 0;
  made_den_t : ~ t + cnt + 1 ≡[ell] 0;
  made_S : st_S st = g_mul (modinv ((s + cnt + 1) mod ell) ell) ut;
  made_T : st_T st = g_add (g_mul x (g_gen Secp)) (g_mul ((r * modinv ((t + cnt + 1) mod ell) ell) mod ell) ut);
  made_tags : good (st_S st) = true /\ good (st_T st) = true;
  made_inputs : st_Issue st = issue /\ st_MessageDigest st = md /\ st_Timestamp st = ts /\ st_K st = k;
  made_secrets : w_X w = Some x /\ w_D w = Some d /\ w_Counter w = cnt;
}.

Lemma NewAccount_Some x d a : NewAccount x d = Ok a -> exists x' d', x = Some x' /\ d = Some d'.
Proof.
  unfold NewAccount, canonicalNonzero. destruct x, d; cbn; try rewrite orb_true_r; try done. eauto.
Qed.

Lemma MakeStatement_inv p accounts i x d issue md ts k cnt st w :
  MakeStatement p accounts i x d issue md ts k cnt = Ok (st, w) ->
  exists x' d' bases s t r ut a, x = Some x' /\ d = Some d' /\
    Made p accounts i x' d' issue md ts k cnt st w bases s t r ut a.
Proof.
  unfold MakeStatement. intros E. go_inv E.
  rename select (NewAccount _ _ = _) into HA.
  destruct (NewAccount_Some _ _ _ HA) as (x' & d' & -> & ->). destruct a8 as [s t].
  go_inv E. subst st w. bool_prop. rename select (Some x' = Some _) into Ex. injection Ex as ->.
  rename select (Challenge _ = _) into HC. rename select (IssueBase _ = _) into HU.
  rename select (Bases = _) into HB. unfold goodBN, goodSecp in *.
  exists a9, d', a8, s, t, a11, a12, a2. split; [reflexivity|]. split; [reflexivity|].
  constructor;
    cbn [st_V st_Nym st_S st_T st_Issue st_RingDigest st_MessageDigest st_Timestamp st_K st_R
         w_X w_D w_Account w_W w_Counter]; rewrite <- ?Z.add_assoc, ?cong_0_mod;
    try (assumption || lia || reflexivity).
  - split; by symmetry.
  - split; [done|assumption].
  - split; [|done]. exact HC.
  - split; assumption.
  - done.
  - done.
Qed.

(** [e([a]W - V, H) e(W, HTau) = 1] when [V = [tau + a]W]. *)
Lemma pairing_membership tau m q :
  0 <= m ->
  bn_pairing_check [g_add (g_mul m (g_pow BN q)) (g_neg (g_pow BN ((tau + m) * q))); g_pow BN q]
                   [g_pow BN2 1; g_pow BN2 tau] = Ok true.
Proof using CL.
  intros Hm. rewrite mul_pow, neg_pow, add_pow by done.
  pose proof (pairing_check_pow [(m * q + - ((tau + m) * q), 1); (q, tau)]) as E. cbn in E.
  rewrite E by done. f_equal. apply bool_decide_eq_true, cong_eq. lia.
Qed.

Lemma Made_membership p accounts i x d issue md ts k cnt st w bases s t r ut a :
  Made p accounts i x d issue md ts k cnt st w bases s t r ut a ->
  exists m, Member a = Ok m /\
    bn_pairing_check [g_add (g_mul m (w_W w)) (g_neg (st_V st)); w_W w] [p_H p; p_HTau p] = Ok true /\
    good (st_V st) = true /\ good (w_W w) = true /\ good (p_H p) = true /\ good (p_HTau p) = true.
Proof using CL.
  intros M. pose proof (made_V _ _ _ _ _ _ _ _ _ _ _ _ _ _ _ _ _ _ M) as HV.
  pose proof (made_W _ _ _ _ _ _ _ _ _ _ _ _ _ _ _ _ _ _ M) as HW.
  pose proof (made_index _ _ _ _ _ _ _ _ _ _ _ _ _ _ _ _ _ _ M) as Hi.
  pose proof (made_at _ _ _ _ _ _ _ _ _ _ _ _ _ _ _ _ _ _ M) as Ha.
  apply Accumulate_Ok in HV as (tau & ms & Hs & Hms & Hl & Hz & EV).
  destruct (Forall2_lookup_l _ _ _ _ _ (proj1 Hms) Ha) as (m & Hm & HM).
  rewrite <- (Z2Nat.id i) in HW by lia.
  apply (MembershipWitness_srs p accounts _ _ tau ms m) in HW as [Hq EW]; [|done..].
  exists m. split; [done|].
  rewrite EV, EW, (srs_H _ _ Hs), (srs_HTau _ _ Hs), (member_product_delete _ _ _ _ Hm), gen_pow.
  split; [apply pairing_membership; apply Member_range in HM; lia|].
  rewrite (good_HTau tau) by apply (srs_tau _ _ Hs). rewrite <- (member_product_delete _ _ _ _ Hm).
  rewrite !good_pow. split_and!; [done|done|apply cong_1_0, order_prime|done].
Qed.

Lemma IssueBase_good issue ut : IssueBase issue = Ok ut -> good ut = true.
Proof. unfold IssueBase. intros E. go_inv E. bool_prop. by subst. Qed.

(** The handle of an account depends on its points only. *)
Lemma Member_points a a' m :
  a_U a = a_U a' -> a_Y a = a_Y a' -> validateAccount a' = Ok tt -> Member a = Ok m -> Member a' = Ok m.
Proof.
  intros EU EY HV. unfold Member. rewrite HV. intros E. go_inv E. cbn [mbind result_bind].
  by rewrite <- EU, <- EY.
Qed.

Lemma NewAccount_valid x d a : NewAccount (Some x) (Some d) = Ok a -> validateAccount a = Ok tt.
Proof.
  intros (? & ? & ? & ? & ? & ? & ED)%NewAccount_Ok. destruct a as [u y d']. cbn in ED. subst d'.
  by apply validateAccount_Ok.
Qed.

Lemma Made_assignment p accounts i x d issue md ts k cnt st w bases s t r ut a :
  Made p accounts i x d issue md ts k cnt st w bases s t r ut a ->
  Assignment p st w = Ok
    {| c_public := {| c_V := st_V st; c_Nym := st_Nym st; c_H := p_H p; c_HTau := p_HTau p;
            c_Ut := ut; c_SPoint := st_S st; c_TPoint := st_T st; c_Issue := st_Issue st;
            c_RingDigest := st_RingDigest st; c_MessageDigest := st_MessageDigest st;
            c_Timestamp := ts; c_K := k; c_R := r |};
       c_secret := {| c_X := x; c_D := d; c_AccountU := a_U (w_Account w);
            c_AccountY := a_Y (w_Account w); c_W := w_W w; c_Counter := cnt |} |}.
Proof.
  intros []. unfold Assignment, PublicAssignment.
  destruct made_secrets0 as (-> & -> & ->). destruct made_challenge0 as [_ ->].
  destruct made_inputs0 as (-> & -> & -> & ->). by rewrite made_ut0.
Qed.

Lemma Made_relation p accounts i x d issue md ts k cnt st w bases s t r ut a c :
  Made p accounts i x d issue md ts k cnt st w bases s t r ut a ->
  0 <= cnt -> k < 2 ^ 32 -> 0 <= ts < 2 ^ 64 -> Assignment p st w = Ok c ->
  exists m, Relation bases c s t m.
Proof using CL.
  intros M Hc Hk Hts. rewrite (Made_assignment _ _ _ _ _ _ _ _ _ _ _ _ _ _ _ _ _ _ M). intros [= <-].
  destruct (Made_membership _ _ _ _ _ _ _ _ _ _ _ _ _ _ _ _ _ _ M) as (m & HM & HP & GV & GW & GH & GT).
  exists m. destruct M. pose proof (IssueBase_good _ _ made_ut0) as Gut.
  destruct made_challenge0 as [HC HR], made_inputs0 as (EI & EM & ET & EK), made_match0 as [EU EY].
  pose proof (NewAccount_valid _ _ _ made_account0) as HV.
  assert (Member (w_Account w) = Ok m) as HMw by (eapply Member_points; eauto).
  apply NewAccount_Ok in made_account0 as HA. destruct HA as (HX & HD & GU & GY & _ & _ & ED).
  assert (w_Account w = mkAccount (a_U (w_Account w)) (a_Y (w_Account w)) (Some d)) as Ew
    by (destruct (w_Account w); cbn in *; congruence).
  assert (Challenge (mkStatement (st_V st) (st_Nym st) (st_S st) (st_T st) (st_Issue st) (st_RingDigest st)
            (st_MessageDigest st) ts k (Some r)) = Ok r) as HC' by (subst ts k; exact HC).
  apply Challenge_Ok in HC as (_ & _ & HRr%HashScalar_range).
  constructor; cbn [c_public c_secret c_V c_Nym c_H c_HTau c_Ut c_SPoint c_TPoint c_Issue c_RingDigest
    c_MessageDigest c_Timestamp c_K c_R c_X c_D c_AccountU c_AccountY c_W c_Counter];
    rewrite ?Forall_cons, ?Forall_nil, <- ?Ew, ?EI; try (assumption || lia || tauto).
  unfold statement_of. cbn. rewrite <- EI. exact HC'.
Qed.

Lemma Assignment_complete p accounts i x d issue md ts k cnt st w :
  MakeStatement p accounts i x d issue md ts k cnt = Ok (st, w) ->
  0 <= cnt -> k < 2 ^ 32 -> 0 <= ts < 2 ^ 64 -> ts < F ->
  exists c, Assignment p st w = Ok c /\ Define c = Ok tt.
Proof using CL.
  intros (x' & d' & bases & s & t & r & ut & a & -> & -> & M)%MakeStatement_inv Hc Hk Hts HF.
  pose proof (Made_assignment _ _ _ _ _ _ _ _ _ _ _ _ _ _ _ _ _ _ M) as HA.
  eexists. split; [exact HA|]. apply (Define_relation _ bases); [apply M| |].
  - pose proof (order_lower (P:=BN)). destruct M. unfold native_canonical. cbn. lia.
  - destruct (Made_relation _ _ _ _ _ _ _ _ _ _ _ _ _ _ _ _ _ _ _ M Hc Hk Hts HA). eauto.
Qed.

(** Completeness of the circuit. A statement and witness built by
    [MakeStatement] from inputs in their Go ranges assign to a circuit, and
    that assignment satisfies [Define]. ([ts < F] always holds for a 64-bit
    timestamp in the 254-bit field.) *)
Theorem circuit_complete p accounts i x d issue md ts k cnt st w :
  MakeStatement p accounts i x d issue md ts k cnt = Ok (st, w) ->
  0 <= cnt -> k < 2 ^ 32 -> 0 <= ts < 2 ^ 64 -> ts < F ->
  exists c, Assignment p st w = Ok c /\ Define c = Ok tt.
Proof using CL. apply Assignment_complete. Qed.

(** C9: the circuit decides the host relation. An assignment whose native
    variables are canonical field elements satisfies [Define] exactly when
    there are seeds and a member handle, derived by the host's [Seeds] and
    [Member], with which all points are valid, [0 <= cnt < k < 2^32], the
    nym, account, accumulator membership, challenge, serial and trace-tag
    equations of [profile.go] hold. *)
Theorem circuit_decides_relation c bases :
  Bases = Ok bases -> native_canonical c ->
  Define c = Ok tt <-> exists s t a, Relation bases c s t a.
Proof using CL. apply Define_relation. Qed.
End facts.

(** ** Witnesses *)

Definition no_statement : Statement :=
  mkStatement (g_inf BN) (g_inf BN) (g_inf Secp) (g_inf Secp) [] [] [] 0 0 None.
Definition no_witness : SecretWitness := mkSecretWitness None None no_account (g_inf BN) 0.

Definition sample_digest : bytes := sha256 (ascii_bytes "sample message").
Definition sample_made : Statement * SecretWitness :=
  get_ok (no_statement, no_witness)
    (MakeStatement sample_params sample_ring 1 (Some alice_x) (Some 1000) sample_issue sample_digest 1700000000 3 2).

Lemma sample_made_eq :
  MakeStatement sample_params sample_ring 1 (Some alice_x) (Some 1000) sample_issue sample_digest 1700000000 3 2
  = Ok (sample_made.1, sample_made.2).
Proof. rewrite <- surjective_pairing. apply get_ok_eq. vm_compute. reflexivity. Qed.

Lemma circuit_complete_witness :
  exists c, Assignment sample_params sample_made.1 sample_made.2 = Ok c /\ Define c = Ok tt.
Proof.
  apply (circuit_complete sample_params sample_ring 1 (Some alice_x) (Some 1000) sample_issue sample_digest
           1700000000 3 2 _ _ sample_made_eq); first [lia | vm_compute; reflexivity].
Defined.

Definition sample_circuit : Circuit :=
  get_ok {| c_public := mkCircuitPublic (g_inf BN) (g_inf BN) (g_inf BN2) (g_inf BN2) (g_inf Secp) (g_inf Secp)
              (g_inf Secp) [] [] [] 0 0 0;
            c_secret := mkCircuitSecret 0 0 (g_inf Secp) (g_inf Secp) (g_inf BN) 0 |}
         (Assignment sample_params sample_made.1 sample_made.2).

Definition sample_bases : list BN := get_ok [] Bases.

Lemma sample_bases_eq : Bases = Ok sample_bases.
Proof. apply get_ok_eq. vm_compute. reflexivity. Qed.

Lemma circuit_decides_relation_witness : exists s t a, Relation sample_bases sample_circuit s t a.
Proof.
  refine (proj1 (circuit_decides_relation sample_circuit sample_bases sample_bases_eq _) _).
  - unfold native_canonical. vm_compute. intuition congruence.
  - vm_compute. reflexivity.
Defined.
