(* ===== verification/Backend.v ===== *)
(** * Proofs, verification contexts and keys ([nativeproof/backend.go])

    gnark's Groth16 implementation is the interface [Groth16]: compiled
    constraint systems, keys, proofs, their serializers and decoders. The
    behaviour the backend relies on is stated in [BackendFacts]. *)

From S2P Require Import Prelude Bytes Sha256 Curve Profile Circuit CircuitFacts.
From Stdlib Require Import Strings.Byte.

(** Sizes of encoded BN254 points. *)
Definition SizeOfG1AffineCompressed : Z := 32.
Definition SizeOfG1AffineUncompressed : Z := 64.
Definition SizeOfG2AffineCompressed : Z := 64.
Definition SizeOfG2AffineUncompressed : Z := 128.

Section interface.
Context `{CR : !Crypto}.

(** [groth16], [frontend] and [constraint]; the last argument of [gr_setup]
    and [gr_prove] is the randomness they draw. *)
Class Groth16 := {
  CS : Type;
  PK : Type;
  VK : Type;
  GProof : Type;
  FullWitness : Type;
  PublicWitness : Type;
  gr_compile : result CS;                              (* frontend.Compile of &Circuit{} *)
  cs_bytes : CS -> result bytes;                       (* WriteTo *)
  cs_public : CS -> Z;                                 (* GetNbPublicVariables *)
  cs_commitments : CS -> option Z;                     (* GetCommitments as Groth16Commitments: how many *)
  cs_metadata : CS -> list (list Z);                   (* GetPublicAndCommitmentCommitted *)
  gr_setup : CS -> Z -> result (PK * VK);
  new_witness : Circuit -> result FullWitness;
  new_public : CircuitPublic -> result PublicWitness;  (* PublicOnly *)
  gr_prove : CS -> PK -> FullWitness -> Z -> result GProof;
  gr_verify : GProof -> VK -> PublicWitness -> result unit;
  proof_bytes : GProof -> result bytes;                (* WriteTo *)
  proof_read : bytes -> result (GProof * bytes);       (* ReadFrom, and the unread rest *)
  vk_bytes : VK -> result bytes;
  vk_read : bytes -> result (VK * bytes);
  vk_K : VK -> Z;                                      (* len(G1.K) *)
  vk_keys : VK -> Z;                                   (* len(CommitmentKeys) *)
  vk_metadata : VK -> list (list Z);                   (* PublicAndCommitmentCommitted *)
}.
End interface.

Definition CircuitVersion := "lktrs-native-bn254-secp256k1-v1".
Definition maxProofBytes : Z := 2 ^ 20.

(** ** Length prefixes of untrusted encodings *)

(** [raw[pos]]; out of range panics. *)
Definition index (raw : bytes) (pos : Z) : result byte :=
  if pos <? 0 then Err "index out of range"
  else match raw !! Z.to_nat pos with Some b => Ok b | None => Err "index out of range" end.

(** [raw[pos]&0xc0 != 0] *)
Definition compressed_flag (b : byte) : bool := negb (Z.land (b2z b) 0xc0 =? 0).

(** The closure [point]: the cursor after one encoded point. *)
Definition vk_point (raw : bytes) (compressed uncompressed pos : Z) : result Z :=
  _ ← fail_if (Z.of_nat (length raw) <=? pos) "truncated verification key point";
  b ← index raw pos;
  let size := if compressed_flag b then compressed else uncompressed in
  _ ← fail_if ((size <=? 0) || (Z.of_nat (length raw) - pos <? size)) "invalid verification key point length";
  Ok (pos + size).

(** The closure [readU32]: the value and the cursor after it. *)
Definition vk_readU32 (raw : bytes) (pos : Z) : result (Z * Z) :=
  _ ← fail_if (Z.of_nat (length raw) - pos <? 4) "truncated verification key length";
  Ok (be_dec (take 4 (drop (Z.to_nat pos) raw)), pos + 4).

(** A loop of [point] calls with the given sizes. *)
Fixpoint vk_points (raw : bytes) (sizes : list (Z * Z)) (pos : Z) : result Z :=
  match sizes with
  | [] => Ok pos
  | (c, u) :: sizes => pos ← vk_point raw c u pos; vk_points raw sizes pos
  end.

Definition g1_sizes : Z * Z := (SizeOfG1AffineCompressed, SizeOfG1AffineUncompressed).
Definition g2_sizes : Z * Z := (SizeOfG2AffineCompressed, SizeOfG2AffineUncompressed).

Definition maxEntries : Z := 2 ^ 16.

(** [n, err := readU32(); if err != nil || n > maxEntries { return errors.New(e) }] *)
Definition vk_count (raw : bytes) (e : error) (pos : Z) : result (Z * Z) :=
  match vk_readU32 raw pos with
  | Ok (n, pos) => _ ← fail_if (maxEntries <? n) e; Ok (n, pos)
  | Err _ => Err e
  end.

(** The loop over the metadata rows. *)
Fixpoint vk_rows (raw : bytes) (outer : nat) (total pos : Z) : result Z :=
  match outer with
  | O => Ok pos
  | S outer =>
      '(inner, pos) ← vk_count raw "verification key metadata width is unsafe" pos;
      let total := total + inner in
      _ ← fail_if ((2 ^ 20 <? total) || (Z.of_nat (length raw) - pos <? inner * 8))
            "verification key metadata oversized";
      vk_rows raw outer total (pos + inner * 8)
  end.

Definition preflightVerifyingKey (raw : bytes) : result unit :=
  pos ← vk_points raw [g1_sizes; g1_sizes; g2_sizes; g2_sizes; g1_sizes; g2_sizes] 0;
  '(count, pos) ← vk_count raw "verification key public vector count is unsafe" pos;
  pos ← vk_points raw (replicate (Z.to_nat count) g1_sizes) pos;
  '(outer, pos) ← vk_count raw "verification key metadata count is unsafe" pos;
  pos ← vk_rows raw (Z.to_nat outer) 0 pos;
  '(commitments, pos) ← vk_readU32 raw pos;
  _ ← fail_if (64 <? commitments) "verification key commitment count is unsafe";
  pos ← vk_points raw (concat (replicate (Z.to_nat commitments) [g2_sizes; g2_sizes])) pos;
  fail_if (negb (pos =? Z.of_nat (length raw))) "trailing verification key bytes".

(** The offsets [preflightProof] inspects must hold compressed points. *)
Fixpoint proof_flags (raw : bytes) (offsets : list Z) : result unit :=
  match offsets with
  | [] => Ok tt
  | offset :: offsets =>
      b ← index raw offset;
      _ ← fail_if (negb (compressed_flag b)) "uncompressed proof point forbidden";
      proof_flags raw offsets
  end.

Definition countOffset : Z := 2 * SizeOfG1AffineCompressed + SizeOfG2AffineCompressed.

Definition proof_offsets (commitments : Z) : list Z :=
  [0; SizeOfG1AffineCompressed; SizeOfG1AffineCompressed + SizeOfG2AffineCompressed]
  ++ ((fun i => countOffset + 4 + Z.of_nat i * SizeOfG1AffineCompressed) <$> seq 0 (Z.to_nat (commitments + 1))).

Definition preflightProof (raw : bytes) (commitments : Z) : result unit :=
  let g1 := SizeOfG1AffineCompressed in
  _ ← fail_if ((commitments <? 0) || ((maxProofBytes - countOffset - 4 - g1) / g1 <? commitments))
        "invalid trusted commitment count";
  let expected := countOffset + 4 + g1 * (commitments + 1) in
  _ ← fail_if (negb (Z.of_nat (length raw) =? expected)) "wrong compressed proof size";
  _ ← fail_if (negb (be_dec (take 4 (drop (Z.to_nat countOffset) raw)) =? commitments mod 2 ^ 32))
        "proof commitment count differs from verification key";
  proof_flags raw (proof_offsets commitments).

Section defs.
Context `{CR : !Crypto, GR : !Groth16}.

Record Proof := mkProof {
  pf_Version : string;
  pf_CircuitHash : bytes;
  pf_KeyID : bytes;
  pf_Data : bytes;
}.

Record Signed := mkSigned {
  sg_Statement : Statement;
  sg_Proof : Proof;
}.

Record Prover := mkProver {
  pr_cs : CS;
  pr_pk : PK;
  pr_circuitHash : bytes;
  pr_keyID : bytes;
}.

Record Verifier := mkVerifier {
  v_vk : option VK;
  v_circuitHash : bytes;
  v_keyID : bytes;
}.

Record VerificationContext := mkVerificationContext {
  ctx_params : Params;
  ctx_accounts : list Account;
  ctx_issue : bytes;
  ctx_k : Z;
  ctx_vDigest : bytes;
}.

Definition NewVerificationContext (p : Params) (accounts : list Account) (issue : bytes) (k : Z)
    : result VerificationContext :=
  _ ← fail_if (k =? 0) "zero quota";
  _ ← ValidateParams p;
  _ ← Accumulate p accounts;
  rd ← RingDigest accounts;
  Ok {| ctx_params := p; ctx_accounts := accounts; ctx_issue := issue; ctx_k := k; ctx_vDigest := rd |}.

Definition Compile : result CS := gr_compile.

(** SHA-256 over what [WriteTo] writes. *)
Definition digestWriter (w : result bytes) : result bytes :=
  b ← w;
  Ok (sha256 b).

Definition ExpectedCircuitHash : result bytes :=
  cs ← Compile;
  digestWriter (cs_bytes cs).

Definition NewBackend (rand : Z) : result (Prover * Verifier) :=
  cs ← Compile;
  circuitHash ← wrap "hash compiled circuit" (digestWriter (cs_bytes cs));
  '(pk, vk) ← gr_setup cs rand;
  keyID ← digestWriter (vk_bytes vk);
  Ok ({| pr_cs := cs; pr_pk := pk; pr_circuitHash := circuitHash; pr_keyID := keyID |},
      {| v_vk := Some vk; v_circuitHash := circuitHash; v_keyID := keyID |}).

Definition newBig (n : option Z) : option Z := match n with None => None | Some n => Some n end.

Definition Prove (rand : Z) (p : Prover) (params : Params) (st : Statement) (witness : SecretWitness)
    : result Signed :=
  a ← Assignment params st witness;
  w ← new_witness a;
  proof ← gr_prove (pr_cs p) (pr_pk p) w rand;
  buf ← proof_bytes proof;
  let st := {| st_V := st_V st; st_Nym := st_Nym st; st_S := st_S st; st_T := st_T st;
               st_Issue := st_Issue st; st_RingDigest := st_RingDigest st;
               st_MessageDigest := st_MessageDigest st; st_Timestamp := st_Timestamp st;
               st_K := st_K st; st_R := newBig (st_R st) |} in
  Ok {| sg_Statement := st;
        sg_Proof := {| pf_Version := CircuitVersion; pf_CircuitHash := pr_circuitHash p;
                       pf_KeyID := pr_keyID p; pf_Data := buf |} |}.

Definition KeyBytes (v : Verifier) : result bytes :=
  vk ← deref (v_vk v);
  vk_bytes vk.

Definition loadVerifierForCircuit (key circuitHash keyID : bytes) (cs : CS) : result Verifier :=
  _ ← fail_if ((maxProofBytes <? Z.of_nat (length key)) || negb (bool_decide (sha256 key = keyID)))
        "verification key digest mismatch";
  expectedHash ← digestWriter (cs_bytes cs);
  _ ← fail_if (negb (bool_decide (circuitHash = expectedHash))) "circuit hash is not the compiled native profile";
  _ ← preflightVerifyingKey key;
  '(vk, rest) ← vk_read key;
  _ ← fail_if (negb (length rest =? 0)%nat) "trailing key bytes";
  match cs_commitments cs with
  | None => Err "wrong circuit commitment type"
  | Some commitments =>
      _ ← fail_if (negb (vk_K vk =? cs_public cs + commitments) || negb (vk_keys vk =? commitments)
                   || negb (bool_decide (vk_metadata vk = cs_metadata cs)))
            "verification key public/commitment layout differs from circuit";
      Ok {| v_vk := Some vk; v_circuitHash := circuitHash; v_keyID := keyID |}
  end.

Definition LoadVerifier (key circuitHash keyID : bytes) : result Verifier :=
  _ ← fail_if (maxProofBytes <? Z.of_nat (length key)) "oversized verifier key";
  _ ← fail_if (negb (bool_decide (sha256 key = keyID))) "verification key digest mismatch";
  _ ← preflightVerifyingKey key;
  cs ← Compile;
  loadVerifierForCircuit key circuitHash keyID cs.

Definition IDs (v : Verifier) : bytes * bytes := (v_circuitHash v, v_keyID v).

Definition check (ctx : VerificationContext) (message : bytes) (st : Statement) : result unit :=
  _ ← fail_if (negb (bool_decide (st_Issue st = ctx_issue ctx)) || negb (st_K st =? ctx_k ctx))
        "issue or quota mismatch";
  _ ← fail_if (negb (bool_decide (st_MessageDigest st = sha256 message))) "message mismatch";
  _ ← fail_if (negb (bool_decide (st_RingDigest st = ctx_vDigest ctx))) "ring digest mismatch";
  expected ← Accumulate (ctx_params ctx) (ctx_accounts ctx);
  _ ← fail_if (negb (bool_decide (st_V st = expected))) "ring accumulator mismatch";
  _ ← fail_if (negb (goodBN (st_Nym st)) || negb (goodSecp (st_S st)) || negb (goodSecp (st_T st)))
        "invalid signature point";
  _ ← fail_if (negb (canonicalNonzero (st_R st) (g_order Secp))) "invalid challenge";
  r ← Challenge st;
  fail_if (negb (bool_decide (Some r = st_R st))) "transcript challenge mismatch".

(** A nil verifier is [None]. *)
Definition Verify (v : option Verifier) (ctx : VerificationContext) (message : bytes) (signed : Signed)
    : result unit :=
  match v with
  | None => Err "missing verifier"
  | Some v =>
      match v_vk v with
      | None => Err "missing verifier"
      | Some vk =>
          let p := sg_Proof signed in
          _ ← fail_if (negb (bool_decide (pf_Version p = CircuitVersion))
                       || negb (bool_decide (pf_CircuitHash p = v_circuitHash v))
                       || negb (bool_decide (pf_KeyID p = v_keyID v)))
                "proof profile or key mismatch";
          _ ← check ctx message (sg_Statement signed);
          _ ← fail_if ((length (pf_Data p) =? 0)%nat || (maxProofBytes <? Z.of_nat (length (pf_Data p))))
                "invalid proof length";
          _ ← preflightProof (pf_Data p) (vk_keys vk);
          '(proof, rest) ← wrap "proof encoding" (proof_read (pf_Data p));
          _ ← fail_if (negb (length rest =? 0)%nat) "trailing proof bytes";
          assignment ← PublicAssignment (ctx_params ctx) (sg_Statement signed);
          public ← new_public assignment;
          wrap "proof rejected" (gr_verify proof vk public)
      end
  end.
End defs.
