(* ===== verification/BackendFacts.v ===== *)
(** * Properties of the backend

    The preflight parsers accept exactly the documented encodings; what an
    accepted signature establishes; a proof made from an honest statement
    verifies; a verifier survives its own serialization.

    gnark's documented behaviour is in two classes. [Groth16Laws]: keys made
    by [Setup] accept the proofs [Prove] makes for satisfying assignments,
    the encodings decode, and they have the layout of gnark's format.
    [KnowledgeSound]: an accepted proof comes from a satisfying assignment
    with the same public part, given by an extractor. The second is only
    assumed where a theorem is about arbitrary signers. *)

From S2P Require Import Prelude Bytes Sha256 Curve Profile Accumulator Circuit CircuitFacts.
From S2P Require Import Statements Backend.
From Stdlib Require Import Strings.Byte.

(** ** Encodings as grammars *)

(** One encoded point: its first byte decides its size. *)
Definition point_seg (sizes : Z * Z) (seg : bytes) : Prop :=
  exists b tl, seg = b :: tl /\
    Z.of_nat (length seg) = if compressed_flag b then sizes.1 else sizes.2.

(** A metadata row: a count and that many 8-byte entries. *)
Definition row_seg (row : bytes) : bytes := be_enc 4 (Z.of_nat (length row) / 8) ++ row.

Definition good_row (row : bytes) : Prop :=
  (8 | Z.of_nat (length row)) /\ Z.of_nat (length row) / 8 <= 2 ^ 16.

Record vk_layout (raw : bytes) (hdr ks rows cms : list bytes) : Prop := mk_vk_layout {
  vl_hdr : Forall2 point_seg [g1_sizes; g1_sizes; g2_sizes; g2_sizes; g1_sizes; g2_sizes] hdr;
  vl_ks : Forall (point_seg g1_sizes) ks;
  vl_nks : Z.of_nat (length ks) <= 2 ^ 16;
  vl_rows : Forall good_row rows;
  vl_nrows : Z.of_nat (length rows) <= 2 ^ 16;
  vl_total : Z.of_nat (length (concat rows)) / 8 <= 2 ^ 20;
  vl_cms : Forall (point_seg g2_sizes) cms;
  vl_ncms : (2 | Z.of_nat (length cms)) /\ Z.of_nat (length cms) / 2 <= 64;
  vl_raw : raw = concat hdr ++ be_enc 4 (Z.of_nat (length ks)) ++ concat ks
                 ++ be_enc 4 (Z.of_nat (length rows)) ++ concat (row_seg <$> rows)
                 ++ be_enc 4 (Z.of_nat (length cms) / 2) ++ concat cms;
}.

(** A compressed point of the given size. *)
Definition compressed_seg (size : nat) (seg : bytes) : Prop :=
  length seg = size /\ exists b tl, seg = b :: tl /\ compressed_flag b = true.

Record proof_layout (raw : bytes) (n : Z) (ar bs krs : bytes) (cms : list bytes) : Prop := mk_proof_layout {
  pl_ar : compressed_seg 32 ar;
  pl_bs : compressed_seg 64 bs;
  pl_krs : compressed_seg 32 krs;
  pl_cms : Forall (compressed_seg 32) cms;
  pl_ncms : Z.of_nat (length cms) = n + 1;
  pl_n : 0 <= n <= (2 ^ 20 - 128 - 4 - 32) / 32;
  pl_raw : raw = ar ++ bs ++ krs ++ be_enc 4 n ++ concat cms;
}.

(** ** Cursors *)

Abbreviation len l := (Z.of_nat (length l)).

Lemma index_app pre b rest : index (pre ++ b :: rest) (len pre) = Ok b.
Proof.
  unfold index. destruct (Z.ltb_spec (len pre) 0); [lia|]. by rewrite Nat2Z.id, list_lookup_middle.
Qed.

Lemma vk_point_spec pre rest sizes pos' :
  0 < sizes.1 -> 0 < sizes.2 ->
  vk_point (pre ++ rest) sizes.1 sizes.2 (len pre) = Ok pos' <->
  exists seg rest', rest = seg ++ rest' /\ point_seg sizes seg /\ pos' = len (pre ++ seg).
Proof.
  intros H1 H2. unfold vk_point. rewrite length_app. split.
  - intros E. go_inv E. bool_prop. subst pos'. destruct rest as [|b rest]; [cbn in *; lia|].
    rewrite index_app in Hc0. injection Hc0 as <-.
    set (size := if compressed_flag b then sizes.1 else sizes.2) in *.
    exists (take (Z.to_nat size) (b :: rest)), (drop (Z.to_nat size) (b :: rest)).
    rewrite take_drop, length_app, length_take. split; [done|].
    assert (0 < size) by (unfold size; by destruct (compressed_flag b)). cbn [length] in *. split; [|lia].
    exists b, (take (Z.to_nat size - 1) rest). fold size. split; [|rewrite length_take; cbn [length]; lia].
    destruct (Z.to_nat size) as [|n] eqn:E; [lia|]. cbn. by rewrite Nat.sub_0_r.
  - intros (seg & rest' & -> & (b & tl & -> & Hl) & ->). cbn [app].
    rewrite index_app. repeat (rewrite length_app in * || cbn [length] in *).
    destruct (Z.leb_spec (Z.of_nat (length pre + (S (length tl + length rest')))) (len pre)); [lia|].
    cbn [fail_if mbind result_bind].
    generalize dependent (if compressed_flag b then sizes.1 else sizes.2). intros size Hl.
    destruct (Z.leb_spec size 0); [lia|].
    destruct (Z.ltb_spec (Z.of_nat (length pre + S (length tl + length rest')) - len pre) size); [lia|].
    cbn [orb fail_if mbind result_bind]. f_equal. lia.
Qed.

Lemma vk_points_spec sizes pre rest pos' :
  Forall (fun s => 0 < s.1 /\ 0 < s.2) sizes ->
  vk_points (pre ++ rest) sizes (len pre) = Ok pos' <->
  exists segs rest', rest = concat segs ++ rest' /\ Forall2 point_seg sizes segs /\
    pos' = len (pre ++ concat segs).
Proof.
  intros HF. revert pre rest. induction HF as [|[c u] sizes [Hc Hu] _ IH]; intros pre rest; cbn [vk_points].
  - split.
    + intros [= <-]. exists [], rest. split; [done|]. split; [constructor|]. cbn. by rewrite app_nil_r.
    + intros (segs & rest' & -> & HF & ->). apply Forall2_nil_inv_l in HF as ->. cbn. by rewrite app_nil_r.
  - rewrite bind_Ok. split.
    + intros (pos & (seg & rest1 & -> & Hs & ->)%(vk_point_spec _ _ (c, u)) & E); [|done..].
      rewrite app_assoc in E. apply IH in E as (segs & rest' & -> & HF & ->).
      exists (seg :: segs), rest'. cbn [concat]. rewrite !app_assoc. split; [done|]. split; [by constructor|done].
    + intros (segs & rest' & -> & HF & ->). apply Forall2_cons_inv_l in HF as (seg & segs' & Hs & HF & ->).
      exists (len (pre ++ seg)). split.
      * apply (vk_point_spec _ _ (c, u)); [done..|]. cbn [concat]. rewrite <- app_assoc. eauto.
      * cbn [concat]. rewrite <- (app_assoc seg), (app_assoc pre). apply IH. exists segs', rest'.
        by rewrite <- app_assoc.
Qed.

Lemma vk_readU32_spec pre rest n pos' :
  vk_readU32 (pre ++ rest) (len pre) = Ok (n, pos') <->
  exists rest', rest = be_enc 4 n ++ rest' /\ 0 <= n < 2 ^ 32 /\ pos' = len (pre ++ be_enc 4 n).
Proof.
  unfold vk_readU32. rewrite length_app, Nat2Z.id, drop_app_length. split.
  - intros E. go_inv E. bool_prop. subst. exists (drop 4 rest).
    assert (length (take 4 rest) = 4%nat) as Hl by (rewrite length_take; lia).
    pose proof (be_dec_range (take 4 rest)) as Hr. rewrite Hl in Hr.
    rewrite be_enc_dec, take_drop, length_app, Hl by done. split; [done|]. split; [done|lia].
  - intros (rest' & -> & Hn & ->). rewrite !length_app, length_be_enc.
    destruct (Z.ltb_spec (Z.of_nat (length pre + (4 + length rest')) - len pre) 4); [lia|].
    cbn [fail_if mbind result_bind]. rewrite take_app_length', be_dec_enc_small by (try apply length_be_enc; done).
    do 2 f_equal. lia.
Qed.

Lemma vk_count_spec pre rest e n pos' :
  vk_count (pre ++ rest) e (len pre) = Ok (n, pos') <->
  exists rest', rest = be_enc 4 n ++ rest' /\ 0 <= n <= 2 ^ 16 /\ pos' = len (pre ++ be_enc 4 n).
Proof.
  unfold vk_count. split.
  - destruct (vk_readU32 _ _) as [[n' pos]|] eqn:E; [|done]. intros E2. go_inv E2. subst. bool_prop.
    apply vk_readU32_spec in E as (rest' & -> & ? & ->). unfold maxEntries in *. eauto with lia.
  - intros (rest' & Hr & Hn & Hp). rewrite (proj2 (vk_readU32_spec _ _ n pos')) by eauto with lia.
    unfold maxEntries. by destruct (Z.ltb_spec (2 ^ 16) n); [lia|].
Qed.

(** The parsers as steps: each consumes a segment of the unread rest. *)
Section steps.
Context {A : Type} (a : A) (pre : bytes).

Lemma bind_points sizes rest (k : Z -> result A) :
  Forall (fun s => 0 < s.1 /\ 0 < s.2) sizes ->
  vk_points (pre ++ rest) sizes (len pre) ≫= k = Ok a <->
  exists segs rest', rest = concat segs ++ rest' /\ Forall2 point_seg sizes segs /\
    k (len (pre ++ concat segs)) = Ok a.
Proof. intros HF. rewrite bind_Ok. setoid_rewrite (vk_points_spec sizes); [naive_solver|done]. Qed.

Lemma bind_count rest e (k : Z * Z -> result A) :
  vk_count (pre ++ rest) e (len pre) ≫= k = Ok a <->
  exists n rest', rest = be_enc 4 n ++ rest' /\ 0 <= n <= 2 ^ 16 /\ k (n, len (pre ++ be_enc 4 n)) = Ok a.
Proof.
  rewrite bind_Ok. split.
  - intros ([n pos] & (rest' & ? & ? & ->)%vk_count_spec & ?). eauto.
  - intros (n & rest' & ? & ? & ?). exists (n, len (pre ++ be_enc 4 n)). split; [|done].
    apply vk_count_spec. eauto.
Qed.

Lemma bind_readU32 rest (k : Z * Z -> result A) :
  vk_readU32 (pre ++ rest) (len pre) ≫= k = Ok a <->
  exists n rest', rest = be_enc 4 n ++ rest' /\ 0 <= n < 2 ^ 32 /\ k (n, len (pre ++ be_enc 4 n)) = Ok a.
Proof.
  rewrite bind_Ok. split.
  - intros ([n pos] & (rest' & ? & ? & ->)%vk_readU32_spec & ?). eauto.
  - intros (n & rest' & ? & ? & ?). exists (n, len (pre ++ be_enc 4 n)). split; [|done].
    apply vk_readU32_spec. eauto.
Qed.

Lemma bind_fail_if b e (k : unit -> result A) : fail_if b e ≫= k = Ok a <-> b = false /\ k tt = Ok a.
Proof. destruct b; cbn; naive_solver. Qed.
End steps.

Lemma vk_rows_spec n total pre rest pos' :
  0 <= total <= 2 ^ 20 ->
  vk_rows (pre ++ rest) n total (len pre) = Ok pos' <->
  exists rows rest', length rows = n /\ rest = concat (row_seg <$> rows) ++ rest' /\ Forall good_row rows /\
    total + len (concat rows) / 8 <= 2 ^ 20 /\ pos' = len (pre ++ concat (row_seg <$> rows)).
Proof.
  revert total pre rest. induction n as [|n IH]; intros total pre rest Ht; cbn [vk_rows].
  - split.
    + intros [= <-]. exists [], rest. cbn. rewrite app_nil_r. split_and!; try done. rewrite Zdiv_0_l. lia.
    + intros (rows & rest' & ->%length_zero_iff_nil & -> & _ & _ & ->). cbn. by rewrite app_nil_r.
  - assert (forall row rows, good_row row ->
      len (row ++ concat rows) / 8 = len row / 8 + len (concat rows) / 8) as Hsum.
    { intros row rows [[q Hq] _]. rewrite length_app. zlia. }
    split.
    + intros (inner & rest1 & -> & Hn & [Hb E2]%bind_fail_if)%bind_count. bool_prop.
      rewrite (app_assoc pre), (length_app _ rest1) in *.
      set (row := take (Z.to_nat (inner * 8)) rest1).
      assert (len row = inner * 8) as Hrow by (unfold row; rewrite length_take; lia).
      assert (good_row row) as Hg by (split; [exists inner; lia | rewrite Hrow, Z.div_mul by lia; lia]).
      assert (row_seg row = be_enc 4 inner ++ row) as Hseg by (unfold row_seg; by rewrite Hrow, Z.div_mul by lia).
      replace (len (pre ++ be_enc 4 inner) + inner * 8) with (len ((pre ++ be_enc 4 inner) ++ row)) in E2
        by (rewrite (length_app _ row); lia).
      rewrite <- (take_drop (Z.to_nat (inner * 8)) rest1) in E2. fold row in E2. rewrite (app_assoc _ row) in E2.
      apply IH in E2 as (rows & rest' & <- & Hrest & HF & Htot & ->); [|lia].
      exists (row :: rows), rest'. split; [done|]. cbn [fmap list_fmap concat]. rewrite Hseg.
      split; [by rewrite <- (take_drop (Z.to_nat (inner * 8)) rest1), Hrest, <- !app_assoc|].
      split; [by constructor|]. rewrite Hsum, Hrow, Z.div_mul by (done || lia). split; [lia|].
      by rewrite <- !app_assoc.
    + intros (rows & rest' & Hl & -> & HF & Htot & ->). destruct rows as [|row rows]; [done|].
      injection Hl as <-. apply Forall_cons in HF as [Hg HF]. cbn [concat] in Htot. rewrite Hsum in Htot by done.
      pose proof (Zle_0_nat (length (concat rows))).
      destruct Hg as [[inner Hi] Hb]. rewrite Hi, Z.div_mul in Hb, Htot by lia.
      assert (row_seg row = be_enc 4 inner ++ row) as Hseg by (unfold row_seg; by rewrite Hi, Z.div_mul by lia).
      cbn [fmap list_fmap concat] in *. rewrite Hseg in *. rewrite <- !app_assoc in *.
      apply bind_count. exists inner. eexists. split; [done|]. split; [lia|].
      apply bind_fail_if. split.
      { apply orb_false_iff. rewrite !Z.ltb_ge, !length_app. zlia. }
      replace (len (pre ++ be_enc 4 inner) + inner * 8) with (len (pre ++ be_enc 4 inner ++ row))
        by (rewrite !length_app; lia).
      replace (pre ++ be_enc 4 inner ++ row ++ concat (row_seg <$> rows) ++ rest')
        with ((pre ++ be_enc 4 inner ++ row) ++ concat (row_seg <$> rows) ++ rest') by (by rewrite <- !app_assoc).
      apply IH; [zlia|]. exists rows, rest'. split_and!; try done; [lia|by rewrite <- !app_assoc].
Qed.

Lemma sizes_pos l : Forall (fun s => s = g1_sizes \/ s = g2_sizes) l -> Forall (fun s : Z * Z => 0 < s.1 /\ 0 < s.2) l.
Proof. intros H. eapply Forall_impl; [exact H|]. by intros s [-> | ->]. Qed.

Lemma Forall2_replicate_l {A B} (P : A -> B -> Prop) n x l :
  Forall2 P (replicate n x) l <-> Forall (P x) l /\ length l = n.
Proof.
  split.
  - intros H. split; [|apply Forall2_length in H; by rewrite length_replicate in H].
    by eapply Forall2_Forall_r; [done|]; apply Forall_replicate; eauto.
  - intros [H <-]. apply Forall2_same_length_lookup. split; [by rewrite length_replicate|].
    intros i a b Ha Hb. apply lookup_replicate in Ha as [-> _]. by eapply Forall_lookup in H.
Qed.

Lemma concat_replicate_2 {A} (x : A) n : concat (replicate n [x; x]) = replicate (2 * n) x.
Proof. induction n as [|n IH]; [done|]. replace (2 * S n)%nat with (S (S (2 * n))) by lia. cbn. by rewrite IH. Qed.

Lemma bind_rows {A} (a : A) n pre rest (k : Z -> result A) :
  vk_rows (pre ++ rest) n 0 (len pre) ≫= k = Ok a <->
  exists rows rest', length rows = n /\ rest = concat (row_seg <$> rows) ++ rest' /\ Forall good_row rows /\
    len (concat rows) / 8 <= 2 ^ 20 /\ k (len (pre ++ concat (row_seg <$> rows))) = Ok a.
Proof. rewrite bind_Ok. setoid_rewrite (vk_rows_spec n 0); [naive_solver|done]. Qed.

Ltac sizes := by apply sizes_pos; repeat constructor; auto using Forall_replicate.

Lemma preflightVerifyingKey_Ok raw :
  preflightVerifyingKey raw = Ok tt <-> exists hdr ks rows cms, vk_layout raw hdr ks rows cms.
Proof.
  unfold preflightVerifyingKey. rewrite (bind_points _ [] _ raw) by sizes. cbn [app]. split.
  - intros (hdr & r1 & -> & Hhdr & (nk & r2 & -> & Hnk & E)%bind_count). rewrite app_assoc in E.
    apply bind_points in E as (ks & r3 & -> & [Hks Hlk]%Forall2_replicate_l & E);
      [|apply sizes_pos, Forall_replicate; auto].
    rewrite app_assoc in E. apply bind_count in E as (nr & r4 & -> & Hnr & E). rewrite app_assoc in E.
    apply bind_rows in E as (rows & r5 & Hlr & -> & Hrows & Htot & E). rewrite app_assoc in E.
    apply bind_readU32 in E as (nc & r6 & -> & Hnc & [Hb E]%bind_fail_if). rewrite app_assoc in E.
    rewrite concat_replicate_2 in E.
    apply bind_points in E as (cms & r7 & -> & [Hcms Hlc]%Forall2_replicate_l & E);
      [|apply sizes_pos, Forall_replicate; auto].
    rewrite fail_if_Ok in E. bool_prop. rewrite !length_app in E.
    assert (r7 = []) as -> by (destruct r7; [done|cbn [length] in *; lia]).
    assert (nk = len ks) as -> by lia. assert (nr = len rows) as -> by lia.
    assert (nc = len cms / 2) as -> by zlia.
    exists hdr, ks, rows, cms. constructor; try done; try lia.
    + split; [exists (len cms / 2); zlia|done].
    + by rewrite app_nil_r.
  - intros (hdr & ks & rows & cms & [Hhdr Hks Hnk Hrows Hnr Htot Hcms [Hev Hnc] ->]).
    eexists hdr, _. split; [done|]. split; [done|]. apply bind_count. eexists (len ks), _. split; [done|].
    split; [lia|]. rewrite app_assoc. apply bind_points; [apply sizes_pos, Forall_replicate; auto|].
    eexists ks, _. split; [done|]. split; [apply Forall2_replicate_l; split; [done|lia]|].
    rewrite app_assoc. apply bind_count. eexists (len rows), _. split; [done|]. split; [lia|].
    rewrite app_assoc. apply bind_rows. eexists rows, _. split; [lia|]. split; [done|]. split; [done|].
    split; [done|]. rewrite app_assoc. apply bind_readU32. eexists (len cms / 2), _. split; [done|].
    split; [zlia|]. apply bind_fail_if. split; [by apply Z.ltb_ge|].
    rewrite concat_replicate_2, app_assoc, <- (app_nil_r (concat cms)).
    apply bind_points; [apply sizes_pos, Forall_replicate; auto|]. exists cms, []. split; [done|].
    split; [apply Forall2_replicate_l; split; [done|destruct Hev; zlia]|].
    by rewrite fail_if_Ok, app_nil_r, Z.eqb_refl.
Qed.

(** ** Proof encodings *)

Definition flag_at (raw : bytes) (offset : Z) : Prop :=
  exists b, index raw offset = Ok b /\ compressed_flag b = true.

Lemma proof_flags_Ok raw offsets : proof_flags raw offsets = Ok tt <-> Forall (flag_at raw) offsets.
Proof.
  induction offsets as [|o offsets IH]; cbn [proof_flags]; [by rewrite Forall_nil|].
  rewrite bind_Ok, Forall_cons, <- IH. setoid_rewrite bind_fail_if. setoid_rewrite negb_false_iff.
  unfold flag_at. naive_solver.
Qed.

Lemma flag_seg pre seg post size offset :
  offset = len pre -> length seg = S size ->
  flag_at (pre ++ seg ++ post) offset <-> compressed_seg (S size) seg.
Proof.
  intros -> Hl. destruct seg as [|b tl]; [done|]. unfold flag_at, compressed_seg. cbn [app].
  rewrite index_app. naive_solver.
Qed.

Lemma concat_chunks {A} (k m : nat) (l : list A) :
  length l = (k * m)%nat ->
  exists segs, l = concat segs /\ length segs = m /\ Forall (fun s => length s = k) segs.
Proof.
  revert l. induction m as [|m IH]; intros l Hl.
  - exists []. destruct l; [done|cbn in Hl; lia].
  - destruct (IH (drop k l)) as (segs & E & Hm & HF); [rewrite length_drop; lia|].
    exists (take k l :: segs). cbn [concat length]. rewrite <- E, take_drop, Hm. split; [done|]. split; [done|].
    constructor; [rewrite length_take; lia|done].
Qed.

Lemma length_concat_const {A} k (segs : list (list A)) :
  Forall (fun s => length s = k) segs -> length (concat segs) = (k * length segs)%nat.
Proof. induction 1 as [|s segs Hs _ IH]; cbn; [lia|]. rewrite length_app, Hs, IH. lia. Qed.

(** The fixed split of an encoded proof, before its flags are known. *)
Lemma proof_split (raw : bytes) (m : nat) :
  length raw = (132 + 32 * m)%nat ->
  exists ar bs krs cnt cms, raw = ar ++ bs ++ krs ++ cnt ++ concat cms /\
    length ar = 32%nat /\ length bs = 64%nat /\ length krs = 32%nat /\ length cnt = 4%nat /\
    length cms = m /\ Forall (fun s => length s = 32%nat) cms.
Proof.
  intros Hl. destruct (concat_chunks 32 m (drop 132 raw)) as (cms & E & Hm & HF); [rewrite length_drop; lia|].
  exists (take 32 raw), (take 64 (drop 32 raw)), (take 32 (drop 96 raw)), (take 4 (drop 128 raw)), cms.
  rewrite <- E. split; [|rewrite !length_take, !length_drop; split_and!; try lia; done].
  replace (drop 132 raw) with (drop 4 (drop 128 raw)) by (by rewrite drop_drop). rewrite take_drop.
  replace (drop 128 raw) with (drop 32 (drop 96 raw)) by (by rewrite drop_drop). rewrite take_drop.
  replace (drop 96 raw) with (drop 64 (drop 32 raw)) by (by rewrite drop_drop). by rewrite !take_drop.
Qed.

Lemma flags_cms pre cms k :
  Forall (fun s => length s = S k) cms ->
  Forall (flag_at (pre ++ concat cms))
    ((fun i => len pre + Z.of_nat i * Z.of_nat (S k)) <$> seq 0 (length cms))
  <-> Forall (compressed_seg (S k)) cms.
Proof.
  revert pre. induction cms as [|s cms IH]; intros pre HF; cbn [length seq concat]; [by rewrite !Forall_nil|].
  apply Forall_cons in HF as [Hs HF]. rewrite fmap_cons, !Forall_cons.
  rewrite (flag_seg pre s (concat cms) k) by (done || lia).
  rewrite <- (IH (pre ++ s)) by done. rewrite <- fmap_S_seq, <- list_fmap_compose, <- app_assoc.
  rewrite length_app, Hs.
  replace ((fun i => len pre + Z.of_nat i * Z.of_nat (S k)) ∘ S <$> seq 0 (length cms))
    with ((fun i => Z.of_nat (length pre + S k) + Z.of_nat i * Z.of_nat (S k)) <$> seq 0 (length cms)); [done|].
  apply list_fmap_ext. intros i x _. cbn. lia.
Qed.

Lemma proof_split_flags (ar bs krs cnt : bytes) (cms : list bytes) :
  length ar = 32%nat -> length bs = 64%nat -> length krs = 32%nat ->
  length cnt = 4%nat -> Forall (fun s => length s = 32%nat) cms ->
  let raw := ar ++ bs ++ krs ++ cnt ++ concat cms in
  take 4 (drop 128 raw) = cnt /\
  (flag_at raw 0 <-> compressed_seg 32 ar) /\ (flag_at raw 32 <-> compressed_seg 64 bs) /\
  (flag_at raw 96 <-> compressed_seg 32 krs) /\
  (Forall (flag_at raw) ((fun i => 132 + Z.of_nat i * 32) <$> seq 0 (length cms))
   <-> Forall (compressed_seg 32) cms).
Proof.
  intros Ha Hb Hk Hc Hcms raw'. subst raw'. split_and!.
  - replace (ar ++ bs ++ krs ++ cnt ++ concat cms) with ((ar ++ bs ++ krs) ++ cnt ++ concat cms)
      by (by rewrite <- !app_assoc).
    rewrite drop_app_length' by (rewrite !length_app; lia). by rewrite take_app_length'.
  - apply (flag_seg []); done.
  - apply (flag_seg ar); [lia|done].
  - rewrite (app_assoc ar). apply flag_seg; [rewrite length_app; lia|done].
  - replace (ar ++ bs ++ krs ++ cnt ++ concat cms) with ((ar ++ bs ++ krs ++ cnt) ++ concat cms)
      by (by rewrite <- !app_assoc).
    rewrite <- (flags_cms (ar ++ bs ++ krs ++ cnt) cms 31) by done.
    rewrite !length_app, Ha, Hb, Hk, Hc. done.
Qed.

Lemma preflightProof_Ok raw n :
  preflightProof raw n = Ok tt <-> exists ar bs krs cms, proof_layout raw n ar bs krs cms.
Proof.
  unfold preflightProof, proof_offsets, countOffset, SizeOfG1AffineCompressed, SizeOfG2AffineCompressed, maxProofBytes.
  rewrite !bind_fail_if, proof_flags_Ok, orb_false_iff, Z.ltb_ge, Z.ltb_ge, !negb_false_iff, !Z.eqb_eq.
  change (2 * 32 + 64) with 128. change (128 + 4) with 132. change (32 + 64) with 96.
  rewrite Forall_app, !Forall_cons, Forall_nil. change (Z.to_nat 128) with 128%nat. split.
  - intros ([Hn1 Hn2] & Hl & Hcnt & (Hf1 & Hf2 & Hf3 & _) & Hf4).
    destruct (proof_split raw (Z.to_nat (n + 1))) as (ar & bs & krs & cnt & cms & -> & Ha & Hb & Hk & Hc & Hm & HF);
      [zlia|].
    destruct (proof_split_flags ar bs krs cnt cms Ha Hb Hk Hc HF) as (Ec & F1 & F2 & F3 & F4). cbv zeta in *.
    rewrite Ec in Hcnt. rewrite <- Hm in Hf4. exists ar, bs, krs, cms. constructor; try tauto; try lia.
    do 3 f_equal. rewrite <- (be_enc_dec cnt 4 Hc), Hcnt. rewrite Z.mod_small; [done|zlia].
  - intros (ar & bs & krs & cms & [Ha Hb Hk Hcms Hm Hn ->]).
    assert (Forall (fun s : bytes => length s = 32%nat) cms) as HF
      by (eapply Forall_impl; [exact Hcms|]; by intros s [? _]).
    destruct (proof_split_flags ar bs krs (be_enc 4 n) cms (proj1 Ha) (proj1 Hb) (proj1 Hk) eq_refl HF)
      as (Ec & F1 & F2 & F3 & F4). cbv zeta in *. rewrite Ec, be_dec_enc_small by (cbn; zlia).
    replace (Z.to_nat (n + 1)) with (length cms) by lia.
    split; [lia|]. split; [|split; [symmetry; apply Z.mod_small; zlia|tauto]].
    rewrite !length_app, length_be_enc, (length_concat_const _ _ HF).
    destruct Ha as [-> _], Hb as [-> _], Hk as [-> _]. lia.
Qed.

(** ** The proof system *)

Section laws.
Context `{CR : !Crypto, GR : !Groth16}.

Class Groth16Laws : Prop := {
  (* every assignment has a witness, and the public part of it *)
  witness_total c : exists w, new_witness c = Ok w;
  public_total u : exists w, new_public u = Ok w;
  (* groth16.Prove succeeds on satisfying assignments, and what it returns verifies *)
  prove_complete cs rho pk vk c w rho' :
    gr_compile = Ok cs -> gr_setup cs rho = Ok (pk, vk) -> new_witness c = Ok w ->
    native_canonical c -> Define c = Ok tt -> exists pi, gr_prove cs pk w rho' = Ok pi;
  prove_verifies cs rho pk vk c w u rho' pi :
    gr_compile = Ok cs -> gr_setup cs rho = Ok (pk, vk) -> new_witness c = Ok w -> native_canonical c ->
    new_public (c_public c) = Ok u -> gr_prove cs pk w rho' = Ok pi -> gr_verify pi vk u = Ok tt;
  (* WriteTo / ReadFrom of proofs, in the compressed format *)
  proof_encoding cs rho pk vk w rho' pi :
    gr_compile = Ok cs -> gr_setup cs rho = Ok (pk, vk) -> gr_prove cs pk w rho' = Ok pi ->
    exists raw ar bs krs cms, proof_bytes pi = Ok raw /\ proof_layout raw (vk_keys vk) ar bs krs cms /\
      forall rest, proof_read (raw ++ rest) = Ok (pi, rest);
  (* WriteTo / ReadFrom of verifying keys *)
  vk_encoding cs rho pk vk raw :
    gr_compile = Ok cs -> gr_setup cs rho = Ok (pk, vk) -> vk_bytes vk = Ok raw ->
    (exists hdr ks rows cms, vk_layout raw hdr ks rows cms) /\ forall rest, vk_read (raw ++ rest) = Ok (vk, rest);
  (* the layout of a key made for a circuit *)
  vk_for_circuit cs rho pk vk :
    gr_compile = Ok cs -> gr_setup cs rho = Ok (pk, vk) ->
    exists n, cs_commitments cs = Some n /\ 0 <= n <= 64 /\ vk_keys vk = n /\ vk_K vk = cs_public cs + n /\
      vk_metadata vk = cs_metadata cs;
}.

(** An accepted proof has a satisfying secret part, found by [extract]. *)
Class KnowledgeSound := {
  extract : VK -> GProof -> CircuitPublic -> CircuitSecret;
  extract_sound cs rho pk vk pi u w :
    gr_compile = Ok cs -> gr_setup cs rho = Ok (pk, vk) -> new_public u = Ok w -> gr_verify pi vk w = Ok tt ->
    0 <= c_Counter (extract vk pi u) < g_order BN /\ Define (mkCircuit u (extract vk pi u)) = Ok tt;
}.

(** A verifier with a key made for the compiled circuit. *)
Definition trusted (v : Verifier) (vk : VK) : Prop :=
  v_vk v = Some vk /\ exists cs rho pk, gr_compile = Ok cs /\ gr_setup cs rho = Ok (pk, vk).
End laws.
#[global] Arguments Groth16Laws {CR} GR.
#[global] Arguments KnowledgeSound {CR} GR.

Section facts.
Context `{CR : !Crypto, CL : !CryptoLaws, GR : !Groth16}.
Abbreviation F := (g_order BN).
Abbreviation ell := (g_order Secp).

(** ** What verification checks *)

Lemma check_Ok ctx m st :
  check ctx m st = Ok tt <->
  (st_Issue st = ctx_issue ctx /\ st_K st = ctx_k ctx /\ st_MessageDigest st = sha256 m /\
   st_RingDigest st = ctx_vDigest ctx) /\
  Accumulate (ctx_params ctx) (ctx_accounts ctx) = Ok (st_V st) /\
  (good (st_Nym st) = true /\ good (st_S st) = true /\ good (st_T st) = true) /\
  exists r, st_R st = Some r /\ 0 < r < ell /\ Challenge st = Ok r.
Proof.
  unfold check. rewrite !bind_fail_if, !orb_false_iff, !negb_false_iff, !bool_decide_eq_true, Z.eqb_eq, bind_Ok.
  split.
  - intros ((HI & HK) & HM & HR & (v & HV & E)). go_inv E. bool_prop. subst v.
    destruct (st_R st) as [r|] eqn:ER; [|done]. rename select (Challenge st = _) into HC.
    rename select (Some _ = Some r) into Er. injection Er as ->.
    split; [done|]. split; [done|]. split; [done|]. exists r. split; [done|].
    by rewrite <- canonicalNonzero_Some.
  - intros ((HI & HK & HM & HR) & HV & (G1 & G2 & G3) & (r & ER & Hr & HC)).
    split; [done|]. split; [done|]. split; [done|]. exists (st_V st). split; [done|].
    unfold goodBN, goodSecp. rewrite G1, G2, G3, ER. rewrite (proj2 (canonicalNonzero_Some r ell) Hr).
    rewrite bool_decide_eq_true_2 by done. cbn [negb orb fail_if mbind result_bind]. rewrite HC.
    cbn [mbind result_bind]. by rewrite bool_decide_eq_true_2.
Qed.

(** The checks of [Verify] after the context check. *)
Record accepted (v : Verifier) (ctx : VerificationContext) (sg : Signed) (vk : VK) (pi : GProof)
    (u : CircuitPublic) (w : PublicWitness) : Prop := mk_accepted {
  ac_vk : v_vk v = Some vk;
  ac_version : pf_Version (sg_Proof sg) = CircuitVersion;
  ac_circuit : pf_CircuitHash (sg_Proof sg) = v_circuitHash v;
  ac_key : pf_KeyID (sg_Proof sg) = v_keyID v;
  ac_layout : preflightProof (pf_Data (sg_Proof sg)) (vk_keys vk) = Ok tt;
  ac_proof : proof_read (pf_Data (sg_Proof sg)) = Ok (pi, []);
  ac_public : PublicAssignment (ctx_params ctx) (sg_Statement sg) = Ok u;
  ac_witness : new_public u = Ok w;
  ac_verify : gr_verify pi vk w = Ok tt;
}.

Lemma preflightProof_length raw n : preflightProof raw n = Ok tt -> 0 < len raw <= maxProofBytes.
Proof.
  intros (ar & bs & krs & cms & [Ha Hb Hk Hcms Hm Hn ->])%preflightProof_Ok. unfold maxProofBytes.
  rewrite !length_app, length_be_enc, (length_concat_const 32 cms);
    [|eapply Forall_impl; [exact Hcms|]; by intros s [? _]].
  destruct Ha as [-> _], Hb as [-> _], Hk as [-> _]. zlia.
Qed.

Lemma Verify_Ok v ctx m sg :
  Verify (Some v) ctx m sg = Ok tt <->
  check ctx m (sg_Statement sg) = Ok tt /\ exists vk pi u w, accepted v ctx sg vk pi u w.
Proof.
  unfold Verify. destruct (v_vk v) as [vk|] eqn:Evk.
  2: { split; [done|]. intros (_ & vk & pi & u & w & []). congruence. }
  split.
  - intros E. go_inv E. destruct a3 as [pi rest]. go_inv E. bool_prop. destruct a, a0, a1, a2, a3. split; [done|].
    exists vk, pi, a4, a5. constructor; try done.
    destruct rest; [done|]. cbn in *. done.
  - intros (HC & vk' & pi & u & w & []). assert (vk' = vk) as -> by congruence.
    pose proof (preflightProof_length _ _ ac_layout0) as Hl.
    rewrite !bool_decide_eq_true_2 by done. cbn [negb orb fail_if mbind result_bind]. rewrite HC.
    destruct (Nat.eqb_spec (length (pf_Data (sg_Proof sg))) 0); [lia|].
    destruct (Z.ltb_spec maxProofBytes (len (pf_Data (sg_Proof sg)))); [lia|].
    cbn [negb orb fail_if mbind result_bind]. rewrite ac_layout0, ac_proof0. cbn. rewrite ac_public0.
    cbn. rewrite ac_witness0. cbn. by rewrite ac_verify0.
Qed.

(** ** Honest proofs verify *)

Lemma NewBackend_Ok rand pr v :
  NewBackend rand = Ok (pr, v) ->
  exists cs pk vk raw, gr_compile = Ok cs /\ gr_setup cs rand = Ok (pk, vk) /\ vk_bytes vk = Ok raw /\
    pr_cs pr = cs /\ pr_pk pr = pk /\ v_vk v = Some vk /\ v_keyID v = sha256 raw /\ pr_keyID pr = v_keyID v /\
    pr_circuitHash pr = v_circuitHash v /\ digestWriter (cs_bytes cs) = Ok (v_circuitHash v).
Proof.
  unfold NewBackend, Compile. intros E. go_inv E. rename select (gr_setup _ _ = _) into HS.
  destruct a1 as [pk vk]. go_inv E. subst pr v. rename select (digestWriter (vk_bytes _) = _) into HV.
  unfold digestWriter in HV. go_inv HV. subst. exists a, pk, vk, a2. done.
Qed.

Lemma NewVerificationContext_Ok p accounts issue k ctx :
  NewVerificationContext p accounts issue k = Ok ctx <->
  k <> 0 /\ is_ok (Accumulate p accounts) = true /\ exists rd, RingDigest accounts = Ok rd /\
  ctx = mkVerificationContext p accounts issue k rd.
Proof using CL.
  unfold NewVerificationContext. rewrite bind_fail_if, Z.eqb_neq. split.
  - intros [Hk E]. go_inv E. subst. split; [done|]. split; [|eauto].
    apply is_ok_exists. eauto.
  - intros (Hk & (v & HA)%is_ok_exists & rd & HR & ->). split; [done|].
    assert (ValidateParams p = Ok tt) as ->.
    { apply Accumulate_Ok in HA as (tau & _ & Hs & _). apply ValidateParams_srs. eauto. }
    cbn [mbind result_bind]. rewrite HA. cbn [mbind result_bind]. by rewrite HR.
Qed.

Lemma Made_public p accounts i x d issue md ts k cnt st w bases s t r ut a c :
  Made p accounts i x d issue md ts k cnt st w bases s t r ut a -> Assignment p st w = Ok c ->
  PublicAssignment p st = Ok (c_public c).
Proof.
  intros [Mc Mi Macc Mat Mma MV MW Mr Ms Mb Mn Mch Mut Mds Mdt MS MT Mtg Min Msec] E. destruct Msec as (HX & HD & _). unfold Assignment in E. rewrite HX, HD in E.
  go_inv E. by subst c.
Qed.

Lemma Made_check p accounts i x d issue m ts k cnt st w bases s t r ut a ctx :
  Made p accounts i x d issue (sha256 m) ts k cnt st w bases s t r ut a ->
  NewVerificationContext p accounts issue k = Ok ctx -> check ctx m st = Ok tt.
Proof using CL.
  intros [Mc Mi Macc Mat Mma MV MW Mr Ms Mb Mn Mch Mut Mds Mdt MS MT Mtg Min Msec] (_ & _ & rd & HRD & ->)%NewVerificationContext_Ok. apply check_Ok. cbn.
  destruct Min as (EI & EM & ET & EK), Mtg, Mn, Mch as [HC ER].
  split_and!; try done; [congruence|]. exists r. split; [done|]. split; [|done].
  by apply Challenge_Ok in HC as (_ & _ & HRr%HashScalar_range).
Qed.

Lemma newBig_id n : newBig n = n.
Proof. by destruct n. Qed.

Lemma prove_honest `{GL : !Groth16Laws GR} rand pr v rand' p accounts i x d issue m ts k cnt st w ctx :
  NewBackend rand = Ok (pr, v) ->
  MakeStatement p accounts i x d issue (sha256 m) ts k cnt = Ok (st, w) ->
  NewVerificationContext p accounts issue k = Ok ctx ->
  0 <= cnt -> k < 2 ^ 32 -> 0 <= ts < 2 ^ 64 -> ts < F ->
  exists sg, Prove rand' pr p st w = Ok sg /\ sg_Statement sg = st /\ Verify (Some v) ctx m sg = Ok tt /\
    0 < len (pf_Data (sg_Proof sg)) <= maxProofBytes.
Proof using CL.
  intros (cs & pk & vk & raw & Hcs & Hset & Hraw & Ecs & Epk & Evk & EID & EKID & EH & _)%NewBackend_Ok.
  intros HM Hctx Hcnt Hk Hts HtsF.
  destruct (Assignment_complete _ _ _ _ _ _ _ _ _ _ _ _ HM Hcnt Hk Hts HtsF) as (c & HA & HD).
  apply MakeStatement_inv in HM as (x' & d' & bases & s & t & r & ut & a & -> & -> & M).
  destruct (witness_total c) as [fw Hfw]. destruct (public_total (c_public c)) as [pw Hpw].
  assert (native_canonical c) as Hnat.
  { rewrite (Made_assignment _ _ _ _ _ _ _ _ _ _ _ _ _ _ _ _ _ _ M) in HA. injection HA as <-.
    pose proof (order_lower (P:=BN)). destruct M as [Mc Mi Macc Mat Mma MV MW Mr Ms Mb Mn Mch Mut Mds Mdt MS MT Mtg Min Msec]. unfold native_canonical. cbn. lia. }
  destruct (prove_complete cs rand pk vk c fw rand' Hcs Hset Hfw Hnat HD) as [pi Hpi].
  pose proof (prove_verifies cs rand pk vk c fw pw rand' pi Hcs Hset Hfw Hnat Hpw Hpi) as Hver.
  destruct (proof_encoding cs rand pk vk fw rand' pi Hcs Hset Hpi) as (praw & ar & bs & krs & cms & Hpb & Hlay & Hrd).
  assert (preflightProof praw (vk_keys vk) = Ok tt) as Hpre by (apply preflightProof_Ok; eauto 10).
  pose proof (preflightProof_length _ _ Hpre) as Hl.
  unfold Prove. rewrite HA. cbn [mbind result_bind]. rewrite Hfw, Ecs, Epk. cbn [mbind result_bind].
  rewrite Hpi. cbn [mbind result_bind]. rewrite Hpb. cbn [mbind result_bind].
  rewrite newBig_id. eexists. split; [reflexivity|]. cbn [sg_Statement sg_Proof pf_Data].
  split; [by destruct st|]. split; [|done]. apply Verify_Ok. cbn [sg_Statement].
  assert (PublicAssignment p st = Ok (c_public c)) as Hpub by (by eapply Made_public).
  assert (ctx_params ctx = p) as Ep by (by apply NewVerificationContext_Ok in Hctx as (_ & _ & rd & _ & ->)).
  replace (mkStatement _ _ _ _ _ _ _ _ _ _) with st by (by destruct st).
  split; [by eapply Made_check|]. exists vk, pi, (c_public c), pw. constructor; cbn; try done.
  - rewrite <- (app_nil_r praw). apply Hrd.
  - by rewrite Ep.
Qed.

(** ** What an accepted signature proves *)

(** The assignment behind a signature, as the extractor gives it. *)
Definition opening `{KS : !KnowledgeSound GR} (vk : VK) (ctx : VerificationContext) (sg : Signed) : result Circuit :=
  '(pi, _) ← proof_read (pf_Data (sg_Proof sg));
  u ← PublicAssignment (ctx_params ctx) (sg_Statement sg);
  Ok (mkCircuit u (extract vk pi u)).

(** Timestamps and quotas are machine integers that fit the native field. *)
Definition native_statement (st : Statement) : Prop := 0 <= st_K st < F /\ 0 <= st_Timestamp st < F.

Lemma PublicAssignment_Ok p st u :
  PublicAssignment p st = Ok u -> exists r ut, st_R st = Some r /\ IssueBase (st_Issue st) = Ok ut /\
    u = mkCircuitPublic (st_V st) (st_Nym st) (p_H p) (p_HTau p) ut (st_S st) (st_T st) (st_Issue st)
          (st_RingDigest st) (st_MessageDigest st) (st_Timestamp st) (st_K st) r.
Proof.
  unfold PublicAssignment. destruct (st_R st) as [r|]; [|done]. intros E. go_inv E. subst u. eauto.
Qed.

Lemma accepted_opening `{KS : !KnowledgeSound GR} v vk ctx m sg :
  trusted v vk -> Verify (Some v) ctx m sg = Ok tt -> native_statement (sg_Statement sg) ->
  exists c, opening vk ctx sg = Ok c /\ PublicAssignment (ctx_params ctx) (sg_Statement sg) = Ok (c_public c) /\
    Define c = Ok tt /\ native_canonical c.
Proof using CL.
  intros (Evk & cs & rho & pk & Hcs & Hset) (_ & vk' & pi & u & w & [])%Verify_Ok [HK HT].
  assert (vk' = vk) as -> by congruence.
  destruct (extract_sound cs rho pk vk pi u w Hcs Hset ac_witness0 ac_verify0) as [Hcnt HD].
  exists (mkCircuit u (extract vk pi u)). unfold opening. rewrite ac_proof0. cbn [mbind result_bind].
  rewrite ac_public0. split; [done|]. split; [done|]. split; [done|].
  apply PublicAssignment_Ok in ac_public0 as (r & ut & _ & _ & ->). done.
Qed.

Lemma accepted_relation `{KS : !KnowledgeSound GR} v vk ctx m sg bases :
  trusted v vk -> Verify (Some v) ctx m sg = Ok tt -> native_statement (sg_Statement sg) -> Bases = Ok bases ->
  exists c s t a, opening vk ctx sg = Ok c /\
    PublicAssignment (ctx_params ctx) (sg_Statement sg) = Ok (c_public c) /\ Relation bases c s t a.
Proof using CL.
  intros Htr HV Hnat HB. destruct (accepted_opening _ _ _ _ _ Htr HV Hnat) as (c & HO & HP & HD & HC).
  apply (Define_relation c bases HB HC) in HD as (s & t & a & HR). eauto 10.
Qed.

(** The pairing equation of the circuit is the host's membership test. *)
Lemma relation_membership p bases c s t a tau :
  srs p tau -> c_H (c_public c) = p_H p -> c_HTau (c_public c) = p_HTau p ->
  Relation bases c s t a ->
  VerifyMembership p (c_V (c_public c)) (c_W (c_secret c)) (Some a) = true.
Proof using CL.
  intros Hs EH EHT [_ HG _ _ _ _ _ _ _ HM HP _ _ _ _ _]. apply VerifyMembership_spec.
  rewrite !Forall_cons in *. destruct HG as (GV & GW & _ & _).
  apply Member_range in HM as Ha. split; [done|]. split; [done|]. split; [done|].
  exists tau. split; [done|].
  apply good_exists in GV as (v & Ev & Hv). apply good_exists in GW as (w & Ew & _).
  rewrite EH, EHT, (srs_H _ _ Hs), (srs_HTau _ _ Hs), Ev, Ew, gen_pow in HP.
  rewrite mul_pow, neg_pow, add_pow in HP by lia.
  pose proof (pairing_check_pow [(a * w + - v, 1); (w, tau)]) as E. cbn in E.
  rewrite E in HP by done. injection HP as HE%bool_decide_eq_true.
  assert (v ≡[F] (tau + a) * w) as EV.
  { symmetry. apply cong_sub_0. rewrite <- HE. apply cong_eq. lia. }
  split.
  - intros Hz. apply (cong_scalar_nonzero F v Hv). rewrite EV. apply cong_mul_0; [apply order_prime|by left].
  - rewrite Ev, Ew, mul_pow by (apply Z.mod_pos_bound, order_pos). apply pow_eq. by rewrite cong_mod.
Qed.

(** ** Loading verifier keys *)

Lemma loadVerifier_own `{GL : !Groth16Laws GR} rand pr v raw :
  NewBackend rand = Ok (pr, v) -> KeyBytes v = Ok raw -> len raw <= maxProofBytes ->
  LoadVerifier raw (v_circuitHash v) (v_keyID v) = Ok v.
Proof.
  intros (cs & pk & vk & raw' & Hcs & Hset & Hraw & _ & _ & Evk & EID & _ & _ & ED)%NewBackend_Ok HK Hl.
  unfold KeyBytes in HK. rewrite Evk in HK. cbn in HK. assert (raw' = raw) as -> by congruence.
  destruct (vk_encoding cs rand pk vk raw Hcs Hset Hraw) as [Hlay Hrd].
  apply preflightVerifyingKey_Ok in Hlay.
  destruct (vk_for_circuit cs rand pk vk Hcs Hset) as (n & EC & _ & EK1 & EK2 & EM).
  unfold LoadVerifier, loadVerifierForCircuit, Compile.
  destruct (Z.ltb_spec maxProofBytes (len raw)); [lia|]. cbn [orb fail_if mbind result_bind].
  rewrite EID, bool_decide_eq_true_2 by done. cbn [negb orb fail_if mbind result_bind]. rewrite Hlay, Hcs.
  cbn [mbind result_bind]. rewrite ED. cbn [mbind result_bind].
  rewrite bool_decide_eq_true_2 by done. cbn [negb fail_if mbind result_bind].
  specialize (Hrd []). rewrite app_nil_r in Hrd. rewrite Hrd. cbn [mbind result_bind length Nat.eqb negb fail_if].
  rewrite EC, EK1, EK2, EM, !Z.eqb_refl, bool_decide_eq_true_2 by done. cbn. rewrite <- EID, <- Evk. by destruct v.
Qed.

Lemma LoadVerifier_Ok key h id v :
  LoadVerifier key h id = Ok v ->
  v_circuitHash v = h /\ v_keyID v = id /\ sha256 key = id /\ ExpectedCircuitHash = Ok h /\
  len key <= maxProofBytes /\ (exists hdr ks rows cms, vk_layout key hdr ks rows cms) /\
  exists vk, v_vk v = Some vk /\ vk_read key = Ok (vk, []).
Proof.
  unfold LoadVerifier, loadVerifierForCircuit, ExpectedCircuitHash, Compile. intros E. go_inv E. bool_prop.
  rename select (gr_compile = _) into HC. rename select (preflightVerifyingKey _ = _) into HP.
  match goal with H : vk_read key = Ok ?p |- _ => rename H into ER; destruct p as [vk rest] end.
  go_inv E. bool_prop. destruct (cs_commitments _) as [n|]; [|done]. go_inv E. subst v. bool_prop.
  rewrite HC. cbn [mbind result_bind v_circuitHash v_keyID v_vk].
  match type of HP with _ = Ok ?u => destruct u end. apply preflightVerifyingKey_Ok in HP. rename select (digestWriter _ = _) into HD.
  split_and!; try done; [congruence|]. exists vk. split; [done|]. by destruct rest.
Qed.
End facts.
