(* ===== verification/ToyProofs.v ===== *)
(** * A concrete proof system

    The instance of [Groth16] that the witnesses use, over the groups of
    [Toy]: a proof is the secret part of an assignment, written in gnark's
    compressed layout with five commitments, and verification runs the
    circuit. It satisfies the laws assumed of gnark, completeness and
    extraction included. *)

From S2P Require Import Prelude Bytes Sha256 Curve Toy Profile Accumulator Circuit CircuitFacts.
From S2P Require Import Statements Backend BackendFacts.
From Stdlib Require Import Strings.Byte.

Section encoding.
Context `{CR : !Crypto, CL : !CryptoLaws}.

(** The nine integers of a secret part, in the order of the slots. *)
Definition secret_values (w : CircuitSecret) : list Z :=
  [c_X w; c_D w; c_x (c_AccountU w); c_y (c_AccountU w); c_x (c_AccountY w); c_y (c_AccountY w);
   c_x (c_W w); c_y (c_W w); c_Counter w].

Definition secret_of (vs : list Z) : CircuitSecret :=
  mkCircuitSecret (vs !!! 0%nat) (vs !!! 1%nat) (c_mk (vs !!! 2%nat) (vs !!! 3%nat))
    (c_mk (vs !!! 4%nat) (vs !!! 5%nat)) (c_mk (vs !!! 6%nat) (vs !!! 7%nat)) (vs !!! 8%nat).

Lemma secret_of_values w : secret_of (secret_values w) = w.
Proof using CL. destruct w. unfold secret_of, secret_values. cbn. by rewrite !c_mk_xy. Qed.

Definition in_slot (v : Z) : bool := (0 <=? v) && (v <? 2 ^ 40).

(** A slot: a compression flag and a big-endian integer. *)
Definition slot (size : nat) (v : Z) : bytes := xc0 :: be_enc (size - 1) v.
Definition head_sizes : list nat := [32; 64; 32]%nat.
Definition tail_sizes : list nat := replicate 6 32%nat.
Definition slots (sizes : list nat) (vs : list Z) : bytes := concat (zip_with slot sizes vs).

Definition toy_proof_bytes (w : CircuitSecret) : bytes :=
  slots head_sizes (take 3 (secret_values w)) ++ be_enc 4 5 ++ slots tail_sizes (drop 3 (secret_values w)).

Fixpoint read_slots (sizes : list nat) (raw : bytes) : list Z * bytes :=
  match sizes with
  | [] => ([], raw)
  | n :: sizes =>
      let '(vs, rest) := read_slots sizes (drop n raw) in
      (be_dec (drop 1 (take n raw)) :: vs, rest)
  end.

Definition toy_proof_read (raw : bytes) : result (CircuitSecret * bytes) :=
  _ ← fail_if (length raw <? 324)%nat "short proof";
  let '(vs, raw) := read_slots head_sizes raw in
  let '(vs', raw) := read_slots tail_sizes (drop 4 raw) in
  Ok (secret_of (vs ++ vs'), raw).

Definition toy_key : bytes :=
  let g1 := slot 32 0 in
  let g2 := slot 64 0 in
  g1 ++ g1 ++ g2 ++ g2 ++ g1 ++ g2 ++ be_enc 4 6 ++ concat (replicate 6 g1)
  ++ be_enc 4 5 ++ concat (replicate 5 (be_enc 4 0)) ++ be_enc 4 5 ++ concat (replicate 10 g2).

Definition toy_accepts (u : CircuitPublic) (w : CircuitSecret) : bool :=
  bool_decide (Define (mkCircuit u w) = Ok tt) && forallb in_slot (secret_values w)
  && (0 <=? c_Counter w) && (c_Counter w <? g_order BN).

Lemma slot_length k v : length (slot (S k) v) = S k.
Proof. unfold slot. cbn [length]. rewrite length_be_enc. lia. Qed.

Lemma slot_seg k v : compressed_seg (S k) (slot (S k) v).
Proof. split; [apply slot_length|]. by eexists _, _. Qed.

Lemma in_slot_range v : in_slot v = true <-> 0 <= v < 2 ^ 40.
Proof. unfold in_slot. by rewrite andb_true_iff, Z.leb_le, Z.ltb_lt. Qed.

Lemma slots_cons n sizes v vs : slots (n :: sizes) (v :: vs) = slot n v ++ slots sizes vs.
Proof. done. Qed.

Lemma slots_length sizes vs :
  Forall (fun n => 0 < n)%nat sizes -> length sizes = length vs -> length (slots sizes vs) = sum_list sizes.
Proof.
  intros HF. revert vs. induction HF as [|n sizes Hn _ IH]; intros [|v vs] Hl; try done.
  rewrite slots_cons, length_app, IH by (cbn in Hl; lia). destruct n as [|n]; [lia|]. by rewrite slot_length.
Qed.

Lemma read_slots_app sizes vs rest :
  Forall (fun n => 6 <= n)%nat sizes -> length sizes = length vs -> forallb in_slot vs = true ->
  read_slots sizes (slots sizes vs ++ rest) = (vs, rest).
Proof.
  intros HF. revert vs. induction HF as [|n sizes Hn _ IH]; intros [|v vs] Hl Hv; try done.
  cbn [read_slots]. rewrite slots_cons, <- app_assoc. destruct n as [|n]; [lia|].
  apply andb_true_iff in Hv as [Hv%in_slot_range Hvs].
  rewrite drop_app_length' by (by rewrite slot_length). rewrite IH by (done || (cbn in Hl; lia)).
  rewrite take_app_length' by (by rewrite slot_length). f_equal. f_equal.
  unfold slot. cbn [drop]. replace (S n - 1)%nat with n by lia. apply be_dec_enc_small.
  split; [lia|]. apply Z.lt_le_trans with (2 ^ 40); [lia|]. change 256 with (2 ^ 8).
  rewrite <- Z.pow_mul_r by lia. apply Z.pow_le_mono_r; lia.
Qed.

Lemma toy_proof_read_bytes w rest :
  forallb in_slot (secret_values w) = true -> toy_proof_read (toy_proof_bytes w ++ rest) = Ok (w, rest).
Proof using CL.
  intros HF. unfold toy_proof_read, toy_proof_bytes.
  rewrite <- (take_drop 3 (secret_values w)), forallb_app, andb_true_iff in HF. destruct HF as [H1 H2].
  assert (Forall (fun n => 6 <= n)%nat head_sizes) as Hh by (unfold head_sizes; repeat constructor; lia).
  assert (Forall (fun n => 6 <= n)%nat tail_sizes) as Ht by (apply Forall_replicate; lia).
  destruct (Nat.ltb_spec (length ((slots head_sizes (take 3 (secret_values w)) ++ be_enc 4 5
    ++ slots tail_sizes (drop 3 (secret_values w))) ++ rest)) 324) as [Hl|_].
  { exfalso. rewrite !length_app, !slots_length, length_be_enc in Hl; [cbn in Hl; lia|..]; try done.
    - eapply Forall_impl; [exact Ht|]. cbn. lia.
    - eapply Forall_impl; [exact Hh|]. cbn. lia. }
  cbn [fail_if mbind result_bind]. rewrite <- !app_assoc, read_slots_app by done.
  rewrite drop_app_length' by (by rewrite length_be_enc). rewrite read_slots_app by done.
  by rewrite take_drop, secret_of_values.
Qed.

Lemma toy_proof_layout w :
  exists ar bs krs cms, proof_layout (toy_proof_bytes w) 5 ar bs krs cms.
Proof.
  exists (slot 32 (c_X w)), (slot 64 (c_D w)), (slot 32 (c_x (c_AccountU w))),
    (slot 32 <$> drop 3 (secret_values w)).
  constructor; try apply slot_seg.
  - apply Forall_fmap, Forall_true. intros v. apply slot_seg.
  - done.
  - zlia.
  - unfold toy_proof_bytes, slots, head_sizes, tail_sizes, secret_values.
    cbn [take drop zip_with concat replicate fmap list_fmap]. by rewrite <- !app_assoc.
Qed.

Lemma toy_accepts_sound u w :
  toy_accepts u w = true ->
  Define (mkCircuit u w) = Ok tt /\ forallb in_slot (secret_values w) = true /\ 0 <= c_Counter w < g_order BN.
Proof.
  unfold toy_accepts. rewrite !andb_true_iff, bool_decide_eq_true, Z.leb_le, Z.ltb_lt. tauto.
Qed.

(** Small groups: every coordinate and scalar fits a slot. *)
Lemma toy_accepts_complete bases c :
  Bases = Ok bases -> g_order BN < 2 ^ 40 -> g_order Secp < 2 ^ 40 -> c_mod BN < 2 ^ 40 -> c_mod Secp < 2 ^ 40 ->
  Define c = Ok tt -> native_canonical c -> toy_accepts (c_public c) (c_secret c) = true.
Proof using CL.
  intros HBs HB HS HB' HS' HD (Hcnt & _). unfold toy_accepts. rewrite !andb_true_iff, bool_decide_eq_true, Z.leb_le, Z.ltb_lt.
  split; [split; [split|]|]; [by destruct c| |lia|lia].
  destruct (Define_satisfied c _ HBs) as [Hs _]. specialize (Hs HD).
  destruct Hs as (_ & _ & _ & _ & _ & _ & _ & _ & _ & _ & HX & HDd & _).
  assert (forall p : Secp, in_slot (c_x p) = true /\ in_slot (c_y p) = true) as HP.
  { intros p. rewrite !in_slot_range. pose proof (c_x_range (P:=Secp) p). pose proof (c_y_range (P:=Secp) p). lia. }
  assert (forall p : BN, in_slot (c_x p) = true /\ in_slot (c_y p) = true) as HQ.
  { intros p. rewrite !in_slot_range. pose proof (c_x_range (P:=BN) p). pose proof (c_y_range (P:=BN) p). lia. }
  unfold secret_values. cbn [forallb]. rewrite !andb_true_iff, !(in_slot_range (c_X _)), !(in_slot_range (c_D _)),
    (in_slot_range (c_Counter _)).
  split; [lia|]. split; [lia|]. do 2 (split; [apply HP|]). do 2 (split; [apply HP|]).
  do 2 (split; [apply HQ|]). split; [lia|done].
Qed.
End encoding.

#[export] Instance toy_groth16 : Groth16 := {|
  CS := unit;
  PK := unit;
  VK := unit;
  GProof := CircuitSecret;
  FullWitness := Circuit;
  PublicWitness := CircuitPublic;
  gr_compile := Ok tt;
  cs_bytes _ := Ok (ascii_bytes "residue circuit");
  cs_public _ := 1;
  cs_commitments _ := Some 5;
  cs_metadata _ := replicate 5 [];
  gr_setup _ _ := Ok (tt, tt);
  new_witness c := Ok c;
  new_public u := Ok u;
  gr_prove _ _ c _ := _ ← fail_if (negb (toy_accepts (c_public c) (c_secret c))) "unsatisfied"; Ok (c_secret c);
  gr_verify pi _ u := fail_if (negb (toy_accepts u pi)) "unsatisfied";
  proof_bytes w := Ok (toy_proof_bytes w);
  proof_read := toy_proof_read;
  vk_bytes _ := Ok toy_key;
  vk_read raw := _ ← fail_if (negb (bool_decide (take (length toy_key) raw = toy_key))) "malformed key";
                 Ok (tt, drop (length toy_key) raw);
  vk_K _ := 6;
  vk_keys _ := 5;
  vk_metadata _ := replicate 5 [];
|}.

#[export] Instance toy_groth16_laws : Groth16Laws toy_groth16.
Proof.
  constructor.
  - intros c. by exists c.
  - intros u. by exists u.
  - intros cs rho pk vk c w rho' _ _ [= <-] Hn HD. exists (c_secret c). cbn -[toy_accepts].
    by rewrite (toy_accepts_complete sample_bases c sample_bases_eq eq_refl eq_refl eq_refl eq_refl HD Hn).
  - intros cs rho pk vk c w u rho' pi _ _ [= <-] _ [= <-] E. apply bind_fail_if in E as [E [= <-]].
    apply fail_if_Ok. exact E.
  - intros cs rho pk vk c rho' pi _ _ E. apply bind_fail_if in E as [E%negb_false_iff%toy_accepts_sound [= <-]].
    destruct (toy_proof_layout (c_secret c)) as (ar & bs & krs & cms & Hl).
    exists (toy_proof_bytes (c_secret c)), ar, bs, krs, cms. split; [reflexivity|]. split; [exact Hl|].
    intros rest. apply toy_proof_read_bytes. tauto.
  - intros cs rho pk vk raw _ _ [= <-]. split.
    + apply preflightVerifyingKey_Ok. vm_compute. reflexivity.
    + intros rest. cbn -[toy_key]. rewrite take_app_length, bool_decide_eq_true_2 by done.
      cbn -[toy_key]. rewrite drop_app_length. by destruct vk.
  - intros. exists 5. split_and!; try done.
Qed.

Lemma toy_extract_sound (cs : CS) rho pk (vk : VK) (pi : GProof) u w :
  gr_compile = Ok cs -> gr_setup cs rho = Ok (pk, vk) -> new_public u = Ok w -> gr_verify pi vk w = Ok tt ->
  0 <= c_Counter pi < g_order BN /\ Define (mkCircuit u pi) = Ok tt.
Proof. intros _ _ [= <-] E%fail_if_Ok%negb_false_iff%toy_accepts_sound. tauto. Qed.

#[export] Instance toy_knowledge_sound : KnowledgeSound toy_groth16 :=
  {| extract _ pi _ := pi; extract_sound := toy_extract_sound |}.
