(* ===== verification/Protocol.v ===== *)
(** * Signers, the registry, linking and tracing ([nativeproof/protocol.go])

    A [Signer] is a state: [Sign] returns its result and the state after the
    call, the counter of the issue advancing only when a signature was made.
    The mutex makes calls sequential, so a history is a list of calls. *)

From S2P Require Import Prelude Bytes Sha256 Curve Profile Circuit Backend.

Section defs.
Context `{CR : !Crypto, GR : !Groth16}.

(** ** Signers *)

Record Signer := mkSigner {
  s_x : option Z;
  s_next : gmap bytes Z;
}.

Definition NewSigner (x : option Z) : result Signer :=
  _ ← fail_if (negb (canonicalNonzero x (g_order Secp))) "invalid user secret";
  Ok {| s_x := newBig x; s_next := ∅ |}.

(** [s.next[issue]]: a missing key reads as zero. *)
Definition counter_of (s : Signer) (issue : bytes) : Z := default 0 (s_next s !! issue).

Definition sign_result (s : Signer) (p : option Prover) (rand : Z) (ring : Snapshot) (account : Z) (issue : bytes)
    (k : Z) (message : bytes) (ts : Z) : result Signed :=
  match p with
  | None => Err "missing prover"
  | Some p =>
      _ ← fail_if ((account <? 0) || (Z.of_nat (length (sn_accounts ring)) <=? account)) "account index outside ring";
      let count := counter_of s issue in
      _ ← fail_if ((k =? 0) || (k <=? count)) "user quota exhausted";
      a ← deref (sn_accounts ring !! Z.to_nat account);
      match a_D a with
      | None => Err "missing account exponent"
      | Some d =>
          '(st, w) ← MakeStatement (sn_params ring) (sn_accounts ring) account (s_x s) (Some d) issue
                       (sha256 message) ts k count;
          Prove rand p (sn_params ring) st w
      end
  end.

Definition Sign (s : Signer) (p : option Prover) (rand : Z) (ring : Snapshot) (account : Z) (issue : bytes)
    (k : Z) (message : bytes) (ts : Z) : result Signed * Signer :=
  match sign_result s p rand ring account issue k message ts with
  | Err e => (Err e, s)
  | Ok sig =>
      (Ok sig, {| s_x := s_x s; s_next := <[issue := (counter_of s issue + 1) mod 2 ^ 32]> (s_next s) |})
  end.

Definition NextCounter (s : Signer) (issue : bytes) : Z := counter_of s issue.

(** ** The registry *)

Record Registration := mkRegistration {
  reg_UserID : string;
  reg_Account : Account;
}.

Record Registry := mkRegistry {
  ry_entries : list Registration;
}.

(** [[1/d]Y], the trace key of an account. *)
Definition account_trace_key (a : Account) (d : Z) : Secp := g_mul (modinv d (g_order Secp)) (a_Y a).

(** The loop of [NewRegistry] over its three maps. *)
Fixpoint registry_loop (seen : gset Z) (traceOwners : gmap bytes string) (userKeys : gmap string bytes)
    (entries : list Registration) : result unit :=
  match entries with
  | [] => Ok tt
  | e :: entries =>
      match a_D (reg_Account e) with
      | None => Err "registration needs user id and public d"
      | Some d =>
          _ ← fail_if (bool_decide (reg_UserID e = "")) "registration needs user id and public d";
          _ ← validateAccount (reg_Account e);
          member ← Member (reg_Account e);
          _ ← fail_if (bool_decide (member ∈ seen)) "duplicate registered account";
          let trace := EncodeSecpPoint (account_trace_key (reg_Account e) d) in
          _ ← fail_if (match traceOwners !! trace with
                       | Some owner => negb (bool_decide (owner = reg_UserID e))
                       | None => false
                       end) "same trace key registered to different users";
          _ ← fail_if (match userKeys !! reg_UserID e with
                       | Some previous => negb (bool_decide (previous = trace))
                       | None => false
                       end) "one user has inconsistent secrets";
          registry_loop ({[member]} ∪ seen) (<[trace := reg_UserID e]> traceOwners)
            (<[reg_UserID e := trace]> userKeys) entries
      end
  end.

Definition NewRegistry (entries : list Registration) : result Registry :=
  _ ← fail_if (length entries =? 0)%nat "empty registry";
  _ ← registry_loop ∅ ∅ ∅ entries;
  Ok {| ry_entries := entries |}.

(** The loop of [Resolve]; [ScalarMultiplication] by a nil exponent panics. *)
Fixpoint resolve_loop (ux : Secp) (entries : list Registration) : result string :=
  match entries with
  | [] => Err "unregistered extracted trace key"
  | e :: entries =>
      d ← deref (a_D (reg_Account e));
      if bool_decide (g_mul d ux = a_Y (reg_Account e)) then Ok (reg_UserID e) else resolve_loop ux entries
  end.

Definition Resolve (r : Registry) (ux : Secp) : result string :=
  _ ← fail_if (negb (goodSecp ux)) "invalid extracted trace key";
  resolve_loop ux (ry_entries r).

(** The handles of a user's registered accounts; [None] when there are none. *)
Fixpoint revoked_members (user : string) (entries : list Registration) : result (option (gset Z)) :=
  match entries with
  | [] => Ok None
  | e :: entries =>
      if bool_decide (reg_UserID e = user) then
        m ← Member (reg_Account e);
        ms ← revoked_members user entries;
        Ok (Some ({[m]} ∪ default ∅ ms))
      else revoked_members user entries
  end.

Fixpoint remaining_accounts (members : gset Z) (accounts : list Account) : result (list Account) :=
  match accounts with
  | [] => Ok []
  | a :: accounts =>
      m ← Member a;
      remaining ← remaining_accounts members accounts;
      Ok (if bool_decide (m ∈ members) then remaining else a :: remaining)
  end.

Definition RevokeUser (r : Registry) (ring : Snapshot) (user : string) : result Snapshot :=
  members ← revoked_members user (ry_entries r);
  match members with
  | None => Err "unregistered user"
  | Some members =>
      remaining ← remaining_accounts members (sn_accounts ring);
      NewSnapshot (sn_params ring) remaining
  end.

(** ** Linking and tracing *)

Inductive TraceStatus :=
  | TraceLegal
  | TraceReplay
  | TraceInvalid
  | TraceTraced.

Record TraceResult := mkTraceResult {
  tr_Status : TraceStatus;
  tr_UserID : string;
  tr_Key : Secp;
}.

Definition Link (v : option Verifier) (a : VerificationContext) (ma : bytes) (sa : Signed)
    (b : VerificationContext) (mb : bytes) (sb : Signed) : result bool :=
  _ ← Verify v a ma sa;
  _ ← Verify v b mb sb;
  Ok (bool_decide (ctx_issue a = ctx_issue b)
      && bool_decide (st_Nym (sg_Statement sa) = st_Nym (sg_Statement sb))).

(** Both results of the Go function: the zero value of [Key] is infinity. *)
Definition trace_status (s : TraceStatus) : TraceResult := mkTraceResult s "" (g_inf Secp).
Definition invalid : TraceResult := trace_status TraceInvalid.

(** The point [Trace] extracts from two tags with the same serial. *)
Definition trace_key (x y : Statement) (rx ry : Z) : Secp :=
  let diff := (ry - rx) mod g_order Secp in
  g_mul (modinv diff (g_order Secp)) (g_sub (g_mul ry (st_T x)) (g_mul rx (st_T y))).

Definition Trace (v : option Verifier) (a : VerificationContext) (ma : bytes) (sa : Signed)
    (b : VerificationContext) (mb : bytes) (sb : Signed) (registry : Registry) : TraceResult * option error :=
  match Verify v a ma sa with
  | Err e => (invalid, Some e)
  | Ok _ =>
  match Verify v b mb sb with
  | Err e => (invalid, Some e)
  | Ok _ =>
  if negb (bool_decide (ctx_issue a = ctx_issue b)) || negb (ctx_k a =? ctx_k b)
     || negb (bool_decide (st_Nym (sg_Statement sa) = st_Nym (sg_Statement sb)))
  then (invalid, Some "trace requires same issue, quota and nym")
  else
    let x := sg_Statement sa in
    let y := sg_Statement sb in
    if negb (bool_decide (st_S x = st_S y)) then (trace_status TraceLegal, None)
    else
      match st_R x, st_R y with
      | Some rx, Some ry =>
          if (ry - rx) mod g_order Secp =? 0 then
            if bool_decide (st_T x = st_T y) then (trace_status TraceReplay, None)
            else (invalid, Some "serial collision with equal challenges")
          else
            let ux := trace_key x y rx ry in
            match Resolve registry ux with
            | Err e => (invalid, Some ("trace lookup: " +:+ e))
            | Ok user => (mkTraceResult TraceTraced user ux, None)
            end
      | _, _ => (invalid, Some "nil pointer dereference")
      end
  end
  end.
End defs.
