(* ===== verification/ProtocolFacts.v ===== *)
(** * Properties of signers, the registry, linking and tracing

    The registry that [NewRegistry] accepts is unambiguous and [Resolve]
    finds the one owner of a trace key; revocation removes exactly the user's
    accounts; the counters and serials of a signer never repeat; two tags
    with one serial reveal the trace key. *)

From S2P Require Import Prelude Bytes Sha256 Curve Profile Accumulator Circuit CircuitFacts.
From S2P Require Import Statements Backend BackendFacts Protocol.
From Stdlib Require Import Strings.Byte.

Section facts.
Context `{CR : !Crypto, CL : !CryptoLaws, GR : !Groth16}.
Abbreviation F := (g_order BN).
Abbreviation ell := (g_order Secp).

(** ** The registry *)

Lemma EncodeSecpPoint_inj p q : EncodeSecpPoint p = EncodeSecpPoint q -> p = q.
Proof using CL.
  unfold EncodeSecpPoint. intros [Ex Ey]%app_inj_1; [|by rewrite !length_be_enc].
  pose proof (c_mod_upper (P:=Secp)). pose proof (c_x_range p). pose proof (c_y_range p).
  pose proof (c_x_range q). pose proof (c_y_range q).
  apply be_enc_inj in Ex; [|cbn; lia..]. apply be_enc_inj in Ey; [|cbn; lia..].
  by rewrite <- (c_mk_xy p), <- (c_mk_xy q), Ex, Ey.
Qed.

(** The exponent, handle and trace key of a registration. *)
Definition reg_d (e : Registration) : Z := default 0 (a_D (reg_Account e)).
Definition reg_key (e : Registration) : Secp := account_trace_key (reg_Account e) (reg_d e).

(** A registration has a user, a public exponent and a valid account. *)
Record valid_reg (e : Registration) (m : Z) : Prop := mk_valid_reg {
  vr_user : reg_UserID e <> "";
  vr_d : a_D (reg_Account e) = Some (reg_d e);
  vr_account : validateAccount (reg_Account e) = Ok tt;
  vr_member : Member (reg_Account e) = Ok m;
}.

(** Users and trace keys determine each other. *)
Definition consistent (e e' : Registration) : Prop := reg_UserID e = reg_UserID e' <-> reg_key e = reg_key e'.

Record unambiguous (entries : list Registration) (ms : list Z) : Prop := mk_unambiguous {
  un_valid : Forall2 valid_reg entries ms;
  un_handles : NoDup ms;
  un_keys : ForallOrdPairs consistent entries;
}.

Lemma valid_reg_inv e :
  a_D (reg_Account e) = Some (reg_d e) -> validateAccount (reg_Account e) = Ok tt ->
  0 < reg_d e < ell /\ good (a_Y (reg_Account e)) = true.
Proof using CL.
  destruct e as [u [U Y D]]. cbn. intros ->. by intros (? & ? & ? & _)%validateAccount_Ok.
Qed.

(** The maps of [NewRegistry] at an intermediate point of its loop. *)
Definition compatible (owners : gmap bytes string) (keys : gmap string bytes) (e : Registration) : Prop :=
  (forall o, owners !! EncodeSecpPoint (reg_key e) = Some o -> o = reg_UserID e) /\
  (forall k, keys !! reg_UserID e = Some k -> k = EncodeSecpPoint (reg_key e)).

Lemma compatible_insert owners keys e e' :
  compatible owners keys e ->
  compatible (<[EncodeSecpPoint (reg_key e) := reg_UserID e]> owners)
             (<[reg_UserID e := EncodeSecpPoint (reg_key e)]> keys) e'
  <-> consistent e e' /\ compatible owners keys e'.
Proof using CL.
  intros [Ho Hk]. unfold compatible, consistent. setoid_rewrite lookup_insert_Some. split.
  - intros [H1 H2]. split.
    + split; intros E.
      * apply EncodeSecpPoint_inj. apply H2. by left.
      * apply H1. left. by rewrite E.
    + split; [intros o E|intros k E].
      * destruct (decide (EncodeSecpPoint (reg_key e) = EncodeSecpPoint (reg_key e'))) as [Ek|Ek].
        -- rewrite <- Ek in E. apply Ho in E as ->. apply H1. by left.
        -- apply H1. by right.
      * destruct (decide (reg_UserID e = reg_UserID e')) as [Eu|Eu].
        -- rewrite <- Eu in E. apply Hk in E as ->. apply H2. by left.
        -- apply H2. by right.
  - intros [HC [H1 H2]]. split; [intros o [[E <-]|[_ E]]|intros k [[E <-]|[_ E]]]; eauto.
    + apply HC. by apply EncodeSecpPoint_inj.
    + apply HC in E. by rewrite E.
Qed.

Lemma registry_loop_Ok seen owners keys entries :
  registry_loop seen owners keys entries = Ok tt <->
  (exists ms, unambiguous entries ms /\ Forall (fun m => m ∉ seen) ms) /\ Forall (compatible owners keys) entries.
Proof using CL.
  revert seen owners keys. induction entries as [|e entries IH]; intros seen owners keys; cbn [registry_loop].
  { split; [|done]. intros _. split; [|constructor]. exists []. split; [|constructor]. repeat constructor. }
  split.
  - destruct (a_D (reg_Account e)) as [d|] eqn:ED; [|done]. intros E. go_inv E. bool_prop.
    assert (reg_d e = d) as Ed by (unfold reg_d; by rewrite ED).
    assert (account_trace_key (reg_Account e) d = reg_key e) as Ek by (unfold reg_key; by rewrite Ed).
    rewrite Ek in *.
    match goal with H : validateAccount _ = Ok ?u |- _ => rename H into HV; destruct u end.
    rename select (Member _ = _) into HM. rename a1 into m.
    assert (compatible owners keys e) as Hce.
    { split; [intros o Eo|intros k Eo]; rewrite Eo in *; bool_prop; by subst. }
    apply IH in E as ((ms & [HF HN HP] & Hs) & HFc). rewrite Forall_forall in Hs. rewrite Forall_forall in HFc.
    split; [exists (m :: ms); split|].
    + constructor; [constructor; [constructor; congruence|done]|constructor; [|done]|constructor; [|done]].
      * intros Hin%Hs. set_solver.
      * apply Forall_forall. intros e' He'%HFc.
        by apply compatible_insert in He' as [? _].
    + constructor; [done|]. apply Forall_forall. intros m' Hm'%Hs. set_solver.
    + constructor; [done|]. apply Forall_forall. intros e' He'%HFc. by apply compatible_insert in He' as [_ ?].
  - intros ((ms & [HF HN HP] & Hs) & Hc).
    apply Forall2_cons_inv_l in HF as (m & ms' & [Hu ED HV HM] & HF & ->). rewrite ED.
    apply NoDup_cons in HN as [Hm HN]. apply Forall_cons in Hs as [Hms Hs], Hc as [Hce Hc].
    inversion HP as [|? ? Hcons HP']; subst.
    rewrite bool_decide_eq_false_2 by done. cbn [fail_if mbind result_bind]. rewrite HV. cbn [mbind result_bind].
    rewrite HM. cbn [mbind result_bind]. rewrite bool_decide_eq_false_2 by done. cbn [fail_if mbind result_bind].
    fold (reg_key e). apply bind_fail_if. split.
    { destruct (owners !! _) as [o|] eqn:Eo; [|done]. apply (proj1 Hce) in Eo as ->.
      by rewrite bool_decide_eq_true_2. }
    apply bind_fail_if. split.
    { destruct (keys !! _) as [k|] eqn:Ek; [|done]. apply (proj2 Hce) in Ek as ->.
      by rewrite bool_decide_eq_true_2. }
    rewrite Forall_forall in Hs. rewrite Forall_forall in Hc. rewrite Forall_forall in Hcons.
    apply IH. split.
    + exists ms'. split; [done|]. apply Forall_forall. intros m' Hm'. specialize (Hs m' Hm'). set_solver.
    + apply Forall_forall. intros e' He'. apply compatible_insert; auto.
Qed.

Lemma NewRegistry_Ok entries r :
  NewRegistry entries = Ok r <->
  entries <> [] /\ (exists ms, unambiguous entries ms) /\ r = mkRegistry entries.
Proof using CL.
  unfold NewRegistry. rewrite bind_fail_if, Nat.eqb_neq, bind_Ok. split.
  - intros [Hl ([] & ((ms & Hu & _) & _)%registry_loop_Ok & [= <-])]. split; [by destruct entries|]. eauto.
  - intros (Hne & (ms & Hu) & ->). split; [by destruct entries|]. exists tt. split; [|done].
    apply registry_loop_Ok. split; [exists ms; split; [done|]; apply Forall_forall; set_solver|].
    apply Forall_forall. intros e _. split; [intros o E|intros k E]; by rewrite lookup_empty in E.
Qed.

(** ** Resolving a trace key *)

Lemma ForallOrdPairs_elem_of {A} (R : A -> A -> Prop) l x y :
  ForallOrdPairs R l -> x ∈ l -> y ∈ l -> x = y \/ R x y \/ R y x.
Proof.
  induction 1 as [|a l Ha _ IH]; [set_solver|]. rewrite Forall_forall in Ha.
  intros [->|Hx]%elem_of_cons [->|Hy]%elem_of_cons; auto.
Qed.

Lemma unambiguous_consistent entries ms e e' :
  unambiguous entries ms -> e ∈ entries -> e' ∈ entries -> consistent e e'.
Proof using CL.
  intros [_ _ HP] He He'. destruct (ForallOrdPairs_elem_of _ _ _ _ HP He He') as [->|[?|?]]; [done|done|].
  unfold consistent in *. split; intros E; symmetry; naive_solver.
Qed.

Lemma unambiguous_valid entries ms e : unambiguous entries ms -> e ∈ entries -> exists m, valid_reg e m.
Proof using CL.
  intros [HF _ _] He. apply list_elem_of_lookup in He as [i Hi].
  destruct (Forall2_lookup_l _ _ _ _ _ HF Hi) as (m & _ & ?). eauto.
Qed.

(** [[d]ux = Y] exactly for the account's trace key. *)
Lemma trace_key_match e m ux :
  valid_reg e m -> good ux = true -> g_mul (reg_d e) ux = a_Y (reg_Account e) <-> reg_key e = ux.
Proof using CL.
  intros [_ HD HV _] Hux. apply valid_reg_inv in HV as [Hd HY]; [|done].
  apply good_exists in Hux as (x & -> & Hx). apply good_exists in HY as (y & Ey & Hy).
  unfold reg_key, account_trace_key. pose proof (modinv_range (reg_d e) ell order_pos).
  rewrite Ey, !mul_pow, !pow_eq by lia.
  pose proof (modinv_cong (reg_d e) ell order_prime (cong_scalar_nonzero _ _ Hd)) as Hinv. split; intros E.
  - rewrite <- E. rewrite Z.mul_assoc, Hinv. apply cong_eq. lia.
  - rewrite <- E. rewrite Z.mul_assoc, (Z.mul_comm (reg_d e)), Hinv. apply cong_eq. lia.
Qed.

Lemma resolve_loop_Ok entries ux u :
  (forall e, e ∈ entries -> exists m, valid_reg e m) -> good ux = true ->
  resolve_loop ux entries = Ok u -> exists e, e ∈ entries /\ reg_UserID e = u /\ reg_key e = ux.
Proof using CL.
  intros HV Hg. induction entries as [|e entries IH]; [done|]. cbn [resolve_loop].
  destruct (HV e) as [m Hm]; [set_solver|]. rewrite (vr_d _ _ Hm). cbn [deref mbind result_bind].
  case_bool_decide as E.
  - intros [= <-]. apply (trace_key_match e m) in E; [|done..]. exists e. set_solver.
  - intros Hr. destruct IH as (e' & ? & ? & ?); [set_solver|done|]. exists e'. set_solver.
Qed.

Lemma resolve_loop_exists entries ux e :
  (forall e, e ∈ entries -> exists m, valid_reg e m) -> good ux = true ->
  e ∈ entries -> reg_key e = ux -> exists u, resolve_loop ux entries = Ok u.
Proof using CL.
  intros HV Hg. induction entries as [|e' entries IH]; [set_solver|]. cbn [resolve_loop].
  destruct (HV e') as [m Hm]; [set_solver|]. rewrite (vr_d _ _ Hm). cbn [deref mbind result_bind].
  case_bool_decide as E; [eauto|]. intros [->|He]%elem_of_cons Hk.
  - destruct E. by apply (trace_key_match e' m).
  - apply IH; [set_solver|done..].
Qed.

Lemma Resolve_Ok entries r ux u :
  NewRegistry entries = Ok r ->
  Resolve r ux = Ok u <-> good ux = true /\ exists e, e ∈ entries /\ reg_UserID e = u /\ reg_key e = ux.
Proof using CL.
  intros (_ & (ms & Hu) & ->)%NewRegistry_Ok. unfold Resolve, goodSecp. cbn [ry_entries].
  rewrite bind_fail_if, negb_false_iff. apply and_step. intros Hg.
  assert (forall e, e ∈ entries -> exists m, valid_reg e m) as HV by eauto using unambiguous_valid. split.
  - intros Hr. by apply resolve_loop_Ok in Hr.
  - intros (e & He & <- & Hk). destruct (resolve_loop_exists _ _ e HV Hg He Hk) as [u Hr]. rewrite Hr.
    apply resolve_loop_Ok in Hr as (e' & He' & <- & Hk'); [|done..].
    f_equal. apply (unambiguous_consistent entries ms e' e); [done..|congruence].
Qed.

(** The trace key of an account with secret [x] is [[x]g]. *)
Lemma reg_key_secret e m x :
  valid_reg e m -> 0 <= x -> a_Y (reg_Account e) = g_mul x (a_U (reg_Account e)) ->
  reg_key e = g_mul x (g_gen Secp).
Proof using CL.
  intros [_ HD HV _] Hx EY. destruct e as [u [U Y D]]. unfold reg_key, account_trace_key, reg_d in *.
  cbn in *. destruct D as [d|]; [|done]. cbn in *. apply validateAccount_Ok in HV as (_ & _ & Hd & <-). subst Y.
  pose proof (modinv_range d ell order_pos).
  rewrite !mul_gen, !mul_pow by lia. apply pow_eq.
  transitivity (x * (modinv d ell * d)); [apply cong_eq; lia|].
  rewrite (modinv_cong d ell order_prime (cong_scalar_nonzero _ _ Hd)). apply cong_eq. lia.
Qed.

(** ** Revocation *)

Definition is_revoked (entries : list Registration) (user : string) (a : Account) : bool :=
  existsb (fun e => bool_decide (reg_UserID e = user) && bool_decide (Member (reg_Account e) = Member a)) entries.

Lemma revoked_members_Ok entries user :
  (forall e, e ∈ entries -> exists m, valid_reg e m) ->
  exists o, revoked_members user entries = Ok o /\
    (o = None <-> user ∉ reg_UserID <$> entries) /\
    forall a m, Member a = Ok m -> m ∈ default (∅ : gset Z) o <-> is_revoked entries user a = true.
Proof using CL.
  induction entries as [|e entries IH]; intros HV.
  - exists None. split; [done|]. split; [set_solver|]. intros a m _. cbn. set_solver.
  - destruct IH as (o & Ho & Hn & Hin); [set_solver|]. destruct (HV e) as [me Hme]; [set_solver|].
    cbn [revoked_members]. unfold is_revoked. cbn [existsb]. fold (is_revoked entries user).
    case_bool_decide as Eu.
    + rewrite (vr_member _ _ Hme), Ho. cbn [mbind result_bind]. eexists. split; [done|]. split.
      { split; [done|]. set_solver. }
      intros a m Ha. cbn [from_option id]. rewrite elem_of_union, elem_of_singleton, (Hin a m Ha).
      fold (is_revoked entries user a). rewrite orb_true_iff, andb_true_l, bool_decide_eq_true, Ha. naive_solver.
    + exists o. split; [done|]. split.
      { rewrite Hn. set_solver. }
      intros a m Ha. rewrite (Hin a m Ha). done.
Qed.

Lemma remaining_accounts_Ok entries user (members : gset Z) accounts ms :
  Forall2 (fun a m => Member a = Ok m) accounts ms ->
  (forall a m, Member a = Ok m -> m ∈ members <-> is_revoked entries user a = true) ->
  remaining_accounts members accounts = Ok (filter (fun a => is_revoked entries user a = false) accounts).
Proof.
  intros HF Hin. induction HF as [|a m accounts ms Ha _ IH]; [done|]. cbn [remaining_accounts].
  rewrite Ha, IH. cbn [mbind result_bind]. rewrite filter_cons. f_equal.
  case_bool_decide as E; apply (Hin _ _ Ha) in E || (rewrite (Hin _ _ Ha) in E).
  - by rewrite E, decide_False.
  - by rewrite decide_True by (by apply not_true_is_false).
Qed.

Lemma member_product_sublist tau ms ms' :
  ms' `sublist_of` ms -> ~ member_product tau ms ≡[F] 0 -> ~ member_product tau ms' ≡[F] 0.
Proof using CL.
  induction 1 as [|m ms' ms _ IH|m ms' ms _ IH]; cbn; rewrite ?cong_mul_0 by apply order_prime; tauto.
Qed.

Lemma NewSnapshot_sublist p accounts accounts' s :
  accounts' `sublist_of` accounts -> NewSnapshot p accounts = Ok s -> exists s', NewSnapshot p accounts' = Ok s'.
Proof using CL.
  intros Hsub (v & (tau & ms & Hs & [HF HN] & Hl & Hz & _)%Accumulate_Ok & _)%NewSnapshot_Ok.
  assert (exists ms', ms' `sublist_of` ms /\ Forall2 (fun a m => Member a = Ok m) accounts' ms')
    as (ms' & Hsub' & HF').
  { clear -HF Hsub. revert ms HF. induction Hsub as [|a l' l Hsub IH|a l' l Hsub IH]; intros ms HF.
    - apply Forall2_nil_inv_l in HF as ->. by exists [].
    - apply Forall2_cons_inv_l in HF as (m & ms1 & Ha & HF & ->).
      destruct (IH _ HF) as (ms' & ? & ?). exists (m :: ms'). split; by constructor.
    - apply Forall2_cons_inv_l in HF as (m & ms1 & Ha & HF & ->).
      destruct (IH _ HF) as (ms' & ? & ?). exists ms'. split; [by constructor|done]. }
  eexists. apply NewSnapshot_Ok. eexists. split; [|done]. apply Accumulate_Ok. exists tau, ms'.
  split; [done|]. split; [split; [done|by eapply sublist_NoDup]|].
  apply sublist_length in Hsub. split; [lia|]. split; [by eapply member_product_sublist|done].
Qed.

Lemma RevokeUser_spec entries r p accounts ring user :
  NewRegistry entries = Ok r -> NewSnapshot p accounts = Ok ring ->
  match RevokeUser r ring user with
  | Ok ring' => user ∈ reg_UserID <$> entries /\
      NewSnapshot p (filter (fun a => is_revoked entries user a = false) accounts) = Ok ring'
  | Err _ => user ∉ reg_UserID <$> entries
  end.
Proof using CL.
  intros (_ & (ms & Hu) & ->)%NewRegistry_Ok HS. unfold RevokeUser. cbn [ry_entries].
  destruct (revoked_members_Ok entries user) as (o & Ho & Hn & Hin); [eauto using unambiguous_valid|].
  rewrite Ho. cbn [mbind result_bind]. destruct o as [members|]; [|by apply Hn].
  pose proof HS as (v & (tau & ms' & _ & [HF _] & _)%Accumulate_Ok & ->)%NewSnapshot_Ok.
  cbn [sn_accounts sn_params]. rewrite (remaining_accounts_Ok entries user members accounts ms' HF Hin).
  cbn [mbind result_bind].
  destruct (NewSnapshot_sublist p accounts (filter (fun a => is_revoked entries user a = false) accounts) _
    (sublist_filter _ _) HS) as [s' ->].
  split; [|done]. apply dec_stable. intros Hno. by apply Hn in Hno.
Qed.

(** ** Serials and trace tags *)

Lemma small_cong a b z : 0 <= a < 2 ^ 32 -> 0 <= b < 2 ^ 32 -> z + a + 1 ≡[ell] z + b + 1 -> a = b.
Proof using CL.
  intros Ha Hb E. pose proof (order_lower (P:=Secp)).
  apply (cong_small ell); [lia|lia|]. apply cong_sub_0 in E. apply cong_sub_0. rewrite <- E. apply cong_eq. lia.
Qed.

Lemma serial_inj (ut : Secp) z a b :
  good ut = true -> 0 <= a < 2 ^ 32 -> 0 <= b < 2 ^ 32 -> ~ z + a + 1 ≡[ell] 0 -> ~ z + b + 1 ≡[ell] 0 ->
  g_mul (modinv ((z + a + 1) mod ell) ell) ut = g_mul (modinv ((z + b + 1) mod ell) ell) ut -> a = b.
Proof using CL.
  intros (u & -> & Hu)%good_exists Ha Hb Hza Hzb E.
  pose proof (modinv_range ((z + a + 1) mod ell) ell order_pos).
  pose proof (modinv_range ((z + b + 1) mod ell) ell order_pos).
  rewrite !mul_pow, pow_eq in E by lia.
  rewrite !(Z.mul_comm _ u) in E. apply cong_cancel_l in E; [|apply order_prime|by apply cong_scalar_nonzero].
  apply modinv_inj in E; [|apply order_prime|by rewrite cong_mod|by rewrite cong_mod].
  rewrite !cong_mod in E. by eapply small_cong.
Qed.

(** Two tags of one secret under one mask reveal [[x]g]. *)
Lemma trace_key_secret (ut : Secp) x q rx ry sx sy :
  good ut = true -> 0 <= x -> 0 <= rx -> 0 <= ry -> ~ ry - rx ≡[ell] 0 ->
  st_T sx = g_add (g_mul x (g_gen Secp)) (g_mul ((rx * q) mod ell) ut) ->
  st_T sy = g_add (g_mul x (g_gen Secp)) (g_mul ((ry * q) mod ell) ut) ->
  trace_key sx sy rx ry = g_mul x (g_gen Secp).
Proof using CL.
  intros (u & -> & _)%good_exists Hx Hrx Hry Hd Ex Ey. unfold trace_key. rewrite Ex, Ey.
  pose proof (modinv_range ((ry - rx) mod ell) ell order_pos).
  rewrite !mul_gen by lia. rewrite !mul_pow, !add_pow by (apply Z.mod_pos_bound, order_pos).
  rewrite !mul_pow by lia. rewrite sub_pow, mul_pow by lia. apply pow_eq. rewrite (cong_mod ell (rx * q)), (cong_mod ell (ry * q)).
  transitivity (x * (modinv ((ry - rx) mod ell) ell * (ry - rx))); [apply cong_eq; lia|].
  rewrite <- (cong_mod ell (ry - rx)) at 2. rewrite modinv_cong; [apply cong_eq; lia|apply order_prime|].
  by rewrite cong_mod.
Qed.

(** ** What two statements of one user share *)

(** The part of a signature's relation that linking and tracing use. *)
Record tagged (bases : list BN) (st : Statement) (x cnt s t r : Z) (ut : Secp) : Prop := mk_tagged {
  tg_seeds : Seeds (Some x) (st_Issue st) = Ok (s, t);
  tg_nym : st_Nym st = make_nym bases [s; t; x];
  tg_counter : 0 <= cnt < st_K st /\ st_K st < 2 ^ 32;
  tg_r : st_R st = Some r /\ 0 < r < ell;
  tg_ut : IssueBase (st_Issue st) = Ok ut;
  tg_den_s : ~ s + cnt + 1 ≡[ell] 0;
  tg_den_t : ~ t + cnt + 1 ≡[ell] 0;
  tg_S : st_S st = g_mul (modinv ((s + cnt + 1) mod ell) ell) ut;
  tg_T : st_T st = g_add (g_mul x (g_gen Secp)) (g_mul ((r * modinv ((t + cnt + 1) mod ell) ell) mod ell) ut);
}.

Lemma tagged_nym bases st st' x cnt cnt' s t s' t' r r' ut ut' :
  tagged bases st x cnt s t r ut -> tagged bases st' x cnt' s' t' r' ut' -> st_Issue st = st_Issue st' ->
  s' = s /\ t' = t /\ ut' = ut /\ st_Nym st = st_Nym st'.
Proof.
  intros [Hs Hn _ _ Hu _ _ _ _] [Hs' Hn' _ _ Hu' _ _ _ _] EI. rewrite <- EI, Hs in Hs'. rewrite <- EI, Hu in Hu'.
  injection Hs' as <- <-. injection Hu' as <-. split_and!; try done. congruence.
Qed.

Lemma tagged_serial bases st st' x cnt cnt' s t s' t' r r' ut ut' :
  tagged bases st x cnt s t r ut -> tagged bases st' x cnt' s' t' r' ut' -> st_Issue st = st_Issue st' ->
  st_S st = st_S st' <-> cnt = cnt'.
Proof using CL.
  intros H1 H2 EI. destruct (tagged_nym _ _ _ _ _ _ _ _ _ _ _ _ _ _ H1 H2 EI) as (-> & -> & -> & _).
  destruct H1 as [_ _ Hc _ Hu Ds _ HS _], H2 as [_ _ Hc' _ _ Ds' _ HS' _]. rewrite HS, HS'. split.
  - apply serial_inj; [by eapply IssueBase_good|lia|lia|done|done].
  - by intros ->.
Qed.

(** The trace key of two statements of one user with one counter. *)
Lemma tagged_trace bases st st' x cnt s t s' t' r r' ut ut' :
  tagged bases st x cnt s t r ut -> tagged bases st' x cnt s' t' r' ut' -> st_Issue st = st_Issue st' ->
  (r' - r) mod ell <> 0 -> trace_key st st' r r' = g_mul x (g_gen Secp).
Proof using CL.
  intros H1 H2 EI Hd. destruct (tagged_nym _ _ _ _ _ _ _ _ _ _ _ _ _ _ H1 H2 EI) as (-> & -> & -> & _).
  destruct H1 as [Hs _ _ [_ Hr] Hu _ _ _ HT], H2 as [_ _ _ [_ Hr'] _ _ _ _ HT'].
  apply Seeds_Ok in Hs as (Hx & _).
  eapply trace_key_secret; [by eapply IssueBase_good|lia|lia|lia|by rewrite cong_0_mod|done|done].
Qed.

(** Equal challenges give equal tags. *)
Lemma tagged_replay bases st st' x cnt s t s' t' r r' ut ut' :
  tagged bases st x cnt s t r ut -> tagged bases st' x cnt s' t' r' ut' -> st_Issue st = st_Issue st' ->
  (r' - r) mod ell = 0 -> st_T st = st_T st'.
Proof using CL.
  intros H1 H2 EI Hd. destruct (tagged_nym _ _ _ _ _ _ _ _ _ _ _ _ _ _ H1 H2 EI) as (-> & -> & -> & _).
  destruct H1 as [_ _ _ [_ Hr] _ _ _ _ HT], H2 as [_ _ _ [_ Hr'] _ _ _ _ HT'].
  assert (r = r') as -> by (apply (cong_small ell); [lia|lia|]; symmetry; apply cong_sub_0; by rewrite cong_0_mod).
  congruence.
Qed.

(** Statements of [MakeStatement] and accepted signatures are tagged. *)
Lemma Made_tagged p accounts i x d issue md ts k cnt st w bases s t r ut a :
  Made p accounts i x d issue md ts k cnt st w bases s t r ut a -> 0 <= cnt -> k < 2 ^ 32 ->
  tagged bases st x cnt s t r ut.
Proof.
  intros [Mc Mi Macc Mat Mma MV MW Mr Ms Mb Mn Mch Mut Mds Mdt MS MT Mtg Min Msec] Hc Hk.
  destruct Min as (EI & EM & ET & EK), Mch as [HC ER], Mn.
  apply Challenge_Ok in HC as (_ & _ & HRr%HashScalar_range).
  constructor; rewrite ?EI, ?EK; try done. lia.
Qed.

Lemma Relation_tagged p bases st c s t a :
  Relation bases c s t a -> PublicAssignment p st = Ok (c_public c) ->
  exists r ut, tagged bases st (c_X (c_secret c)) (c_Counter (c_secret c)) s t r ut.
Proof.
  intros [_ _ _ HG4 HC' _ Hsd HN _ _ _ _ Dn1 Dn2 HS HTp] (r & ut & ER & EU & Eu)%PublicAssignment_Ok.
  exists r, ut. rewrite Eu in *. cbn in *. rewrite !Forall_cons in HG4. constructor; try done.
  split; [done|tauto].
Qed.

(** ** Signers *)

Lemma Prove_statement rand pr p st w sg : Prove rand pr p st w = Ok sg -> sg_Statement sg = st.
Proof. unfold Prove. rewrite newBig_id. intros E. go_inv E. subst sg. by destruct st. Qed.

Lemma sign_result_Ok s p rand ring account issue k m ts sg :
  sign_result s p rand ring account issue k m ts = Ok sg ->
  exists pr d w, p = Some pr /\ k <> 0 /\ counter_of s issue < k /\
    MakeStatement (sn_params ring) (sn_accounts ring) account (s_x s) (Some d) issue (sha256 m) ts k
      (counter_of s issue) = Ok (sg_Statement sg, w) /\
    Prove rand pr (sn_params ring) (sg_Statement sg) w = Ok sg.
Proof.
  unfold sign_result. destruct p as [pr|]; [|done]. intros E. go_inv E. bool_prop.
  destruct (a_D a1) as [d|]; [|done]. apply bind_Ok in E as ([st w] & HM & HP).
  pose proof (Prove_statement _ _ _ _ _ _ HP) as E. exists pr, d, w. rewrite E. done.
Qed.

(** Counters are 32-bit and the secret is set. *)
Record signer_ok (s : Signer) (x : Z) : Prop := mk_signer_ok {
  so_x : s_x s = Some x;
  so_next : forall issue, 0 <= counter_of s issue < 2 ^ 32;
}.

Lemma NewSigner_ok x s : NewSigner (Some x) = Ok s -> signer_ok s x /\ forall issue, counter_of s issue = 0.
Proof. unfold NewSigner. intros E. go_inv E. subst s. split; [constructor|]; cbn; done. Qed.

(** What one call does to the signer's state. *)
Definition sign_outcome (s : Signer) (x : Z) (issue : bytes) (k : Z) (o : result Signed) (s' : Signer) : Prop :=
  match o with
  | Err _ => s' = s
  | Ok sg => counter_of s issue < k /\ counter_of s' issue = counter_of s issue + 1 /\
      (forall issue', issue' <> issue -> counter_of s' issue' = counter_of s issue') /\
      st_Issue (sg_Statement sg) = issue /\
      exists bases sd t r ut, Bases = Ok bases /\ tagged bases (sg_Statement sg) x (counter_of s issue) sd t r ut
  end.

Lemma Sign_step s x p rand ring account issue k m ts o s' :
  signer_ok s x -> k < 2 ^ 32 -> Sign s p rand ring account issue k m ts = (o, s') ->
  signer_ok s' x /\ sign_outcome s x issue k o s'.
Proof using CL.
  intros [Hx Hn] Hk. unfold Sign, sign_outcome.
  destruct (sign_result _ _ _ _ _ _ _ _ _) as [sg|e] eqn:E; intros [= <- <-]; [|by split].
  apply sign_result_Ok in E as (pr & d & w & _ & Hk0 & Hlt & HM & _).
  pose proof (Hn issue) as Hc.
  assert ((counter_of s issue + 1) mod 2 ^ 32 = counter_of s issue + 1) as Hm by (apply Z.mod_small; lia).
  assert (forall i, counter_of {| s_x := s_x s; s_next := <[issue := (counter_of s issue + 1) mod 2 ^ 32]> (s_next s) |} i
          = if decide (i = issue) then counter_of s issue + 1 else counter_of s i) as Hcount.
  { intros i. unfold counter_of at 1. cbn [s_next]. case_decide as Hi.
    - subst i. by rewrite lookup_insert_eq.
    - by rewrite lookup_insert_ne. }
  split; [constructor; [done|]|].
  - intros i. rewrite Hcount. case_decide; [lia|apply Hn].
  - rewrite Hcount, decide_True by done. split; [done|]. split; [done|].
    split; [intros i Hi; by rewrite Hcount, decide_False|].
    apply MakeStatement_inv in HM as (x' & d' & bases & sd & t & r & ut & a & Ex & Ed & M).
    assert (x' = x) as -> by congruence.
    split; [apply M|]. exists bases, sd, t, r, ut. split; [apply M|]. eapply Made_tagged; [done|lia|done].
Qed.

(** Histories of calls on one signer. *)
Record Call := mkCall {
  call_prover : option Prover;
  call_rand : Z;
  call_ring : Snapshot;
  call_account : Z;
  call_issue : bytes;
  call_k : Z;
  call_message : bytes;
  call_ts : Z;
}.

Definition sign_call (s : Signer) (c : Call) : result Signed * Signer :=
  Sign s (call_prover c) (call_rand c) (call_ring c) (call_account c) (call_issue c) (call_k c)
    (call_message c) (call_ts c).

Fixpoint run (s : Signer) (calls : list Call) : list (result Signed) * Signer :=
  match calls with
  | [] => ([], s)
  | c :: calls =>
      let '(o, s1) := sign_call s c in
      let '(os, s2) := run s1 calls in
      (o :: os, s2)
  end.

Lemma run_cons s c calls x os s' :
  run s (c :: calls) = (os, s') -> signer_ok s x -> call_k c < 2 ^ 32 ->
  exists o s1 os1, os = o :: os1 /\ run s1 calls = (os1, s') /\ signer_ok s1 x /\
    sign_outcome s x (call_issue c) (call_k c) o s1.
Proof using CL.
  cbn [run]. intros E Hok Hk. destruct (sign_call s c) as [o s1] eqn:Es.
  destruct (run s1 calls) as [os1 s2] eqn:Er. injection E as <- <-.
  destruct (Sign_step _ _ _ _ _ _ _ _ _ _ _ _ Hok Hk Es) as [Hok1 Ho]. exists o, s1, os1. done.
Qed.

(** Every signature of a history has a counter that was current. *)
Lemma run_tagged calls s x os s' j c sg :
  signer_ok s x -> Forall (fun c => call_k c < 2 ^ 32) calls -> run s calls = (os, s') ->
  calls !! j = Some c -> os !! j = Some (Ok sg) ->
  st_Issue (sg_Statement sg) = call_issue c /\
  exists bases cnt sd t r ut, Bases = Ok bases /\ counter_of s (call_issue c) <= cnt /\
    tagged bases (sg_Statement sg) x cnt sd t r ut.
Proof using CL.
  intros Hok HF. revert s os j Hok. induction HF as [|c0 calls Hk _ IH]; intros s os j Hok; [done|].
  intros (o & s1 & os1 & -> & Er & Hok1 & Ho)%(run_cons _ _ _ x); [|done..]. unfold sign_outcome in Ho. destruct j as [|j]; cbn.
  - intros [= <-] [= ->]. destruct Ho as (_ & _ & _ & EI & bases & sd & t & r & ut & HB & HT).
    split; [done|]. exists bases, (counter_of s (call_issue c0)), sd, t, r, ut. split; [done|]. split; [lia|done].
  - intros Hc Hs. destruct (IH s1 os1 j Hok1 Er Hc Hs) as (EI & bases & cnt & sd & t & r & ut & HB & Hle & HT).
    split; [done|]. exists bases, cnt, sd, t, r, ut. split; [done|]. split; [|done].
    destruct o as [sg0|e]; [|by subst s1]. destruct Ho as (_ & Hnew & Hold & _ & _).
    destruct (decide (call_issue c = call_issue c0)) as [E|E]; [rewrite E in *; lia|].
    rewrite <- Hold by done. done.
Qed.

(** Two signatures of one signer on one issue: same nym, other serial. *)
Lemma run_distinct calls s x os s' i j ci cj si sj :
  signer_ok s x -> Forall (fun c => call_k c < 2 ^ 32) calls -> run s calls = (os, s') -> (i < j)%nat ->
  calls !! i = Some ci -> calls !! j = Some cj -> os !! i = Some (Ok si) -> os !! j = Some (Ok sj) ->
  call_issue ci = call_issue cj ->
  st_Issue (sg_Statement si) = st_Issue (sg_Statement sj) /\
  st_Nym (sg_Statement si) = st_Nym (sg_Statement sj) /\ st_S (sg_Statement si) <> st_S (sg_Statement sj).
Proof using CL.
  intros Hok HF. revert s os i j Hok. induction HF as [|c0 calls Hk HF IH]; intros s os i j Hok; [done|].
  intros (o & s1 & os1 & -> & Er & Hok1 & Ho)%(run_cons _ _ _ x); [|done..]. unfold sign_outcome in Ho. intros Hij. destruct j as [|j]; [lia|].
  destruct i as [|i]; cbn.
  - intros [= <-] Hcj [= ->] Hsj EI. destruct Ho as (_ & Hnew & _ & EI1 & bases & sd & t & r & ut & HB & HT).
    destruct (run_tagged _ _ _ _ _ _ _ _ Hok1 HF Er Hcj Hsj)
      as (EI2 & bases' & cnt & sd' & t' & r' & ut' & HB' & Hle & HT').
    assert (bases' = bases) as -> by congruence. rewrite EI1, EI2. split; [done|].
    assert (st_Issue (sg_Statement si) = st_Issue (sg_Statement sj)) as E by congruence.
    split; [by eapply tagged_nym|]. rewrite (tagged_serial _ _ _ _ _ _ _ _ _ _ _ _ _ _ HT HT' E).
    rewrite <- EI in Hle. lia.
  - intros Hci Hcj Hsi Hsj. by apply (IH s1 os1 i j Hok1 Er ltac:(lia)).
Qed.

(** The number of signatures a history makes for an issue. *)
Definition signed_for (issue : bytes) (cos : list (Call * result Signed)) : nat :=
  length (filter (fun co => call_issue co.1 = issue /\ is_ok co.2 = true) cos).

Lemma run_count calls s x os s' issue :
  signer_ok s x -> Forall (fun c => call_k c < 2 ^ 32) calls -> run s calls = (os, s') ->
  counter_of s' issue = counter_of s issue + Z.of_nat (signed_for issue (zip calls os)).
Proof using CL.
  intros Hok HF. revert s os Hok. induction HF as [|c0 calls Hk HF IH]; intros s os Hok.
  { intros [= <- <-]. unfold signed_for. cbn. lia. }
  intros (o & s1 & os1 & -> & Er & Hok1 & Ho)%(run_cons _ _ _ x); [|done..]. unfold sign_outcome in Ho. rewrite (IH s1 os1 Hok1 Er).
  unfold signed_for. cbn [zip_with]. rewrite filter_cons. cbn [fst snd]. destruct o as [sg|e]; cbn [is_ok].
  - destruct Ho as (_ & Hnew & Hold & _). case_decide as D.
    + destruct D as [<- _]. rewrite Hnew. cbn [length]. lia.
    + rewrite Hold; [done|]. intros ->. by destruct D.
  - subst s1. rewrite decide_False by (by intros [_ ?]). done.
Qed.

Lemma run_quota calls s x os s' issue k :
  signer_ok s x -> Forall (fun c => call_k c < 2 ^ 32) calls ->
  Forall (fun c => call_issue c = issue -> call_k c <= k) calls -> run s calls = (os, s') ->
  counter_of s issue <= k -> counter_of s' issue <= k.
Proof using CL.
  intros Hok HF. revert s os Hok. induction HF as [|c0 calls Hk HF IH]; intros s os Hok HQ.
  { by intros [= <- <-]. }
  intros (o & s1 & os1 & -> & Er & Hok1 & Ho)%(run_cons _ _ _ x); [|done..]. unfold sign_outcome in Ho. intros Hle. apply Forall_cons in HQ as [Hq HQ].
  apply (IH s1 os1 Hok1 HQ Er). destruct o as [sg|e]; [|by subst s1].
  destruct Ho as (Hlt & Hnew & Hold & _). destruct (decide (call_issue c0 = issue)) as [<-|E].
  - specialize (Hq eq_refl). lia.
  - by rewrite Hold.
Qed.
End facts.
