(* ===== verification/Security.v ===== *)
(** * The properties of signatures

    The theorems about the backend and the protocol as a whole: honest
    signatures verify, an accepted signature proves membership and its tags,
    repeated counters are traced to the registered user, a user cannot exceed
    the quota without being traced, honest users are linked and never traced,
    and the registry, revocation and key loading behave as specified. Each
    theorem is followed by a concrete instance over [Toy] and [ToyProofs]. *)

From S2P Require Import Prelude Bytes Sha256 Curve Toy Profile Samples Accumulator Circuit.
From S2P Require Import CircuitFacts Statements Backend BackendFacts ToyProofs Protocol.
From S2P Require Import ProtocolFacts.
From stdpp Require finite.
From Stdlib Require Import Strings.Byte.

Section theorems.
Context `{CR : !Crypto, CL : !CryptoLaws, GR : !Groth16}.
Abbreviation F := (g_order BN).
Abbreviation ell := (g_order Secp).

(** ** Signing *)

Lemma Sign_honest `{GL : !Groth16Laws GR} rand pr v s x p accounts ring i a d issue k m ts rand' ctx :
  NewBackend rand = Ok (pr, v) -> signer_ok s x -> NewSnapshot p accounts = Ok ring ->
  accounts !! Z.to_nat i = Some a -> a_D a = Some d ->
  is_ok (MakeStatement p accounts i (Some x) (Some d) issue (sha256 m) ts k (counter_of s issue)) = true ->
  NewVerificationContext p accounts issue k = Ok ctx -> k < 2 ^ 32 -> 0 <= ts < 2 ^ 64 -> ts < F ->
  exists sg s', Sign s (Some pr) rand' ring i issue k m ts = (Ok sg, s') /\
    Verify (Some v) ctx m sg = Ok tt /\ counter_of s' issue = counter_of s issue + 1.
Proof using CL.
  intros HB Hok (v0 & _ & ->)%NewSnapshot_Ok Ha Hd ([st w] & HM)%is_ok_exists Hctx Hk Hts HtsF.
  pose proof (so_next _ _ Hok issue) as Hc.
  destruct (prove_honest rand pr v rand' p accounts i (Some x) (Some d) issue m ts k (counter_of s issue) st w ctx)
    as (sg & HP & Est & HV & _); [done..|lia|done|done|done|].
  pose proof HM as (x' & d' & bases & sd & t & r & ut & a' & _ & _ & M)%MakeStatement_inv.
  assert (sign_result s (Some pr) rand' (mkSnapshot p accounts v0) i issue k m ts = Ok sg) as HS.
  { unfold sign_result. cbn [sn_accounts sn_params]. destruct (made_index _ _ _ _ _ _ _ _ _ _ _ _ _ _ _ _ _ _ M).
    destruct (made_counter _ _ _ _ _ _ _ _ _ _ _ _ _ _ _ _ _ _ M).
    destruct (Z.ltb_spec i 0); [lia|]. destruct (Z.leb_spec (Z.of_nat (length accounts)) i); [lia|].
    destruct (Z.eqb_spec k 0); [lia|]. destruct (Z.leb_spec k (counter_of s issue)); [lia|].
    cbn [orb fail_if mbind result_bind]. rewrite Ha. cbn [deref mbind result_bind].
    rewrite Hd, (so_x _ _ Hok), HM. exact HP. }
  unfold Sign. rewrite HS. eexists _, _. split; [reflexivity|]. split; [done|].
  unfold counter_of at 1. cbn [s_next]. rewrite lookup_insert_eq. cbn [from_option id].
  apply Z.mod_small. destruct (made_counter _ _ _ _ _ _ _ _ _ _ _ _ _ _ _ _ _ _ M). lia.
Qed.

(** C4: completeness of the system. When the inputs of [Sign] make a
    statement, a prover from [NewBackend] signs it, the signature passes
    [Verify] under the context of the same ring, issue and quota, and the
    counter advances by one. *)
Theorem sign_verifies `{GL : !Groth16Laws GR} rand pr v s x p accounts ring i a d issue k m ts rand' ctx :
  NewBackend rand = Ok (pr, v) -> signer_ok s x -> NewSnapshot p accounts = Ok ring ->
  accounts !! Z.to_nat i = Some a -> a_D a = Some d ->
  is_ok (MakeStatement p accounts i (Some x) (Some d) issue (sha256 m) ts k (counter_of s issue)) = true ->
  NewVerificationContext p accounts issue k = Ok ctx -> k < 2 ^ 32 -> 0 <= ts < 2 ^ 64 -> ts < F ->
  exists sg s', Sign s (Some pr) rand' ring i issue k m ts = (Ok sg, s') /\
    Verify (Some v) ctx m sg = Ok tt /\ counter_of s' issue = counter_of s issue + 1.
Proof using CL. apply Sign_honest. Qed.

(** ** Accepted signatures *)

(** C3: soundness of an accepted signature. Under knowledge soundness, an
    accepted signature comes from an account [(x, d)] whose handle passes
    [VerifyMembership] against the accumulator of the context's ring, with a
    counter below the quota, and its nym, serial and trace tag are the ones
    of [x] and that counter for the context's issue; its message digest is
    the digest of the message. *)
Theorem accepted_sound `{KS : !KnowledgeSound GR} v vk ctx m sg bases :
  trusted v vk -> Verify (Some v) ctx m sg = Ok tt -> native_statement (sg_Statement sg) -> Bases = Ok bases ->
  exists x d account h W cnt s t r ut,
    NewAccount (Some x) (Some d) = Ok account /\ Member account = Ok h /\
    Accumulate (ctx_params ctx) (ctx_accounts ctx) = Ok (st_V (sg_Statement sg)) /\
    VerifyMembership (ctx_params ctx) (st_V (sg_Statement sg)) W (Some h) = true /\
    0 <= cnt < ctx_k ctx /\ st_Issue (sg_Statement sg) = ctx_issue ctx /\
    st_MessageDigest (sg_Statement sg) = sha256 m /\
    tagged bases (sg_Statement sg) x cnt s t r ut.
Proof using CL.
  intros Htr HV Hnat HB.
  destruct (accepted_relation v vk ctx m sg bases Htr HV Hnat HB) as (c & s & t & a & _ & HP & HR).
  destruct (Relation_tagged _ _ _ _ _ _ _ HR HP) as (r & ut & HT).
  apply Verify_Ok in HV as (HC & _). apply check_Ok in HC as ((EI & EK & EM & _) & HA & _).
  pose proof (rel_account _ _ _ _ _ HR) as Hacc. pose proof (rel_member _ _ _ _ _ HR) as Hm.
  assert (exists tau, srs (ctx_params ctx) tau) as [tau Hs].
  { pose proof HA as (tau & _ & Hs & _)%Accumulate_Ok. eauto. }
  apply PublicAssignment_Ok in HP as (r' & ut' & _ & _ & Eu).
  exists (c_X (c_secret c)), (c_D (c_secret c)). eexists. exists a, (c_W (c_secret c)), (c_Counter (c_secret c)), s, t, r, ut.
  split; [exact Hacc|]. split; [exact Hm|]. split; [done|]. split.
  - replace (st_V (sg_Statement sg)) with (c_V (c_public c)) by (by rewrite Eu).
    eapply relation_membership; [done| | |done]; by rewrite Eu.
  - split; [|done]. rewrite <- EK. apply (tg_counter _ _ _ _ _ _ _ _ HT).
Qed.

Lemma native_small st : 0 <= st_K st < 2 ^ 32 -> 0 <= st_Timestamp st < 2 ^ 33 -> native_statement st.
Proof using CL. intros HK HT. pose proof (order_lower (P:=BN)). unfold native_statement. lia. Qed.

(** ** Tracing *)

(** The secret and the counter the extractor finds in a signature. *)
Definition signed_with `{KS : !KnowledgeSound GR} (vk : VK) (ctx : VerificationContext) (sg : Signed) (x cnt : Z) : Prop :=
  exists c, opening vk ctx sg = Ok c /\ c_X (c_secret c) = x /\ c_Counter (c_secret c) = cnt.

Lemma signed_with_tagged `{KS : !KnowledgeSound GR} v vk ctx m sg bases x cnt :
  trusted v vk -> Verify (Some v) ctx m sg = Ok tt -> native_statement (sg_Statement sg) -> Bases = Ok bases ->
  signed_with vk ctx sg x cnt -> exists s t r ut, tagged bases (sg_Statement sg) x cnt s t r ut.
Proof using CL.
  intros Htr HV Hnat HB (c & HO & <- & <-).
  destruct (accepted_relation v vk ctx m sg bases Htr HV Hnat HB) as (c' & s & t & a & HO' & HP & HR).
  assert (c' = c) as -> by congruence. destruct (Relation_tagged _ _ _ _ _ _ _ HR HP) as (r & ut & HT). eauto.
Qed.

Lemma verified_context v ctx m sg :
  Verify (Some v) ctx m sg = Ok tt ->
  st_Issue (sg_Statement sg) = ctx_issue ctx /\ st_K (sg_Statement sg) = ctx_k ctx.
Proof. intros [HC _]%Verify_Ok. apply check_Ok in HC as ((? & ? & _) & _). done. Qed.

(** [Trace] on two verified signatures with one secret in one context. *)
Lemma Trace_tagged v a ma sa b mb sb reg bases x ca cb s t s' t' r r' ut ut' :
  Verify (Some v) a ma sa = Ok tt -> Verify (Some v) b mb sb = Ok tt ->
  ctx_issue a = ctx_issue b -> ctx_k a = ctx_k b ->
  tagged bases (sg_Statement sa) x ca s t r ut -> tagged bases (sg_Statement sb) x cb s' t' r' ut' ->
  Trace (Some v) a ma sa b mb sb reg =
    if ca =? cb then
      if (r' - r) mod ell =? 0 then (trace_status TraceReplay, None)
      else match Resolve reg (g_mul x (g_gen Secp)) with
           | Ok user => (mkTraceResult TraceTraced user (g_mul x (g_gen Secp)), None)
           | Err e => (invalid, Some ("trace lookup: " +:+ e))
           end
    else (trace_status TraceLegal, None).
Proof using CL.
  intros HVa HVb EI EK Ta Tb. unfold Trace. rewrite HVa, HVb.
  destruct (verified_context _ _ _ _ HVa) as [Ia _]. destruct (verified_context _ _ _ _ HVb) as [Ib _].
  assert (st_Issue (sg_Statement sa) = st_Issue (sg_Statement sb)) as E by congruence.
  destruct (tagged_nym _ _ _ _ _ _ _ _ _ _ _ _ _ _ Ta Tb E) as (_ & _ & _ & EN).
  rewrite !bool_decide_eq_true_2, EK, Z.eqb_refl by done. cbn [negb orb].
  pose proof (tagged_serial _ _ _ _ _ _ _ _ _ _ _ _ _ _ Ta Tb E) as HS.
  destruct (Z.eqb_spec ca cb) as [Ec|Ec].
  2: { rewrite bool_decide_eq_false_2; [done|]. tauto. }
  rewrite bool_decide_eq_true_2 by tauto. cbn [negb]. subst cb.
  destruct (tg_r _ _ _ _ _ _ _ _ Ta) as [-> _], (tg_r _ _ _ _ _ _ _ _ Tb) as [-> _].
  destruct (Z.eqb_spec ((r' - r) mod ell) 0) as [Er|Er].
  - by rewrite bool_decide_eq_true_2 by (eapply tagged_replay; eauto).
  - by rewrite (tagged_trace _ _ _ _ _ _ _ _ _ _ _ _ _ Ta Tb E Er).
Qed.

(** A user of the registry with the given secret. *)
Definition registered (entries : list Registration) (user : string) (x : Z) : Prop :=
  exists e, e ∈ entries /\ reg_UserID e = user /\ a_Y (reg_Account e) = g_mul x (a_U (reg_Account e)).

Definition same_challenge (sa sb : Signed) : bool :=
  bool_decide (st_R (sg_Statement sa) = st_R (sg_Statement sb)).

Lemma Resolve_registered entries reg user x :
  NewRegistry entries = Ok reg -> registered entries user x -> 0 < x < ell ->
  Resolve reg (g_mul x (g_gen Secp)) = Ok user.
Proof using CL.
  intros HR (e & He & <- & EY) Hx. apply (Resolve_Ok entries reg _ _ HR). split.
  - rewrite mul_gen by lia. apply good_pow. by apply cong_scalar_nonzero.
  - exists e. split; [done|]. split; [done|]. apply NewRegistry_Ok in HR as (_ & (ms & Hu) & _).
    destruct (unambiguous_valid _ _ _ Hu He) as [m Hm]. eapply reg_key_secret; [done|lia|done].
Qed.

Lemma tagged_secret bases st x cnt s t r ut : tagged bases st x cnt s t r ut -> 0 < x < ell.
Proof. intros HT. by destruct (proj1 (Seeds_Ok _ _ _ _) (tg_seeds _ _ _ _ _ _ _ _ HT)) as [? _]. Qed.

Lemma trace_double_use v a ma sa b mb sb entries reg user bases x cnt s t s' t' r r' ut ut' :
  Verify (Some v) a ma sa = Ok tt -> Verify (Some v) b mb sb = Ok tt ->
  ctx_issue a = ctx_issue b -> ctx_k a = ctx_k b ->
  tagged bases (sg_Statement sa) x cnt s t r ut -> tagged bases (sg_Statement sb) x cnt s' t' r' ut' ->
  NewRegistry entries = Ok reg -> registered entries user x ->
  Trace (Some v) a ma sa b mb sb reg =
    if same_challenge sa sb then (trace_status TraceReplay, None)
    else (mkTraceResult TraceTraced user (g_mul x (g_gen Secp)), None).
Proof using CL.
  intros HVa HVb EI EK Ta Tb HR Hreg.
  unfold same_challenge. rewrite (Trace_tagged v a ma sa b mb sb reg bases x cnt cnt s t s' t' r r' ut ut') by done.
  rewrite Z.eqb_refl, (Resolve_registered entries reg user x HR Hreg (tagged_secret _ _ _ _ _ _ _ _ Ta)).
  destruct (tg_r _ _ _ _ _ _ _ _ Ta) as [-> Hr], (tg_r _ _ _ _ _ _ _ _ Tb) as [-> Hr'].
  destruct (Z.eqb_spec ((r' - r) mod ell) 0) as [E|E]; case_bool_decide as D; try done.
  - destruct D. f_equal. apply (cong_small ell); [lia|lia|]. symmetry. apply cong_sub_0. by rewrite cong_0_mod.
  - injection D as <-. by rewrite Z.sub_diag, Zmod_0_l in E.
Qed.

(** C1: tracing. Two accepted signatures of one user that spend the same
    counter for the same issue and quota are traced to the registered user
    with its trace key [[x]g], unless their challenges are equal, which is
    reported as a replay; which accounts, rings, messages and timestamps they
    use does not matter. *)
Theorem trace_identifies `{KS : !KnowledgeSound GR} v vk a ma sa b mb sb entries reg user bases x cnt :
  trusted v vk -> Verify (Some v) a ma sa = Ok tt -> Verify (Some v) b mb sb = Ok tt ->
  native_statement (sg_Statement sa) -> native_statement (sg_Statement sb) -> Bases = Ok bases ->
  ctx_issue a = ctx_issue b -> ctx_k a = ctx_k b ->
  signed_with vk a sa x cnt -> signed_with vk b sb x cnt ->
  NewRegistry entries = Ok reg -> registered entries user x ->
  Trace (Some v) a ma sa b mb sb reg =
    if same_challenge sa sb then (trace_status TraceReplay, None)
    else (mkTraceResult TraceTraced user (g_mul x (g_gen Secp)), None).
Proof using CL.
  intros Htr HVa HVb Na Nb HB EI EK Sa Sb HR Hreg.
  destruct (signed_with_tagged _ _ _ _ _ _ _ _ Htr HVa Na HB Sa) as (s & t & r & ut & Ta).
  destruct (signed_with_tagged _ _ _ _ _ _ _ _ Htr HVb Nb HB Sb) as (s' & t' & r' & ut' & Tb).
  by eapply trace_double_use.
Qed.

(** A signature presented for verification. *)
Record Presented := mkPresented {
  ps_ctx : VerificationContext;
  ps_message : bytes;
  ps_signed : Signed;
}.

Lemma pigeonhole_Z (l : list Z) k :
  (forall c, c ∈ l -> 0 <= c < k) -> 0 <= k < Z.of_nat (length l) ->
  exists i j c, (i < j)%nat /\ l !! i = Some c /\ l !! j = Some c.
Proof.
  intros Hl Hk. apply (finite.list_pigeonhole l (seqZ 0 k)).
  - intros c Hc. apply elem_of_seqZ. specialize (Hl c Hc). lia.
  - rewrite length_seqZ. lia.
Qed.

(** C2: quotas cannot be exceeded anonymously. Among more than [k] accepted
    signatures of one registered user for an issue with quota [k], two are
    reported by [Trace] as a replay or traced to that user. *)
Theorem quota_enforced `{KS : !KnowledgeSound GR} v vk (ps : list Presented) issue k entries reg user bases x :
  trusted v vk -> Bases = Ok bases -> NewRegistry entries = Ok reg -> registered entries user x ->
  (forall p, p ∈ ps -> Verify (Some v) (ps_ctx p) (ps_message p) (ps_signed p) = Ok tt /\
     native_statement (sg_Statement (ps_signed p)) /\ ctx_issue (ps_ctx p) = issue /\ ctx_k (ps_ctx p) = k /\
     exists cnt, signed_with vk (ps_ctx p) (ps_signed p) x cnt) ->
  0 <= k < Z.of_nat (length ps) ->
  exists i j p q, (i < j)%nat /\ ps !! i = Some p /\ ps !! j = Some q /\
    Trace (Some v) (ps_ctx p) (ps_message p) (ps_signed p) (ps_ctx q) (ps_message q) (ps_signed q) reg =
      if same_challenge (ps_signed p) (ps_signed q)
      then (trace_status TraceReplay, None)
      else (mkTraceResult TraceTraced user (g_mul x (g_gen Secp)), None).
Proof using CL.
  intros Htr HB HR Hreg HV Hk.
  assert (exists cnts, Forall2 (fun p cnt => exists s t r ut,
    tagged bases (sg_Statement (ps_signed p)) x cnt s t r ut) ps cnts) as [cnts HF].
  { apply Forall_exists_Forall2_l, Forall_forall. intros p Hp.
    destruct (HV p Hp) as (HVp & Np & _ & _ & cnt & Sp). exists cnt. by eapply signed_with_tagged. }
  destruct (pigeonhole_Z cnts k) as (i & j & cnt & Hij & Hi & Hj).
  { intros cnt (i & Hi)%list_elem_of_lookup. destruct (Forall2_lookup_r _ _ _ _ _ HF Hi) as (p & Hp & s & t & r & ut & HT).
    apply list_elem_of_lookup_2, HV in Hp as (HVp & _ & _ & <- & _). apply verified_context in HVp as [_ <-].
    apply (tg_counter _ _ _ _ _ _ _ _ HT). }
  { by rewrite <- (Forall2_length _ _ _ HF). }
  destruct (Forall2_lookup_r _ _ _ _ _ HF Hi) as (p & Hp & s & t & r & ut & Tp).
  destruct (Forall2_lookup_r _ _ _ _ _ HF Hj) as (q & Hq & s' & t' & r' & ut' & Tq).
  exists i, j, p, q. split; [done|]. split; [done|]. split; [done|].
  apply list_elem_of_lookup_2, HV in Hp as (HVp & _ & EIp & EKp & _).
  apply list_elem_of_lookup_2, HV in Hq as (HVq & _ & EIq & EKq & _).
  eapply trace_double_use; [done|done|congruence|congruence|done..].
Qed.

(** ** Honest users *)

(** C8: honest users are linked and never traced. Two signatures that one
    signer made for one issue, at any two points of a history of [Sign] calls
    over any rings, accounts and provers, have the same nym and different
    serials: when both verify, [Link] answers true and [Trace], for contexts
    of the same quota, answers legal. *)
Theorem honest_linked_and_legal x s calls os s' i j ci cj si sj v a ma b mb reg :
  NewSigner (Some x) = Ok s -> Forall (fun c => call_k c < 2 ^ 32) calls -> run s calls = (os, s') ->
  (i < j)%nat -> calls !! i = Some ci -> calls !! j = Some cj -> os !! i = Some (Ok si) -> os !! j = Some (Ok sj) ->
  call_issue ci = call_issue cj ->
  Verify (Some v) a ma si = Ok tt -> Verify (Some v) b mb sj = Ok tt ->
  Link (Some v) a ma si b mb sj = Ok true /\
  (ctx_k a = ctx_k b -> Trace (Some v) a ma si b mb sj reg = (trace_status TraceLegal, None)).
Proof using CL.
  intros [Hok _]%NewSigner_ok HF Hrun Hij Hci Hcj Hsi Hsj EI HVa HVb.
  destruct (run_distinct _ _ _ _ _ _ _ _ _ _ _ Hok HF Hrun Hij Hci Hcj Hsi Hsj EI) as (E & EN & ES).
  destruct (verified_context _ _ _ _ HVa) as [Ia _], (verified_context _ _ _ _ HVb) as [Ib _].
  assert (ctx_issue a = ctx_issue b) as EC by congruence. unfold Link, Trace. rewrite HVa, HVb. split.
  - cbn [mbind result_bind]. by rewrite !bool_decide_eq_true_2.
  - intros EK. rewrite !bool_decide_eq_true_2, EK, Z.eqb_refl by done. cbn [negb orb].
    by rewrite bool_decide_eq_false_2.
Qed.

(** C17: a signer never exceeds a quota. After any history of [Sign] calls,
    the counter of an issue is the number of signatures made for it, which is
    at most the largest quota the calls used for that issue. *)
Theorem signer_respects_quota x s calls os s' issue k :
  NewSigner (Some x) = Ok s -> Forall (fun c => call_k c < 2 ^ 32) calls -> run s calls = (os, s') ->
  Forall (fun c => call_issue c = issue -> call_k c <= k) calls -> 0 <= k ->
  NextCounter s' issue = Z.of_nat (signed_for issue (zip calls os)) /\ NextCounter s' issue <= k.
Proof using CL.
  intros [Hok H0]%NewSigner_ok HF Hrun HQ Hk. unfold NextCounter.
  pose proof (run_count _ _ _ _ _ issue Hok HF Hrun) as HC. rewrite H0 in HC. split; [lia|].
  eapply run_quota; eauto. by rewrite H0.
Qed.

(** One user's signatures on an issue are linkable. Two accepted
    signatures of one secret for one issue satisfy [Link], whatever the
    accounts, rings, quotas and counters they use. *)
Theorem link_same_user `{KS : !KnowledgeSound GR} v vk a ma sa b mb sb bases x ca cb :
  trusted v vk -> Verify (Some v) a ma sa = Ok tt -> Verify (Some v) b mb sb = Ok tt ->
  native_statement (sg_Statement sa) -> native_statement (sg_Statement sb) -> Bases = Ok bases ->
  ctx_issue a = ctx_issue b -> signed_with vk a sa x ca -> signed_with vk b sb x cb ->
  Link (Some v) a ma sa b mb sb = Ok true.
Proof using CL.
  intros Htr HVa HVb Na Nb HB EI Sa Sb.
  destruct (signed_with_tagged _ _ _ _ _ _ _ _ Htr HVa Na HB Sa) as (s & t & r & ut & Ta).
  destruct (signed_with_tagged _ _ _ _ _ _ _ _ Htr HVb Nb HB Sb) as (s' & t' & r' & ut' & Tb).
  destruct (verified_context _ _ _ _ HVa) as [Ia _], (verified_context _ _ _ _ HVb) as [Ib _].
  assert (st_Issue (sg_Statement sa) = st_Issue (sg_Statement sb)) as E by congruence.
  destruct (tagged_nym _ _ _ _ _ _ _ _ _ _ _ _ _ _ Ta Tb E) as (_ & _ & _ & EN).
  unfold Link. rewrite HVa, HVb. cbn [mbind result_bind]. by rewrite !bool_decide_eq_true_2.
Qed.

(** ** The registry *)

(** [NewRegistry] accepts exactly the unambiguous registries: nonempty,
    every entry a named user with a valid account and public exponent, no
    account registered twice, and users and trace keys determining each
    other. *)
Theorem registry_unambiguous entries r :
  NewRegistry entries = Ok r <->
  entries <> [] /\ (exists ms, unambiguous entries ms) /\ r = mkRegistry entries.
Proof using CL. apply NewRegistry_Ok. Qed.

(** [Resolve] finds the owner of a trace key: it answers [user] exactly
    when the key is a valid point and some account of [user] has it. *)
Theorem resolve_owner entries r ux user :
  NewRegistry entries = Ok r ->
  Resolve r ux = Ok user <->
  good ux = true /\ exists e, e ∈ entries /\ reg_UserID e = user /\ reg_key e = ux.
Proof using CL. apply Resolve_Ok. Qed.

(** Revocation of a registered user always succeeds and keeps exactly the
    accounts of the ring that are not registered to that user, in order; for
    an unregistered user it fails. *)
Theorem revoke_user entries r p accounts ring user :
  NewRegistry entries = Ok r -> NewSnapshot p accounts = Ok ring ->
  match RevokeUser r ring user with
  | Ok ring' => user ∈ reg_UserID <$> entries /\
      NewSnapshot p (filter (fun a => is_revoked entries user a = false) accounts) = Ok ring'
  | Err _ => user ∉ reg_UserID <$> entries
  end.
Proof using CL. apply RevokeUser_spec. Qed.

(** ** Keys and encodings *)

(** A verifier survives its own encoding. [LoadVerifier] applied to the
    bytes [KeyBytes] writes and the verifier's two digests gives the same
    verifier. *)
Theorem load_own_key `{GL : !Groth16Laws GR} rand pr v raw :
  NewBackend rand = Ok (pr, v) -> KeyBytes v = Ok raw -> Z.of_nat (length raw) <= maxProofBytes ->
  LoadVerifier raw (fst (IDs v)) (snd (IDs v)) = Ok v.
Proof. apply loadVerifier_own. Qed.

(** A loaded verifier is bound to its digests: its key is the decoding of
    all the given bytes, their SHA-256 is the key id, they have the layout of
    a verifying key, and the circuit hash is that of the compiled circuit. *)
Theorem loaded_key_is_bound key h id v :
  LoadVerifier key h id = Ok v ->
  IDs v = (h, id) /\ sha256 key = id /\ ExpectedCircuitHash = Ok h /\
  (exists hdr ks rows cms, vk_layout key hdr ks rows cms) /\
  exists vk, v_vk v = Some vk /\ vk_read key = Ok (vk, []).
Proof.
  intros (<- & <- & ? & ? & _ & ? & ?)%LoadVerifier_Ok. done.
Qed.
End theorems.

(** [preflightVerifyingKey] accepts exactly the byte strings with the
    layout of a verifying key: six points, a counted vector of at most 65536
    G1 points, counted metadata rows of at most 2^20 entries in total, at
    most 64 commitment keys of two G2 points, and nothing after them. *)
Theorem preflight_key_layout raw :
  preflightVerifyingKey raw = Ok tt <-> exists hdr ks rows cms, vk_layout raw hdr ks rows cms.
Proof. apply preflightVerifyingKey_Ok. Qed.

(** [preflightProof] accepts exactly the compressed proofs with the
    trusted number of commitments: three points, that number, and one more
    compressed G1 points than it says; it never reads out of range. *)
Theorem preflight_proof_layout raw n :
  preflightProof raw n = Ok tt <-> exists ar bs krs cms, proof_layout raw n ar bs krs cms.
Proof. apply preflightProof_Ok. Qed.

(** ** Concrete instances *)

Definition sample_backend : Prover * Verifier :=
  get_ok (mkProver (tt : CS) (tt : PK) [] [], mkVerifier None [] []) (NewBackend 0).
Definition sample_prover : Prover := sample_backend.1.
Definition sample_verifier : Verifier := sample_backend.2.

Lemma sample_backend_eq : NewBackend 0 = Ok (sample_prover, sample_verifier).
Proof. unfold sample_prover, sample_verifier. rewrite <- surjective_pairing. apply get_ok_eq. vm_compute. reflexivity. Qed.

Lemma sample_trusted : trusted sample_verifier tt.
Proof. split; [vm_compute; reflexivity|]. exists tt, 0, tt. split; reflexivity. Qed.

Definition alice_signer : Signer := get_ok (mkSigner None ∅) (NewSigner (Some alice_x)).

Lemma alice_signer_eq : NewSigner (Some alice_x) = Ok alice_signer.
Proof. apply get_ok_eq. vm_compute. reflexivity. Qed.

Definition sample_ring_digest : bytes := get_ok [] (RingDigest sample_ring).
Definition sample_ctx (k : Z) : VerificationContext :=
  mkVerificationContext sample_params sample_ring sample_issue k sample_ring_digest.

Lemma sample_accumulates : is_ok (Accumulate sample_params sample_ring) = true.
Proof. vm_compute. reflexivity. Qed.

Lemma sample_snapshot_eq : NewSnapshot sample_params sample_ring = Ok (sample_snapshot sample_ring).
Proof.
  apply get_ok_eq. destruct (proj1 (is_ok_exists _) sample_accumulates) as [v Hv].
  unfold NewSnapshot. by rewrite Hv.
Qed.

Lemma sample_ctx_eq k : k <> 0 -> NewVerificationContext sample_params sample_ring sample_issue k = Ok (sample_ctx k).
Proof.
  intros Hk. apply NewVerificationContext_Ok. split; [done|]. split; [exact sample_accumulates|].
  exists sample_ring_digest. split; [|done]. apply get_ok_eq. vm_compute. reflexivity.
Qed.

Definition message_1 : bytes := ascii_bytes "first message".
Definition message_2 : bytes := ascii_bytes "second message".

Definition no_signed : Signed := mkSigned no_statement (mkProof "" [] [] []).
Definition sample_sign (s : Signer) (i k : Z) (m : bytes) : result Signed * Signer :=
  Sign s (Some sample_prover) 0 (sample_snapshot sample_ring) i sample_issue k m 1700000000.
Definition sample_statement (i d k : Z) (m : bytes) (cnt : Z) : result (Statement * SecretWitness) :=
  MakeStatement sample_params sample_ring i (Some alice_x) (Some d) sample_issue (sha256 m) 1700000000 k cnt.

Lemma statement_1 : is_ok (sample_statement 0 889 1 message_1 0) = true.
Proof. vm_compute. reflexivity. Qed.
Lemma statement_2 : is_ok (sample_statement 1 1000 1 message_2 0) = true.
Proof. vm_compute. reflexivity. Qed.
Lemma statement_3 : is_ok (sample_statement 1 1000 2 message_1 0) = true.
Proof. vm_compute. reflexivity. Qed.
Lemma statement_4 : is_ok (sample_statement 0 889 2 message_2 1) = true.
Proof. vm_compute. reflexivity. Qed.

(** What the extractor of [ToyProofs] finds in a proof made by [Prove]. *)
Lemma toy_opening rand pr p st w sg ctx x cnt :
  Prove rand pr p st w = Ok sg -> ctx_params ctx = p -> w_X w = Some x -> w_Counter w = cnt ->
  signed_with tt ctx sg x cnt.
Proof.
  intros HP <- Hx Hc. pose proof (Prove_statement _ _ _ _ _ _ HP) as Est. unfold Prove in HP. go_inv HP.
  rename select (Assignment _ _ _ = _) into HA. rename select (new_witness _ = _) into HW. injection HW as <-.
  match goal with H : gr_prove _ _ _ _ = _ |- _ => apply bind_fail_if in H as [Hok HE] end. injection HE as <-.
  match goal with H : proof_bytes _ = _ |- _ => injection H as HB end.
  apply negb_false_iff, toy_accepts_sound in Hok as (_ & Hslot & _).
  exists a. unfold Assignment in HA. rewrite Hx in HA. destruct (w_D w) as [d|]; [|done]. go_inv HA.
  rename select (PublicAssignment _ _ = _) into HPub. unfold opening. rewrite Est, HPub. subst sg a. cbn [sg_Proof pf_Data].
  rewrite <- HB, <- (app_nil_r (toy_proof_bytes _)).
  change (@proof_read toy_crypto toy_groth16) with (@toy_proof_read toy_crypto).
  rewrite (toy_proof_read_bytes _ [] Hslot). done.
Qed.

Lemma sample_signature s i a d k m :
  signer_ok s alice_x -> sample_ring !! Z.to_nat i = Some a -> a_D a = Some d -> 0 < k < 2 ^ 32 ->
  is_ok (sample_statement i d k m (counter_of s sample_issue)) = true ->
  exists sg s', sample_sign s i k m = (Ok sg, s') /\ Verify (Some sample_verifier) (sample_ctx k) m sg = Ok tt /\
    native_statement (sg_Statement sg) /\ signed_with tt (sample_ctx k) sg alice_x (counter_of s sample_issue) /\
    counter_of s' sample_issue = counter_of s sample_issue + 1.
Proof.
  intros Hok Ha Hd Hk HM.
  destruct (Sign_honest 0 sample_prover sample_verifier s alice_x sample_params sample_ring _ i a d sample_issue k m
    1700000000 0 (sample_ctx k) sample_backend_eq Hok sample_snapshot_eq Ha Hd HM) as (sg & s' & HS & HV & Hcnt);
    [apply sample_ctx_eq; lia|lia|lia|reflexivity|].
  exists sg, s'. split; [exact HS|]. split; [exact HV|].
  assert (sign_result s (Some sample_prover) 0 (sample_snapshot sample_ring) i sample_issue k m 1700000000 = Ok sg) as HR.
  { unfold Sign in HS. destruct (sign_result _ _ _ _ _ _ _ _ _); congruence. }
  apply sign_result_Ok in HR as (pr & d' & w & [= <-] & _ & _ & HMk & HP).
  pose proof sample_snapshot_eq as (v0 & _ & Esn)%NewSnapshot_Ok. rewrite Esn in HMk, HP. cbn [sn_params sn_accounts] in *.
  apply MakeStatement_inv in HMk as (x' & dd & bases & sd & t & r & ut & a' & Ex & _ & M).
  destruct (made_inputs _ _ _ _ _ _ _ _ _ _ _ _ _ _ _ _ _ _ M) as (_ & _ & ET & EK).
  destruct (made_secrets _ _ _ _ _ _ _ _ _ _ _ _ _ _ _ _ _ _ M) as (EX & _ & EC).
  rewrite (so_x _ _ Hok) in Ex. injection Ex as <-.
  split; [|split; [by eapply toy_opening|exact Hcnt]].
  apply native_small; rewrite ?ET, ?EK; lia.
Qed.

Lemma sign_verifies_witness :
  exists sg s', Sign alice_signer (Some sample_prover) 0 (sample_snapshot sample_ring) 1 sample_issue 2 message_1 1700000000
      = (Ok sg, s') /\ Verify (Some sample_verifier) (sample_ctx 2) message_1 sg = Ok tt /\
    counter_of s' sample_issue = counter_of alice_signer sample_issue + 1.
Proof.
  apply (sign_verifies 0 sample_prover sample_verifier alice_signer alice_x sample_params sample_ring _ 1 alice_est 1000
    sample_issue 2 message_1 1700000000 0 (sample_ctx 2) sample_backend_eq (proj1 (NewSigner_ok _ _ alice_signer_eq))
    sample_snapshot_eq);
    [reflexivity|reflexivity|exact statement_3|by apply sample_ctx_eq|lia|lia|reflexivity].
Defined.

(** Two signatures that spend the same counter. *)
Definition double_1 : Signed := get_ok no_signed (fst (sample_sign alice_signer 0 1 message_1)).
Definition double_2 : Signed := get_ok no_signed (fst (sample_sign alice_signer 1 1 message_2)).

Lemma alice_ok : signer_ok alice_signer alice_x.
Proof. apply (NewSigner_ok _ _ alice_signer_eq). Qed.

Lemma double_1_facts :
  Verify (Some sample_verifier) (sample_ctx 1) message_1 double_1 = Ok tt /\
  native_statement (sg_Statement double_1) /\ signed_with tt (sample_ctx 1) double_1 alice_x 0.
Proof.
  destruct (sample_signature alice_signer 0 alice_up 889 1 message_1 alice_ok eq_refl eq_refl ltac:(lia) statement_1)
    as (sg & s' & HS & HV & HN & HW & _).
  rewrite (proj2 (NewSigner_ok _ _ alice_signer_eq)) in HW. unfold double_1. rewrite HS. cbn [fst get_ok].
  exact (conj HV (conj HN HW)).
Qed.

Lemma double_2_facts :
  Verify (Some sample_verifier) (sample_ctx 1) message_2 double_2 = Ok tt /\
  native_statement (sg_Statement double_2) /\ signed_with tt (sample_ctx 1) double_2 alice_x 0.
Proof.
  destruct (sample_signature alice_signer 1 alice_est 1000 1 message_2 alice_ok eq_refl eq_refl ltac:(lia) statement_2)
    as (sg & s' & HS & HV & HN & HW & _).
  rewrite (proj2 (NewSigner_ok _ _ alice_signer_eq)) in HW. unfold double_2. rewrite HS. cbn [fst get_ok].
  exact (conj HV (conj HN HW)).
Qed.

Definition sample_entries : list Registration :=
  [mkRegistration "bob" bob_trib; mkRegistration "alice" alice_up; mkRegistration "alice" alice_est].
Definition sample_registry : Registry := get_ok (mkRegistry []) (NewRegistry sample_entries).

Lemma sample_registry_eq : NewRegistry sample_entries = Ok sample_registry.
Proof. apply get_ok_eq. vm_compute. reflexivity. Qed.

Lemma alice_registered : registered sample_entries "alice" alice_x.
Proof.
  exists (mkRegistration "alice" alice_up). split; [|split; [reflexivity|vm_compute; reflexivity]].
  unfold sample_entries. rewrite !elem_of_cons. right. left. reflexivity.
Qed.

Lemma accepted_sound_witness :
  exists x d account h W cnt s t r ut,
    NewAccount (Some x) (Some d) = Ok account /\ Member account = Ok h /\
    Accumulate (ctx_params (sample_ctx 1)) (ctx_accounts (sample_ctx 1)) = Ok (st_V (sg_Statement double_1)) /\
    VerifyMembership (ctx_params (sample_ctx 1)) (st_V (sg_Statement double_1)) W (Some h) = true /\
    0 <= cnt < ctx_k (sample_ctx 1) /\ st_Issue (sg_Statement double_1) = ctx_issue (sample_ctx 1) /\
    st_MessageDigest (sg_Statement double_1) = sha256 message_1 /\
    tagged sample_bases (sg_Statement double_1) x cnt s t r ut.
Proof.
  exact (accepted_sound sample_verifier tt (sample_ctx 1) message_1 double_1 sample_bases sample_trusted
           (proj1 double_1_facts) (proj1 (proj2 double_1_facts)) sample_bases_eq).
Defined.

Lemma trace_identifies_witness :
  Trace (Some sample_verifier) (sample_ctx 1) message_1 double_1 (sample_ctx 1) message_2 double_2 sample_registry =
  if same_challenge double_1 double_2 then (trace_status TraceReplay, None)
  else (mkTraceResult TraceTraced "alice" (g_mul alice_x (g_gen Secp)), None).
Proof.
  exact (trace_identifies sample_verifier tt (sample_ctx 1) message_1 double_1 (sample_ctx 1) message_2 double_2
    sample_entries sample_registry "alice" sample_bases alice_x 0 sample_trusted (proj1 double_1_facts) (proj1 double_2_facts)
    (proj1 (proj2 double_1_facts)) (proj1 (proj2 double_2_facts)) sample_bases_eq eq_refl eq_refl (proj2 (proj2 double_1_facts)) (proj2 (proj2 double_2_facts))
    sample_registry_eq alice_registered).
Defined.

(** The traced case is the one that happens. *)
Example double_challenges_differ :
  bool_decide (st_R (get_ok (no_statement, no_witness) (sample_statement 0 889 1 message_1 0)).1
             = st_R (get_ok (no_statement, no_witness) (sample_statement 1 1000 1 message_2 0)).1) = false.
Proof. vm_compute. reflexivity. Qed.

Lemma link_same_user_witness :
  Link (Some sample_verifier) (sample_ctx 1) message_1 double_1 (sample_ctx 1) message_2 double_2 = Ok true.
Proof.
  exact (link_same_user sample_verifier tt (sample_ctx 1) message_1 double_1 (sample_ctx 1) message_2 double_2
    sample_bases alice_x 0 0 sample_trusted (proj1 double_1_facts) (proj1 double_2_facts)
    (proj1 (proj2 double_1_facts)) (proj1 (proj2 double_2_facts)) sample_bases_eq eq_refl (proj2 (proj2 double_1_facts)) (proj2 (proj2 double_2_facts))).
Defined.

Definition sample_presented : list Presented :=
  [mkPresented (sample_ctx 1) message_1 double_1; mkPresented (sample_ctx 1) message_2 double_2].

Lemma quota_enforced_witness :
  exists i j p q, (i < j)%nat /\ sample_presented !! i = Some p /\ sample_presented !! j = Some q /\
    Trace (Some sample_verifier) (ps_ctx p) (ps_message p) (ps_signed p) (ps_ctx q) (ps_message q) (ps_signed q)
      sample_registry =
      if same_challenge (ps_signed p) (ps_signed q) then (trace_status TraceReplay, None)
      else (mkTraceResult TraceTraced "alice" (g_mul alice_x (g_gen Secp)), None).
Proof.
  refine (quota_enforced sample_verifier tt sample_presented sample_issue 1 sample_entries sample_registry "alice"
    sample_bases alice_x sample_trusted sample_bases_eq sample_registry_eq alice_registered _ _); [|cbn; lia].
  unfold sample_presented. intros p [->|[->|[]%elem_of_nil]%elem_of_cons]%elem_of_cons.
  - split; [exact (proj1 double_1_facts)|]. split; [exact (proj1 (proj2 double_1_facts))|]. split; [reflexivity|].
    split; [reflexivity|]. exists 0. exact (proj2 (proj2 double_1_facts)).
  - split; [exact (proj1 double_2_facts)|]. split; [exact (proj1 (proj2 double_2_facts))|]. split; [reflexivity|].
    split; [reflexivity|]. exists 0. exact (proj2 (proj2 double_2_facts)).
Defined.

(** A history of two calls. *)
Definition sample_call (i : Z) (m : bytes) : Call :=
  mkCall (Some sample_prover) 0 (sample_snapshot sample_ring) i sample_issue 2 m 1700000000.
Definition sample_calls : list Call := [sample_call 1 message_1; sample_call 0 message_2].
Definition sample_run : list (result Signed) * Signer := run alice_signer sample_calls.
Definition honest_1 : Signed := get_ok no_signed (default (Err "") (sample_run.1 !! 0%nat)).
Definition honest_2 : Signed := get_ok no_signed (default (Err "") (sample_run.1 !! 1%nat)).

Lemma sample_run_facts :
  (sample_run.1 !! 0%nat = Some (Ok honest_1) /\ sample_run.1 !! 1%nat = Some (Ok honest_2)) /\
  Verify (Some sample_verifier) (sample_ctx 2) message_1 honest_1 = Ok tt /\
  Verify (Some sample_verifier) (sample_ctx 2) message_2 honest_2 = Ok tt.
Proof.
  destruct (sample_signature alice_signer 1 alice_est 1000 2 message_1 alice_ok eq_refl eq_refl ltac:(lia) statement_3)
    as (sg & s1 & HS & HV & _ & _ & Hcnt).
  assert (signer_ok s1 alice_x) as Hok1.
  { by destruct (Sign_step alice_signer alice_x _ _ _ _ _ 2 _ _ _ _ alice_ok ltac:(lia) HS) as [? _]. }
  assert (is_ok (sample_statement 0 889 2 message_2 (counter_of s1 sample_issue)) = true) as H4.
  { rewrite Hcnt, (proj2 (NewSigner_ok _ _ alice_signer_eq)). exact statement_4. }
  destruct (sample_signature s1 0 alice_up 889 2 message_2 Hok1 eq_refl eq_refl ltac:(lia) H4)
    as (sg2 & s2 & HS2 & HV2 & _).
  assert (sample_run = ([Ok sg; Ok sg2], s2)) as E.
  { unfold sample_run, sample_calls. cbn [run]. unfold sign_call, sample_call.
    cbn [call_prover call_rand call_ring call_account call_issue call_k call_message call_ts].
    unfold sample_sign in HS, HS2. rewrite HS. by rewrite HS2. }
  unfold honest_1, honest_2. rewrite E. cbn [fst get_ok lookup list_lookup from_option id].
  exact (conj (conj eq_refl eq_refl) (conj HV HV2)).
Qed.

Lemma sample_calls_quota : Forall (fun c => call_k c < 2 ^ 32) sample_calls.
Proof. do 2 (apply List.Forall_cons; [cbn [call_k sample_call]; lia|]). apply List.Forall_nil. Qed.

Lemma honest_linked_and_legal_witness :
  Link (Some sample_verifier) (sample_ctx 2) message_1 honest_1 (sample_ctx 2) message_2 honest_2 = Ok true /\
  (ctx_k (sample_ctx 2) = ctx_k (sample_ctx 2) ->
   Trace (Some sample_verifier) (sample_ctx 2) message_1 honest_1 (sample_ctx 2) message_2 honest_2 sample_registry
   = (trace_status TraceLegal, None)).
Proof.
  exact (honest_linked_and_legal alice_x alice_signer sample_calls sample_run.1 sample_run.2 0 1
    (sample_call 1 message_1) (sample_call 0 message_2) honest_1 honest_2 sample_verifier (sample_ctx 2) message_1
    (sample_ctx 2) message_2 sample_registry alice_signer_eq sample_calls_quota (surjective_pairing _)
    (le_n 1) eq_refl eq_refl (proj1 (proj1 sample_run_facts)) (proj2 (proj1 sample_run_facts)) eq_refl
    (proj1 (proj2 sample_run_facts)) (proj2 (proj2 sample_run_facts))).
Defined.

Lemma signer_respects_quota_witness :
  NextCounter sample_run.2 sample_issue = Z.of_nat (signed_for sample_issue (zip sample_calls sample_run.1)) /\
  NextCounter sample_run.2 sample_issue <= 2.
Proof.
  refine (signer_respects_quota alice_x alice_signer sample_calls sample_run.1 sample_run.2 sample_issue 2
    alice_signer_eq sample_calls_quota (surjective_pairing _) _ _); [|lia].
  do 2 (apply List.Forall_cons; [intros _; cbn [call_k sample_call]; lia|]). apply List.Forall_nil.
Defined.

Lemma registry_unambiguous_witness :
  sample_entries <> [] /\ (exists ms, unambiguous sample_entries ms) /\ sample_registry = mkRegistry sample_entries.
Proof. exact (proj1 (registry_unambiguous sample_entries sample_registry) sample_registry_eq). Defined.

Lemma resolve_owner_witness :
  good (reg_key (mkRegistration "alice" alice_up)) = true /\
  exists e, e ∈ sample_entries /\ reg_UserID e = "alice" /\ reg_key e = reg_key (mkRegistration "alice" alice_up).
Proof.
  refine (proj1 (resolve_owner sample_entries sample_registry _ "alice" sample_registry_eq) _).
  vm_compute. reflexivity.
Defined.

Lemma revoke_user_witness :
  match RevokeUser sample_registry (sample_snapshot sample_ring) "alice" with
  | Ok ring' => "alice" ∈ reg_UserID <$> sample_entries /\
      NewSnapshot sample_params (filter (fun a => is_revoked sample_entries "alice" a = false) sample_ring) = Ok ring'
  | Err _ => "alice" ∉ reg_UserID <$> sample_entries
  end.
Proof.
  exact (revoke_user sample_entries sample_registry sample_params sample_ring (sample_snapshot sample_ring) "alice"
    sample_registry_eq sample_snapshot_eq).
Defined.

Lemma load_own_key_witness :
  LoadVerifier toy_key (fst (IDs sample_verifier)) (snd (IDs sample_verifier)) = Ok sample_verifier.
Proof.
  refine (load_own_key 0 sample_prover sample_verifier toy_key sample_backend_eq _ _); [vm_compute; reflexivity|].
  vm_compute. congruence.
Defined.

Definition loaded_verifier : Verifier :=
  get_ok sample_verifier (LoadVerifier toy_key (v_circuitHash sample_verifier) (v_keyID sample_verifier)).

Lemma loaded_key_is_bound_witness :
  IDs loaded_verifier = (v_circuitHash sample_verifier, v_keyID sample_verifier) /\
  sha256 toy_key = v_keyID sample_verifier /\ ExpectedCircuitHash = Ok (v_circuitHash sample_verifier) /\
  (exists hdr ks rows cms, vk_layout toy_key hdr ks rows cms) /\
  exists vk, v_vk loaded_verifier = Some vk /\ vk_read toy_key = Ok (vk, []).
Proof.
  refine (loaded_key_is_bound toy_key _ _ loaded_verifier (get_ok_eq _ _ _)). vm_compute. reflexivity.
Defined.

Lemma preflight_key_layout_witness : exists hdr ks rows cms, vk_layout toy_key hdr ks rows cms.
Proof. apply (preflight_key_layout toy_key). vm_compute. reflexivity. Defined.

Definition sample_proof : bytes := toy_proof_bytes (c_secret sample_circuit).

Lemma preflight_proof_layout_witness : exists ar bs krs cms, proof_layout sample_proof 5 ar bs krs cms.
Proof. apply (preflight_proof_layout sample_proof 5). vm_compute. reflexivity. Defined.
