(* ===== verification/Wire.v ===== *)
(** * The signature envelope ([nativeproof/wire.go])

    [MarshalSigned] writes a fixed-width envelope and [UnmarshalSigned] reads
    it back; a reader is the unread suffix of its slice ([Bytes]). The two are
    inverse to each other: the encoding is canonical. *)

From S2P Require Import Prelude Bytes Sha256 Curve Profile Accumulator Circuit CircuitFacts.
From S2P Require Import Statements Backend BackendFacts Toy Samples ToyProofs Protocol ProtocolFacts Security.
From Stdlib Require Import Strings.Byte.

Definition signatureMagic := "LKTRSN01".
Definition statementWireBytes : Z := 32 * 3 + 64 * 4 + 8 + 4 + 32.
Definition signaturePrefixBytes : Z := 8 + statementWireBytes + 32 * 2 + 4.

Section defs.
Context `{CR : !Crypto}.

Definition MarshalSigned (s : Signed) : result bytes :=
  let st := sg_Statement s in
  let p := sg_Proof s in
  _ ← fail_if (negb (bool_decide (pf_Version p = CircuitVersion)) || (length (pf_Data p) =? 0)%nat
               || (maxProofBytes <? Z.of_nat (length (pf_Data p)))) "invalid proof envelope";
  _ ← fail_if (negb (goodBN (st_V st)) || negb (goodBN (st_Nym st)) || negb (goodSecp (st_S st))
               || negb (goodSecp (st_T st)) || negb (canonicalNonzero (st_R st) (g_order Secp)) || (st_K st =? 0))
        "invalid signature fields";
  r ← deref (st_R st);
  Ok (ascii_bytes signatureMagic ++ st_Issue st ++ st_RingDigest st ++ st_MessageDigest st
      ++ EncodeBNPoint (st_V st) ++ EncodeBNPoint (st_Nym st) ++ EncodeSecpPoint (st_S st) ++ EncodeSecpPoint (st_T st)
      ++ be_enc 8 (st_Timestamp st) ++ be_enc 4 (st_K st) ++ be_enc 32 r
      ++ pf_CircuitHash p ++ pf_KeyID p ++ be_enc 4 (Z.of_nat (length (pf_Data p))) ++ pf_Data p).

(** [fp.Element.SetBytesCanonical] *)
Definition SetBytesCanonical (modulus : Z) (b : bytes) : result Z :=
  _ ← fail_if (modulus <=? be_dec b) "invalid fp.Element encoding";
  Ok (be_dec b).

Definition readBN (r : bytes) : result (BN * bytes) :=
  '(enc, r) ← read_full 64 r;
  x ← SetBytesCanonical (c_mod BN) (take 32 enc);
  y ← SetBytesCanonical (c_mod BN) (drop 32 enc);
  let p := c_mk x y in
  _ ← fail_if (negb (goodBN p)) "invalid BN254 point";
  Ok (p, r).

Definition readSecp (r : bytes) : result (Secp * bytes) :=
  '(enc, r) ← read_full 64 r;
  x ← SetBytesCanonical (c_mod Secp) (take 32 enc);
  y ← SetBytesCanonical (c_mod Secp) (drop 32 enc);
  let p := c_mk x y in
  _ ← fail_if (negb (goodSecp p)) "invalid secp256k1 point";
  Ok (p, r).

Definition UnmarshalSigned (raw : bytes) : result Signed :=
  let n := Z.of_nat (length raw) in
  _ ← fail_if ((n <? signaturePrefixBytes) || (signaturePrefixBytes + maxProofBytes <? n)) "invalid signature length";
  let '(magic, r) := read_into 8 raw in
  _ ← fail_if (negb (bool_decide (magic = ascii_bytes signatureMagic))) "invalid profile magic/version";
  let '(issue, r) := read_into 32 r in
  let '(ringDigest, r) := read_into 32 r in
  let '(messageDigest, r) := read_into 32 r in
  '(V, r) ← readBN r;
  '(Nym, r) ← readBN r;
  '(SPoint, r) ← readSecp r;
  '(TPoint, r) ← readSecp r;
  let '(timestamp, r) := read_uint 8 r in
  let '(K, r) := read_uint 4 r in
  let '(rb, r) := read_into 32 r in
  let R := be_dec rb in
  _ ← fail_if (negb (canonicalNonzero (Some R) (g_order Secp)) || (K =? 0)) "noncanonical challenge or quota";
  let '(circuitHash, r) := read_into 32 r in
  let '(keyID, r) := read_into 32 r in
  let '(n, r) := read_uint 4 r in
  _ ← fail_if ((n =? 0) || negb (n =? Z.of_nat (length r))) "truncated or trailing proof";
  let '(data, _) := read_into (Z.to_nat n) r in
  Ok {| sg_Statement := {| st_V := V; st_Nym := Nym; st_S := SPoint; st_T := TPoint; st_Issue := issue;
                           st_RingDigest := ringDigest; st_MessageDigest := messageDigest;
                           st_Timestamp := timestamp; st_K := K; st_R := Some R |};
        sg_Proof := {| pf_Version := CircuitVersion; pf_CircuitHash := circuitHash; pf_KeyID := keyID;
                       pf_Data := data |} |}.
End defs.

Section facts.
Context `{CR : !Crypto, CL : !CryptoLaws}.
Abbreviation F := (g_order BN).
Abbreviation ell := (g_order Secp).

(** ** Points *)

Lemma read_point_Ok {P} `{GP : !Group P, CP : !Coords P, CPL : !CoordsLaws P} e r p r' :
  ('(enc, r) ← read_full 64 r;
   x ← SetBytesCanonical (c_mod P) (take 32 enc);
   y ← SetBytesCanonical (c_mod P) (drop 32 enc);
   _ ← fail_if (negb (good (c_mk x y))) e;
   Ok (c_mk x y, r)) = Ok (p, r') <->
  r = (be_enc 32 (c_x p) ++ be_enc 32 (c_y p)) ++ r' /\ good p = true.
Proof using Type*.
  pose proof (c_mod_upper (P:=P)) as Hm. split.
  - intros E. apply bind_Ok in E as ([enc r1] & [-> Hl]%read_full_Ok & E).
    unfold SetBytesCanonical in E. go_inv E. bool_prop. go_inv Hc. go_inv Hc1. subst.
    rewrite !c_x_mk, !c_y_mk by (split; [apply be_dec_range|done]). split; [|done].
    rewrite !be_enc_dec by (rewrite ?length_take, ?length_drop; lia). by rewrite take_drop.
  - intros [-> Hg]. pose proof (c_x_range p). pose proof (c_y_range p).
    rewrite read_full_app by (rewrite length_app, !length_be_enc; done). cbn [mbind result_bind].
    rewrite take_app_length', drop_app_length' by (by rewrite length_be_enc).
    unfold SetBytesCanonical. rewrite !be_dec_enc_small by (cbn; lia).
    destruct (Z.leb_spec (c_mod P) (c_x p)); [lia|]. destruct (Z.leb_spec (c_mod P) (c_y p)); [lia|].
    cbn [fail_if mbind result_bind]. by rewrite c_mk_xy, Hg.
Qed.

Lemma readBN_Ok r p r' : readBN r = Ok (p, r') <-> r = EncodeBNPoint p ++ r' /\ good p = true.
Proof using CL. apply read_point_Ok. Qed.

Lemma readSecp_Ok r p r' : readSecp r = Ok (p, r') <-> r = EncodeSecpPoint p ++ r' /\ good p = true.
Proof using CL. apply read_point_Ok. Qed.

Lemma length_EncodeBNPoint p : length (EncodeBNPoint p) = 64%nat.
Proof. unfold EncodeBNPoint. by rewrite length_app, !length_be_enc. Qed.

Lemma length_EncodeSecpPoint p : length (EncodeSecpPoint p) = 64%nat.
Proof. unfold EncodeSecpPoint. by rewrite length_app, !length_be_enc. Qed.

(** ** The envelope *)

(** The fixed-width Go types of a signature. *)
Record wf_signed (s : Signed) : Prop := mk_wf_signed {
  ws_issue : length (st_Issue (sg_Statement s)) = 32%nat;
  ws_ring : length (st_RingDigest (sg_Statement s)) = 32%nat;
  ws_message : length (st_MessageDigest (sg_Statement s)) = 32%nat;
  ws_ts : 0 <= st_Timestamp (sg_Statement s) < 2 ^ 64;
  ws_k : 0 <= st_K (sg_Statement s) < 2 ^ 32;
  ws_circuit : length (pf_CircuitHash (sg_Proof s)) = 32%nat;
  ws_key : length (pf_KeyID (sg_Proof s)) = 32%nat;
}.

Lemma MarshalSigned_Ok s raw :
  MarshalSigned s = Ok raw <->
  (pf_Version (sg_Proof s) = CircuitVersion /\ 0 < len (pf_Data (sg_Proof s)) <= maxProofBytes) /\
  (good (st_V (sg_Statement s)) = true /\ good (st_Nym (sg_Statement s)) = true /\
   good (st_S (sg_Statement s)) = true /\ good (st_T (sg_Statement s)) = true) /\
  st_K (sg_Statement s) <> 0 /\
  exists r, st_R (sg_Statement s) = Some r /\ 0 < r < ell /\
  let st := sg_Statement s in let p := sg_Proof s in
  raw = ascii_bytes signatureMagic ++ st_Issue st ++ st_RingDigest st ++ st_MessageDigest st
      ++ EncodeBNPoint (st_V st) ++ EncodeBNPoint (st_Nym st) ++ EncodeSecpPoint (st_S st) ++ EncodeSecpPoint (st_T st)
      ++ be_enc 8 (st_Timestamp st) ++ be_enc 4 (st_K st) ++ be_enc 32 r
      ++ pf_CircuitHash p ++ pf_KeyID p ++ be_enc 4 (len (pf_Data p)) ++ pf_Data p.
Proof.
  unfold MarshalSigned, goodBN, goodSecp. cbv zeta. rewrite !bind_fail_if, !orb_false_iff, !negb_false_iff.
  rewrite bool_decide_eq_true, Nat.eqb_neq, Z.ltb_ge, Z.eqb_neq. split.
  - intros ([[HV Hl] Hm] & [[[[[G1 G2] G3] G4] HR] HK] & E). go_inv E. rename select (st_R _ = _) into ER.
    rewrite ER in HR. apply canonicalNonzero_Some in HR. split; [split; [done|lia]|]. split; [done|]. split; [done|].
    eexists. split; [done|]. split; [done|]. by symmetry.
  - intros ([HV Hl] & (G1 & G2 & G3 & G4) & HK & r & ER & HR & ->).
    rewrite ER, G1, G2, G3, G4. rewrite (proj2 (canonicalNonzero_Some r ell) HR).
    split; [split; [split; [done|lia]|lia]|]. split; [tauto|]. done.
Qed.

(** The reader after a piece of known width. *)
Lemma UnmarshalSigned_written (st : Statement) (p : Proof) (R : Z) :
  wf_signed (mkSigned st p) -> st_R st = Some R -> 0 < R < ell -> st_K st <> 0 ->
  good (st_V st) = true -> good (st_Nym st) = true -> good (st_S st) = true -> good (st_T st) = true ->
  0 < len (pf_Data p) <= maxProofBytes -> pf_Version p = CircuitVersion ->
  UnmarshalSigned (ascii_bytes signatureMagic ++ st_Issue st ++ st_RingDigest st ++ st_MessageDigest st
      ++ EncodeBNPoint (st_V st) ++ EncodeBNPoint (st_Nym st) ++ EncodeSecpPoint (st_S st) ++ EncodeSecpPoint (st_T st)
      ++ be_enc 8 (st_Timestamp st) ++ be_enc 4 (st_K st) ++ be_enc 32 R
      ++ pf_CircuitHash p ++ pf_KeyID p ++ be_enc 4 (len (pf_Data p)) ++ pf_Data p) = Ok (mkSigned st p).
Proof using CL.
  intros [H1 H2 H3 Hts HK H4 H5] ER HR HK0 GV GN GS GT Hl HV. cbn [sg_Statement sg_Proof] in *.
  pose proof (order_upper (P:=Secp)) as Hell. unfold maxProofBytes in Hl.
  unfold UnmarshalSigned. rewrite !length_app, H1, H2, H3, H4, H5, !length_EncodeBNPoint, !length_EncodeSecpPoint, !length_be_enc.
  change (length (ascii_bytes signatureMagic)) with 8%nat.
  apply bind_fail_if. split.
  { apply orb_false_iff. rewrite !Z.ltb_ge. unfold signaturePrefixBytes, statementWireBytes, maxProofBytes. lia. }
  rewrite read_into_app by done. apply bind_fail_if. split; [by rewrite bool_decide_eq_true_2|].
  do 3 rewrite read_into_app by done.
  do 2 (rewrite (proj2 (readBN_Ok _ _ _)) by done; cbn [mbind result_bind]).
  do 2 (rewrite (proj2 (readSecp_Ok _ _ _)) by done; cbn [mbind result_bind]).
  rewrite !read_uint_app, read_into_app by (apply length_be_enc || (cbn; lia)).
  rewrite be_dec_enc_small by (cbn; lia). apply bind_fail_if. split.
  { rewrite (proj2 (canonicalNonzero_Some R ell) HR). by apply Z.eqb_neq. }
  do 2 rewrite read_into_app by done. rewrite read_uint_app by (cbn; lia). apply bind_fail_if. split.
  { rewrite Z.eqb_refl. apply orb_false_iff. split; [apply Z.eqb_neq; lia|done]. }
  rewrite <- (app_nil_r (pf_Data p)) at 2. rewrite read_into_app by lia.
  rewrite <- ER, <- HV. by destruct st, p.
Qed.

(** Splitting off what a reader consumed. *)
Lemma read_into_inv n r xs r' : (n <= length r)%nat -> read_into n r = (xs, r') -> r = xs ++ r' /\ length xs = n.
Proof. intros Hl E. destruct (read_into_split n r Hl) as [H1 H2]. by rewrite E in H1, H2. Qed.

Lemma read_uint_inv n r z r' :
  (n <= length r)%nat -> read_uint n r = (z, r') -> r = be_enc n z ++ r' /\ 0 <= z < 256 ^ Z.of_nat n.
Proof. intros Hl E. destruct (read_uint_split n r Hl) as [H1 H2]. by rewrite E in H1, H2. Qed.

(** [piece E x] replaces the next read in [E] by the piece [x] it consumed. *)
Ltac piece E x :=
  match type of E with context [read_into ?n ?r] =>
    let H := fresh "Hp" in let r' := fresh "r" in
    destruct (read_into n r) as [x r'] eqn:H; apply read_into_inv in H as [-> ?]; [|rewrite ?length_app, ?length_be_enc in *; lia]
  end.
Ltac piece_uint E x :=
  match type of E with context [read_uint ?n ?r] =>
    let H := fresh "Hp" in let r' := fresh "r" in
    destruct (read_uint n r) as [x r'] eqn:H; apply read_uint_inv in H as [-> ?]; [|rewrite ?length_app, ?length_be_enc in *; lia]
  end.

Lemma UnmarshalSigned_Ok raw s : UnmarshalSigned raw = Ok s <-> wf_signed s /\ MarshalSigned s = Ok raw.
Proof using CL.
  split.
  - unfold UnmarshalSigned. intros [Hlen E]%bind_fail_if.
    apply orb_false_iff in Hlen as [Hmin%Z.ltb_ge Hmax%Z.ltb_ge].
    unfold signaturePrefixBytes, statementWireBytes, maxProofBytes in Hmin, Hmax.
    piece E x0. apply bind_fail_if in E as [->%negb_false_iff%bool_decide_eq_true E].
    piece E x1. piece E x2. piece E x3.
    apply bind_Ok in E as ([V r4] & [-> GV]%readBN_Ok & E). apply bind_Ok in E as ([N r5] & [-> GN]%readBN_Ok & E).
    apply bind_Ok in E as ([S' r6] & [-> GS]%readSecp_Ok & E). apply bind_Ok in E as ([T' r7] & [-> GT]%readSecp_Ok & E).
    rewrite !length_app, ?length_EncodeBNPoint, ?length_EncodeSecpPoint in *.
    piece_uint E ts. piece_uint E K. piece E rb. apply bind_fail_if in E as [[HR HK]%orb_false_iff E].
    apply negb_false_iff, canonicalNonzero_Some in HR. apply Z.eqb_neq in HK.
    rewrite !length_app, ?length_be_enc in *. piece E ch. piece E kid. piece_uint E n.
    apply bind_fail_if in E as [[Hn0%Z.eqb_neq Hn%negb_false_iff%Z.eqb_eq]%orb_false_iff E].
    rewrite ?length_app, ?length_be_enc in *. piece E data. injection E as <-.
    rewrite length_app in *. assert (r = []) as -> by (destruct r; [done|cbn [length] in *; lia]).
    split; [constructor; done|]. apply MarshalSigned_Ok. unfold maxProofBytes.
    cbn [sg_Statement sg_Proof st_V st_Nym st_S st_T st_Issue st_RingDigest st_MessageDigest st_Timestamp st_K st_R
         pf_Version pf_CircuitHash pf_KeyID pf_Data].
    split; [split; [done|]|]; [rewrite H, H0, H1, H2, H5, H6, H7 in *; lia|].
    split; [done|]. split; [done|]. exists (be_dec rb). split; [done|]. split; [done|]. cbv zeta.
    assert (len data = n) as -> by lia. by rewrite be_enc_dec, app_nil_r by done.
  - intros [Hwf ([HV Hl] & (G1 & G2 & G3 & G4) & HK & r & ER & HR & ->)%MarshalSigned_Ok]. cbv zeta.
    rewrite (UnmarshalSigned_written (sg_Statement s) (sg_Proof s) r); try done; by destruct s.
Qed.

(** Accepted signatures can be written. *)
Lemma accepted_marshals `{GR : !Groth16} v ctx m s :
  Verify (Some v) ctx m s = Ok tt -> ctx_k ctx <> 0 -> exists raw, MarshalSigned s = Ok raw.
Proof using CL.
  intros (HC & vk & pi & u & w & A)%Verify_Ok HK.
  apply check_Ok in HC as ((_ & EK & _) & HA & (G1 & G2 & G3) & r & ER & HR & _).
  eexists. apply MarshalSigned_Ok. split; [split; [apply A|by eapply preflightProof_length, A]|].
  split; [split; [by eapply Accumulate_good|done]|]. split; [congruence|]. exists r. done.
Qed.

(** C34: the signature encoding is canonical. [UnmarshalSigned] accepts
    exactly the byte strings [MarshalSigned] writes for well-formed
    signatures, and decodes each to the signature it was written from: the
    two functions are mutually inverse. *)
Theorem wire_bijection raw s : UnmarshalSigned raw = Ok s <-> wf_signed s /\ MarshalSigned s = Ok raw.
Proof using CL. apply UnmarshalSigned_Ok. Qed.

Lemma digestWriter_length w d : digestWriter w = Ok d -> length d = 32%nat.
Proof. unfold digestWriter. intros E. go_inv E. subst d. apply Sha256.length_Sum256. Qed.

Lemma RingDigest_length accounts d : RingDigest accounts = Ok d -> length d = 32%nat.
Proof. unfold RingDigest. intros E. go_inv E. subst d. apply Sha256.length_Sum256. Qed.

Lemma signed_wf `{GR : !Groth16} pr s rand' ring i issue k m ts sg :
  length (pr_circuitHash pr) = 32%nat -> length (pr_keyID pr) = 32%nat ->
  sign_result s (Some pr) rand' ring i issue k m ts = Ok sg ->
  length issue = 32%nat -> 0 <= k < 2 ^ 32 -> 0 <= ts < 2 ^ 64 -> wf_signed sg.
Proof.
  intros Hc Hk0 (pr' & d & w & [= <-] & _ & _ & HM & HP)%sign_result_Ok HI Hk Hts.
  apply MakeStatement_inv in HM as (x' & d' & bases & sd & t & r & ut & a & _ & _ & M).
  destruct (made_inputs _ _ _ _ _ _ _ _ _ _ _ _ _ _ _ _ _ _ M) as (EI & EM & ET & EK).
  pose proof (made_ring _ _ _ _ _ _ _ _ _ _ _ _ _ _ _ _ _ _ M) as HRD.
  assert (pf_CircuitHash (sg_Proof sg) = pr_circuitHash pr /\ pf_KeyID (sg_Proof sg) = pr_keyID pr) as [E1 E2].
  { unfold Prove in HP. go_inv HP. by rewrite <- HP. }
  constructor; rewrite ?EI, ?EM, ?ET, ?EK, ?E1, ?E2; try done.
  - by eapply RingDigest_length.
  - apply Sha256.length_Sum256.
Qed.

Lemma sign_result_wf `{GR : !Groth16} rand pr v s rand' ring i issue k m ts sg :
  NewBackend rand = Ok (pr, v) -> sign_result s (Some pr) rand' ring i issue k m ts = Ok sg ->
  length issue = 32%nat -> 0 <= k < 2 ^ 32 -> 0 <= ts < 2 ^ 64 -> wf_signed sg.
Proof.
  intros (cs & pk & vk & raw & _ & _ & _ & _ & _ & _ & EID & EKID & EH & ED)%NewBackend_Ok HS.
  apply (signed_wf pr s rand' ring i issue k m ts sg); [..|exact HS]; rewrite ?EKID, ?EID, ?EH; [by eapply digestWriter_length|apply Sha256.length_Sum256].
Qed.

(** Signatures survive transport, end to end. When the inputs of [Sign]
    make a statement, the signature it returns can be marshalled, and what
    [UnmarshalSigned] reads back is the same signature, which verifies. *)
Theorem signed_transport `{GR : !Groth16, GL : !Groth16Laws GR} rand pr v s x p accounts ring i a d issue k m ts rand' ctx :
  NewBackend rand = Ok (pr, v) -> signer_ok s x -> NewSnapshot p accounts = Ok ring ->
  accounts !! Z.to_nat i = Some a -> a_D a = Some d ->
  is_ok (MakeStatement p accounts i (Some x) (Some d) issue (sha256 m) ts k (counter_of s issue)) = true ->
  NewVerificationContext p accounts issue k = Ok ctx ->
  length issue = 32%nat -> 0 <= k < 2 ^ 32 -> 0 <= ts < 2 ^ 64 -> ts < F ->
  exists sg s' raw, Sign s (Some pr) rand' ring i issue k m ts = (Ok sg, s') /\ MarshalSigned sg = Ok raw /\
    UnmarshalSigned raw = Ok sg /\ Verify (Some v) ctx m sg = Ok tt.
Proof using CL.
  intros HB Hok HS Ha Hd HM Hctx HI Hk Hts HtsF.
  destruct (Sign_honest rand pr v s x p accounts ring i a d issue k m ts rand' ctx) as (sg & s' & HSg & HV & _);
    try done; [lia|].
  assert (ctx_k ctx <> 0) as HK by (by apply NewVerificationContext_Ok in Hctx as (? & _ & rd & _ & ->)).
  destruct (accepted_marshals v ctx m sg HV HK) as [raw Hraw]. exists sg, s', raw.
  split; [done|]. split; [done|]. split; [|done]. apply UnmarshalSigned_Ok. split; [|done].
  eapply (sign_result_wf rand pr v s rand' ring i issue k m ts); try done.
  unfold Sign in HSg. destruct (sign_result _ _ _ _ _ _ _ _ _); congruence.
Qed.
End facts.

(** ** Concrete instances *)

Definition sample_signed : Signed :=
  mkSigned sample_made.1 (mkProof CircuitVersion sample_digest sample_digest (ascii_bytes "some proof bytes")).
Definition sample_wire : bytes := get_ok [] (MarshalSigned sample_signed).

Lemma wire_bijection_witness :
  wf_signed (get_ok no_signed (UnmarshalSigned sample_wire)) /\
  MarshalSigned (get_ok no_signed (UnmarshalSigned sample_wire)) = Ok sample_wire.
Proof. refine (proj1 (wire_bijection sample_wire _) (get_ok_eq _ _ _)). vm_compute. reflexivity. Defined.

Lemma signed_transport_witness :
  exists sg s' raw, Sign alice_signer (Some sample_prover) 0 (sample_snapshot sample_ring) 1 sample_issue 2 message_1 1700000000
      = (Ok sg, s') /\ MarshalSigned sg = Ok raw /\ UnmarshalSigned raw = Ok sg /\
    Verify (Some sample_verifier) (sample_ctx 2) message_1 sg = Ok tt.
Proof.
  apply (signed_transport 0 sample_prover sample_verifier alice_signer alice_x sample_params sample_ring _ 1 alice_est 1000
    sample_issue 2 message_1 1700000000 0 (sample_ctx 2) sample_backend_eq alice_ok sample_snapshot_eq);
    [reflexivity|reflexivity|exact statement_3|by apply sample_ctx_eq|reflexivity|lia|lia|reflexivity].
Defined.
