(* ===== verification/Encodings.v ===== *)
(** * Text encodings and files

    The lowercase hexadecimal encodings of digests, scalars and points
    ([setup.go], [trust.go]) with the canonical decoders, and files as the
    wallets, bundles and tools read them ([ReadBoundedFile]). *)

From S2P Require Import Prelude Bytes Sha256 Curve Profile Accumulator Backend BackendFacts Wire.

(** ** Digests, scalars, points *)

Definition hexDigest (h : bytes) : string := hex_encode h.

Definition ParseDigest (text : string) : result bytes :=
  hex_canonical 32 "digest must be 32 bytes in lowercase hex" text.

(** [[32]byte{}] *)
Definition zero_digest : bytes := replicate 32 Byte.x00.

Lemma ParseDigest_Ok text h : ParseDigest text = Ok h <-> text = hexDigest h /\ length h = 32%nat.
Proof. apply hex_canonical_Ok. Qed.

Lemma length_hex_encode b : String.length (hex_encode b) = (2 * length b)%nat.
Proof. induction b as [|x b IH]; [done|]. cbn [hex_encode String.length length]. lia. Qed.

Section defs.
Context `{CR : !Crypto}.

Definition trustPoint (encoded : string) : result Secp :=
  _ ← fail_if (negb (String.length encoded =? 128)%nat) "invalid enrollment point length";
  b ← hex_canonical 64 "noncanonical enrollment point" encoded;
  '(p, _) ← readSecp b;
  Ok p.

Definition trustScalar (encoded : string) (nonzero : bool) : result Z :=
  _ ← fail_if (negb (String.length encoded =? 64)%nat) "invalid enrollment scalar length";
  b ← hex_canonical 32 "noncanonical enrollment scalar" encoded;
  let n := be_dec b in
  _ ← fail_if ((g_order Secp <=? n) || (nonzero && (n =? 0))) "invalid enrollment scalar";
  Ok n.

(** [FillBytes] of a scalar: it fits 32 bytes. *)
Definition scalarHex (n : Z) : string := hex_encode (be_enc 32 n).

Definition pointHex (p : Secp) : string := hex_encode (EncodeSecpPoint p).
End defs.

Section facts.
Context `{CR : !Crypto, CL : !CryptoLaws}.

Lemma trustScalar_Ok encoded nonzero n :
  trustScalar encoded nonzero = Ok n <->
  encoded = scalarHex n /\ 0 <= n < g_order Secp /\ (nonzero = true -> n <> 0).
Proof using CL.
  pose proof (order_upper (P:=Secp)). unfold trustScalar, scalarHex. split.
  - intros [_ E]%bind_fail_if. apply bind_Ok in E as (b & [-> Hb]%hex_canonical_Ok & E).
    apply bind_fail_if in E as [[Hn Hz]%orb_false_iff [= <-]]. rewrite be_enc_dec by done.
    pose proof (be_dec_range b). apply Z.leb_gt in Hn. split_and!; [done|lia|lia|].
    intros ->. cbn [andb] in Hz. by apply Z.eqb_neq.
  - intros (-> & Hn & Hz). rewrite length_hex_encode, length_be_enc. cbn [Nat.mul Nat.add Nat.eqb negb fail_if mbind result_bind].
    rewrite (proj2 (hex_canonical_Ok _ _ _ (be_enc 32 n))) by (split; [done|apply length_be_enc]).
    cbn [mbind result_bind]. rewrite be_dec_enc_small by (cbn; lia). apply bind_fail_if. split; [|done].
    apply orb_false_iff. split; [apply Z.leb_gt; lia|]. destruct nonzero; [|done]. by apply Z.eqb_neq, Hz.
Qed.

Lemma trustPoint_Ok encoded p : trustPoint encoded = Ok p <-> encoded = pointHex p /\ good p = true.
Proof using CL.
  unfold trustPoint, pointHex. split.
  - intros [_ E]%bind_fail_if. apply bind_Ok in E as (b & [-> Hb]%hex_canonical_Ok & E).
    apply bind_Ok in E as ([q r] & [-> Hg]%readSecp_Ok & [= <-]).
    rewrite length_app, length_EncodeSecpPoint in Hb. destruct r; [|cbn in Hb; lia]. by rewrite app_nil_r.
  - intros [-> Hg]. rewrite length_hex_encode, length_EncodeSecpPoint.
    cbn [Nat.mul Nat.add Nat.eqb negb fail_if mbind result_bind].
    rewrite (proj2 (hex_canonical_Ok _ _ _ (EncodeSecpPoint p))) by (split; [done|apply length_EncodeSecpPoint]).
    cbn [mbind result_bind]. by rewrite (proj2 (readSecp_Ok _ p [])) by (by rewrite app_nil_r).
Qed.
End facts.

(** ** Files *)

Record file := mkFile {
  f_regular : bool;
  f_perm : Z;
  f_data : bytes;
}.

(** Reading the file at a path, if there is one; [io] is a failure of the
    system calls, or a change of the file between them. *)
Definition ReadBoundedFile (io : option error) (f : option file) (max : Z) : result bytes :=
  match f with
  | None => Err "no such file or directory"
  | Some f =>
      _ ← fail_if (negb (f_regular f)) "artifact must be a regular file, not a symlink or device";
      match io with
      | Some e => Err e
      | None =>
          _ ← fail_if (max <? Z.of_nat (length (f_data f))) "invalid or oversized artifact";
          Ok (f_data f)
      end
  end.

(** What [os.CreateTemp] and [O_CREATE] with mode 0600 leave (octal 600 is 384). *)
Definition private_file (data : bytes) : file := mkFile true 384 data.

Lemma ReadBoundedFile_Ok io f max raw :
  ReadBoundedFile io f max = Ok raw <->
  io = None /\ exists perm, f = Some (mkFile true perm raw) /\ Z.of_nat (length raw) <= max.
Proof.
  unfold ReadBoundedFile. destruct f as [[reg perm data]|]; [|naive_solver]. cbn [f_regular f_data].
  rewrite bind_fail_if, negb_false_iff. destruct io; [naive_solver|].
  rewrite bind_fail_if, Z.ltb_ge. naive_solver.
Qed.
