(* ===== verification/Text.v ===== *)
(** * Text helpers of the Go standard library

    [encoding/base64]'s standard encoding with its strict decoder, and
    [strings.TrimSpace] compared with the empty string. Go strings are byte
    strings. *)

From S2P Require Import Prelude Bytes.
From Stdlib Require Import Strings.Byte.

(** ** Base64 *)

Definition b64_alphabet : list ascii :=
  String.list_ascii_of_string "ABCDEFGHIJKLMNOPQRSTUVWXYZabcdefghijklmnopqrstuvwxyz0123456789+/".

Definition b64_char (d : Z) : ascii := nth (Z.to_nat d) b64_alphabet "="%char.

Fixpoint index_of (c : ascii) (l : list ascii) : option Z :=
  match l with
  | [] => None
  | x :: l => if Ascii.eqb c x then Some 0 else Z.succ <$> index_of c l
  end.
Definition b64_value (c : ascii) : option Z := index_of c b64_alphabet.

Definition pad_char : ascii := "="%char.

(** [base64.StdEncoding.EncodeToString], as a list of characters. *)
Fixpoint b64_encode (bs : bytes) : list ascii :=
  match bs with
  | [] => []
  | [a] =>
      let n := be_dec [a] * 16 in
      [b64_char (n / 64); b64_char (n mod 64); pad_char; pad_char]
  | [a; b] =>
      let n := be_dec [a; b] * 4 in
      [b64_char (n / 4096); b64_char (n / 64 mod 64); b64_char (n mod 64); pad_char]
  | a :: b :: c :: bs =>
      let n := be_dec [a; b; c] in
      b64_char (n / 262144) :: b64_char (n / 4096 mod 64) :: b64_char (n / 64 mod 64) :: b64_char (n mod 64)
      :: b64_encode bs
  end.

Definition EncodeToString (bs : bytes) : string := String.string_of_list_ascii (b64_encode bs).

Definition is_newline (c : ascii) : bool := Ascii.eqb c "010"%char || Ascii.eqb c "013"%char.

(** The quanta of the decoder, padding and the strict check of the unused
    bits included. *)
Fixpoint b64_decode (cs : list ascii) : option bytes :=
  match cs with
  | [] => Some []
  | c1 :: c2 :: c3 :: c4 :: cs =>
      d1 ← b64_value c1;
      d2 ← b64_value c2;
      match b64_value c3, b64_value c4 with
      | Some d3, Some d4 =>
          app (be_enc 3 (d1 * 262144 + d2 * 4096 + d3 * 64 + d4)) <$> b64_decode cs
      | Some d3, None =>
          let n := d1 * 4096 + d2 * 64 + d3 in
          if Ascii.eqb c4 pad_char && (length cs =? 0)%nat && (n mod 4 =? 0) then Some (be_enc 2 (n / 4)) else None
      | None, _ =>
          let n := d1 * 64 + d2 in
          if Ascii.eqb c3 pad_char && Ascii.eqb c4 pad_char && (length cs =? 0)%nat && (n mod 16 =? 0)
          then Some (be_enc 1 (n / 16)) else None
      end
  | _ => None
  end.

(** [base64.StdEncoding.Strict().DecodeString]: line breaks are skipped. *)
Definition DecodeString (s : string) : result bytes :=
  match b64_decode (List.filter (fun c => negb (is_newline c)) (String.list_ascii_of_string s)) with
  | Some b => Ok b
  | None => Err "illegal base64 data"
  end.

Lemma b64_alphabet_ok :
  forallb (fun d => bool_decide (b64_value (b64_char d) = Some d) && negb (is_newline (b64_char d))) (seqZ 0 64) = true.
Proof. vm_compute. reflexivity. Qed.

Lemma b64_char_ok d : 0 <= d < 64 -> b64_value (b64_char d) = Some d /\ is_newline (b64_char d) = false.
Proof.
  intros Hd. pose proof b64_alphabet_ok as H. rewrite forallb_forall in H.
  specialize (H d). rewrite andb_true_iff, bool_decide_eq_true, negb_true_iff in H. apply H.
  apply list_elem_of_In, elem_of_seqZ. lia.
Qed.

(** Induction in steps of three. *)
Lemma bytes_ind3 (P : bytes -> Prop) :
  P [] -> (forall a, P [a]) -> (forall a b, P [a; b]) -> (forall a b c bs, P bs -> P (a :: b :: c :: bs)) ->
  forall bs, P bs.
Proof.
  intros H0 H1 H2 H3 bs. remember (length bs) as n eqn:Hn. revert bs Hn.
  induction n as [n IH] using (well_founded_induction lt_wf). intros bs ->.
  destruct bs as [|a [|b [|c bs]]]; auto. apply H3. eapply IH; [|done]. cbn. lia.
Qed.

Lemma b64_encode_newlines bs : List.filter (fun c => negb (is_newline c)) (b64_encode bs) = b64_encode bs.
Proof.
  induction bs as [|a|a b|a b c bs IH] using bytes_ind3; [done|..]; cbn [b64_encode];
    (match goal with |- context [be_dec ?l] => pose proof (be_dec_range l) as Hr; cbn [length] in Hr;
       generalize dependent (be_dec l) end); intros n Hn; cbn [List.filter];
    rewrite !(fun d H => proj2 (b64_char_ok d H)) by zlia; cbn [negb]; try done. by rewrite IH.
Qed.

Lemma b64_decode_encode bs : b64_decode (b64_encode bs) = Some bs.
Proof.
  assert (b64_value pad_char = None) as Hpad by (vm_compute; reflexivity).
  induction bs as [|a|a b|a b c bs IH] using bytes_ind3; [done|..]; cbn [b64_encode b64_decode];
    (match goal with |- context [be_dec ?l] => pose proof (be_dec_range l) as Hr; cbn [length] in Hr;
       pose proof (be_enc_dec l (length l) eq_refl) as Hl; cbn [length] in Hl;
       generalize dependent (be_dec l) end); intros n Hn Hl;
    rewrite !(fun d H => proj1 (b64_char_ok d H)) by zlia; cbn [mbind option_bind]; rewrite ?Hpad.
  - rewrite (proj2 (Z.eqb_eq _ 0)) by zlia. cbn [length]. rewrite <- Hl. do 2 f_equal. zlia.
  - rewrite (proj2 (Z.eqb_eq _ 0)) by zlia. cbn [length]. rewrite <- Hl. do 2 f_equal. zlia.
  - rewrite IH. cbn [fmap option_fmap option_map].
    replace (n / 262144 * 262144 + (n / 4096) mod 64 * 4096 + (n / 64) mod 64 * 64 + n mod 64) with n by zlia.
    by rewrite Hl.
Qed.

Lemma DecodeString_encode b : DecodeString (EncodeToString b) = Ok b.
Proof.
  unfold DecodeString, EncodeToString. rewrite String.list_ascii_of_string_of_list_ascii.
  by rewrite b64_encode_newlines, b64_decode_encode.
Qed.

Lemma EncodeToString_inj b b' : EncodeToString b = EncodeToString b' -> b = b'.
Proof. intros H. apply (f_equal DecodeString) in H. rewrite !DecodeString_encode in H. by injection H. Qed.

(** ** White space *)

(** The UTF-8 encodings of the characters [unicode.IsSpace] accepts, beyond
    the six of ASCII: U+0085, U+00A0, U+1680, U+2000 to U+200A, U+2028,
    U+2029, U+202F, U+205F and U+3000. *)
Definition ascii_space (c : Z) : bool := ((9 <=? c) && (c <=? 13)) || (c =? 32).
Definition wide_space (a b c : Z) : bool :=
  ((a =? 0xE1) && (b =? 0x9A) && (c =? 0x80))
  || ((a =? 0xE2) && (b =? 0x80) && (((0x80 <=? c) && (c <=? 0x8A)) || (c =? 0xA8) || (c =? 0xA9) || (c =? 0xAF)))
  || ((a =? 0xE2) && (b =? 0x81) && (c =? 0x9F))
  || ((a =? 0xE3) && (b =? 0x80) && (c =? 0x80)).

Fixpoint all_space (cs : list Z) : bool :=
  match cs with
  | [] => true
  | a :: r1 =>
      if ascii_space a then all_space r1
      else match r1 with
           | [] => false
           | b :: r2 =>
               if (a =? 0xC2) && ((b =? 0x85) || (b =? 0xA0)) then all_space r2
               else match r2 with
                    | [] => false
                    | c :: r3 => if wide_space a b c then all_space r3 else false
                    end
           end
  end.

(** [strings.TrimSpace(s) == ""] *)
Definition blank (s : string) : bool :=
  all_space ((fun c => Z.of_N (N_of_ascii c)) <$> String.list_ascii_of_string s).

Example blank_tests :
  (blank "", blank "  ", blank " alice ", blank (String "194" (String "160" EmptyString))) = (true, true, false, true).
Proof. vm_compute. reflexivity. Qed.
