(* ===== verification/Json.v ===== *)
(** * JSON as [encoding/json] reads and writes it

    The values, the scanner and the writer that the services, wallets and
    trust documents use: strings with their escapes and UTF-8 repair, number
    literals, the nesting limit, compact and indented output, and the decoding
    of values into Go types, which refuses unknown fields and trailing text.
    Text is a byte string; the strings in a value are decoded. Reading by
    tokens is in [JsonStream]. *)

From stdpp Require Import sorting.
From S2P Require Import Prelude Bytes Sha256.
From Stdlib Require Import Strings.Byte.
From Stdlib Require DecimalFacts DecimalN.

(** ** Values *)

Unset Elimination Schemes.
Inductive json :=
  | JNull
  | JBool (b : bool)
  | JNum (lit : bytes)
  | JStr (s : bytes)
  | JArr (l : list json)
  | JObj (l : list (bytes * json)).
Set Elimination Schemes.

Section json_ind.
Context (P : json -> Prop) (Hnull : P JNull) (Hbool : forall b, P (JBool b)) (Hnum : forall lit, P (JNum lit))
  (Hstr : forall s, P (JStr s)) (Harr : forall l, Forall P l -> P (JArr l))
  (Hobj : forall l, Forall (fun kv => P kv.2) l -> P (JObj l)).
Fixpoint json_nested_ind (j : json) : P j :=
  match j with
  | JNull => Hnull
  | JBool b => Hbool b
  | JNum lit => Hnum lit
  | JStr s => Hstr s
  | JArr l => Harr l ((fix go l : Forall P l :=
      match l with [] => List.Forall_nil _ | x :: l => @List.Forall_cons _ P x l (json_nested_ind x) (go l) end) l)
  | JObj l => Hobj l ((fix go l : Forall (fun kv => P kv.2) l :=
      match l with [] => List.Forall_nil _ | kv :: l => @List.Forall_cons _ (fun kv => P kv.2) kv l (json_nested_ind kv.2) (go l) end) l)
  end.
End json_ind.

(** ** UTF-8 *)

Definition in_range (lo hi : Z) (b : byte) : bool := (lo <=? b2z b) && (b2z b <=? hi).
Definition continuation (b : byte) : bool := in_range 0x80 0xBF b.

(** [utf8.DecodeRune]: the width of the valid encoding at the head, if any. *)
Definition rune_width (r : bytes) : option nat :=
  match r with
  | [] => None
  | b0 :: r1 =>
      if b2z b0 <? 0x80 then Some 1%nat
      else match r1 with
      | [] => None
      | b1 :: r2 =>
          if in_range 0xC2 0xDF b0 && continuation b1 then Some 2%nat
          else match r2 with
          | [] => None
          | b2 :: r3 =>
              if continuation b2
                 && ((in_range 0xE0 0xE0 b0 && in_range 0xA0 0xBF b1)
                     || ((in_range 0xE1 0xEC b0 || in_range 0xEE 0xEF b0) && continuation b1)
                     || (in_range 0xED 0xED b0 && in_range 0x80 0x9F b1)) then Some 3%nat
              else match r3 with
              | [] => None
              | b3 :: _ =>
                  if continuation b2 && continuation b3
                     && ((in_range 0xF0 0xF0 b0 && in_range 0x90 0xBF b1)
                         || (in_range 0xF1 0xF3 b0 && continuation b1)
                         || (in_range 0xF4 0xF4 b0 && in_range 0x80 0x8F b1)) then Some 4%nat
                  else None
              end
          end
      end
  end.

Fixpoint utf8_valid_loop (n : nat) (r : bytes) : bool :=
  match n, r with
  | _, [] => true
  | O, _ => false
  | S n, _ => match rune_width r with Some w => utf8_valid_loop n (drop w r) | None => false end
  end.

(** [utf8.Valid] *)
Definition utf8_valid (r : bytes) : bool := utf8_valid_loop (length r) r.

(** [utf8.EncodeRune] *)
Definition utf8_encode (z : Z) : bytes :=
  if z <? 0x80 then [z2b z]
  else if z <? 0x800 then [z2b (0xC0 + z / 64); z2b (0x80 + z mod 64)]
  else if z <? 0x10000 then [z2b (0xE0 + z / 4096); z2b (0x80 + z / 64 mod 64); z2b (0x80 + z mod 64)]
  else [z2b (0xF0 + z / 262144); z2b (0x80 + z / 4096 mod 64); z2b (0x80 + z / 64 mod 64); z2b (0x80 + z mod 64)].

Definition replacement : bytes := utf8_encode 0xFFFD.

(** ** Characters *)

Definition dquote : byte := z2b 34.
Definition backslash : byte := z2b 92.
Definition comma : byte := z2b 44.
Definition colon : byte := z2b 58.
Definition lbrace : byte := z2b 123.
Definition rbrace : byte := z2b 125.
Definition lbracket : byte := z2b 91.
Definition rbracket : byte := z2b 93.

Definition is_ws (b : byte) : bool :=
  (b2z b =? 32) || (b2z b =? 9) || (b2z b =? 10) || (b2z b =? 13).
Definition is_digit (b : byte) : bool := in_range 48 57 b.

Fixpoint skip_ws (r : bytes) : bytes :=
  match r with
  | b :: r' => if is_ws b then skip_ws r' else r
  | [] => []
  end.

Definition hex_digit_byte (n : Z) : byte := z2b (if n <? 10 then 48 + n else 87 + n).
Definition hex_byte_value (b : byte) : option Z :=
  if in_range 48 57 b then Some (b2z b - 48)
  else if in_range 97 102 b then Some (b2z b - 87)
  else if in_range 65 70 b then Some (b2z b - 55)
  else None.

(** The four digits of [\uXXXX]. *)
Definition hex4 (r : bytes) : option (Z * bytes) :=
  match r with
  | a :: b :: c :: d :: r =>
      a ← hex_byte_value a;
      b ← hex_byte_value b;
      c ← hex_byte_value c;
      d ← hex_byte_value d;
      Some (a * 4096 + b * 256 + c * 16 + d, r)
  | _ => None
  end.

(** ** Strings *)

Definition u_escape (z : Z) : bytes :=
  [backslash; z2b 117; hex_digit_byte (z / 4096); hex_digit_byte (z / 256 mod 16); hex_digit_byte (z / 16 mod 16);
   hex_digit_byte (z mod 16)].

(** The two-character escapes: the code and its letter. *)
Definition short_escapes : list (Z * Z) := [(34, 34); (92, 92); (8, 98); (12, 102); (10, 110); (13, 114); (9, 116)].

Definition short_escape (c : Z) : option Z := snd <$> List.find (fun p => p.1 =? c) short_escapes.
Definition short_unescape (e : Z) : option Z :=
  if e =? 47 then Some 47 else fst <$> List.find (fun p => p.2 =? e) short_escapes.

Definition html_special (c : Z) : bool := (c =? 60) || (c =? 62) || (c =? 38).

Definition escape_ascii (b : byte) : bytes :=
  match short_escape (b2z b) with
  | Some e => [backslash; z2b e]
  | None => if (b2z b <? 32) || html_special (b2z b) then u_escape (b2z b) else [b]
  end.

(** U+2028 and U+2029 are escaped too. *)
Definition line_separator (r : bytes) : option Z :=
  match r with
  | a :: b :: c :: _ =>
      if (b2z a =? 0xE2) && (b2z b =? 0x80) && ((b2z c =? 0xA8) || (b2z c =? 0xA9)) then Some (0x2000 + b2z c - 0x80)
      else None
  | _ => None
  end.

Fixpoint quote_body (n : nat) (s : bytes) : bytes :=
  match n, s with
  | S n, b :: s' =>
      if b2z b <? 0x80 then escape_ascii b ++ quote_body n s'
      else match rune_width s with
           | None => u_escape 0xFFFD ++ quote_body n s'
           | Some w =>
               match line_separator s with
               | Some z => u_escape z ++ quote_body n (drop w s)
               | None => take w s ++ quote_body n (drop w s)
               end
           end
  | _, _ => []
  end.

Definition quote (s : bytes) : bytes := dquote :: quote_body (length s) s ++ [dquote].

Definition high_surrogate (z : Z) : bool := (0xD800 <=? z) && (z <? 0xDC00).
Definition low_surrogate (z : Z) : bool := (0xDC00 <=? z) && (z <? 0xE000).

Definition out_of_fuel : error := "out of fuel".

Definition prepend (xs : bytes) (r : result (bytes * bytes)) : result (bytes * bytes) :=
  '(s, rest) ← r; Ok (xs ++ s, rest).

(** The rest of a string literal after its opening quote: its value, and the
    text that follows. *)
Fixpoint unquote (n : nat) (r : bytes) {struct n} : result (bytes * bytes) :=
  match r, n with
  | [], _ => Err "unexpected end of JSON input"
  | _ :: _, O => Err out_of_fuel
  | b :: r1, S n =>
      if b2z b =? 34 then Ok ([], r1)
      else if b2z b =? 92 then
        match r1 with
        | e :: r2 =>
            if b2z e =? 117 then
              match hex4 r2 with
              | Some (z, r3) =>
                  if high_surrogate z || low_surrogate z then
                    match r3 with
                    | b' :: e' :: r4 =>
                        match (if (b2z b' =? 92) && (b2z e' =? 117) then hex4 r4 else None) with
                        | Some (z', r5) =>
                            if high_surrogate z && low_surrogate z'
                            then prepend (utf8_encode (0x10000 + (z - 0xD800) * 1024 + (z' - 0xDC00))) (unquote n r5)
                            else prepend replacement (unquote n r3)
                        | None => prepend replacement (unquote n r3)
                        end
                    | _ => prepend replacement (unquote n r3)
                    end
                  else prepend (utf8_encode z) (unquote n r3)
              | None => Err "invalid character in \u hexadecimal character escape"
              end
            else match short_unescape (b2z e) with
                 | Some c => prepend [z2b c] (unquote n r2)
                 | None => Err "invalid character in string escape code"
                 end
        | [] => Err "unexpected end of JSON input"
        end
      else if b2z b <? 32 then Err "invalid character in string literal"
      else match rune_width r with
           | Some w => prepend (take w r) (unquote n (drop w r))
           | None => prepend replacement (unquote n r1)
           end
  end.

(** ** Numbers *)

Fixpoint digits (r : bytes) : bytes * bytes :=
  match r with
  | b :: r' => if is_digit b then let '(ds, rest) := digits r' in (b :: ds, rest) else ([], r)
  | [] => ([], [])
  end.

Definition number_sign (r : bytes) : bytes * bytes :=
  match r with b :: r' => if b2z b =? 45 then ([b], r') else ([], r) | [] => ([], []) end.

Definition number_int (r : bytes) : option (bytes * bytes) :=
  match r with
  | b :: r' =>
      if b2z b =? 48 then Some ([b], r')
      else if is_digit b then let '(ds, rest) := digits r' in Some (b :: ds, rest)
      else None
  | [] => None
  end.

Definition number_frac (r : bytes) : option (bytes * bytes) :=
  match r with
  | b :: r' =>
      if b2z b =? 46 then
        match digits r' with ([], _) => None | (ds, rest) => Some (b :: ds, rest) end
      else Some ([], r)
  | [] => Some ([], [])
  end.

Definition number_exp (r : bytes) : option (bytes * bytes) :=
  match r with
  | b :: r' =>
      if (b2z b =? 101) || (b2z b =? 69) then
        let '(sg, r1) := match r' with c :: r1 => if (b2z c =? 43) || (b2z c =? 45) then ([c], r1) else ([], r') | [] => ([], []) end in
        match digits r1 with ([], _) => None | (ds, rest) => Some (b :: sg ++ ds, rest) end
      else Some ([], r)
  | [] => Some ([], [])
  end.

Definition number (r : bytes) : result (bytes * bytes) :=
  let '(s, r1) := number_sign r in
  match number_int r1 with
  | None => Err "invalid character in numeric literal"
  | Some (i, r2) =>
      match number_frac r2 with
      | None => Err "invalid character after decimal point in numeric literal"
      | Some (f, r3) =>
          match number_exp r3 with
          | None => Err "invalid character in exponent of numeric literal"
          | Some (e, r4) => Ok (s ++ i ++ f ++ e, r4)
          end
      end
  end.

(** Decimal digits, as [strconv] writes and reads them. *)
Fixpoint uint_bytes (d : Decimal.uint) : bytes :=
  match d with
  | Decimal.Nil => []
  | Decimal.D0 d => z2b 48 :: uint_bytes d
  | Decimal.D1 d => z2b 49 :: uint_bytes d
  | Decimal.D2 d => z2b 50 :: uint_bytes d
  | Decimal.D3 d => z2b 51 :: uint_bytes d
  | Decimal.D4 d => z2b 52 :: uint_bytes d
  | Decimal.D5 d => z2b 53 :: uint_bytes d
  | Decimal.D6 d => z2b 54 :: uint_bytes d
  | Decimal.D7 d => z2b 55 :: uint_bytes d
  | Decimal.D8 d => z2b 56 :: uint_bytes d
  | Decimal.D9 d => z2b 57 :: uint_bytes d
  end.

Definition digit_uint (b : byte) (d : Decimal.uint) : Decimal.uint :=
  let c := b2z b - 48 in
  if c =? 0 then Decimal.D0 d else if c =? 1 then Decimal.D1 d else if c =? 2 then Decimal.D2 d
  else if c =? 3 then Decimal.D3 d else if c =? 4 then Decimal.D4 d else if c =? 5 then Decimal.D5 d
  else if c =? 6 then Decimal.D6 d else if c =? 7 then Decimal.D7 d else if c =? 8 then Decimal.D8 d
  else Decimal.D9 d.

Fixpoint bytes_uint (l : bytes) : option Decimal.uint :=
  match l with
  | [] => Some Decimal.Nil
  | b :: l => if is_digit b then digit_uint b <$> bytes_uint l else None
  end.

Definition print_uint (z : Z) : bytes := uint_bytes (N.to_uint (Z.to_N z)).
Definition print_int (z : Z) : bytes := if z <? 0 then z2b 45 :: print_uint (- z) else print_uint z.

(** [strconv.ParseUint(lit, 10, bits)] and [ParseInt]. *)
Definition parse_uint (bits : Z) (lit : bytes) : result Z :=
  match lit, bytes_uint lit with
  | _ :: _, Some d =>
      let z := Z.of_N (N.of_uint d) in
      _ ← fail_if (2 ^ bits <=? z) "value out of range"; Ok z
  | _, _ => Err "invalid syntax"
  end.

Definition parse_int (bits : Z) (lit : bytes) : result Z :=
  match lit with
  | b :: lit' =>
      if b2z b =? 45 then
        z ← parse_uint bits lit';
        _ ← fail_if (2 ^ (bits - 1) <? z) "value out of range"; Ok (- z)
      else
        z ← parse_uint bits lit;
        _ ← fail_if (2 ^ (bits - 1) <=? z) "value out of range"; Ok z
  | [] => Err "invalid syntax"
  end.

(** ** Reading a value

    [n] is fuel, enough when it is at least twice the length of the text
    ([parse_fuel]); [d] is the number of nested levels still allowed. *)

Definition expect_prefix (p : bytes) (j : json) (r : bytes) : result (json * bytes) :=
  if decide (take (length p) r = p) then Ok (j, drop (length p) r) else Err "invalid character in literal".

Fixpoint json_value (n : nat) (d : Z) (r : bytes) {struct n} : result (json * bytes) :=
  match n with
  | O => Err out_of_fuel
  | S n =>
      match skip_ws r with
      | [] => Err "unexpected end of JSON input"
      | b :: r1 =>
          if bool_decide (b = lbrace) then
            _ ← fail_if (d <=? 0) "exceeded max depth";
            match skip_ws r1 with
            | c :: r2 =>
                if bool_decide (c = rbrace) then Ok (JObj [], r2)
                else '(kvs, rest) ← json_members n (d - 1) (c :: r2); Ok (JObj kvs, rest)
            | [] => Err "unexpected end of JSON input"
            end
          else if bool_decide (b = lbracket) then
            _ ← fail_if (d <=? 0) "exceeded max depth";
            match skip_ws r1 with
            | c :: r2 =>
                if bool_decide (c = rbracket) then Ok (JArr [], r2)
                else '(vs, rest) ← json_elements n (d - 1) (c :: r2); Ok (JArr vs, rest)
            | [] => Err "unexpected end of JSON input"
            end
          else if bool_decide (b = dquote) then
            '(s, rest) ← unquote (length r1) r1; Ok (JStr s, rest)
          else if b2z b =? 116 then expect_prefix (ascii_bytes "true") (JBool true) (b :: r1)
          else if b2z b =? 102 then expect_prefix (ascii_bytes "false") (JBool false) (b :: r1)
          else if b2z b =? 110 then expect_prefix (ascii_bytes "null") JNull (b :: r1)
          else if (b2z b =? 45) || is_digit b then
            '(lit, rest) ← number (b :: r1); Ok (JNum lit, rest)
          else Err "invalid character looking for beginning of value"
      end
  end
with json_elements (n : nat) (d : Z) (r : bytes) {struct n} : result (list json * bytes) :=
  match n with
  | O => Err out_of_fuel
  | S n =>
      '(v, r1) ← json_value n d r;
      match skip_ws r1 with
      | c :: r2 =>
          if bool_decide (c = comma) then '(vs, rest) ← json_elements n d r2; Ok (v :: vs, rest)
          else if bool_decide (c = rbracket) then Ok ([v], r2)
          else Err "invalid character after array element"
      | [] => Err "unexpected end of JSON input"
      end
  end
with json_members (n : nat) (d : Z) (r : bytes) {struct n} : result (list (bytes * json) * bytes) :=
  match n with
  | O => Err out_of_fuel
  | S n =>
      match skip_ws r with
      | b :: r1 =>
          if bool_decide (b = dquote) then
            '(k, r2) ← unquote (length r1) r1;
            match skip_ws r2 with
            | c :: r3 =>
                if bool_decide (c = colon) then
                  '(v, r4) ← json_value n d r3;
                  match skip_ws r4 with
                  | c :: r5 =>
                      if bool_decide (c = comma) then '(kvs, rest) ← json_members n d r5; Ok ((k, v) :: kvs, rest)
                      else if bool_decide (c = rbrace) then Ok ([(k, v)], r5)
                      else Err "invalid character after object key:value pair"
                  | [] => Err "unexpected end of JSON input"
                  end
                else Err "invalid character after object key"
            | [] => Err "unexpected end of JSON input"
            end
          else Err "invalid character looking for beginning of object key string"
      | [] => Err "unexpected end of JSON input"
      end
  end.

Definition maxNestingDepth : Z := 10000.

(** One value and nothing after it but white space: [Decode] followed by a
    second [Decode] that must report the end of the text. *)
Definition parse (raw : bytes) : result json :=
  '(j, rest) ← json_value (2 * length raw + 2) maxNestingDepth raw;
  _ ← fail_if (match skip_ws rest with [] => false | _ => true end) "trailing JSON";
  Ok j.

(** ** Writing a value *)

Definition separated (pre : bytes) (items : list bytes) : bytes :=
  match items with
  | [] => []
  | x :: xs => pre ++ x ++ concat (map (fun y => comma :: pre ++ y) xs)
  end.

Section print.
(** The line break and indentation before an item of a level, and the space
    after a colon: none for [json.Marshal]. *)
Context (nl : nat -> bytes) (sp : bytes).

Fixpoint print (lvl : nat) (j : json) : bytes :=
  match j with
  | JNull => ascii_bytes "null"
  | JBool b => ascii_bytes (if b then "true" else "false")
  | JNum lit => lit
  | JStr s => quote s
  | JArr [] => [lbracket; rbracket]
  | JArr l => lbracket :: separated (nl (S lvl)) (map (print (S lvl)) l) ++ nl lvl ++ [rbracket]
  | JObj [] => [lbrace; rbrace]
  | JObj l =>
      lbrace :: separated (nl (S lvl)) (map (fun kv => quote kv.1 ++ colon :: sp ++ print (S lvl) kv.2) l)
      ++ nl lvl ++ [rbrace]
  end.
End print.

(** [json.Marshal] *)
Definition marshal (j : json) : bytes := print (fun _ => []) [] 0 j.

(** [json.MarshalIndent(v, "", "  ")] *)
Definition marshal_indent (j : json) : bytes :=
  print (fun lvl => z2b 10 :: replicate (2 * lvl) (z2b 32)) [z2b 32] 0 j.

(** ** Decoding into Go values

    A decoder takes the value already there: [null] leaves it alone, and a
    field that occurs twice (in different case) is decoded twice. *)

Definition decoder (A : Type) : Type := json -> A -> result A.

Definition dec_string : decoder string := fun j cur =>
  match j with
  | JStr s => Ok (String.string_of_list_byte s)
  | JNull => Ok cur
  | _ => Err "json: cannot unmarshal value into Go value of type string"
  end.

Definition dec_uint (bits : Z) : decoder Z := fun j cur =>
  match j with
  | JNum lit => parse_uint bits lit
  | JNull => Ok cur
  | _ => Err "json: cannot unmarshal value into Go value of type uint"
  end.

Definition dec_int (bits : Z) : decoder Z := fun j cur =>
  match j with
  | JNum lit => parse_int bits lit
  | JNull => Ok cur
  | _ => Err "json: cannot unmarshal value into Go value of type int"
  end.

(** Slices: the elements already there are decoded into; [null] is the empty
    slice. *)
Fixpoint dec_elements {A} (dec : decoder A) (zero : A) (l : list json) (cur : list A) : result (list A) :=
  match l with
  | [] => Ok []
  | j :: l =>
      x ← dec j (default zero (head cur));
      xs ← dec_elements dec zero l (tail cur);
      Ok (x :: xs)
  end.

Definition dec_slice {A} (dec : decoder A) (zero : A) : decoder (list A) := fun j cur =>
  match j with
  | JArr l => dec_elements dec zero l cur
  | JNull => Ok []
  | _ => Err "json: cannot unmarshal value into Go value of type slice"
  end.

(** Maps with string keys, nil being [None]. *)
Fixpoint dec_entries {A} (dec : decoder A) (zero : A) (l : list (bytes * json)) (m : gmap string A)
    : result (gmap string A) :=
  match l with
  | [] => Ok m
  | (k, j) :: l =>
      x ← dec j zero;
      dec_entries dec zero l (<[String.string_of_list_byte k := x]> m)
  end.

Definition dec_map {A} (dec : decoder A) (zero : A) : decoder (option (gmap string A)) := fun j cur =>
  match j with
  | JObj l => Some <$> dec_entries dec zero l (default ∅ cur)
  | JNull => Ok None
  | _ => Err "json: cannot unmarshal value into Go value of type map"
  end.

(** Field names match exactly or else up to case folding; U+017F folds to S
    and U+212A to K. *)
Definition fold_ascii (b : byte) : byte := if in_range 97 122 b then z2b (b2z b - 32) else b.
Fixpoint foldName (k : bytes) : bytes :=
  match k with
  | [] => []
  | a :: r1 =>
      match r1 with
      | b :: r2 =>
          if (b2z a =? 0xC5) && (b2z b =? 0xBF) then z2b 83 :: foldName r2
          else match r2 with
               | c :: r3 =>
                   if (b2z a =? 0xE2) && (b2z b =? 0x84) && (b2z c =? 0xAA) then z2b 75 :: foldName r3
                   else fold_ascii a :: foldName r1
               | [] => fold_ascii a :: foldName r1
               end
      | [] => [fold_ascii a]
      end
  end.

Definition field (A : Type) : Type := string * (json -> A -> result A).

(** A field of a struct, from its type's decoder. *)
Definition on_field {A B} (name : string) (dec : decoder B) (get : A -> B) (set : B -> A -> A) : field A :=
  (name, fun j a => x ← dec j (get a); Ok (set x a)).

Definition find_field {A} (k : bytes) (fs : list (field A)) : option (json -> A -> result A) :=
  match List.find (fun f => bool_decide (ascii_bytes f.1 = k)) fs with
  | Some f => Some f.2
  | None => snd <$> List.find (fun f => bool_decide (foldName (ascii_bytes f.1) = foldName k)) fs
  end.

Fixpoint dec_fields {A} (fs : list (field A)) (l : list (bytes * json)) (cur : A) : result A :=
  match l with
  | [] => Ok cur
  | (k, j) :: l =>
      match find_field k fs with
      | None => Err "json: unknown field"
      | Some f => cur ← f j cur; dec_fields fs l cur
      end
  end.

(** A struct, with [DisallowUnknownFields]. *)
Definition dec_struct {A} (fs : list (field A)) : decoder A := fun j cur =>
  match j with
  | JObj l => dec_fields fs l cur
  | JNull => Ok cur
  | _ => Err "json: cannot unmarshal value into Go struct"
  end.

(** [Decode] and the check for trailing text, as [loadState] does. *)
Definition decodeJSON {A} (dec : decoder A) (zero : A) (raw : bytes) : result A :=
  j ← parse raw; dec j zero.

(** ** Encoding Go values *)

Definition enc_string (s : string) : json := JStr (ascii_bytes s).
Definition enc_uint (z : Z) : json := JNum (print_uint z).
Definition enc_int (z : Z) : json := JNum (print_int z).

(** A struct from the names and encodings of its fields. *)
Definition enc_struct (fs : list (string * json)) : json := JObj (map (fun kv => (ascii_bytes kv.1, kv.2)) fs).

(** A slice that is not nil. *)
Definition enc_slice {A} (enc : A -> json) (l : list A) : json := JArr (map enc l).

(** Map keys are written in order. *)
Definition key_le {A} (a b : string * A) : Prop := String.le a.1 b.1.
#[export] Instance key_le_dec {A} : RelDecision (key_le (A:=A)).
Proof. intros a b. unfold key_le. apply _. Defined.

Definition enc_map {A} (enc : A -> json) (m : gmap string A) : json :=
  enc_struct (map (fun kv => (kv.1, enc kv.2)) (merge_sort key_le (map_to_list m))).
