(* ===== verification/JsonStream.v ===== *)
(** * Reading JSON by tokens, and strict reading

    [rejectDuplicateJSON] of [nativeproof/service.go] does not build a value:
    it takes tokens from a [json.Decoder] and keeps the keys met in each open
    object. The decoder is the state machine of [encoding/json]: where it is
    in the grammar ([tokenState]), the states of the enclosing values, and
    the unread text. [strictJSON] of [nativeproof/setup.go] walks the text
    first and then decodes it. *)

From S2P Require Import Prelude Bytes Sha256 Json.
From Stdlib Require Import Strings.Byte.

(** ** Numbers as [float64]

    A number met by [Token] is decoded into an interface, so it becomes a
    [float64]: a literal that rounds to no finite one is refused. *)

Definition digits_value (l : bytes) : Z := foldl (fun z b => 10 * z + (b2z b - 48)) 0 l.

(** [strconv] stops accumulating a large exponent. *)
Definition exponent_value (l : bytes) : Z := foldl (fun z b => if z <? 10000 then 10 * z + (b2z b - 48) else z) 0 l.

(** The exponent of the text after the mantissa, empty or starting with [e]. *)
Definition number_exponent (e : bytes) : Z :=
  match tail e with
  | c :: ds => if b2z c =? 45 then - exponent_value ds else if b2z c =? 43 then exponent_value ds else exponent_value (c :: ds)
  | [] => 0
  end.

(** The smallest magnitude that does not round to a finite [float64]: half a
    unit in the last place above the largest one. *)
Definition float64_bound : Z := 2 ^ 1024 - 2 ^ 970.

(** [float64_bound <= m * 10 ^ x], for a mantissa of [nd] digits. *)
Definition decimal_overflows (m nd x : Z) : bool :=
  if m =? 0 then false
  else if 0 <=? x then (400 <? x) || (float64_bound <=? m * 10 ^ x)
  else if nd <=? - x then false
  else float64_bound * 10 ^ (- x) <=? m.

Definition float_overflow (lit : bytes) : bool :=
  let '(_, r1) := number_sign lit in
  match number_int r1 with
  | None => false
  | Some (i, r2) =>
      match number_frac r2 with
      | None => false
      | Some (f, r3) =>
          match number_exp r3 with
          | None => false
          | Some (e, _) =>
              let ds := i ++ tail f in
              decimal_overflows (digits_value ds) (Z.of_nat (length ds)) (number_exponent e - Z.of_nat (length (tail f)))
          end
      end
  end.

(** ** The decoder *)

Inductive tokenState :=
  | tokenTopValue
  | tokenArrayStart
  | tokenArrayValue
  | tokenArrayComma
  | tokenObjectStart
  | tokenObjectKey
  | tokenObjectColon
  | tokenObjectValue
  | tokenObjectComma.

#[export] Instance tokenState_eq_dec : EqDecision tokenState.
Proof. solve_decision. Defined.

Record Decoder := mkDecoder {
  dc_tokenState : tokenState;
  dc_tokenStack : list tokenState;
  dc_rest : bytes;
}.

(** Delimiters, strings, and the other scalars. *)
Inductive token :=
  | Delim (c : byte)
  | Str (s : bytes)
  | Scalar (j : json).

Definition io_EOF : error := "EOF".

Definition tokenValueAllowed (s : tokenState) : bool :=
  match s with tokenTopValue | tokenArrayStart | tokenArrayValue | tokenObjectValue => true | _ => false end.

Definition tokenValueEnd (s : tokenState) : tokenState :=
  match s with
  | tokenArrayStart | tokenArrayValue => tokenArrayComma
  | tokenObjectValue => tokenObjectComma
  | s => s
  end.

(** The character is left out of the text. *)
Definition tokenError {A} (s : tokenState) : result A :=
  Err ("invalid character" +:+
       match s with
       | tokenTopValue | tokenArrayStart | tokenArrayValue | tokenObjectValue => " looking for beginning of value"
       | tokenArrayComma => " after array element"
       | tokenObjectKey => " looking for beginning of object key string"
       | tokenObjectColon => " after object key"
       | tokenObjectComma => " after object key:value pair"
       | tokenObjectStart => ""
       end).

(** [Decode] of a scalar into an interface. *)
Definition decode_any (r : bytes) : result (json * bytes) :=
  '(j, rest) ← json_value 1 maxNestingDepth r;
  _ ← fail_if (match j with JNum lit => float_overflow lit | _ => false end)
        "json: cannot unmarshal number into Go value of type float64";
  Ok (j, rest).

Definition scalar_token (j : json) : token := match j with JStr s => Str s | j => Scalar j end.

(** One round of the loop of [Token]: a token, or none after a separator. *)
Definition token_round (d : Decoder) : result (option token * Decoder) :=
  let st := dc_tokenState d in
  let stack := dc_tokenStack d in
  match skip_ws (dc_rest d) with
  | [] => Err io_EOF
  | c :: r =>
      if bool_decide (c = lbracket) then
        if negb (tokenValueAllowed st) then tokenError st
        else Ok (Some (Delim lbracket), mkDecoder tokenArrayStart (st :: stack) r)
      else if bool_decide (c = rbracket) then
        match st, stack with
        | (tokenArrayStart | tokenArrayComma), top :: stack => Ok (Some (Delim rbracket), mkDecoder (tokenValueEnd top) stack r)
        | _, _ => tokenError st
        end
      else if bool_decide (c = lbrace) then
        if negb (tokenValueAllowed st) then tokenError st
        else Ok (Some (Delim lbrace), mkDecoder tokenObjectStart (st :: stack) r)
      else if bool_decide (c = rbrace) then
        match st, stack with
        | (tokenObjectStart | tokenObjectComma), top :: stack => Ok (Some (Delim rbrace), mkDecoder (tokenValueEnd top) stack r)
        | _, _ => tokenError st
        end
      else if bool_decide (c = colon) then
        match st with
        | tokenObjectColon => Ok (None, mkDecoder tokenObjectValue stack r)
        | _ => tokenError st
        end
      else if bool_decide (c = comma) then
        match st with
        | tokenArrayComma => Ok (None, mkDecoder tokenArrayValue stack r)
        | tokenObjectComma => Ok (None, mkDecoder tokenObjectKey stack r)
        | _ => tokenError st
        end
      else if bool_decide (c = dquote) && (bool_decide (st = tokenObjectStart) || bool_decide (st = tokenObjectKey)) then
        '(s, rest) ← unquote (length r) r;
        Ok (Some (Str s), mkDecoder tokenObjectColon stack rest)
      else if negb (tokenValueAllowed st) then tokenError st
      else
        '(j, rest) ← decode_any (c :: r);
        Ok (Some (scalar_token j), mkDecoder (tokenValueEnd st) stack rest)
  end.

(** After a separator the state allows no other one, so the second round of
    the loop is the last ([token_round_twice]). *)
Definition Token (d : Decoder) : result (token * Decoder) :=
  '(t, d) ← token_round d;
  match t with
  | Some t => Ok (t, d)
  | None =>
      '(t, d) ← token_round d;
      match t with Some t => Ok (t, d) | None => Err out_of_fuel end
  end.

Definition More (d : Decoder) : bool :=
  match skip_ws (dc_rest d) with
  | [] => false
  | c :: _ => negb (bool_decide (c = rbracket)) && negb (bool_decide (c = rbrace))
  end.

(** ** The walk

    [n] is fuel; four times the length of the text is enough
    ([rejectDuplicateJSON_fuel]). The map [seen] is the list of its keys. *)

Fixpoint walk (n : nat) (d : Decoder) {struct n} : result Decoder :=
  match n with
  | O => Err out_of_fuel
  | S n =>
      '(tok, d) ← Token d;
      match tok with
      | Delim delim =>
          if bool_decide (delim = lbrace) then
            d ← walk_fields n [] d;
            '(close, d) ← Token d;
            match close with
            | Delim c => _ ← fail_if (negb (bool_decide (c = rbrace))) "malformed JSON object"; Ok d
            | _ => Err "malformed JSON object"
            end
          else if bool_decide (delim = lbracket) then
            d ← walk_elements n d;
            '(close, d) ← Token d;
            match close with
            | Delim c => _ ← fail_if (negb (bool_decide (c = rbracket))) "malformed JSON array"; Ok d
            | _ => Err "malformed JSON array"
            end
          else Err "unexpected JSON delimiter"
      | _ => Ok d
      end
  end
with walk_fields (n : nat) (seen : list bytes) (d : Decoder) {struct n} : result Decoder :=
  match n with
  | O => Err out_of_fuel
  | S n =>
      if More d then
        '(key, d) ← Token d;
        match key with
        | Str name =>
            _ ← fail_if (bool_decide (name ∈ seen)) "duplicate JSON key";
            d ← walk n d;
            walk_fields n (name :: seen) d
        | _ => Err "object key is not a string"
        end
      else Ok d
  end
with walk_elements (n : nat) (d : Decoder) {struct n} : result Decoder :=
  match n with
  | O => Err out_of_fuel
  | S n =>
      if More d then
        d ← walk n d;
        walk_elements n d
      else Ok d
  end.

Definition NewDecoder (raw : bytes) : Decoder := mkDecoder tokenTopValue [] raw.

Definition rejectDuplicateJSON (raw : bytes) : result unit :=
  d ← walk (4 * length raw + 4) (NewDecoder raw);
  match Token d with
  | Err e => fail_if (negb (String.eqb e io_EOF)) "trailing JSON"
  | Ok _ => Err "trailing JSON"
  end.

(** [strictJSON(raw, &out)] *)
Definition strictJSON {A} (dec : decoder A) (zero : A) (raw : bytes) : result A :=
  _ ← fail_if (negb (utf8_valid raw)) "invalid UTF-8 JSON";
  _ ← rejectDuplicateJSON raw;
  decodeJSON dec zero raw.
