(* ===== verification/JsonFacts.v ===== *)
(** * Facts about the JSON model

    Reading what was written gives the value back, for compact and indented
    output; the reader never runs out of fuel. *)

From stdpp Require Import sorting.
From S2P Require Import Prelude Bytes Sha256 Json.
From Stdlib Require Import Strings.Byte.
From Stdlib Require DecimalFacts DecimalN.

(** ** Strings *)

Lemma b2z_small z : 0 <= z < 256 -> b2z (z2b z) = z.
Proof. intros. rewrite b2z_z2b. by apply Z.mod_small. Qed.

Lemma prepend_Ok xs s rest : prepend xs (Ok (s, rest)) = Ok (xs ++ s, rest).
Proof. done. Qed.

Lemma unquote_ascii n b r :
  b2z b < 0x80 -> unquote (S n) (escape_ascii b ++ r) = prepend [b] (unquote n r).
Proof. intros H. destruct b; try reflexivity; (vm_compute in H; discriminate H). Qed.

Lemma unquote_u2028 n r : unquote (S n) (u_escape 0x2028 ++ r) = prepend (utf8_encode 0x2028) (unquote n r).
Proof. reflexivity. Qed.
Lemma unquote_u2029 n r : unquote (S n) (u_escape 0x2029 ++ r) = prepend (utf8_encode 0x2029) (unquote n r).
Proof. reflexivity. Qed.

Lemma rune_width_app s w r :
  rune_width s = Some w -> (0 < w)%nat /\ (w <= length s)%nat /\ rune_width (take w s ++ r) = Some w.
Proof.
  unfold rune_width. destruct s as [|b0 s]; [done|]. case_match eqn:E0.
  { intros [= <-]. cbn [take app]. rewrite E0. split; [lia|split; [cbn; lia|done]]. }
  destruct s as [|b1 s]; [done|]. case_match eqn:E1.
  { intros [= <-]. cbn [take app]. rewrite E0, E1. split; [lia|split; [cbn; lia|done]]. }
  destruct s as [|b2 s]; [done|]. case_match eqn:E2.
  { intros [= <-]. cbn [take app]. rewrite E0, E1, E2. split; [lia|split; [cbn; lia|done]]. }
  destruct s as [|b3 s]; [done|]. case_match eqn:E3; [|done].
  intros [= <-]. cbn [take app]. rewrite E0, E1, E2, E3. split; [lia|split; [cbn; lia|done]].
Qed.

Lemma line_separator_take s w z :
  rune_width s = Some w -> line_separator s = Some z ->
  w = 3%nat /\ ((z = 0x2028 /\ take 3 s = utf8_encode 0x2028) \/ (z = 0x2029 /\ take 3 s = utf8_encode 0x2029)).
Proof.
  unfold line_separator. destruct s as [|a [|b [|c s]]]; [done..|].
  destruct (Z.eqb_spec (b2z a) 0xE2) as [Ha|]; [|done]. destruct (Z.eqb_spec (b2z b) 0x80) as [Hb|]; [|done].
  cbn [andb]. intros HW.
  assert (a = z2b 0xE2 /\ b = z2b 0x80) as [-> ->] by (split; apply b2z_inj; rewrite b2z_small; lia).
  destruct (Z.eqb_spec (b2z c) 0xA8) as [Hc|].
  - assert (c = z2b 0xA8) as -> by (apply b2z_inj; rewrite b2z_small; lia).
    intros [= <-]. split; [vm_compute in HW; congruence|]. by left.
  - destruct (Z.eqb_spec (b2z c) 0xA9) as [Hc|]; [|done].
    assert (c = z2b 0xA9) as -> by (apply b2z_inj; rewrite b2z_small; lia).
    intros [= <-]. split; [vm_compute in HW; congruence|]. by right.
Qed.

Lemma unquote_rune n s w r :
  rune_width s = Some w -> (exists b s', s = b :: s' /\ 0x80 <= b2z b) ->
  unquote (S n) (take w s ++ r) = prepend (take w s) (unquote n r).
Proof.
  intros HW (b & s' & -> & Hb). destruct (rune_width_app _ _ r HW) as (H0 & Hl & HW').
  destruct w as [|w]; [lia|]. cbn [take app] in *. cbn [unquote].
  destruct (Z.eqb_spec (b2z b) 34); [lia|]. destruct (Z.eqb_spec (b2z b) 92); [lia|].
  destruct (Z.ltb_spec (b2z b) 32); [lia|]. rewrite HW'. cbn [take drop app].
  rewrite take_app_length', drop_app_length'; [done| |]; rewrite length_take; cbn [length] in Hl; lia.
Qed.

Lemma unquote_body m s n rest :
  (length s <= m)%nat -> utf8_valid_loop m s = true -> (length (quote_body m s) < n)%nat ->
  unquote n (quote_body m s ++ dquote :: rest) = Ok (s, rest).
Proof.
  revert s n. induction m as [|m IH]; intros s n Hl HV Hn.
  { destruct s; [|cbn in Hl; lia]. destruct n; [cbn in Hn; lia|]. reflexivity. }
  destruct s as [|b s]; [destruct n; [cbn in Hn; lia|]; reflexivity|].
  cbn [utf8_valid_loop] in HV. destruct (rune_width (b :: s)) as [w|] eqn:HW; [|done].
  destruct (rune_width_app _ _ [] HW) as (Hw0 & Hwl & _). cbn [quote_body] in *. rewrite HW in *.
  destruct n as [|n]; [lia|]. destruct (Z.ltb_spec (b2z b) 0x80) as [Hb|Hb].
  { assert (w = 1%nat) as ->.
    { unfold rune_width in HW. destruct (Z.ltb_spec (b2z b) 0x80); [congruence|lia]. }
    rewrite <- app_assoc, unquote_ascii by done. rewrite length_app in Hn.
    assert (0 < length (escape_ascii b))%nat.
    { unfold escape_ascii. destruct (short_escape _); [cbn; lia|]. destruct (_ || _); cbn; lia. }
    rewrite (IH s) by (cbn [length drop] in *; done || lia). done. }
  destruct (line_separator (b :: s)) as [z|] eqn:HL.
  - destruct (line_separator_take _ _ _ HW HL) as [-> Hz]. rewrite length_app in Hn.
    assert (length (u_escape z) = 6%nat) as Hu by done.
    assert (unquote (S n) (u_escape z ++ quote_body m (drop 3 (b :: s)) ++ dquote :: rest)
            = prepend (take 3 (b :: s)) (unquote n (quote_body m (drop 3 (b :: s)) ++ dquote :: rest))) as E.
    { destruct Hz as [[-> ->]|[-> ->]]; [apply unquote_u2028|apply unquote_u2029]. }
    rewrite <- app_assoc, E, IH; [|rewrite length_drop; cbn [length] in *; lia|done|lia].
    rewrite prepend_Ok. by rewrite take_drop.
  - rewrite <- app_assoc, unquote_rune; [|done|by exists b, s]. rewrite length_app, length_take in Hn.
    rewrite IH; [|rewrite length_drop; cbn [length] in *; lia|done|cbn [length] in *; lia].
    rewrite prepend_Ok. by rewrite take_drop.
Qed.

Lemma unquote_quote s rest :
  utf8_valid s = true ->
  unquote (length (quote_body (length s) s ++ dquote :: rest)) (quote_body (length s) s ++ dquote :: rest) = Ok (s, rest).
Proof. intros H. apply unquote_body; [done|done|]. rewrite length_app. cbn [length]. lia. Qed.

(** ** Numbers *)

(** What may follow a number. *)
Definition delimited (r : bytes) : Prop :=
  match r with
  | [] => True
  | b :: _ => is_digit b = false /\ b2z b <> 46 /\ b2z b <> 101 /\ b2z b <> 69
  end.

Record wf_number (lit : bytes) : Prop := mk_wf_number {
  wn_head : exists b l, lit = b :: l /\ (b2z b =? 45) || is_digit b = true;
  wn_ascii : Forall (fun b => b2z b < 0x80) lit;
  wn_reads : forall rest, delimited rest -> number (lit ++ rest) = Ok (lit, rest);
}.

Lemma digits_app ds rest :
  Forall (fun b => is_digit b = true) ds -> delimited rest -> digits (ds ++ rest) = (ds, rest).
Proof.
  intros H Hr. induction H as [|b ds Hb _ IH]; cbn [app digits].
  - destruct rest as [|b rest]; [done|]. cbn [digits]. destruct Hr as [-> _]. done.
  - by rewrite Hb, IH.
Qed.

Lemma number_tail rest : delimited rest -> number_frac rest = Some ([], rest) /\ number_exp rest = Some ([], rest).
Proof.
  destruct rest as [|b rest]; [done|]. intros (_ & H1 & H2 & H3). unfold number_frac, number_exp.
  destruct (Z.eqb_spec (b2z b) 46); [done|]. destruct (Z.eqb_spec (b2z b) 101); [done|].
  by destruct (Z.eqb_spec (b2z b) 69).
Qed.

Lemma digits_ascii l : Forall (fun b => is_digit b = true) l -> Forall (fun b => b2z b < 0x80) l.
Proof. intros H. apply (Forall_impl _ _ _ H). intros b. unfold is_digit, in_range. intros [_ H2%Z.leb_le]%andb_true_iff. lia. Qed.

(** Decimal literals: a zero, or digits that do not start with one. *)
Definition decimal (l : bytes) : Prop :=
  Forall (fun b => is_digit b = true) l /\ (l = [z2b 48] \/ exists b l', l = b :: l' /\ b2z b <> 48).

Lemma decimal_int l rest : decimal l -> delimited rest -> number_int (l ++ rest) = Some (l, rest).
Proof.
  intros [HF [->|(b & l' & -> & Hb)]] Hr; [done|]. cbn [app number_int].
  destruct (Z.eqb_spec (b2z b) 48); [done|]. apply Forall_cons in HF as [-> HF]. by rewrite digits_app.
Qed.

Lemma decimal_number l : decimal l -> wf_number l.
Proof.
  intros Hd. assert (exists b l', l = b :: l' /\ is_digit b = true) as (b & l' & -> & Hb).
  { destruct Hd as [HF [->|(b & l' & -> & _)]]; [by exists (z2b 48), []|]. apply Forall_cons in HF as [? _]. eauto. }
  split; [exists b, l'; by rewrite Hb, orb_true_r|apply digits_ascii, Hd|]. intros rest Hr. unfold number.
  assert (number_sign ((b :: l') ++ rest) = ([], (b :: l') ++ rest)) as ->.
  { cbn [app number_sign]. destruct (Z.eqb_spec (b2z b) 45); [|done]. unfold is_digit, in_range in Hb. bool_prop. lia. }
  cbv beta iota. rewrite decimal_int by done. destruct (number_tail rest Hr) as [-> ->]. by rewrite !app_nil_r.
Qed.

Lemma negative_number l : decimal l -> wf_number (z2b 45 :: l).
Proof.
  intros Hd. split; [by exists (z2b 45), l|constructor; [done|apply digits_ascii, Hd]|]. intros rest Hr. unfold number. cbn [app].
  change (number_sign (z2b 45 :: l ++ rest)) with ([z2b 45], l ++ rest).
  cbv beta iota. rewrite decimal_int by done. destruct (number_tail rest Hr) as [-> ->]. by rewrite !app_nil_r.
Qed.

Lemma uint_bytes_digits d : Forall (fun b => is_digit b = true) (uint_bytes d).
Proof. induction d; cbn [uint_bytes]; constructor; done. Qed.

Lemma bytes_uint_bytes d : bytes_uint (uint_bytes d) = Some d.
Proof. induction d as [|d IH|d IH|d IH|d IH|d IH|d IH|d IH|d IH|d IH|d IH]; [done|..]; cbn [uint_bytes bytes_uint]; by rewrite IH. Qed.

Lemma nzhead_bytes d : Decimal.nzhead d = Decimal.Nil \/ exists b l, uint_bytes (Decimal.nzhead d) = b :: l /\ b2z b <> 48.
Proof.
  induction d as [|d IH|d _|d _|d _|d _|d _|d _|d _|d _|d _]; cbn [Decimal.nzhead uint_bytes];
    [by left|exact IH|..]; right; eexists _, _; (split; [reflexivity|]); by vm_compute.
Qed.

Lemma to_uint_decimal n : decimal (uint_bytes (N.to_uint n)).
Proof.
  split; [apply uint_bytes_digits|].
  rewrite <- (DecimalN.Unsigned.of_to n), DecimalN.Unsigned.to_of at 1.
  assert (uint_bytes (N.to_uint n) = uint_bytes (Decimal.unorm (N.to_uint n))) as E.
  { by rewrite <- DecimalN.Unsigned.to_of, DecimalN.Unsigned.of_to. }
  rewrite ?E. unfold Decimal.unorm. destruct (nzhead_bytes (N.to_uint n)) as [->|(b & l & Hb & Hn)]; [by left|].
  right. destruct (Decimal.nzhead (N.to_uint n)); [done|..]; eauto.
Qed.

Lemma print_uint_wf z : wf_number (print_uint z).
Proof. apply decimal_number, to_uint_decimal. Qed.

Lemma print_int_wf z : wf_number (print_int z).
Proof.
  unfold print_int. destruct (z <? 0); [apply negative_number|apply decimal_number]; apply to_uint_decimal.
Qed.

Lemma parse_print_uint bits z : 0 <= z < 2 ^ bits -> parse_uint bits (print_uint z) = Ok z.
Proof.
  intros Hz. destruct (wn_head _ (print_uint_wf z)) as (b & l & E & _). unfold parse_uint. rewrite E, <- E.
  unfold print_uint. rewrite bytes_uint_bytes, DecimalN.Unsigned.of_to, Z2N.id by lia.
  by destruct (Z.leb_spec (2 ^ bits) z); [lia|].
Qed.

Lemma parse_print_int bits z : - 2 ^ (bits - 1) <= z < 2 ^ (bits - 1) -> 0 < bits -> parse_int bits (print_int z) = Ok z.
Proof.
  intros Hz Hb. assert (2 ^ bits = 2 * 2 ^ (bits - 1)) as E2 by (rewrite <- Z.pow_succ_r by lia; f_equal; lia).
  assert (0 < 2 ^ (bits - 1)) by (apply Z.pow_pos_nonneg; lia).
  unfold print_int. destruct (Z.ltb_spec z 0) as [Hneg|Hpos].
  - cbn [parse_int]. change (b2z (z2b 45) =? 45) with true. cbv iota.
    rewrite parse_print_uint by lia. cbn [mbind result_bind].
    destruct (Z.ltb_spec (2 ^ (bits - 1)) (- z)); [lia|]. cbn. by rewrite Z.opp_involutive.
  - pose proof (to_uint_decimal (Z.to_N z)) as [HF _]. fold (print_uint z) in HF.
    destruct (wn_head _ (print_uint_wf z)) as (b & l & E & _). unfold parse_int. rewrite E in *.
    apply Forall_cons in HF as [Hd _]. destruct (Z.eqb_spec (b2z b) 45).
    { unfold is_digit, in_range in Hd. bool_prop. lia. }
    rewrite <- E, parse_print_uint by lia. cbn [mbind result_bind].
    by destruct (Z.leb_spec (2 ^ (bits - 1)) z); [lia|].
Qed.

(** ** Values *)

Fixpoint wf_json (j : json) : Prop :=
  match j with
  | JNum lit => wf_number lit
  | JStr s => utf8_valid s = true
  | JArr l => foldr (fun x P => wf_json x /\ P) True l
  | JObj l => foldr (fun kv P => utf8_valid kv.1 = true /\ wf_json kv.2 /\ P) True l
  | _ => True
  end.

Fixpoint json_depth (j : json) : Z :=
  match j with
  | JArr l => 1 + foldr (fun x m => Z.max (json_depth x) m) 0 l
  | JObj l => 1 + foldr (fun kv m => Z.max (json_depth kv.2) m) 0 l
  | _ => 0
  end.

(** The fuel a value needs. *)
Fixpoint json_size (j : json) : nat :=
  match j with
  | JArr l => S (foldr (fun x m => S (json_size x + m)) 0%nat l)
  | JObj l => S (foldr (fun kv m => S (json_size kv.2 + m)) 0%nat l)
  | _ => 1%nat
  end.

Definition all_ws (r : bytes) : Prop := Forall (fun b => is_ws b = true) r.

Lemma skip_ws_app w r : all_ws w -> skip_ws (w ++ r) = skip_ws r.
Proof. induction 1 as [|b w Hb _ IH]; cbn [app skip_ws]; [done|]. by rewrite Hb. Qed.

Lemma value_ws n d w r : all_ws w -> json_value n d (w ++ r) = json_value n d r.
Proof. intros Hw. destruct n; [done|]. cbn [json_value]. by rewrite skip_ws_app. Qed.

Lemma ws_delimits b r : is_ws b = true -> delimited (b :: r).
Proof.
  unfold delimited, is_digit, in_range, is_ws. intros Hb.
  apply orb_true_iff in Hb as [[[Hb|Hb]%orb_true_iff|Hb]%orb_true_iff|Hb]; apply Z.eqb_eq in Hb; rewrite Hb; done.
Qed.

Lemma delimited_ws w c r : all_ws w -> delimited (c :: r) -> delimited (w ++ c :: r).
Proof. intros Hw Hc. destruct Hw as [|b w Hb _]; [done|]. by apply ws_delimits. Qed.

Lemma delimited_all_ws w : all_ws w -> delimited w.
Proof. intros Hw. destruct Hw as [|b w Hb _]; [done|]. by apply ws_delimits. Qed.

Lemma value_number n d b r :
  (b2z b =? 45) || is_digit b = true -> json_value (S n) d (b :: r) = ('(lit, rest) ← number (b :: r); Ok (JNum lit, rest)).
Proof. intros H. destruct b; try (vm_compute in H; discriminate H); reflexivity. Qed.

Lemma value_array n d c r :
  0 < d -> is_ws c = false -> c <> rbracket ->
  json_value (S n) d (lbracket :: c :: r) = ('(vs, rest) ← json_elements n (d - 1) (c :: r); Ok (JArr vs, rest)).
Proof.
  intros Hd Hc Hr. cbn [json_value]. change (skip_ws (lbracket :: c :: r)) with (lbracket :: c :: r). cbv iota.
  change (bool_decide (lbracket = lbrace)) with false. change (bool_decide (lbracket = lbracket)) with true. cbv iota.
  destruct (Z.leb_spec d 0); [lia|]. cbn [fail_if mbind result_bind skip_ws]. rewrite Hc.
  by rewrite bool_decide_eq_false_2.
Qed.

Lemma value_object n d c r :
  0 < d -> is_ws c = false -> c <> rbrace ->
  json_value (S n) d (lbrace :: c :: r) = ('(kvs, rest) ← json_members n (d - 1) (c :: r); Ok (JObj kvs, rest)).
Proof.
  intros Hd Hc Hr. cbn [json_value]. change (skip_ws (lbrace :: c :: r)) with (lbrace :: c :: r). cbv iota.
  change (bool_decide (lbrace = lbrace)) with true. cbv iota.
  destruct (Z.leb_spec d 0); [lia|]. cbn [fail_if mbind result_bind skip_ws]. rewrite Hc.
  by rewrite bool_decide_eq_false_2.
Qed.

Section print.
Context (nl : nat -> bytes) (sp : bytes) (Hnl : forall lvl, all_ws (nl lvl)) (Hsp : all_ws sp).

(** A value reads back from its text, with anything a number can be followed
    by behind it. *)
Definition reads (j : json) : Prop := forall lvl n d rest,
  (json_size j <= n)%nat -> json_depth j <= d -> delimited rest -> json_value n d (print nl sp lvl j ++ rest) = Ok (j, rest).

(** The first character of a written value is no white space and ends no
    bracket. *)
Lemma print_head lvl j : wf_json j -> exists b r, print nl sp lvl j = b :: r /\ is_ws b = false /\ b <> rbracket /\ b <> rbrace.
Proof.
  destruct j as [|[]|lit|s|[|x l]|[|kv l]]; intros Hwf; cbn [print wf_json] in *; try (eexists _, _; split; [reflexivity|done]).
  destruct Hwf as [(b & l & -> & Hb) _ _]. exists b, l. split; [done|].
  destruct b; try (vm_compute in Hb; discriminate Hb); done.
Qed.

Lemma delimited_comma r : delimited (comma :: r).
Proof. done. Qed.
Lemma delimited_rbracket r : delimited (rbracket :: r).
Proof. done. Qed.
Lemma delimited_rbrace r : delimited (rbrace :: r).
Proof. done. Qed.
Lemma skip_comma r : skip_ws (comma :: r) = comma :: r.
Proof. done. Qed.
Lemma skip_rbracket r : skip_ws (rbracket :: r) = rbracket :: r.
Proof. done. Qed.
Lemma skip_rbrace r : skip_ws (rbrace :: r) = rbrace :: r.
Proof. done. Qed.
Lemma skip_colon r : skip_ws (colon :: r) = colon :: r.
Proof. done. Qed.
Lemma skip_dquote r : skip_ws (dquote :: r) = dquote :: r.
Proof. done. Qed.

Lemma separated_cons pre x y ys : separated pre (x :: y :: ys) = pre ++ x ++ comma :: separated pre (y :: ys).
Proof. unfold separated. cbn [map concat app]. by rewrite <- ?app_assoc. Qed.

Lemma elements_print lvl x l n d w rest :
  Forall reads (x :: l) -> all_ws w ->
  (S (foldr (fun x m => S (json_size x + m)) 0 (x :: l)) <= S n)%nat -> foldr (fun x m => Z.max (json_depth x) m) 0 (x :: l) <= d ->
  json_elements n d (separated (nl lvl) (map (print nl sp lvl) (x :: l)) ++ w ++ rbracket :: rest) = Ok (x :: l, rest).
Proof.
  revert x n. induction l as [|y l IH]; intros x n HF Hw Hn Hd; apply Forall_cons in HF as [Hx HF];
    cbn [foldr] in Hn, Hd; (destruct n as [|n]; [lia|]); cbn [json_elements].
  - cbn [map separated concat]. rewrite app_nil_r, <- app_assoc, value_ws by done.
    rewrite Hx; [|lia|lia|by apply delimited_ws]. cbn [mbind result_bind].
    rewrite skip_ws_app, skip_rbracket by done. done.
  - cbn [map]. rewrite separated_cons, <- !app_assoc, value_ws by done. cbn [app].
    rewrite Hx; [|lia|lia|done]. cbn [mbind result_bind]. rewrite skip_comma. cbv iota.
    change (bool_decide (comma = comma)) with true. cbv iota.
    change (print nl sp lvl y :: map (print nl sp lvl) l) with (map (print nl sp lvl) (y :: l)).
    rewrite IH; [done|done|done|cbn [foldr]; lia|cbn [foldr]; lia].
Qed.

Definition print_member (lvl : nat) (kv : bytes * json) : bytes := quote kv.1 ++ colon :: sp ++ print nl sp lvl kv.2.

Lemma members_print lvl kv l n d w rest :
  Forall (fun kv => reads kv.2) (kv :: l) -> Forall (fun kv => utf8_valid kv.1 = true) (kv :: l) -> all_ws w ->
  (S (foldr (fun kv m => S (json_size kv.2 + m)) 0 (kv :: l)) <= S n)%nat ->
  foldr (fun kv m => Z.max (json_depth kv.2) m) 0 (kv :: l) <= d ->
  json_members n d (separated (nl lvl) (map (print_member lvl) (kv :: l)) ++ w ++ rbrace :: rest) = Ok (kv :: l, rest).
Proof.
  revert kv n. induction l as [|kv' l IH]; intros [k v] n HF HU Hw Hn Hd; apply Forall_cons in HF as [Hx HF];
    apply Forall_cons in HU as [Hk HU]; cbn [foldr snd fst] in *; (destruct n as [|n]; [lia|]); cbn [json_members].
  - cbn [map separated concat]. rewrite app_nil_r. unfold print_member, quote. cbn [fst snd].
    rewrite <- ?app_assoc, skip_ws_app by done. cbn [app]. rewrite <- ?app_assoc, skip_dquote. cbn [app].
    change (bool_decide (dquote = dquote)) with true. cbv iota.
    rewrite unquote_quote by done. cbn [mbind result_bind]. rewrite skip_colon. cbv iota.
    change (bool_decide (colon = colon)) with true. cbv iota. rewrite <- ?app_assoc, value_ws by done.
    rewrite Hx; [|lia|lia|by apply delimited_ws]. cbn [mbind result_bind].
    rewrite skip_ws_app, skip_rbrace by done. done.
  - cbn [map]. rewrite separated_cons. unfold print_member at 1, quote. cbn [fst snd].
    rewrite <- ?app_assoc, skip_ws_app by done. cbn [app]. rewrite <- ?app_assoc, skip_dquote. cbn [app].
    change (bool_decide (dquote = dquote)) with true. cbv iota.
    rewrite unquote_quote by done. cbn [mbind result_bind]. rewrite skip_colon. cbv iota.
    change (bool_decide (colon = colon)) with true. cbv iota. rewrite <- ?app_assoc, value_ws by done. cbn [app].
    rewrite Hx; [|lia|lia|done]. cbn [mbind result_bind]. rewrite skip_comma. cbv iota.
    change (bool_decide (comma = comma)) with true. cbv iota.
    change (print_member lvl kv' :: map (print_member lvl) l) with (map (print_member lvl) (kv' :: l)).
    rewrite IH; [done|done|done|done|cbn [foldr]; lia|cbn [foldr]; lia].
Qed.

Lemma wf_elements l : foldr (fun x P => wf_json x /\ P) True l <-> Forall wf_json l.
Proof. induction l as [|x l IH]; cbn [foldr]; [by rewrite Forall_nil|]. by rewrite Forall_cons, IH. Qed.

Lemma wf_members (l : list (bytes * json)) :
  foldr (fun kv P => utf8_valid kv.1 = true /\ wf_json kv.2 /\ P) True l <->
  Forall (fun kv => utf8_valid kv.1 = true) l /\ Forall (fun kv => wf_json kv.2) l.
Proof. induction l as [|kv l IH]; cbn [foldr]; [rewrite !Forall_nil; tauto|]. rewrite !Forall_cons, IH. tauto. Qed.

(** The text of a nonempty list starts with its indentation. *)
Lemma value_array_ws n d w c r :
  0 < d -> all_ws w -> is_ws c = false -> c <> rbracket ->
  json_value (S n) d (lbracket :: w ++ c :: r) = ('(vs, rest) ← json_elements n (d - 1) (c :: r); Ok (JArr vs, rest)).
Proof.
  intros Hd Hw Hc Hr. rewrite <- (value_array n d c r) by done. cbn [json_value].
  change (skip_ws (lbracket :: w ++ c :: r)) with (lbracket :: w ++ c :: r).
  change (skip_ws (lbracket :: c :: r)) with (lbracket :: c :: r). cbv iota. by rewrite skip_ws_app.
Qed.

Lemma value_object_ws n d w c r :
  0 < d -> all_ws w -> is_ws c = false -> c <> rbrace ->
  json_value (S n) d (lbrace :: w ++ c :: r) = ('(kvs, rest) ← json_members n (d - 1) (c :: r); Ok (JObj kvs, rest)).
Proof.
  intros Hd Hw Hc Hr. rewrite <- (value_object n d c r) by done. cbn [json_value].
  change (skip_ws (lbrace :: w ++ c :: r)) with (lbrace :: w ++ c :: r).
  change (skip_ws (lbrace :: c :: r)) with (lbrace :: c :: r). cbv iota. by rewrite skip_ws_app.
Qed.

Lemma elements_ws n d w r : all_ws w -> json_elements n d (w ++ r) = json_elements n d r.
Proof. intros Hw. destruct n; [done|]. cbn [json_elements]. by rewrite value_ws. Qed.

Lemma members_ws n d w r : all_ws w -> json_members n d (w ++ r) = json_members n d r.
Proof. intros Hw. destruct n; [done|]. cbn [json_members]. by rewrite skip_ws_app. Qed.

Lemma separated_head pre x xs : separated pre (x :: xs) = pre ++ x ++ concat (map (fun y => comma :: pre ++ y) xs).
Proof. done. Qed.

Lemma depth_elements_pos (l : list json) : 0 <= foldr (fun x m => Z.max (json_depth x) m) 0 l.
Proof. induction l; cbn [foldr]; lia. Qed.
Lemma depth_members_pos (l : list (bytes * json)) : 0 <= foldr (fun kv m => Z.max (json_depth kv.2) m) 0 l.
Proof. induction l; cbn [foldr]; lia. Qed.

Lemma print_array lvl x l :
  print nl sp lvl (JArr (x :: l))
  = lbracket :: separated (nl (S lvl)) (map (print nl sp (S lvl)) (x :: l)) ++ nl lvl ++ [rbracket].
Proof. done. Qed.

Lemma print_object lvl kv l :
  print nl sp lvl (JObj (kv :: l))
  = lbrace :: separated (nl (S lvl)) (map (print_member (S lvl)) (kv :: l)) ++ nl lvl ++ [rbrace].
Proof. done. Qed.

Lemma wf_reads j : wf_json j -> reads j.
Proof using Hnl Hsp.
  induction j as [|b|lit|s|l IH|l IH] using json_nested_ind; intros Hwf lvl n d rest Hn Hd Hr;
    cbn [json_size] in Hn; (destruct n as [|n]; [lia|]).
  - reflexivity.
  - destruct b; reflexivity.
  - destruct Hwf as [(b & l & -> & Hb) _ Hrd]. cbn [print app]. rewrite value_number by done.
    rewrite app_comm_cons, Hrd by done. done.
  - cbn [print]. unfold quote. cbn [app]. rewrite <- app_assoc. cbn [app].
    change (json_value (S n) d (dquote :: quote_body (length s) s ++ dquote :: rest)) with
      ('(s, rest) ← unquote (length (quote_body (length s) s ++ dquote :: rest)) (quote_body (length s) s ++ dquote :: rest);
       Ok (JStr s, rest)).
    by rewrite unquote_quote.
  - cbn [json_depth wf_json] in *. pose proof (depth_elements_pos l). destruct l as [|x l].
    { cbn [print app]. cbn [json_value]. cbn. destruct (Z.leb_spec d 0); [cbn in *; lia|done]. }
    rewrite wf_elements in Hwf. rewrite print_array. cbn [app]. rewrite <- !app_assoc. cbn [app].
    assert (Forall reads (x :: l)) as HR.
    { rewrite Forall_forall in *. intros y Hy. apply IH; [done|by apply Hwf]. }
    pose proof (elements_print (S lvl) x l n (d - 1) (nl lvl) rest HR (Hnl _) ltac:(lia) ltac:(lia)) as HE.
    apply Forall_cons in Hwf as [Hx _]. destruct (print_head (S lvl) x Hx) as (b & r & Eb & Hb1 & Hb2 & _).
    cbn [map] in *. rewrite separated_head, Eb in *. rewrite <- !app_assoc in *. cbn [app] in *.
    rewrite value_array_ws by (done || lia). rewrite elements_ws in HE by done. by rewrite HE.
  - cbn [json_depth wf_json] in *. pose proof (depth_members_pos l). destruct l as [|kv l].
    { cbn [print app]. cbn [json_value]. cbn. destruct (Z.leb_spec d 0); [cbn in *; lia|done]. }
    rewrite wf_members in Hwf. destruct Hwf as [HU Hwf]. rewrite print_object. cbn [app]. rewrite <- !app_assoc. cbn [app].
    assert (Forall (fun kv => reads kv.2) (kv :: l)) as HR.
    { rewrite Forall_forall in *. intros y Hy. apply IH; [done|by apply Hwf]. }
    pose proof (members_print (S lvl) kv l n (d - 1) (nl lvl) rest HR HU (Hnl _) ltac:(lia) ltac:(lia)) as HE.
    cbn [map] in *. rewrite separated_head in *. unfold print_member, quote in *. cbn [app] in *.
    rewrite <- !app_assoc in *. cbn [app] in *.
    rewrite value_object_ws by (done || lia). rewrite members_ws in HE by done. by rewrite HE.
Qed.

Lemma quote_length s : (2 <= length (quote s))%nat.
Proof. unfold quote. cbn [length]. rewrite length_app. cbn [length]. lia. Qed.

Lemma separated_length {A} (f : A -> bytes) (g : A -> nat) pre l :
  Forall (fun x => g x <= 2 * length (f x))%nat l ->
  (foldr (fun x m => S (g x + m)) 0 l <= 2 * length (separated pre (map f l)) + 1)%nat.
Proof.
  destruct l as [|x l]; cbn [map separated foldr]; [cbn; lia|]. intros HF.
  apply Forall_cons in HF as [Hx HF]. rewrite !length_app.
  assert (foldr (fun x m => S (g x + m)) 0 l <= 2 * length (concat (map (fun y => comma :: pre ++ y) (map f l))))%nat; [|lia].
  clear -HF. induction HF as [|y l Hy _ IH]; cbn [map concat foldr]; [lia|].
  rewrite length_app. cbn [length]. rewrite length_app. lia.
Qed.

Lemma size_length lvl j : wf_json j -> (json_size j <= 2 * length (print nl sp lvl j))%nat.
Proof.
  revert lvl. induction j as [|b|lit|s|l IH|l IH] using json_nested_ind; intros lvl Hwf; cbn [json_size].
  - cbn. lia.
  - destruct b; cbn; lia.
  - destruct Hwf as [(b & l & -> & _) _ _]. cbn. lia.
  - cbn [print]. pose proof (quote_length s). lia.
  - destruct l as [|x l]; [cbn; lia|]. rewrite print_array. cbn [wf_json] in Hwf. rewrite wf_elements in Hwf.
    cbn [length]. rewrite !length_app. cbn [length].
    pose proof (separated_length (print nl sp (S lvl)) json_size (nl (S lvl)) (x :: l)) as HL. etrans; [apply le_n_S, HL|lia].
    rewrite Forall_forall in *. intros y Hy. apply IH; [done|by apply Hwf].
  - destruct l as [|kv l]; [cbn; lia|]. rewrite print_object. cbn [wf_json] in Hwf. rewrite wf_members in Hwf.
    destruct Hwf as [_ Hwf]. cbn [length]. rewrite !length_app. cbn [length].
    pose proof (separated_length (print_member (S lvl)) (fun kv => json_size kv.2) (nl (S lvl)) (kv :: l)) as HL.
    etrans; [apply le_n_S, HL|lia].
    rewrite Forall_forall in *. intros y Hy. unfold print_member. rewrite length_app. cbn [length]. rewrite length_app.
    specialize (IH _ Hy (S lvl) (Hwf _ Hy)). lia.
Qed.

Lemma skip_all_ws w : all_ws w -> skip_ws w = [].
Proof. intros Hw. rewrite <- (app_nil_r w), skip_ws_app by done. done. Qed.

Lemma parse_print j w : wf_json j -> json_depth j <= maxNestingDepth -> all_ws w -> parse (print nl sp 0 j ++ w) = Ok j.
Proof using Hnl Hsp.
  intros Hwf Hd Hw. unfold parse. rewrite length_app. pose proof (size_length 0 j Hwf).
  rewrite (wf_reads j Hwf) by (done || lia || by apply delimited_all_ws).
  cbn [mbind result_bind]. by rewrite skip_all_ws.
Qed.
End print.

(** ** UTF-8 of the written text *)

Inductive utf8 : bytes -> Prop :=
  | utf8_nil : utf8 []
  | utf8_rune w r : rune_width r = Some w -> utf8 (drop w r) -> utf8 r.

Lemma rune_width_bound s w : rune_width s = Some w -> (0 < w <= length s)%nat.
Proof. intros H. destruct (rune_width_app _ _ [] H) as (? & ? & _). done. Qed.

Lemma utf8_valid_iff r : utf8_valid r = true <-> utf8 r.
Proof.
  unfold utf8_valid. split.
  - generalize (length r) as n. intros n. revert r. induction n as [|n IH]; intros [|b r]; try (by constructor); [done|].
    cbn [utf8_valid_loop]. destruct (rune_width (b :: r)) as [w|] eqn:E; [|done]. intros H. eapply utf8_rune; [done|by apply IH].
  - intros H. assert (length r <= length r)%nat as Hl by done. revert Hl. generalize (length r) at 2 3 as n.
    intros n. revert n. induction H as [|w r E _ IH]; intros n Hn; [by destruct n|].
    destruct (rune_width_bound _ _ E) as [? ?]. destruct n as [|n]; [lia|]. destruct r as [|b r]; [done|].
    cbn [utf8_valid_loop]. rewrite E. apply IH. rewrite length_drop. lia.
Qed.

Lemma utf8_app r r' : utf8 r -> utf8 r' -> utf8 (r ++ r').
Proof.
  intros H H'. induction H as [|w r E _ IH]; [done|].
  destruct (rune_width_bound _ _ E) as [_ Hw]. eapply utf8_rune.
  - rewrite <- (take_drop w r), <- app_assoc. apply (rune_width_app _ _ _ E).
  - by rewrite drop_app_le.
Qed.

Lemma utf8_ascii r : Forall (fun b => b2z b < 0x80) r -> utf8 r.
Proof.
  induction 1 as [|b r Hb _ IH]; [constructor|]. apply (utf8_rune 1); [|done].
  unfold rune_width. by destruct (Z.ltb_spec (b2z b) 0x80); [|lia].
Qed.

Lemma utf8_take s w : rune_width s = Some w -> utf8 (take w s).
Proof.
  intros E. destruct (rune_width_app _ _ [] E) as (_ & Hw & E'). rewrite app_nil_r in E'.
  apply (utf8_rune w); [done|]. rewrite drop_ge; [constructor|]. rewrite length_take. lia.
Qed.

Lemma hex_digit_ascii n : 0 <= n < 16 -> b2z (hex_digit_byte n) < 0x80.
Proof. intros Hn. unfold hex_digit_byte. destruct (Z.ltb_spec n 10); rewrite b2z_small; lia. Qed.

Lemma u_escape_ascii z : 0 <= z < 65536 -> Forall (fun b => b2z b < 0x80) (u_escape z).
Proof. intros Hz. unfold u_escape. repeat constructor; try done; apply hex_digit_ascii; zlia. Qed.

Lemma escape_ascii_ascii b : b2z b < 0x80 -> Forall (fun b => b2z b < 0x80) (escape_ascii b).
Proof. intros H. destruct b; try (vm_compute in H; discriminate H); repeat constructor. Qed.

Lemma quote_body_utf8 n s : utf8 (quote_body n s).
Proof.
  revert s. induction n as [|n IH]; intros [|b s]; try constructor. cbn [quote_body].
  destruct (Z.ltb_spec (b2z b) 0x80); [apply utf8_app; [by apply utf8_ascii, escape_ascii_ascii|done]|].
  destruct (rune_width (b :: s)) as [w|] eqn:E; [|apply utf8_app; [apply utf8_ascii, u_escape_ascii; lia|done]].
  destruct (line_separator (b :: s)) as [z|] eqn:EL; apply utf8_app; try done; [|by apply utf8_take].
  apply utf8_ascii, u_escape_ascii. destruct (line_separator_take _ _ _ E EL) as [_ [[-> _]|[-> _]]]; lia.
Qed.

Lemma quote_utf8 s : utf8 (quote s).
Proof.
  unfold quote. apply (utf8_app [dquote]); [by apply utf8_ascii; repeat constructor|].
  apply utf8_app; [apply quote_body_utf8|by apply utf8_ascii; repeat constructor].
Qed.

Lemma utf8_cons_ascii b r : b2z b < 0x80 -> utf8 r -> utf8 (b :: r).
Proof. intros Hb Hr. apply (utf8_app [b]); [apply utf8_ascii; by repeat constructor|done]. Qed.

Lemma utf8_ws w : all_ws w -> utf8 w.
Proof.
  intros Hw. apply utf8_ascii. apply (Forall_impl _ _ _ Hw). intros b. unfold is_ws. intros Hb.
  apply orb_true_iff in Hb as [[[Hb|Hb]%orb_true_iff|Hb]%orb_true_iff|Hb]; apply Z.eqb_eq in Hb; lia.
Qed.

Lemma utf8_separated pre items : utf8 pre -> Forall utf8 items -> utf8 (separated pre items).
Proof.
  intros Hp HF. destruct HF as [|x xs Hx HF]; [constructor|]. cbn [separated].
  apply utf8_app; [done|]. apply utf8_app; [done|]. induction HF as [|y ys Hy _ IH]; [constructor|]. cbn [map concat].
  apply utf8_app; [|done]. apply utf8_cons_ascii; [done|]. by apply utf8_app.
Qed.

Lemma print_utf8 nl sp lvl j :
  (forall lvl, all_ws (nl lvl)) -> all_ws sp -> wf_json j -> utf8 (print nl sp lvl j).
Proof.
  intros Hnl Hsp. revert lvl. induction j as [|b|lit|s|l IH|l IH] using json_nested_ind; intros lvl Hwf.
  - by apply utf8_ascii; repeat constructor.
  - destruct b; by apply utf8_ascii; repeat constructor.
  - destruct Hwf as [_ Ha _]. by apply utf8_ascii.
  - apply quote_utf8.
  - destruct l as [|x l]; [by apply utf8_ascii; repeat constructor|]. rewrite print_array. cbn [wf_json] in Hwf.
    rewrite wf_elements in Hwf. apply utf8_cons_ascii; [done|]. apply utf8_app.
    + apply utf8_separated; [by apply utf8_ws|]. apply Forall_fmap, Forall_forall. rewrite Forall_forall in *.
      intros y Hy. by apply IH, Hwf.
    + apply utf8_app; [by apply utf8_ws|by apply utf8_ascii; repeat constructor].
  - destruct l as [|x l]; [by apply utf8_ascii; repeat constructor|]. rewrite print_object. cbn [wf_json] in Hwf.
    rewrite wf_members in Hwf. apply utf8_cons_ascii; [done|]. apply utf8_app.
    + apply utf8_separated; [by apply utf8_ws|]. apply Forall_fmap, Forall_forall. rewrite Forall_forall in *.
      destruct Hwf as [_ Hwf]. rewrite Forall_forall in Hwf. intros y Hy. unfold print_member.
      apply utf8_app; [apply quote_utf8|]. apply utf8_cons_ascii; [done|]. apply utf8_app; [by apply utf8_ws|].
      by apply IH, Hwf.
    + apply utf8_app; [by apply utf8_ws|by apply utf8_ascii; repeat constructor].
Qed.

(** ** The reader is total *)

Lemma prepend_inv xs r s rest : prepend xs r = Ok (s, rest) -> exists s', r = Ok (s', rest).
Proof. unfold prepend. destruct r as [[s' rest']|]; [|done]. intros [= <- <-]. by exists s'. Qed.

Lemma hex4_length r z r' : hex4 r = Some (z, r') -> (length r' < length r)%nat.
Proof.
  unfold hex4. destruct r as [|a [|b [|c [|d r]]]]; [done..|]. intros H.
  repeat (apply bind_Some in H as (? & _ & H)). injection H as _ <-. cbn. lia.
Qed.

Definition total (r : bytes) (res : result (bytes * bytes)) : Prop :=
  res <> Err out_of_fuel /\ forall s rest, res = Ok (s, rest) -> (length rest < length r)%nat.

Lemma total_prepend xs r r' res : (length r' < length r)%nat -> total r' res -> total r (prepend xs res).
Proof.
  intros Hl [H1 H2]. split.
  - destruct res as [[]|e]; [done|]. intros [= ->]. done.
  - intros s rest (s' & E)%prepend_inv. specialize (H2 _ _ E). lia.
Qed.

Lemma total_err r e : e <> out_of_fuel -> total r (Err e).
Proof. intros He. split; [congruence|done]. Qed.

Lemma unquote_total n r : (length r <= n)%nat -> total r (unquote n r).
Proof.
  revert r. induction n as [|n IH]; intros [|b r] Hl; cbn [length] in Hl; try (by apply total_err); [lia|].
  cbn [unquote]. case_match; [by split; [|intros ?? [= _ <-]; cbn; lia]|].
  assert (forall xs r', (length r' <= length r)%nat -> total (b :: r) (prepend xs (unquote n r'))) as Hstep'.
  { intros xs r' Hr'. apply (total_prepend _ _ r'); [cbn [length]; lia|apply IH; lia]. }
  case_match.
  - destruct r as [|e r]; [by apply total_err|]. cbn [length] in *. case_match.
    + destruct (hex4 r) as [[z r3]|] eqn:E3; [|by apply total_err]. apply hex4_length in E3.
      case_match; [|apply Hstep'; lia]. destruct r3 as [|b' [|e' r4]]; try (apply Hstep'; cbn [length] in *; lia).
      destruct (if _ && _ then hex4 r4 else None) as [[z' r5]|] eqn:E5; [|apply Hstep'; cbn [length] in *; lia].
      destruct ((b2z b' =? 92) && _); [|done]. apply hex4_length in E5.
      destruct (high_surrogate z && _); [|apply Hstep'; cbn [length] in *; lia]. apply Hstep'. cbn [length] in *. lia.
    + case_match; [apply Hstep'; lia|by apply total_err].
  - case_match; [by apply total_err|]. destruct (rune_width (b :: r)) as [w|] eqn:E; [|apply Hstep'; lia].
    destruct (rune_width_bound _ _ E) as [? ?]. apply Hstep'. rewrite length_drop. cbn [length]. lia.
Qed.

Lemma digits_length r ds rest : digits r = (ds, rest) -> length r = (length ds + length rest)%nat.
Proof.
  revert ds rest. induction r as [|b r IH]; cbn [digits]; intros ds rest; [by intros [= <- <-]|].
  destruct (is_digit b); [|by intros [= <- <-]]. destruct (digits r) as [ds' rest']. intros [= <- <-].
  cbn [length]. by rewrite (IH _ _ eq_refl).
Qed.

Lemma number_length r lit rest : number r = Ok (lit, rest) -> (length rest < length r)%nat.
Proof.
  unfold number. destruct (number_sign r) as [sg r1] eqn:E1.
  assert (length r1 <= length r)%nat as H1.
  { unfold number_sign in E1. destruct r as [|b r]; [by injection E1 as _ <-|]. destruct (b2z b =? 45); injection E1 as _ <-; cbn; lia. }
  destruct (number_int r1) as [[i r2]|] eqn:E2; [|done].
  assert (length r2 < length r1)%nat as H2.
  { unfold number_int in E2. destruct r1 as [|b r1]; [done|]. destruct (b2z b =? 48); [injection E2 as _ <-; cbn; lia|].
    destruct (is_digit b); [|done]. destruct (digits r1) as [ds r'] eqn:Ed. injection E2 as _ <-.
    apply digits_length in Ed. cbn [length]. lia. }
  destruct (number_frac r2) as [[f r3]|] eqn:E3; [|done].
  assert (length r3 <= length r2)%nat as H3.
  { unfold number_frac in E3. destruct r2 as [|b r2]; [by injection E3 as _ <-|]. destruct (b2z b =? 46); [|by injection E3 as _ <-].
    destruct (digits r2) as [[|x ds] r'] eqn:Ed; [done|]. injection E3 as _ <-. apply digits_length in Ed. cbn [length] in *. lia. }
  destruct (number_exp r3) as [[e r4]|] eqn:E4; [|done]. intros [= _ <-].
  assert (length r4 <= length r3)%nat; [|lia].
  unfold number_exp in E4. destruct r3 as [|b r3]; [by injection E4 as _ <-|].
  destruct (_ || _); [|by injection E4 as _ <-].
  destruct (match r3 with [] => _ | _ => _ end) as [s5 r5] eqn:E5.
  assert (length r5 <= length r3)%nat.
  { destruct r3 as [|c r3]; [by injection E5 as _ <-|]. destruct (_ || _) in E5; injection E5 as _ <-; cbn; lia. }
  destruct (digits r5) as [[|x ds] r'] eqn:Ed; [done|]. injection E4 as _ <-. apply digits_length in Ed. cbn [length] in *. lia.
Qed.

Lemma skip_ws_length r : (length (skip_ws r) <= length r)%nat.
Proof. induction r as [|b r IH]; cbn [skip_ws]; [done|]. destruct (is_ws b); cbn [length]; lia. Qed.

Lemma skip_ws_head r b r1 : skip_ws r = b :: r1 -> is_ws b = false.
Proof. induction r as [|c r IH]; cbn [skip_ws]; [done|]. destruct (is_ws c) eqn:E; [done|]. by intros [= <- _]. Qed.

Lemma skip_ws_idem r b r1 : skip_ws r = b :: r1 -> skip_ws (b :: r1) = b :: r1.
Proof. intros H. cbn [skip_ws]. by rewrite (skip_ws_head _ _ _ H). Qed.

Definition progress {A} (r : bytes) (res : result (A * bytes)) : Prop :=
  res <> Err out_of_fuel /\ forall v rest, res = Ok (v, rest) -> (length rest < length r)%nat.

Lemma progress_err {A} r e : e <> out_of_fuel -> progress r (Err e : result (A * bytes)).
Proof. intros He. split; [congruence|done]. Qed.
Lemma progress_ok {A} r (v : A) rest : (length rest < length r)%nat -> progress r (Ok (v, rest)).
Proof. intros Hl. split; [done|]. by intros ?? [= _ <-]. Qed.
Lemma progress_bind {A B} r r' (res : result (A * bytes)) (k : A * bytes -> result (B * bytes)) :
  progress r' res -> (forall v rest, (length rest < length r')%nat -> progress r (k (v, rest))) -> progress r (res ≫= k).
Proof.
  intros [H1 H2] Hk. destruct res as [[v rest]|e]; [by apply Hk, (H2 v)|]. apply progress_err. congruence.
Qed.

Lemma expect_prefix_progress p j b r : p <> [] -> progress (b :: r) (expect_prefix p j (b :: r)).
Proof.
  intros Hp. unfold expect_prefix. case_decide as E; [|by apply progress_err]. apply progress_ok. rewrite length_drop.
  destruct p; [done|]. cbn [length]. lia.
Qed.

Lemma unquote_progress r r' : (length r <= length r')%nat -> progress (A:=bytes) r' (unquote (length r) r).
Proof. intros Hl. destruct (unquote_total (length r) r) as [H1 H2]; [done|]. split; [done|]. intros v rest E. specialize (H2 _ _ E). lia. Qed.

Lemma progress_weaken {A} r r' (res : result (A * bytes)) : (length r <= length r')%nat -> progress r res -> progress r' res.
Proof. intros Hl [H1 H2]. split; [done|]. intros v rest E. specialize (H2 _ _ E). lia. Qed.

Lemma reader_progress n :
  (forall d r, (2 * length r + 1 <= n)%nat -> progress r (json_value n d r)) /\
  (forall d r, (2 * length r + 2 <= n)%nat -> progress r (json_elements n d r)) /\
  (forall d r, (2 * length r + 2 <= n)%nat -> progress r (json_members n d r)).
Proof.
  induction n as [|n (IHv & IHe & IHm)]; [split; [|split]; intros; lia|].
  split; [|split]; intros d r Hn.
  - cbn [json_value]. pose proof (skip_ws_length r) as Hs. destruct (skip_ws r) as [|b r1]; [by apply progress_err|].
    apply (progress_weaken (b :: r1)); [done|]. cbn [length] in Hs. pose proof (skip_ws_length r1) as Hs1.
    case_bool_decide; [|case_bool_decide; [|case_bool_decide]].
    + destruct (d <=? 0); [by apply progress_err|]. cbn [fail_if mbind result_bind].
      destruct (skip_ws r1) as [|c r2]; [by apply progress_err|]. cbn [length] in Hs1.
      case_bool_decide; [apply progress_ok; cbn [length]; lia|].
      apply (progress_bind _ (c :: r2)); [apply IHm; cbn [length]; lia|]. intros v rest Hr.
      apply progress_ok. cbn [length] in *. lia.
    + destruct (d <=? 0); [by apply progress_err|]. cbn [fail_if mbind result_bind].
      destruct (skip_ws r1) as [|c r2]; [by apply progress_err|]. cbn [length] in Hs1.
      case_bool_decide; [apply progress_ok; cbn [length]; lia|].
      apply (progress_bind _ (c :: r2)); [apply IHe; cbn [length]; lia|]. intros v rest Hr.
      apply progress_ok. cbn [length] in *. lia.
    + apply (progress_bind _ (b :: r1)); [apply unquote_progress; cbn [length]; lia|].
      intros v rest Hr. by apply progress_ok.
    + repeat (case_match; [by apply expect_prefix_progress|]). case_match; [|by apply progress_err].
      destruct (number (b :: r1)) as [[lit rest]|e] eqn:E; cbn [mbind result_bind].
      * apply progress_ok. by apply number_length in E.
      * apply progress_err. intros ->. unfold number in E. repeat (case_match; try done).
  - cbn [json_elements]. apply (progress_bind _ r); [apply IHv; lia|]. intros v r1 H1.
    pose proof (skip_ws_length r1) as Hs. destruct (skip_ws r1) as [|c r2]; [by apply progress_err|]. cbn [length] in Hs.
    case_bool_decide; [|case_bool_decide; [apply progress_ok; lia|by apply progress_err]].
    apply (progress_bind _ r2); [apply IHe; lia|]. intros vs rest Hr. apply progress_ok. lia.
  - cbn [json_members]. pose proof (skip_ws_length r) as Hs. destruct (skip_ws r) as [|b r1]; [by apply progress_err|].
    cbn [length] in Hs. case_bool_decide; [|by apply progress_err].
    apply (progress_bind _ r1); [by apply unquote_progress|]. intros k r2 H2. pose proof (skip_ws_length r2) as Hs2.
    destruct (skip_ws r2) as [|c r3]; [by apply progress_err|]. cbn [length] in Hs2. case_bool_decide; [|by apply progress_err].
    apply (progress_bind _ r3); [apply IHv; lia|]. intros v r4 H4. pose proof (skip_ws_length r4) as Hs4.
    destruct (skip_ws r4) as [|c' r5]; [by apply progress_err|]. cbn [length] in Hs4.
    case_bool_decide; [|case_bool_decide; [apply progress_ok; lia|by apply progress_err]].
    apply (progress_bind _ r5); [apply IHm; lia|]. intros kvs rest Hr. apply progress_ok. lia.
Qed.

(** The fuel of [parse] is enough. *)
Lemma parse_fuel raw : parse raw <> Err out_of_fuel.
Proof.
  unfold parse. destruct (proj1 (reader_progress (2 * length raw + 2)) maxNestingDepth raw ltac:(lia)) as [H _].
  destruct (json_value _ _ raw) as [[j rest]|e]; cbn [mbind result_bind]; [|congruence].
  by destruct (skip_ws rest).
Qed.

(** ** Reading what was written *)

Lemma all_ws_indent lvl : all_ws (z2b 10 :: replicate (2 * lvl) (z2b 32)).
Proof. constructor; [done|]. apply Forall_replicate. done. Qed.

Lemma decode_marshal {A} j (dec : decoder A) zero :
  wf_json j -> json_depth j <= maxNestingDepth -> decodeJSON dec zero (marshal j) = dec j zero.
Proof.
  intros Hwf Hd. unfold decodeJSON, marshal. rewrite <- (app_nil_r (print _ _ _ _)).
  rewrite parse_print; [done| |constructor|done|done|constructor]. intros _. constructor.
Qed.

(** ** Go values *)

Lemma dec_enc_string s cur : dec_string (enc_string s) cur = Ok s.
Proof. unfold dec_string, enc_string, ascii_bytes. by rewrite String.string_of_list_byte_of_string. Qed.

Lemma dec_enc_uint bits z cur : 0 <= z < 2 ^ bits -> dec_uint bits (enc_uint z) cur = Ok z.
Proof. apply parse_print_uint. Qed.

Lemma dec_enc_int bits z cur : - 2 ^ (bits - 1) <= z < 2 ^ (bits - 1) -> 0 < bits -> dec_int bits (enc_int z) cur = Ok z.
Proof. apply parse_print_int. Qed.

Definition utf8_string (s : string) : Prop := utf8_valid (ascii_bytes s) = true.

(** Lists of values, each decoded from its own encoding. *)
Lemma dec_enc_elements {A} (dec : decoder A) (enc : A -> json) zero l :
  Forall (fun x => dec (enc x) zero = Ok x) l -> dec_elements dec zero (map enc l) [] = Ok l.
Proof. induction 1 as [|x l Hx _ IH]; [done|]. cbn [map dec_elements head tail default from_option]. rewrite Hx. cbn [mbind result_bind]. by rewrite IH. Qed.

Lemma dec_enc_entries {A} (dec : decoder A) (enc : A -> json) zero (l : list (string * A)) m :
  Forall (fun kv => dec (enc kv.2) zero = Ok kv.2) l ->
  dec_entries dec zero (map (fun kv => (ascii_bytes kv.1, enc kv.2)) l) m = Ok (foldl (fun m kv => <[kv.1 := kv.2]> m) m l).
Proof.
  intros H. revert m. induction H as [|[k x] l Hx _ IH]; intros m; [done|]. cbn [map dec_entries fst snd foldl] in *.
  rewrite Hx. cbn [mbind result_bind]. unfold ascii_bytes at 1. by rewrite String.string_of_list_byte_of_string, IH.
Qed.

Lemma foldl_insert_lookup {A} (l : list (string * A)) (m : gmap string A) k x :
  NoDup l.*1 -> foldl (fun m kv => <[kv.1 := kv.2]> m) m l !! k = Some x <->
  (k, x) ∈ l \/ ((k ∉ l.*1) /\ m !! k = Some x).
Proof.
  revert m. induction l as [|[k' x'] l IH]; intros m HN; cbn [foldl fmap list_fmap fst snd] in *.
  { split; [intros ?; right; split; [apply not_elem_of_nil|done]|]. intros [?%not_elem_of_nil|[_ ?]]; done. }
  apply NoDup_cons in HN as [Hn HN]. rewrite IH, elem_of_cons by done. destruct (decide (k = k')) as [->|Hk].
  - rewrite lookup_insert_eq. split.
    + intros [H|[_ [= <-]]]; [exfalso; apply Hn, list_elem_of_fmap; by exists (k', x)|by left; left].
    + intros [[[= <-]|H]|[H _]]; [by right|by left|]. exfalso. apply H. by left.
  - rewrite lookup_insert_ne, not_elem_of_cons by done. split.
    + intros [H|[H1 H2]]; [by left; right|by right].
    + intros [[[= ? _]|H]|[[_ H1] H2]]; [done|by left|by right].
Qed.

Lemma foldl_insert_perm {A} (l : list (string * A)) (m : gmap string A) :
  l ≡ₚ map_to_list m -> foldl (fun m kv => <[kv.1 := kv.2]> m) ∅ l = m.
Proof.
  intros HP. apply map_eq. intros k. apply option_eq. intros x. rewrite foldl_insert_lookup.
  - rewrite HP, elem_of_map_to_list. split; [|by left]. intros [?|[_ ?%lookup_empty_Some]]; done.
  - rewrite HP. apply NoDup_fst_map_to_list.
Qed.

(** ** Strings that were read are UTF-8 *)

Lemma in_range_true lo hi z : lo <= z <= hi -> 0 <= z < 256 -> in_range lo hi (z2b z) = true.
Proof. intros H Hz. unfold in_range. rewrite b2z_small by done. apply andb_true_iff. rewrite !Z.leb_le. lia. Qed.
Lemma in_range_false lo hi z : z < lo \/ hi < z -> 0 <= z < 256 -> in_range lo hi (z2b z) = false.
Proof. intros H Hz. unfold in_range. rewrite b2z_small by done. apply andb_false_iff. rewrite !Z.leb_gt. lia. Qed.
Lemma continuation_true z : continuation (z2b (0x80 + z mod 64)) = true.
Proof. apply in_range_true; zlia. Qed.
Lemma not_ascii z : 0x80 <= z < 256 -> (b2z (z2b z) <? 0x80) = false.
Proof. intros Hz. rewrite b2z_small by lia. apply Z.ltb_ge. lia. Qed.

Lemma encode_width_2 z : 0x80 <= z < 0x800 -> rune_width [z2b (0xC0 + z / 64); z2b (0x80 + z mod 64)] = Some 2%nat.
Proof.
  intros Hz. unfold rune_width. rewrite not_ascii by zlia. rewrite (in_range_true 0xC2) by zlia. by rewrite continuation_true.
Qed.

Lemma encode_width_3 z :
  0x800 <= z < 0xD800 \/ 0xE000 <= z < 0x10000 ->
  rune_width [z2b (0xE0 + z / 4096); z2b (0x80 + z / 64 mod 64); z2b (0x80 + z mod 64)] = Some 3%nat.
Proof.
  intros Hz. unfold rune_width. rewrite not_ascii by zlia. rewrite (in_range_false 0xC2) by zlia. cbn [andb].
  rewrite !continuation_true. cbn [andb].
  destruct (decide (z < 0x1000)); [|destruct (decide (0xD000 <= z < 0xD800))].
  - rewrite (in_range_true 0xE0), (in_range_true 0xA0) by zlia. done.
  - rewrite (in_range_true 0xED), (in_range_true 0x80) by zlia. cbn [andb]. by rewrite orb_true_r.
  - destruct (decide (z < 0xD000)).
    + rewrite (in_range_true 0xE1) by zlia. cbn [orb andb]. by rewrite orb_true_r.
    + rewrite (in_range_true 0xEE) by zlia. rewrite orb_true_r. cbn [orb andb]. by rewrite orb_true_r.
Qed.

Lemma encode_width_4 z :
  0x10000 <= z < 0x110000 ->
  rune_width [z2b (0xF0 + z / 262144); z2b (0x80 + z / 4096 mod 64); z2b (0x80 + z / 64 mod 64); z2b (0x80 + z mod 64)]
  = Some 4%nat.
Proof.
  intros Hz. unfold rune_width. rewrite not_ascii by zlia. rewrite (in_range_false 0xC2) by zlia. cbn [andb].
  rewrite !continuation_true. cbn [andb].
  rewrite (in_range_false 0xE0), (in_range_false 0xE1), (in_range_false 0xEE), (in_range_false 0xED) by zlia. cbn [andb orb].
  destruct (decide (z < 0x40000)); [|destruct (decide (0x100000 <= z))].
  - rewrite (in_range_true 0xF0), (in_range_true 0x90) by zlia. done.
  - rewrite (in_range_true 0xF4), (in_range_true 0x80 0x8F) by zlia. cbn [andb]. by rewrite !orb_true_r.
  - rewrite (in_range_true 0xF1) by zlia. cbn [orb andb]. by rewrite orb_true_r.
Qed.

Lemma utf8_encode_utf8 z : 0 <= z < 0xD800 \/ 0xE000 <= z < 0x110000 -> utf8 (utf8_encode z).
Proof.
  intros Hz. apply (utf8_rune (length (utf8_encode z))); [|rewrite drop_all; constructor]. unfold utf8_encode.
  destruct (Z.ltb_spec z 0x80); [|destruct (Z.ltb_spec z 0x800); [|destruct (Z.ltb_spec z 0x10000)]]; cbn [length].
  - unfold rune_width. rewrite b2z_small by lia. by destruct (Z.ltb_spec z 0x80); [|lia].
  - apply encode_width_2. lia.
  - apply encode_width_3. lia.
  - apply encode_width_4. lia.
Qed.

Lemma hex_byte_value_range b z : hex_byte_value b = Some z -> 0 <= z < 16.
Proof.
  unfold hex_byte_value, in_range. intros H.
  repeat match type of H with context [(?a <=? ?b)] => destruct (Z.leb_spec a b); cbn [andb] in H end;
    try done; injection H as <-; lia.
Qed.

Lemma hex4_range r z r' : hex4 r = Some (z, r') -> 0 <= z < 65536.
Proof.
  unfold hex4. destruct r as [|a [|b [|c [|d r]]]]; [done..|]. intros H.
  apply bind_Some in H as (a' & Ha%hex_byte_value_range & H). apply bind_Some in H as (b' & Hb%hex_byte_value_range & H).
  apply bind_Some in H as (c' & Hc%hex_byte_value_range & H). apply bind_Some in H as (d' & Hd%hex_byte_value_range & H).
  injection H as <- _. lia.
Qed.

Lemma surrogate_split z : high_surrogate z || low_surrogate z = false -> 0 <= z < 65536 -> 0 <= z < 0xD800 \/ 0xE000 <= z < 0x110000.
Proof.
  unfold high_surrogate, low_surrogate. intros H Hz.
  destruct (Z.leb_spec 0xD800 z), (Z.ltb_spec z 0xDC00), (Z.leb_spec 0xDC00 z), (Z.ltb_spec z 0xE000); cbn in H; try done; lia.
Qed.

Lemma replacement_utf8 : utf8 replacement.
Proof. apply utf8_encode_utf8. lia. Qed.

Lemma short_unescape_range e c : short_unescape e = Some c -> 0 <= c < 0x80.
Proof.
  unfold short_unescape. destruct (e =? 47); [intros [= <-]; lia|]. cbn [short_escapes List.find fst snd].
  repeat (case_match; [intros [= <-]; cbn; lia|]). done.
Qed.

Lemma unquote_utf8 n r s rest : unquote n r = Ok (s, rest) -> utf8 s.
Proof.
  revert r s rest. induction n as [|n IH]; intros [|b r] s rest; cbn [unquote]; try done.
  assert (forall xs r', utf8 xs -> prepend xs (unquote n r') = Ok (s, rest) -> utf8 s) as Hstep.
  { intros xs r' Hx E. unfold prepend in E. destruct (unquote n r') as [[s' rest']|] eqn:Eu; [|done].
    injection E as <- _. apply utf8_app; [done|by eapply IH]. }
  destruct (b2z b =? 34); [intros [= <- _]; constructor|]. destruct (b2z b =? 92).
  - destruct r as [|e r]; [done|]. destruct (b2z e =? 117).
    + destruct (hex4 r) as [[z r3]|] eqn:E3; [|done]. apply hex4_range in E3.
      destruct (high_surrogate z || low_surrogate z) eqn:Es; [|by apply Hstep, utf8_encode_utf8, surrogate_split].
      destruct r3 as [|b' [|e' r4]]; try (apply Hstep, replacement_utf8).
      destruct (if _ && _ then hex4 r4 else None) as [[z' r5]|]; [|apply Hstep, replacement_utf8].
      destruct (high_surrogate z && low_surrogate z') eqn:Ep; [|apply Hstep, replacement_utf8].
      apply Hstep, utf8_encode_utf8. unfold high_surrogate, low_surrogate in Ep. bool_prop. lia.
    + destruct (short_unescape (b2z e)) as [c|] eqn:Ee; [|done]. apply Hstep, utf8_ascii.
      apply short_unescape_range in Ee. repeat constructor. rewrite b2z_small; lia.
  - destruct (b2z b <? 32); [done|]. destruct (rune_width (b :: r)) as [w|] eqn:E; [|apply Hstep, replacement_utf8].
    by apply Hstep, utf8_take.
Qed.

(** All strings and keys of a value. *)
Fixpoint utf8_strings (j : json) : Prop :=
  match j with
  | JStr s => utf8_valid s = true
  | JArr l => foldr (fun x P => utf8_strings x /\ P) True l
  | JObj l => foldr (fun kv P => utf8_valid kv.1 = true /\ utf8_strings kv.2 /\ P) True l
  | _ => True
  end.

Lemma reader_utf8 n :
  (forall d r j rest, json_value n d r = Ok (j, rest) -> utf8_strings j) /\
  (forall d r l rest, json_elements n d r = Ok (l, rest) -> utf8_strings (JArr l)) /\
  (forall d r l rest, json_members n d r = Ok (l, rest) -> utf8_strings (JObj l)).
Proof.
  induction n as [|n (IHv & IHe & IHm)]; [done|]. split; [|split]; intros d r j rest.
  - cbn [json_value]. destruct (skip_ws r) as [|b r1]; [done|]. case_bool_decide; [|case_bool_decide; [|case_bool_decide]].
    + destruct (d <=? 0); [done|]. cbn [fail_if mbind result_bind]. destruct (skip_ws r1) as [|c r2]; [done|].
      case_bool_decide; [by intros [= <- _]|]. intros ([l r'] & E & [= <- _])%bind_Ok. by eapply IHm.
    + destruct (d <=? 0); [done|]. cbn [fail_if mbind result_bind]. destruct (skip_ws r1) as [|c r2]; [done|].
      case_bool_decide; [by intros [= <- _]|]. intros ([l r'] & E & [= <- _])%bind_Ok. by eapply IHe.
    + intros ([s r'] & E%unquote_utf8 & [= <- _])%bind_Ok. by apply utf8_valid_iff.
    + unfold expect_prefix. repeat (case_match; try (by intros [= <- _])).
      intros ([s r'] & _ & [= <- _])%bind_Ok. done.
  - cbn [json_elements]. intros ([v r1] & E & H)%bind_Ok. apply IHv in E. destruct (skip_ws r1) as [|c r2]; [done|].
    case_bool_decide; [|case_bool_decide; [|done]].
    + apply bind_Ok in H as ([l r'] & Hl & [= <- _]). apply IHe in Hl. done.
    + injection H as <- _. done.
  - cbn [json_members]. destruct (skip_ws r) as [|b r1]; [done|]. case_bool_decide; [|done].
    intros ([k r2] & Ek%unquote_utf8 & HK)%bind_Ok. apply utf8_valid_iff in Ek.
    destruct (skip_ws r2) as [|c r3]; [done|]. case_bool_decide; [|done].
    apply bind_Ok in HK as ([v r4] & Hv%IHv & HK). destruct (skip_ws r4) as [|c' r5]; [done|].
    case_bool_decide; [|case_bool_decide; [|done]].
    + apply bind_Ok in HK as ([l r'] & Hl & [= <- _]). apply IHm in Hl. done.
    + injection HK as <- _. done.
Qed.

Lemma parse_utf8 raw j : parse raw = Ok j -> utf8_strings j.
Proof.
  unfold parse. intros ([j' rest] & E & H)%bind_Ok. apply reader_utf8 in E. apply bind_Ok in H as (? & _ & [= <-]). done.
Qed.

(** ** Structs and maps *)

Lemma wf_enc_struct fs :
  wf_json (enc_struct fs) <-> Forall (fun kv => utf8_string kv.1) fs /\ Forall (fun kv => wf_json kv.2) fs.
Proof. unfold enc_struct. cbn [wf_json]. rewrite wf_members, !Forall_fmap. done. Qed.

Lemma enc_string_wf s : utf8_string s -> wf_json (enc_string s).
Proof. done. Qed.
Lemma enc_uint_wf z : wf_json (enc_uint z).
Proof. apply print_uint_wf. Qed.
Lemma enc_int_wf z : wf_json (enc_int z).
Proof. apply print_int_wf. Qed.

Lemma wf_enc_slice {A} (enc : A -> json) l : wf_json (enc_slice enc l) <-> Forall (fun x => wf_json (enc x)) l.
Proof. unfold enc_slice. cbn [wf_json]. by rewrite wf_elements, Forall_fmap. Qed.

Lemma sorted_entries {A} (m : gmap string A) : merge_sort key_le (map_to_list m) ≡ₚ map_to_list m.
Proof. apply merge_sort_Permutation. Qed.

Lemma wf_enc_map {A} (enc : A -> json) (m : gmap string A) :
  (forall k x, m !! k = Some x -> utf8_string k /\ wf_json (enc x)) -> wf_json (enc_map enc m).
Proof.
  intros H. unfold enc_map. rewrite wf_enc_struct, !Forall_fmap, sorted_entries, !Forall_forall.
  split; intros [k x] Hin%elem_of_map_to_list; cbn; by destruct (H _ _ Hin).
Qed.

Lemma ascii_bytes_inj a b : ascii_bytes a = ascii_bytes b -> a = b.
Proof.
  unfold ascii_bytes. intros H. apply (f_equal String.string_of_list_byte) in H.
  by rewrite !String.string_of_list_byte_of_string in H.
Qed.

#[export] Instance ascii_bytes_Inj : Inj (=) (=) ascii_bytes.
Proof. intros ??. apply ascii_bytes_inj. Qed.

Lemma dec_enc_map {A} (dec : decoder A) (enc : A -> json) zero (m : gmap string A) cur :
  default ∅ cur = (∅ : gmap string A) -> (forall k x, m !! k = Some x -> dec (enc x) zero = Ok x) ->
  dec_map dec zero (enc_map enc m) cur = Ok (Some m).
Proof.
  intros Hc H. unfold dec_map, enc_map, enc_struct. rewrite Hc.
  assert (map (fun kv : string * json => (ascii_bytes kv.1, kv.2)) (map (fun kv => (kv.1, enc kv.2)) (merge_sort key_le (map_to_list m)))
          = map (fun kv => (ascii_bytes kv.1, enc kv.2)) (merge_sort key_le (map_to_list m))) as ->.
  { rewrite List.map_map. done. }
  rewrite dec_enc_entries.
  - by rewrite (foldl_insert_perm _ m) by apply sorted_entries.
  - rewrite sorted_entries, Forall_forall. intros [k x] Hin%elem_of_map_to_list. by apply (H k).
Qed.

Lemma depth_struct fs n : 0 <= n -> Forall (fun kv => json_depth kv.2 <= n) fs -> json_depth (enc_struct fs) <= 1 + n.
Proof.
  intros Hn HF. unfold enc_struct. cbn [json_depth].
  assert (foldr (fun kv m => Z.max (json_depth kv.2) m) 0 (map (fun kv : string * json => (ascii_bytes kv.1, kv.2)) fs) <= n); [|lia].
  induction HF as [|kv fs Hkv _ IH]; cbn [map foldr fst snd]; lia.
Qed.

Lemma depth_slice {A} (enc : A -> json) l n : 0 <= n -> Forall (fun x => json_depth (enc x) <= n) l -> json_depth (enc_slice enc l) <= 1 + n.
Proof.
  intros Hn HF. unfold enc_slice. cbn [json_depth].
  assert (foldr (fun x m => Z.max (json_depth x) m) 0 (map enc l) <= n); [|lia].
  induction HF as [|x l Hx _ IH]; cbn [map foldr]; lia.
Qed.

Lemma depth_map {A} (enc : A -> json) (m : gmap string A) n :
  0 <= n -> (forall k x, m !! k = Some x -> json_depth (enc x) <= n) -> json_depth (enc_map enc m) <= 1 + n.
Proof.
  intros Hn H. unfold enc_map. apply depth_struct; [done|].
  rewrite Forall_fmap, sorted_entries, Forall_forall. intros [k x] Hin%elem_of_map_to_list. by apply (H k).
Qed.

(** ** Decoding the fields of a struct *)

Lemma find_exact {A} (fs : list (field A)) i name f :
  NoDup fs.*1 -> fs !! i = Some (name, f) -> find_field (ascii_bytes name) fs = Some f.
Proof.
  intros HN Hi. unfold find_field.
  assert (List.find (fun g => bool_decide (ascii_bytes g.1 = ascii_bytes name)) fs = Some (name, f)) as ->; [|done].
  revert i Hi. induction fs as [|[n g] fs IH]; intros i Hi; [done|]. cbn [List.find fst]. apply NoDup_cons in HN as [Hn HN].
  destruct i as [|i]; cbn in Hi.
  - injection Hi as -> ->. by rewrite bool_decide_eq_true_2.
  - rewrite bool_decide_eq_false_2; [by eapply IH|]. intros ->%ascii_bytes_inj. apply Hn.
    apply list_elem_of_lookup_2 in Hi. apply list_elem_of_fmap. by exists (name, f).
Qed.

Lemma dec_fields_step {A B} (fs : list (field A)) i name (dec : decoder B) get set j x l cur :
  bool_decide (NoDup fs.*1) = true -> fs !! i = Some (on_field name dec get set) -> dec j (get cur) = Ok x ->
  dec_fields fs ((ascii_bytes name, j) :: l) cur = dec_fields fs l (set x cur).
Proof.
  intros HN Hi Hf. cbn [dec_fields]. unfold on_field in Hi.
  rewrite (find_exact _ i name _ ltac:(by apply bool_decide_eq_true in HN) Hi). by rewrite Hf.
Qed.

(** [next_field i]: the head of the object is field [i]; leaves its decoding. *)
Ltac next_field i :=
  erewrite (dec_fields_step _ i); [|vm_compute; reflexivity|reflexivity|].

(** ** What decoded values satisfy *)

Lemma parse_uint_range bits lit z : parse_uint bits lit = Ok z -> 0 <= z < 2 ^ bits.
Proof.
  unfold parse_uint. destruct lit as [|b lit]; [by destruct (bytes_uint [])|]. destruct (bytes_uint _) as [d|]; [|done].
  intros (u & H%fail_if_Ok & [= <-])%bind_Ok. apply Z.leb_gt in H. lia.
Qed.

Lemma parse_int_range bits lit z : parse_int bits lit = Ok z -> - 2 ^ (bits - 1) <= z < 2 ^ (bits - 1) \/ z = 0.
Proof.
  unfold parse_int. destruct lit as [|b lit]; [done|]. destruct (b2z b =? 45); intros (n & Hn%parse_uint_range & E)%bind_Ok;
    apply bind_Ok in E as (u & H%fail_if_Ok & [= <-]); [apply Z.ltb_ge in H|apply Z.leb_gt in H]; lia.
Qed.

Lemma find_field_elem {A} k (fs : list (field A)) f : find_field k fs = Some f -> exists name, (name, f) ∈ fs.
Proof.
  unfold find_field. destruct (List.find (fun f => bool_decide (ascii_bytes f.1 = k)) fs) as [[n g]|] eqn:E1.
  - intros [= <-]. apply List.find_some in E1 as [E1 _]. exists n. by apply list_elem_of_In.
  - destruct (List.find (fun f => bool_decide (foldName (ascii_bytes f.1) = foldName k)) fs) as [[n g]|] eqn:E2; [|done].
    intros [= <-]. apply List.find_some in E2 as [E2 _]. exists n. by apply list_elem_of_In.
Qed.

(** A property of the decoded struct that every field decoder preserves. *)
Lemma dec_struct_inv {A} (P : A -> Prop) (fs : list (field A)) j zero a :
  Forall (fun f => forall j cur cur', utf8_strings j -> P cur -> f.2 j cur = Ok cur' -> P cur') fs ->
  utf8_strings j -> P zero -> dec_struct fs j zero = Ok a -> P a.
Proof.
  intros HF Hj H0. unfold dec_struct. destruct j as [| | | | |l]; try done; [by intros [= <-]|].
  revert zero H0 Hj. induction l as [|[k j] l IH]; intros cur Hc Hj; cbn [dec_fields]; [by intros [= <-]|].
  cbn [utf8_strings foldr fst snd] in Hj. destruct Hj as (_ & Hj & Hl).
  destruct (find_field k fs) as [f|] eqn:Ef; [|done]. intros (cur' & E & Hr)%bind_Ok.
  apply find_field_elem in Ef as [name Hin].
  rewrite Forall_forall in HF. eapply IH; [by eapply (HF _ Hin)|done|done].
Qed.

Lemma on_field_inv {A B} (P : A -> Prop) (Q : B -> Prop) name (dec : decoder B) get set :
  (forall j cur x, utf8_strings j -> Q cur -> dec j cur = Ok x -> Q x) ->
  (forall a, P a -> Q (get a)) -> (forall x a, P a -> Q x -> P (set x a)) ->
  forall j cur cur', utf8_strings j -> P cur -> (on_field name dec get set).2 j cur = Ok cur' -> P cur'.
Proof.
  intros HD HG HS j cur cur' Hj Hc. unfold on_field. cbn [snd]. intros (x & Hx & [= <-])%bind_Ok.
  apply HS; [done|]. eapply HD; [done|by apply HG|done].
Qed.

Lemma dec_string_utf8 j cur x : utf8_strings j -> utf8_string cur -> dec_string j cur = Ok x -> utf8_string x.
Proof.
  unfold dec_string, utf8_string, ascii_bytes. destruct j; try done; cbn [utf8_strings]; intros Hj Hc [= <-]; [done|].
  by rewrite String.list_byte_of_string_of_list_byte.
Qed.

Lemma dec_uint_range bits j cur x :
  utf8_strings j -> 0 <= cur < 2 ^ bits -> dec_uint bits j cur = Ok x -> 0 <= x < 2 ^ bits.
Proof. intros _ Hc. unfold dec_uint. destruct j; try done; [by intros [= <-]|]. apply parse_uint_range. Qed.

(** The entries of a decoded map satisfy what the decoded values do. *)
Lemma dec_map_inv {A} (Q : A -> Prop) (dec : decoder A) zero :
  (forall j x, utf8_strings j -> dec j zero = Ok x -> Q x) ->
  forall j cur m, utf8_strings j -> map_Forall (fun _ => Q) (default ∅ cur) -> dec_map dec zero j cur = Ok m ->
  map_Forall (fun _ => Q) (default ∅ m).
Proof.
  intros HD j cur m Hj Hc. destruct j as [| | | | |l]; try done; cbn [dec_map].
  { intros [= <-]. apply map_Forall_empty. }
  generalize dependent (default ∅ cur). clear cur. induction l as [|[k j] l IH]; intros m0 Hm; cbn [dec_entries].
  { by intros [= <-]. }
  cbn [utf8_strings foldr fst snd] in Hj. destruct Hj as (_ & Hj & Hl).
  destruct (dec j zero) as [x|e] eqn:Ex; cbn [mbind result_bind]; [|done].
  apply IH; [done|]. apply map_Forall_insert_2; [by eapply HD|done].
Qed.

(** Decoders do not run out of fuel either. *)
Lemma dec_struct_fuel {A} (fs : list (field A)) j cur :
  Forall (fun f => forall j cur, f.2 j cur <> Err out_of_fuel) fs -> dec_struct fs j cur <> Err out_of_fuel.
Proof.
  intros HF. unfold dec_struct. destruct j as [| | | | |l]; try done. revert cur.
  induction l as [|[k j] l IH]; intros cur; cbn [dec_fields]; [done|]. destruct (find_field k fs) as [f|] eqn:Ef; [|done].
  apply find_field_elem in Ef as [name Hin]. rewrite Forall_forall in HF. specialize (HF _ Hin j cur). cbn [snd] in HF.
  destruct (f j cur) as [cur'|e]; cbn [mbind result_bind]; [apply IH|congruence].
Qed.

Lemma on_field_fuel {A B} name (dec : decoder B) (get : A -> B) set :
  (forall j cur, dec j cur <> Err out_of_fuel) -> forall j cur, (on_field name dec get set).2 j cur <> Err out_of_fuel.
Proof.
  intros HD j cur. unfold on_field. cbn [snd]. specialize (HD j (get cur)).
  destruct (dec j (get cur)); cbn [mbind result_bind]; congruence.
Qed.

Lemma dec_string_fuel j cur : dec_string j cur <> Err out_of_fuel.
Proof. by destruct j. Qed.
Lemma parse_uint_fuel bits lit : parse_uint bits lit <> Err out_of_fuel.
Proof.
  unfold parse_uint. destruct lit as [|b lit]; [done|]. destruct (bytes_uint (b :: lit)); [|done]. by destruct (2 ^ bits <=? _).
Qed.
Lemma dec_uint_fuel bits j cur : dec_uint bits j cur <> Err out_of_fuel.
Proof. destruct j; try done. apply parse_uint_fuel. Qed.
Lemma dec_int_fuel bits j cur : dec_int bits j cur <> Err out_of_fuel.
Proof.
  destruct j as [| |lit| | |]; try done. unfold dec_int, parse_int. destruct lit as [|b lit]; [done|].
  destruct (b2z b =? 45).
  - pose proof (parse_uint_fuel bits lit). destruct (parse_uint bits lit); cbn [mbind result_bind]; [|congruence]. by destruct (_ <? _).
  - pose proof (parse_uint_fuel bits (b :: lit)). destruct (parse_uint bits (b :: lit)); cbn [mbind result_bind]; [|congruence].
    by destruct (_ <=? _).
Qed.

(** ** The length of the text *)

Lemma of_uint_acc_lower d acc :
  Z.pos acc * 10 ^ Z.of_nat (length (uint_bytes d)) <= Z.pos (Pos.of_uint_acc d acc).
Proof.
  revert acc. induction d as [|d IH|d IH|d IH|d IH|d IH|d IH|d IH|d IH|d IH|d IH]; intros acc;
    cbn [uint_bytes length Pos.of_uint_acc]; [lia|..]; rewrite Nat2Z.inj_succ, Z.pow_succ_r by lia;
    (etrans; [|apply IH]); nia.
Qed.

(** Numbers are written without leading zeros: a number below [10 ^ n] takes at most [n] digits. *)
Lemma print_uint_length z n : 0 <= z < 10 ^ Z.of_nat n -> (0 < n)%nat -> (length (print_uint z) <= n)%nat.
Proof.
  intros Hz Hn. destruct (to_uint_decimal (Z.to_N z)) as [_ Hd]. unfold print_uint.
  pose proof (DecimalN.Unsigned.of_to (Z.to_N z)) as E. set (d := N.to_uint (Z.to_N z)) in *.
  assert (forall d' acc, N.pos (Pos.of_uint_acc d' acc) = Z.to_N z -> (S (length (uint_bytes d')) <= n)%nat) as Hacc.
  { intros d' acc E'. pose proof (of_uint_acc_lower d' acc) as Hl.
    assert (10 ^ Z.of_nat (length (uint_bytes d')) < 10 ^ Z.of_nat n) as Hp by nia.
    apply Z.pow_lt_mono_r_iff in Hp; lia. }
  destruct d as [|d'|d'|d'|d'|d'|d'|d'|d'|d'|d'] eqn:Ed; cbn [uint_bytes length] in *; try lia;
    try (unfold N.of_uint in E; cbn [Pos.of_uint] in E; by eapply Hacc).
  destruct Hd as [[= ->]|(b & l & [= <- <-] & Hb)]; [cbn; lia|done].
Qed.

Definition plain_char (b : byte) : Prop := b2z b < 0x80 /\ escape_ascii b = [b].

Lemma quote_plain s : Forall plain_char s -> quote s = dquote :: s ++ [dquote].
Proof.
  intros H. unfold quote. do 2 f_equal. induction H as [|b s [Hb He] _ IH]; [done|]. cbn [length quote_body].
  rewrite (proj2 (Z.ltb_lt _ _) Hb), He, IH. done.
Qed.

Lemma length_ascii_bytes s : length (ascii_bytes s) = String.length s.
Proof. unfold ascii_bytes. induction s as [|c s IH]; [done|]. cbn. by rewrite <- IH. Qed.

(** Compact output does not depend on the level. *)
Lemma print_level j lvl : print (fun _ => []) [] lvl j = marshal j.
Proof.
  unfold marshal. revert lvl. generalize 0%nat at 1. revert j.
  induction j as [|b|lit|s|l IH|l IH] using json_nested_ind; intros n lvl; try done.
  - destruct IH as [|x l Hx IH]; [done|]. cbn [print map]. rewrite (Hx (S n) (S lvl)). do 4 f_equal.
    apply map_ext_Forall. eapply Forall_impl; [exact IH|]. intros y Hy. apply Hy.
  - destruct IH as [|x l Hx IH]; [done|]. cbn [print map]. rewrite (Hx (S n) (S lvl)). do 4 f_equal.
    apply map_ext_Forall. eapply Forall_impl; [exact IH|]. intros y Hy. cbn beta in Hy |- *. by rewrite (Hy (S n) (S lvl)).
Qed.

Lemma marshal_struct_length fs :
  length (marshal (enc_struct fs))
  = (2 + (sum_list ((fun kv : string * json => length (quote (ascii_bytes kv.1)) + length (marshal kv.2) + 2)%nat <$> fs) - (if fs is [] then 0 else 1)))%nat.
Proof.
  destruct fs as [|kv fs]; [done|]. unfold enc_struct, marshal at 1. cbn [map print separated]. rewrite !List.map_map.
  cbn [fst snd fmap list_fmap sum_list sum_list_with id length]. rewrite !length_app. cbn [length]. rewrite length_app, print_level.
  cbn [app]. assert (forall l : list (string * json), length (concat (map (fun x => comma :: quote (ascii_bytes x.1) ++ colon :: print (fun _ => []) [] 1 x.2) l))
    = sum_list ((fun kv => length (quote (ascii_bytes kv.1)) + length (marshal kv.2) + 2)%nat <$> l)) as ->.
  { induction l as [|y l IH]; [done|]. cbn [map concat fmap list_fmap sum_list]. rewrite length_app, IH. cbn [length].
    rewrite length_app. cbn [length]. rewrite print_level. unfold id. lia. }
  cbn [length]. lia.
Qed.

Lemma marshal_map_length {A} (enc : A -> json) (m : gmap string A) n :
  (forall k x, m !! k = Some x -> (length (quote (ascii_bytes k)) + length (marshal (enc x)) + 2 <= n)%nat) ->
  (length (marshal (enc_map enc m)) <= 2 + n * size m)%nat.
Proof.
  intros H. unfold enc_map. rewrite marshal_struct_length. assert (length (merge_sort key_le (map_to_list m)) = size m) as <-.
  { rewrite (Permutation_length (sorted_entries m)), length_map_to_list. done. }
  assert (Forall (fun kv => length (quote (ascii_bytes kv.1)) + length (marshal (enc kv.2)) + 2 <= n)%nat (merge_sort key_le (map_to_list m))) as HF.
  { rewrite sorted_entries. apply Forall_forall. intros [k x] Hin%elem_of_map_to_list. by apply H. }
  enough (sum_list ((fun kv : string * json => length (quote (ascii_bytes kv.1)) + length (marshal kv.2) + 2)%nat
            <$> map (fun kv => (kv.1, enc kv.2)) (merge_sort key_le (map_to_list m))) <= n * length (merge_sort key_le (map_to_list m)))%nat by lia.
  induction HF as [|kv l Hkv _ IH]; [cbn; lia|]. cbn [map fmap list_fmap sum_list id length fst snd] in *. lia.
Qed.
