(* ===== verification/JsonStreamFacts.v ===== *)
(** * The token walk decides whether keys repeat

    The walk of [JsonStream] never runs out of fuel. On a text that is one
    value it succeeds exactly when the value is clean: no object at any depth
    repeats a key, and every number is a finite [float64]. Strict reading of
    what was written follows. *)

From stdpp Require Import sorting.
From S2P Require Import Prelude Bytes Sha256 Json JsonStream JsonFacts.
From Stdlib Require Import Strings.Byte.

(** ** Clean values *)

(** The values inside a value, at any depth. *)
Inductive within : json -> json -> Prop :=
  | within_refl j : within j j
  | within_elem j x l : x ∈ l -> within j x -> within j (JArr l)
  | within_member j k v l : (k, v) ∈ l -> within j v -> within j (JObj l).

(** No object inside has one key at two places. *)
Definition keys_distinct (j : json) : Prop :=
  forall l i i' k v v', within (JObj l) j -> l !! i = Some (k, v) -> l !! i' = Some (k, v') -> i = i'.

(** Every number inside is a finite [float64]. *)
Definition numbers_finite (j : json) : Prop := forall lit, within (JNum lit) j -> float_overflow lit = false.

Fixpoint clean (j : json) : bool :=
  match j with
  | JNum lit => negb (float_overflow lit)
  | JArr l => forallb clean l
  | JObj l => bool_decide (NoDup l.*1) && forallb (fun kv => clean kv.2) l
  | _ => true
  end.

Lemma within_trans a b c : within a b -> within b c -> within a c.
Proof. intros H. induction 1 as [|? x l Hin _ IH|? k v l Hin _ IH]; [done|by eapply within_elem; [|apply IH]|by eapply within_member; [|apply IH]]. Qed.

Lemma NoDup_keys (l : list (bytes * json)) :
  NoDup l.*1 <-> forall i i' k v v', l !! i = Some (k, v) -> l !! i' = Some (k, v') -> i = i'.
Proof.
  rewrite NoDup_alt. split.
  - intros H i i' k v v' H1 H2. apply (H i i' k); rewrite list_lookup_fmap; [by rewrite H1|by rewrite H2].
  - intros H i i' k. rewrite !list_lookup_fmap. intros ([k1 v1] & E1 & H1)%fmap_Some ([k2 v2] & E2 & H2)%fmap_Some.
    cbn in H1, H2. subst. by eapply H.
Qed.

(** [clean] decides the two conditions. *)
Lemma clean_spec j : clean j = true <-> keys_distinct j /\ numbers_finite j.
Proof.
  unfold keys_distinct, numbers_finite. split.
  - intros Hc. cut (forall a, within a j -> clean a = true).
    { intros HW. split.
      - intros l i i' k v v' Hl. apply HW in Hl. cbn [clean] in Hl. apply andb_true_iff in Hl as [Hn%bool_decide_eq_true _].
        exact (proj1 (NoDup_keys l) Hn i i' k v v').
      - intros lit Hl%HW. cbn [clean] in Hl. by apply negb_true_iff. }
    intros a H. induction H as [|? x l Hin _ IH|? k v l Hin _ IH]; [done| |]; apply IH; cbn [clean] in Hc.
    + rewrite forallb_forall in Hc. by apply Hc, list_elem_of_In.
    + apply andb_true_iff in Hc as [_ Hc]. rewrite forallb_forall in Hc. apply (Hc (k, v)). by apply list_elem_of_In.
  - induction j as [|b|lit|s|l IH|l IH] using json_nested_ind; intros [HK HN]; cbn [clean]; try done.
    + apply negb_true_iff, HN. constructor.
    + apply forallb_forall. intros x Hx%list_elem_of_In. rewrite Forall_forall in IH. apply (IH x Hx). split.
      * intros l' i i' k v v' Hw. apply (HK l'). by eapply within_elem.
      * intros lit Hw. apply HN. by eapply within_elem.
    + apply andb_true_iff. split.
      * apply bool_decide_eq_true, NoDup_keys. intros i i' k v v'. apply (HK l). constructor.
      * apply forallb_forall. intros [k v] Hx%list_elem_of_In. rewrite Forall_forall in IH. apply (IH (k, v) Hx). split.
        -- intros l' i i' k' v0 v0' Hw. apply (HK l'). by eapply within_member.
        -- intros lit Hw. apply HN. by eapply within_member.
Qed.

(** ** Tokens *)

Lemma tokenError_fuel {A} s : (tokenError s : result A) <> Err out_of_fuel.
Proof. by destruct s. Qed.

(** A scalar is read without nested calls. *)
Lemma json_value_scalar n d c r :
  is_ws c = false -> c <> lbrace -> c <> lbracket -> json_value (S n) d (c :: r) = json_value 1 maxNestingDepth (c :: r).
Proof.
  intros Hw H1 H2. cbn [json_value skip_ws]. rewrite Hw. by rewrite !(bool_decide_eq_false_2 (c = lbrace)), !(bool_decide_eq_false_2 (c = lbracket)).
Qed.

Lemma decode_any_progress c r : is_ws c = false -> c <> lbrace -> c <> lbracket -> progress (c :: r) (decode_any (c :: r)).
Proof.
  intros Hw H1 H2. unfold decode_any. rewrite <- (json_value_scalar (2 * length (c :: r) + 1) maxNestingDepth) by done.
  apply (progress_bind _ (c :: r)); [apply reader_progress; lia|]. intros j rest Hl. destruct (fail_if _ _) as [[]|e] eqn:E.
  - by apply progress_ok.
  - apply progress_err. intros ->. unfold fail_if in E. by destruct (match j with JNum _ => _ | _ => _ end).
Qed.

Lemma token_round_progress d : progress (dc_rest d) ('(t, d') ← token_round d; Ok ((t, d'), dc_rest d')).
Proof.
  unfold token_round. pose proof (skip_ws_length (dc_rest d)) as Hl. destruct (skip_ws (dc_rest d)) as [|c r] eqn:Es; [by apply progress_err|].
  apply skip_ws_head in Es. apply (progress_weaken (c :: r)); [done|]. cbn [length] in Hl.
  assert (forall s, progress (c :: r) ('(t, d') ← (tokenError s : result (option token * Decoder)); Ok ((t, d'), dc_rest d'))) as HE.
  { intros s. apply progress_err. by destruct s. }
  assert (forall t st stk, progress (c :: r) ('(t, d') ← Ok (t : option token, mkDecoder st stk r); Ok ((t, d'), dc_rest d'))) as HO.
  { intros t st stk. apply progress_ok. cbn [dc_rest length]. lia. }
  do 6 (case_bool_decide; [repeat (case_match; try done)|]).
  case_match.
  - pose proof (unquote_progress r (c :: r) ltac:(cbn [length]; lia)) as [H1' H2']. destruct (unquote (length r) r) as [[s rest]|e].
    + cbn [mbind result_bind]. apply progress_ok. cbn [dc_rest]. by apply (H2' s rest).
    + apply progress_err. congruence.
  - case_match; [apply HE|]. destruct (decode_any_progress c r Es) as [H1' H2']; [done|done|]. destruct (decode_any (c :: r)) as [[j rest]|e].
    + cbn [mbind result_bind]. apply progress_ok. cbn [dc_rest]. by apply (H2' j rest).
    + apply progress_err. congruence.
Qed.

(** After a separator comes a token. *)
Lemma token_round_twice d d' d'' : token_round d = Ok (None, d') -> token_round d' <> Ok (None, d'').
Proof.
  assert (forall e e', token_round e = Ok (None, e') ->
    tokenValueAllowed (dc_tokenState e) = false /\ dc_tokenState e <> tokenObjectKey /\ dc_tokenState e <> tokenObjectStart /\
    (dc_tokenState e' = tokenObjectValue \/ dc_tokenState e' = tokenArrayValue \/ dc_tokenState e' = tokenObjectKey)) as H.
  { intros [st stk r] e'. unfold token_round. cbn [dc_tokenState dc_tokenStack dc_rest]. destruct (skip_ws r) as [|c r']; [done|].
    do 4 (case_bool_decide; [by destruct st, stk|]).
    case_bool_decide; [destruct st; try done; intros [= <-]; cbn [dc_tokenState]; split_and!; auto; done|].
    case_bool_decide; [destruct st; try done; intros [= <-]; cbn [dc_tokenState]; split_and!; auto; done|].
    case_match; [by destruct (unquote (length r') r') as [[]|]|]. case_match; [done|]. by destruct (decode_any (c :: r')) as [[]|]. }
  intros (_ & _ & _ & H1)%H (H2 & H3 & H4 & _)%H. destruct H1 as [H1|[H1|H1]]; rewrite H1 in *; done.
Qed.

(** What the walk leaves of the text. *)
Definition consumes (lt : bool) (d : Decoder) (res : result Decoder) : Prop :=
  res <> Err out_of_fuel /\
  forall d', res = Ok d' -> (length (dc_rest d') + (if lt then 1 else 0) <= length (dc_rest d))%nat.

Lemma Token_consumes d t d' : Token d = Ok (t, d') -> (length (dc_rest d') < length (dc_rest d))%nat.
Proof.
  unfold Token. destruct (token_round_progress d) as [_ H1]. destruct (token_round d) as [[[t1|] d1]|]; [| |done]; cbn [mbind result_bind] in *.
  - intros [= _ <-]. by apply (H1 (Some t1, d1)).
  - specialize (H1 (None, d1) _ eq_refl). destruct (token_round_progress d1) as [_ H2]. destruct (token_round d1) as [[[t2|] d2]|]; [|done|done].
    cbn [mbind result_bind] in *. intros [= _ <-]. specialize (H2 (Some t2, d2) _ eq_refl). lia.
Qed.

Lemma Token_fuel d : Token d <> Err out_of_fuel.
Proof.
  unfold Token. destruct (token_round_progress d) as [H1 _]. destruct (token_round d) as [[[t1|] d1]|e] eqn:E1; cbn [mbind result_bind] in *; [done| |congruence].
  destruct (token_round_progress d1) as [H2 _]. destruct (token_round d1) as [[[t2|] d2]|e] eqn:E2; cbn [mbind result_bind] in *; [done| |congruence].
  by destruct (token_round_twice _ _ _ E1 E2).
Qed.

Lemma consumes_err lt d e : e <> out_of_fuel -> consumes lt d (Err e).
Proof. intros H. split; [congruence|done]. Qed.

Lemma consumes_ok (lt : bool) d d' : (length (dc_rest d') + (if lt then 1 else 0) <= length (dc_rest d))%nat -> consumes lt d (Ok d').
Proof. intros H. split; [done|]. by intros ? [= <-]. Qed.

Lemma consumes_bind (lt lt' : bool) d d1 res k :
  consumes lt' d1 res -> (forall d', (length (dc_rest d') + (if lt' then 1 else 0) <= length (dc_rest d1))%nat -> consumes lt d (k d')) ->
  consumes lt d (res ≫= k).
Proof. intros [H1 H2] Hk. destruct res as [d'|e]; [by apply Hk, H2|]. apply consumes_err. congruence. Qed.

Lemma consumes_less d d' res : (length (dc_rest d) <= length (dc_rest d'))%nat -> consumes false d res -> consumes false d' res.
Proof. intros Hl [H1 H2]. split; [done|]. intros e He. specialize (H2 e He). lia. Qed.

Lemma consumes_token lt d d1 (k : token * Decoder -> result Decoder) :
  (forall t d', (length (dc_rest d') < length (dc_rest d1))%nat -> consumes lt d (k (t, d'))) -> consumes lt d (Token d1 ≫= k).
Proof.
  intros Hk. pose proof (Token_fuel d1). destruct (Token d1) as [[t d']|e] eqn:E; [by apply Hk, (Token_consumes _ t)|].
  apply consumes_err. congruence.
Qed.

Lemma consumes_fail_if lt d b e k : e <> out_of_fuel -> consumes lt d k -> consumes lt d (_ ← fail_if b e; k).
Proof. intros He Hk. destruct b; [by apply consumes_err|done]. Qed.

Lemma walk_consumes n :
  (forall d, (2 * length (dc_rest d) + 1 <= n)%nat -> consumes true d (walk n d)) /\
  (forall seen d, (2 * length (dc_rest d) + 2 <= n)%nat -> consumes false d (walk_fields n seen d)) /\
  (forall d, (2 * length (dc_rest d) + 2 <= n)%nat -> consumes false d (walk_elements n d)).
Proof.
  induction n as [|n (IHw & IHf & IHe)]; [split; [|split]; intros; lia|]. split; [|split].
  - intros d Hn. cbn [walk]. apply consumes_token. intros t d1 H1. destruct t as [c| |]; [|apply consumes_ok; lia..].
    case_bool_decide; [|case_bool_decide; [|by apply consumes_err]].
    + apply (consumes_bind _ false _ d1); [apply IHf; lia|]. intros d2 H2. apply consumes_token. intros t d3 H3.
      destruct t; [|by apply consumes_err..]. apply consumes_fail_if; [done|apply consumes_ok; lia].
    + apply (consumes_bind _ false _ d1); [apply IHe; lia|]. intros d2 H2. apply consumes_token. intros t d3 H3.
      destruct t; [|by apply consumes_err..]. apply consumes_fail_if; [done|apply consumes_ok; lia].
  - intros seen d Hn. cbn [walk_fields]. destruct (More d); [|apply consumes_ok; lia]. apply consumes_token. intros t d1 H1.
    destruct t as [|name|]; [by apply consumes_err| |by apply consumes_err]. apply consumes_fail_if; [done|].
    apply (consumes_bind _ true _ d1); [apply IHw; lia|]. intros d2 H2. apply (consumes_less d2); [lia|]. apply IHf. lia.
  - intros d Hn. cbn [walk_elements]. destruct (More d); [|apply consumes_ok; lia].
    apply (consumes_bind _ true _ d); [apply IHw; lia|]. intros d2 H2. apply (consumes_less d2); [lia|]. apply IHe. lia.
Qed.

(** The fuel of [rejectDuplicateJSON] is enough. *)
Lemma rejectDuplicateJSON_fuel raw : rejectDuplicateJSON raw <> Err out_of_fuel.
Proof.
  unfold rejectDuplicateJSON. destruct (proj1 (walk_consumes (4 * length raw + 4)) (NewDecoder raw)) as [H _]; [cbn [dc_rest NewDecoder]; lia|].
  destruct (walk _ _) as [d|e]; cbn [mbind result_bind]; [|congruence]. destruct (Token d) as [|e]; [done|]. by destruct (negb _).
Qed.

(** ** The walk over a value *)

Lemma Token_separator d d' : token_round d = Ok (None, d') -> Token d = Token d'.
Proof.
  intros E. unfold Token at 1. rewrite E. cbn [mbind result_bind]. unfold Token.
  destruct (token_round d') as [[[t|] d2]|e] eqn:E2; [done| |done]. by destruct (token_round_twice _ _ _ E E2).
Qed.

Lemma More_separator d d' : token_round d = Ok (None, d') -> More d = true.
Proof.
  unfold token_round, More. destruct (skip_ws (dc_rest d)) as [|c r]; [done|].
  destruct (decide (c = rbracket)) as [->|].
  { change (bool_decide (rbracket = lbracket)) with false. change (bool_decide (rbracket = rbracket)) with true. cbv iota.
    by destruct (dc_tokenState d), (dc_tokenStack d). }
  destruct (decide (c = rbrace)) as [->|]; [|intros _; by rewrite (bool_decide_eq_false_2 (c = rbracket)), (bool_decide_eq_false_2 (c = rbrace))].
  change (bool_decide (rbrace = lbracket)) with false. change (bool_decide (rbrace = rbracket)) with false.
  change (bool_decide (rbrace = lbrace)) with false.
  change (bool_decide (rbrace = rbrace)) with true. cbv iota. by destruct (dc_tokenState d), (dc_tokenStack d).
Qed.

(** The decoder is before the value at [r], in state [st] or a separator
    before it. *)
Definition value_at (d : Decoder) (st : tokenState) (stk : list tokenState) (r : bytes) : Prop :=
  tokenValueAllowed st = true /\
  exists r0, skip_ws r0 = skip_ws r /\ (d = mkDecoder st stk r0 \/ token_round d = Ok (None, mkDecoder st stk r0)).

(** The decoder is before the key at [r]. *)
Definition key_at (d : Decoder) (stk : list tokenState) (r : bytes) : Prop :=
  exists r0, skip_ws r0 = skip_ws r /\ (d = mkDecoder tokenObjectStart stk r0 \/ token_round d = Ok (None, mkDecoder tokenObjectKey stk r0)).

(** Leading white space does not matter. *)
Lemma Token_ws st stk r0 r : skip_ws r0 = skip_ws r -> Token (mkDecoder st stk r0) = Token (mkDecoder st stk r).
Proof.
  intros E. assert (token_round (mkDecoder st stk r0) = token_round (mkDecoder st stk r)) as ER; [|by unfold Token; rewrite ER].
  unfold token_round. cbn [dc_tokenState dc_tokenStack dc_rest]. by rewrite E.
Qed.

Lemma value_at_Token d st stk r : value_at d st stk r -> Token d = Token (mkDecoder st stk r).
Proof. intros (_ & r0 & Hr & [->|E]); [by apply Token_ws|]. rewrite (Token_separator _ _ E). by apply Token_ws. Qed.

Lemma value_at_More d st stk r c r' :
  value_at d st stk r -> skip_ws r = c :: r' -> c <> rbracket -> c <> rbrace -> More d = true.
Proof.
  intros (_ & r0 & Hr & [->|E]) Hs H1 H2; [|by eapply More_separator]. unfold More. cbn [dc_rest].
  by rewrite Hr, Hs, !bool_decide_eq_false_2.
Qed.

Lemma Token_open_object st stk r r' :
  tokenValueAllowed st = true -> skip_ws r = lbrace :: r' ->
  Token (mkDecoder st stk r) = Ok (Delim lbrace, mkDecoder tokenObjectStart (st :: stk) r').
Proof. intros Ha Hs. unfold Token, token_round. cbn [dc_tokenState dc_tokenStack dc_rest]. by rewrite Hs, Ha. Qed.

Lemma Token_open_array st stk r r' :
  tokenValueAllowed st = true -> skip_ws r = lbracket :: r' ->
  Token (mkDecoder st stk r) = Ok (Delim lbracket, mkDecoder tokenArrayStart (st :: stk) r').
Proof. intros Ha Hs. unfold Token, token_round. cbn [dc_tokenState dc_tokenStack dc_rest]. by rewrite Hs, Ha. Qed.

Lemma Token_close_array st' st stk r rest :
  st' = tokenArrayStart \/ st' = tokenArrayComma -> skip_ws r = rbracket :: rest ->
  Token (mkDecoder st' (st :: stk) r) = Ok (Delim rbracket, mkDecoder (tokenValueEnd st) stk rest).
Proof. intros [-> | ->] Hs; unfold Token, token_round; cbn [dc_tokenState dc_tokenStack dc_rest]; by rewrite Hs. Qed.

Lemma Token_close_object st' st stk r rest :
  st' = tokenObjectStart \/ st' = tokenObjectComma -> skip_ws r = rbrace :: rest ->
  Token (mkDecoder st' (st :: stk) r) = Ok (Delim rbrace, mkDecoder (tokenValueEnd st) stk rest).
Proof. intros [-> | ->] Hs; unfold Token, token_round; cbn [dc_tokenState dc_tokenStack dc_rest]; by rewrite Hs. Qed.

Lemma Token_key d stk r r1 k rest :
  key_at d stk r -> skip_ws r = dquote :: r1 -> unquote (length r1) r1 = Ok (k, rest) ->
  Token d = Ok (Str k, mkDecoder tokenObjectColon stk rest).
Proof.
  intros Hd Hs Hu. assert (exists st, Token d = Token (mkDecoder st stk r) /\ (st = tokenObjectStart \/ st = tokenObjectKey)) as (st & -> & Hst).
  { destruct Hd as (r0 & Hr & [->|E]); [|rewrite (Token_separator _ _ E)]; rewrite (Token_ws _ _ _ _ Hr); eauto. }
  unfold Token, token_round. cbn [dc_tokenState dc_tokenStack dc_rest]. rewrite Hs.
  destruct Hst as [-> | ->]; cbn [mbind result_bind]; by rewrite Hu.
Qed.

Lemma key_at_More d stk r r1 : key_at d stk r -> skip_ws r = dquote :: r1 -> More d = true.
Proof. intros (r0 & Hr & [->|E]) Hs; [|by eapply More_separator]. unfold More. cbn [dc_rest]. by rewrite Hr, Hs. Qed.

(** What a value can start with. *)
Lemma json_value_head n d r j rest :
  json_value n d r = Ok (j, rest) -> exists c r', skip_ws r = c :: r' /\ (c <> rbracket /\ c <> rbrace /\ c <> colon /\ c <> comma).
Proof.
  destruct n as [|n]; [done|]. cbn [json_value]. destruct (skip_ws r) as [|c r']; [done|]. intros E. exists c, r'. split; [done|].
  split_and!; intros ->; discriminate E.
Qed.

Lemma Token_scalar n d st stk r c r' j rest :
  tokenValueAllowed st = true -> json_value (S n) d r = Ok (j, rest) -> skip_ws r = c :: r' -> c <> lbrace -> c <> lbracket ->
  Token (mkDecoder st stk r) =
    if match j with JNum lit => float_overflow lit | _ => false end
    then Err "json: cannot unmarshal number into Go value of type float64"
    else Ok (scalar_token j, mkDecoder (tokenValueEnd st) stk rest).
Proof.
  intros Ha E Hs H1 H2. pose proof (json_value_head _ _ _ _ _ E) as (c0 & r0 & Hs' & H3 & H4 & H5 & H6). rewrite Hs in Hs'. injection Hs' as <- <-.
  assert (json_value 1 maxNestingDepth (c :: r') = Ok (j, rest)) as EJ.
  { pose proof (skip_ws_head _ _ _ Hs) as Hw. rewrite <- (json_value_scalar n d) by done. rewrite <- E. cbn [json_value].
    cbn [skip_ws]. by rewrite Hw, Hs. }
  unfold Token, token_round. cbn [dc_tokenState dc_tokenStack dc_rest]. rewrite Hs.
  rewrite (bool_decide_eq_false_2 (c = lbracket)), (bool_decide_eq_false_2 (c = rbracket)), (bool_decide_eq_false_2 (c = lbrace)),
    (bool_decide_eq_false_2 (c = rbrace)), (bool_decide_eq_false_2 (c = colon)), (bool_decide_eq_false_2 (c = comma)) by done.
  assert (bool_decide (st = tokenObjectStart) || bool_decide (st = tokenObjectKey) = false) as -> by (by destruct st).
  rewrite andb_false_r, Ha. cbn [negb]. unfold decode_any. rewrite EJ. cbn [mbind result_bind].
  destruct (match j with JNum lit => float_overflow lit | _ => false end); done.
Qed.

(** What the walk makes of the members after the keys [seen]. *)
Fixpoint fields_clean (seen : list bytes) (l : list (bytes * json)) : bool :=
  match l with
  | [] => true
  | (k, v) :: l => negb (bool_decide (k ∈ seen)) && clean v && fields_clean (k :: seen) l
  end.

Lemma fields_clean_true seen l :
  fields_clean seen l = true <-> NoDup l.*1 /\ (forall k, k ∈ seen -> k ∉ l.*1) /\ Forall (fun kv => clean kv.2 = true) l.
Proof.
  revert seen. induction l as [|[k v] l IH]; intros seen; cbn [fields_clean fmap list_fmap].
  { split; [|done]. intros _. split; [constructor|]. split; [|constructor]. intros k _ []%elem_of_nil. }
  rewrite !andb_true_iff, negb_true_iff, bool_decide_eq_false, IH, NoDup_cons, Forall_cons. cbn [fst snd].
  setoid_rewrite elem_of_cons. naive_solver.
Qed.

Lemma fields_clean_object l : fields_clean [] l = clean (JObj l).
Proof.
  apply eq_true_iff_eq. rewrite fields_clean_true. cbn [clean]. rewrite andb_true_iff, bool_decide_eq_true, forallb_forall, Forall_forall.
  setoid_rewrite list_elem_of_In. split; [naive_solver|]. intros [H1 H2]. split_and!; [done| |done]. intros k [].
Qed.

(** The walk's answer: the decoder after the value, or an error. *)
Definition verdict (b : bool) (res : result Decoder) (P : Decoder -> Prop) : Prop :=
  if b then exists d, res = Ok d /\ P d else exists e, res = Err e.

Lemma verdict_bind b b' res k P Q :
  verdict b res P -> (forall d, P d -> verdict b' (k d) Q) -> verdict (b && b') (res ≫= k) Q.
Proof. intros H Hk. destruct b; cbn [verdict andb] in *; [destruct H as (d & -> & Hd); by apply Hk|]. destruct H as (e & ->). by exists e. Qed.

(** What the walk does at a value, in an array and in an object. *)
Definition value_spec (n : nat) : Prop := forall dp r j rest, json_value n dp r = Ok (j, rest) ->
  forall m d st stk, (2 * n <= m)%nat -> value_at d st stk r ->
  verdict (clean j) (walk m d) (eq (mkDecoder (tokenValueEnd st) stk rest)).

Definition elements_spec (n : nat) : Prop := forall dp r vs rest, json_elements n dp r = Ok (vs, rest) ->
  forall m d st stk, (2 * n + 1 <= m)%nat -> value_at d st stk r -> st = tokenArrayStart \/ st = tokenArrayValue ->
  verdict (forallb clean vs) (walk_elements m d)
    (fun d' => exists r', d' = mkDecoder tokenArrayComma stk r' /\ skip_ws r' = rbracket :: rest).

Definition members_spec (n : nat) : Prop := forall dp r kvs rest, json_members n dp r = Ok (kvs, rest) ->
  forall m d stk seen, (2 * n + 1 <= m)%nat -> key_at d stk r ->
  verdict (fields_clean seen kvs) (walk_fields m seen d)
    (fun d' => exists r', d' = mkDecoder tokenObjectComma stk r' /\ skip_ws r' = rbrace :: rest).

Lemma walk_elements_done m st stk r rest :
  (0 < m)%nat -> skip_ws r = rbracket :: rest -> walk_elements m (mkDecoder st stk r) = Ok (mkDecoder st stk r).
Proof. intros Hm Hs. destruct m; [lia|]. cbn [walk_elements]. unfold More. cbn [dc_rest]. by rewrite Hs. Qed.

Lemma walk_fields_done m seen st stk r rest :
  (0 < m)%nat -> skip_ws r = rbrace :: rest -> walk_fields m seen (mkDecoder st stk r) = Ok (mkDecoder st stk r).
Proof. intros Hm Hs. destruct m; [lia|]. cbn [walk_fields]. unfold More. cbn [dc_rest]. by rewrite Hs. Qed.

Lemma walk_object n dp r r1 j rest :
  members_spec n -> json_value (S n) dp r = Ok (j, rest) -> skip_ws r = lbrace :: r1 ->
  forall m d st stk, (2 * S n <= m)%nat -> value_at d st stk r ->
  verdict (clean j) (walk m d) (eq (mkDecoder (tokenValueEnd st) stk rest)).
Proof.
  intros IHm E Hs m d st stk Hm Hd. destruct m as [|m]; [lia|]. cbn [walk].
  rewrite (value_at_Token _ _ _ _ Hd), (Token_open_object _ _ _ _ (proj1 Hd) Hs). cbn [mbind result_bind].
  change (bool_decide (lbrace = lbrace)) with true. cbv iota.
  cbn [json_value] in E. rewrite Hs in E. change (bool_decide (lbrace = lbrace)) with true in E. cbv iota in E.
  destruct (dp <=? 0); [done|]. cbn [fail_if mbind result_bind] in E.
  destruct (skip_ws r1) as [|c r2] eqn:Es1; [done|]. destruct (decide (c = rbrace)) as [->|H2].
  - change (bool_decide (rbrace = rbrace)) with true in E. cbv iota in E. injection E as <- <-.
    rewrite (walk_fields_done _ _ _ _ _ r2) by (done || lia). cbn [mbind result_bind].
    rewrite (Token_close_object _ _ _ _ r2); [|by left|done]. cbn [mbind result_bind]. by eexists.
  - rewrite bool_decide_eq_false_2 in E by done. apply bind_Ok in E as ([kvs rest'] & E & [= <- <-]).
    rewrite <- fields_clean_object, <- (andb_true_r (fields_clean [] kvs)).
    eapply verdict_bind; [eapply (IHm _ _ _ _ E); [lia|]|].
    { exists r1. split; [|by left]. by rewrite (skip_ws_idem _ _ _ Es1). }
    intros d' (r' & -> & Hr'). rewrite (Token_close_object _ _ _ _ rest'); [|by right|done]. cbn [mbind result_bind]. by eexists.
Qed.

Lemma walk_array n dp r r1 j rest :
  elements_spec n -> json_value (S n) dp r = Ok (j, rest) -> skip_ws r = lbracket :: r1 ->
  forall m d st stk, (2 * S n <= m)%nat -> value_at d st stk r ->
  verdict (clean j) (walk m d) (eq (mkDecoder (tokenValueEnd st) stk rest)).
Proof.
  intros IHe E Hs m d st stk Hm Hd. destruct m as [|m]; [lia|]. cbn [walk].
  rewrite (value_at_Token _ _ _ _ Hd), (Token_open_array _ _ _ _ (proj1 Hd) Hs). cbn [mbind result_bind].
  change (bool_decide (lbracket = lbrace)) with false. change (bool_decide (lbracket = lbracket)) with true. cbv iota.
  cbn [json_value] in E. rewrite Hs in E. change (bool_decide (lbracket = lbrace)) with false in E.
  change (bool_decide (lbracket = lbracket)) with true in E. cbv iota in E. destruct (dp <=? 0); [done|]. cbn [fail_if mbind result_bind] in E.
  destruct (skip_ws r1) as [|c r2] eqn:Es1; [done|]. destruct (decide (c = rbracket)) as [->|H2].
  - change (bool_decide (rbracket = rbracket)) with true in E. cbv iota in E. injection E as <- <-.
    rewrite (walk_elements_done _ _ _ _ r2) by (done || lia). cbn [mbind result_bind].
    rewrite (Token_close_array _ _ _ _ r2); [|by left|done]. cbn [mbind result_bind]. by eexists.
  - rewrite bool_decide_eq_false_2 in E by done. apply bind_Ok in E as ([vs rest'] & E & [= <- <-]).
    cbn [clean]. rewrite <- (andb_true_r (forallb clean vs)). eapply verdict_bind; [eapply (IHe _ _ _ _ E); [lia| |by left]|].
    { split; [done|]. exists r1. split; [|by left]. by rewrite (skip_ws_idem _ _ _ Es1). }
    intros d' (r' & -> & Hr'). rewrite (Token_close_array _ _ _ _ rest'); [|by right|done]. cbn [mbind result_bind]. by eexists.
Qed.

(** What does not start with a brace or bracket is a scalar. *)
Lemma scalar_kind n dp r c r1 j rest :
  json_value (S n) dp r = Ok (j, rest) -> skip_ws r = c :: r1 -> c <> lbrace -> c <> lbracket ->
  match j with JArr _ | JObj _ => False | _ => True end.
Proof.
  intros E Hs H1 H2. cbn [json_value] in E. rewrite Hs in E.
  rewrite (bool_decide_eq_false_2 (c = lbrace)), (bool_decide_eq_false_2 (c = lbracket)) in E by done.
  destruct (bool_decide (c = dquote)); [by apply bind_Ok in E as ([s rest'] & _ & [= <- _])|].
  assert (forall p j0, expect_prefix p j0 (c :: r1) = Ok (j, rest) -> j = j0) as HP.
  { intros p j0. unfold expect_prefix. case_decide; [by intros [= <- _]|done]. }
  destruct (b2z c =? 116); [by apply HP in E as ->|]. destruct (b2z c =? 102); [by apply HP in E as ->|].
  destruct (b2z c =? 110); [by apply HP in E as ->|]. destruct (_ || _); [|done]. by apply bind_Ok in E as ([lit rest'] & _ & [= <- _]).
Qed.

Lemma walk_scalar n dp r c r1 j rest :
  json_value (S n) dp r = Ok (j, rest) -> skip_ws r = c :: r1 -> c <> lbrace -> c <> lbracket ->
  forall m d st stk, (0 < m)%nat -> value_at d st stk r ->
  verdict (clean j) (walk m d) (eq (mkDecoder (tokenValueEnd st) stk rest)).
Proof.
  intros E Hs H1 H2 m d st stk Hm Hd. destruct m as [|m]; [lia|]. cbn [walk].
  rewrite (value_at_Token _ _ _ _ Hd), (Token_scalar _ _ _ _ _ _ _ _ _ (proj1 Hd) E Hs H1 H2).
  pose proof (scalar_kind _ _ _ _ _ _ _ E Hs H1 H2) as HK.
  destruct j as [|b|lit|s|l|l]; cbn [clean scalar_token mbind result_bind]; try (by eexists); try done.
  destruct (float_overflow lit); by eexists.
Qed.

Lemma walk_elements_step n : value_spec n -> elements_spec n -> elements_spec (S n).
Proof.
  intros IHv IHe.
  intros dp r vs rest E m d st stk Hm Hd Hst. destruct m as [|m]; [lia|]. cbn [walk_elements]. cbn [json_elements] in E.
  apply bind_Ok in E as ([v r1] & EV & E). pose proof (json_value_head _ _ _ _ _ EV) as (c & r2 & Hs & H1 & H2 & _).
  rewrite (value_at_More _ _ _ _ _ _ Hd Hs H1 H2).
  assert (tokenValueEnd st = tokenArrayComma) as Ev by (by destruct Hst as [-> | ->]).
  assert (forall d', mkDecoder (tokenValueEnd st) stk r1 = d' -> forall c r3, skip_ws r1 = c :: r3 -> c = comma ->
    value_at d' tokenArrayValue stk r3) as Hnext.
  { intros d' <- c' r3 Hs' ->. split; [done|]. exists r3. split; [done|]. right. unfold token_round.
    cbn [dc_tokenState dc_tokenStack dc_rest]. by rewrite Hs', Ev. }
  destruct (skip_ws r1) as [|c' r3] eqn:Es; [done|]. case_bool_decide as Hc.
  - apply bind_Ok in E as ([vs' rest'] & EE & [= <- <-]). cbn [forallb].
    eapply verdict_bind; [by eapply (IHv _ _ _ _ EV); [lia|]|]. intros d' Hd'.
    eapply (IHe _ _ _ _ EE); [lia|by eapply Hnext|by right].
  - case_bool_decide as Hc'; [|done]. injection E as <- <-. cbn [forallb].
    eapply verdict_bind; [by eapply (IHv _ _ _ _ EV); [lia|]|]. intros d' <-. rewrite Ev. subst c'.
    rewrite (walk_elements_done _ _ _ _ r3) by (done || lia). eexists. split; [done|]. by exists r1.
Qed.

Lemma walk_fields_step n : value_spec n -> members_spec n -> members_spec (S n).
Proof.
  intros IHv IHm.
  intros dp r kvs rest E m d stk seen Hm Hd. destruct m as [|m]; [lia|]. cbn [walk_fields]. cbn [json_members] in E.
  destruct (skip_ws r) as [|b r1] eqn:Es; [done|]. case_bool_decide as Hb; [|done]. subst b.
  apply bind_Ok in E as ([k r2] & EU & E). rewrite (key_at_More _ _ _ _ Hd Es), (Token_key _ _ _ _ _ _ Hd Es EU). cbn [mbind result_bind].
  destruct (skip_ws r2) as [|c r3] eqn:Es2; [done|]. case_bool_decide as Hc; [|done]. subst c.
  apply bind_Ok in E as ([v r4] & EV & E).
  assert (value_at (mkDecoder tokenObjectColon stk r2) tokenObjectValue stk r3) as Hval.
  { split; [done|]. exists r3. split; [done|]. right. unfold token_round. cbn [dc_tokenState dc_tokenStack dc_rest]. by rewrite Es2. }
  assert (forall kvs' d', (bool_decide (k ∈ seen) = false -> verdict (clean v && fields_clean (k :: seen) kvs') (d' : result Decoder)
      (fun d' => exists r', d' = mkDecoder tokenObjectComma stk r' /\ skip_ws r' = rbrace :: rest)) ->
    verdict (fields_clean seen ((k, v) :: kvs')) (_ ← fail_if (bool_decide (k ∈ seen)) "duplicate JSON key"; d')
      (fun d' => exists r', d' = mkDecoder tokenObjectComma stk r' /\ skip_ws r' = rbrace :: rest)) as Hkey.
  { intros kvs' d' H. cbn [fields_clean]. destruct (bool_decide (k ∈ seen)); [by eexists|]. cbn [negb andb fail_if mbind result_bind].
    by apply H. }
  destruct (skip_ws r4) as [|c r5] eqn:Es4; [done|]. destruct (decide (c = comma)) as [->|Hc].
  - change (bool_decide (comma = comma)) with true in E. cbv iota in E. apply bind_Ok in E as ([kvs' rest'] & EM & [= <- <-]). apply Hkey. intros _.
    eapply verdict_bind; [by eapply (IHv _ _ _ _ EV); [lia|]|]. intros d' <-. eapply (IHm _ _ _ _ EM); [lia|].
    exists r5. split; [done|]. right. unfold token_round. cbn [dc_tokenState dc_tokenStack dc_rest tokenValueEnd]. by rewrite Es4.
  - rewrite (bool_decide_eq_false_2 (c = comma)) in E by done. destruct (decide (c = rbrace)) as [->|Hc'];
      [|by rewrite (bool_decide_eq_false_2 (c = rbrace)) in E by done].
    change (bool_decide (rbrace = rbrace)) with true in E. cbv iota in E. injection E as <- <-. apply Hkey. intros _. cbn [fields_clean].
    eapply verdict_bind; [by eapply (IHv _ _ _ _ EV); [lia|]|]. intros d' <-. cbn [tokenValueEnd].
    rewrite (walk_fields_done _ _ _ _ _ r5) by (done || lia). eexists. split; [done|]. by exists r4.
Qed.

Lemma walk_value_spec n : value_spec n /\ elements_spec n /\ members_spec n.
Proof.
  induction n as [|n (IHv & IHe & IHm)]; [done|]. split; [|split].
  - intros dp r j rest E m d st stk Hm Hd. pose proof (json_value_head _ _ _ _ _ E) as (c & r1 & Hs & _).
    destruct (decide (c = lbrace)) as [->|H1]; [by eapply walk_object|]. destruct (decide (c = lbracket)) as [->|H2]; [by eapply walk_array|].
    eapply walk_scalar; try done. lia.
  - by apply walk_elements_step.
  - by apply walk_fields_step.
Qed.

(** ** The check of a text *)

(** On a text that is one value, the walk accepts exactly the clean ones. *)
Lemma rejectDuplicate_parsed raw j : parse raw = Ok j -> is_ok (rejectDuplicateJSON raw) = clean j.
Proof.
  unfold parse, rejectDuplicateJSON. intros ([j' rest] & E & HT)%bind_Ok. destruct (skip_ws rest) as [|c r] eqn:Es; [|done].
  injection HT as ->.
  pose proof (proj1 (walk_value_spec _) _ _ _ _ E (4 * length raw + 4)%nat (NewDecoder raw) tokenTopValue [] ltac:(lia)) as HV.
  assert (value_at (NewDecoder raw) tokenTopValue [] raw) as Hd by (split; [done|]; exists raw; split; [done|by left]).
  specialize (HV Hd). destruct (clean j); cbn [verdict] in HV; [|by destruct HV as (e & ->)].
  destruct HV as (d & -> & <-). cbn [mbind result_bind tokenValueEnd]. unfold Token, token_round. cbn [dc_rest]. by rewrite Es.
Qed.

(** Strict reading is whole-text reading of clean values. *)
Lemma strictJSON_Ok {A} (dec : decoder A) zero raw a :
  strictJSON dec zero raw = Ok a <->
  utf8_valid raw = true /\ exists j, parse raw = Ok j /\ clean j = true /\ dec j zero = Ok a.
Proof.
  unfold strictJSON, decodeJSON. destruct (utf8_valid raw); cbn [negb fail_if mbind result_bind]; [|naive_solver].
  destruct (parse raw) as [j|e] eqn:EP.
  - pose proof (rejectDuplicate_parsed _ _ EP) as Hc. destruct (rejectDuplicateJSON raw) as [[]|e]; cbn [is_ok mbind result_bind] in *.
    + split; [intros E; split; [done|]; by exists j|]. by intros (_ & j' & [= <-] & _ & ?).
    + split; [done|]. intros (_ & j' & [= <-] & ? & _). congruence.
  - split; [|naive_solver]. by destruct (rejectDuplicateJSON raw).
Qed.

Lemma strict_parsed {A} (dec : decoder A) zero raw j :
  utf8_valid raw = true -> parse raw = Ok j -> clean j = true -> strictJSON dec zero raw = dec j zero.
Proof.
  intros HU HP HC. unfold strictJSON, decodeJSON. rewrite HU, HP. pose proof (rejectDuplicate_parsed _ _ HP) as E. rewrite HC in E.
  cbn [negb fail_if mbind result_bind]. by destruct (rejectDuplicateJSON raw) as [[]|].
Qed.

(** ** Strict reading of what was written *)

Lemma strict_print {A} nl sp j w (dec : decoder A) zero :
  (forall lvl, all_ws (nl lvl)) -> all_ws sp -> all_ws w -> wf_json j -> json_depth j <= maxNestingDepth ->
  clean j = true -> strictJSON dec zero (print nl sp 0 j ++ w) = dec j zero.
Proof.
  intros Hnl Hsp Hw Hwf Hd HC. apply strict_parsed; [|by apply parse_print|done].
  apply utf8_valid_iff, utf8_app; [by apply print_utf8|by apply utf8_ws].
Qed.

Lemma strict_marshal {A} j (dec : decoder A) zero :
  wf_json j -> json_depth j <= maxNestingDepth -> clean j = true -> strictJSON dec zero (marshal j) = dec j zero.
Proof. intros. rewrite <- (app_nil_r (marshal j)). apply strict_print; try done; constructor. Qed.

Lemma strict_marshal_indent {A} j (dec : decoder A) zero w :
  wf_json j -> json_depth j <= maxNestingDepth -> clean j = true -> all_ws w ->
  strictJSON dec zero (marshal_indent j ++ w) = dec j zero.
Proof. intros. apply strict_print; try done; [apply all_ws_indent|by repeat constructor]. Qed.

(** ** Clean documents *)

Lemma clean_struct fs : NoDup fs.*1 -> Forall (fun kv => clean kv.2 = true) fs -> clean (enc_struct fs) = true.
Proof.
  intros HN HF. unfold enc_struct. cbn [clean]. apply andb_true_iff. split.
  - apply bool_decide_eq_true. rewrite <- list_fmap_compose.
    assert (fst ∘ (fun kv : string * json => (ascii_bytes kv.1, kv.2)) <$> fs = ascii_bytes <$> fs.*1) as ->.
    { by rewrite <- list_fmap_compose. }
    by apply (NoDup_fmap_2 _).
  - apply forallb_forall. intros kv Hin%list_elem_of_In. apply list_elem_of_fmap in Hin as (kv' & -> & Hin).
    rewrite Forall_forall in HF. by apply (HF kv').
Qed.

Lemma clean_map {A} (enc : A -> json) (m : gmap string A) :
  (forall k x, m !! k = Some x -> clean (enc x) = true) -> clean (enc_map enc m) = true.
Proof.
  intros H. unfold enc_map. apply clean_struct.
  - assert ((map (fun kv : string * A => (kv.1, enc kv.2)) (merge_sort key_le (map_to_list m))).*1
            = (merge_sort key_le (map_to_list m)).*1) as ->.
    { change (map ?f ?l) with (f <$> l). by rewrite <- list_fmap_compose. }
    rewrite sorted_entries. apply NoDup_fst_map_to_list.
  - rewrite Forall_fmap, sorted_entries, Forall_forall. intros [k x] Hin%elem_of_map_to_list. by apply (H k).
Qed.

Lemma clean_slice {A} (enc : A -> json) l : Forall (fun x => clean (enc x) = true) l -> clean (enc_slice enc l) = true.
Proof.
  intros H. cbn [clean enc_slice]. apply forallb_forall. intros j Hj%list_elem_of_In. apply list_elem_of_fmap in Hj as (x & -> & Hx).
  rewrite Forall_forall in H. by apply H.
Qed.

Lemma digits_value_bound l : Forall (fun b => is_digit b = true) l -> 0 <= digits_value l < 10 ^ Z.of_nat (length l).
Proof.
  unfold digits_value. intros H. cut (forall z, 0 <= z -> 0 <= foldl (fun z b => 10 * z + (b2z b - 48)) z l < (z + 1) * 10 ^ Z.of_nat (length l)).
  { intros HB. specialize (HB 0). lia. }
  induction H as [|b l Hb _ IH]; intros z Hz; cbn [foldl length]; [lia|]. unfold is_digit, in_range in Hb. apply andb_true_iff in Hb as [?%Z.leb_le ?%Z.leb_le].
  specialize (IH (10 * z + (b2z b - 48)) ltac:(lia)). rewrite Nat2Z.inj_succ, Z.pow_succ_r by lia.
  assert (0 < 10 ^ Z.of_nat (length l)) by (apply Z.pow_pos_nonneg; lia). nia.
Qed.

(** Decimal integers of at most 300 digits are finite. *)
Lemma decimal_finite sg l : (sg = [] \/ sg = [z2b 45]) -> decimal l -> (length l <= 300)%nat -> float_overflow (sg ++ l) = false.
Proof.
  intros Hsg Hd Hl. unfold float_overflow.
  assert (number_sign (sg ++ l) = (sg, l)) as ->.
  { destruct Hsg as [-> | ->]; [|done]. destruct Hd as [HF [->|(b & l' & -> & _)]]; [done|]. apply Forall_cons in HF as [Hb _].
    cbn [app number_sign]. destruct (Z.eqb_spec (b2z b) 45) as [Eb|]; [|done]. unfold is_digit, in_range in Hb. rewrite Eb in Hb. done. }
  rewrite <- (app_nil_r l), decimal_int by done. cbn [number_frac number_exp]. cbn [tail app]. rewrite !app_nil_r.
  change (number_exponent [] - Z.of_nat (length (A:=byte) [])) with 0. unfold decimal_overflows. destruct (_ =? 0); [done|].
  change (0 <=? 0) with true. change (400 <? 0) with false. cbn [orb]. apply Z.leb_gt. rewrite Z.mul_1_r.
  pose proof (digits_value_bound l (proj1 Hd)). apply Z.lt_le_trans with (10 ^ Z.of_nat (length l)); [lia|].
  trans (10 ^ 300); [apply Z.pow_le_mono_r; lia|]. by apply Z.leb_le; vm_compute.
Qed.

Lemma clean_uint z : 0 <= z < 2 ^ 64 -> clean (enc_uint z) = true.
Proof.
  intros Hz. cbn [clean enc_uint]. apply negb_true_iff. apply (decimal_finite []); [by left|apply to_uint_decimal|].
  pose proof (print_uint_length z 20 ltac:(lia) ltac:(lia)) as H. eapply Nat.le_trans; [exact H|lia].
Qed.

Lemma clean_int z : - 2 ^ 63 <= z < 2 ^ 63 -> clean (enc_int z) = true.
Proof.
  intros Hz. cbn [clean enc_int]. apply negb_true_iff. unfold print_int. destruct (Z.ltb_spec z 0).
  - apply (decimal_finite [z2b 45]); [by right|apply to_uint_decimal|].
    pose proof (print_uint_length (- z) 20 ltac:(lia) ltac:(lia)) as HL. eapply Nat.le_trans; [exact HL|lia].
  - apply (decimal_finite []); [by left|apply to_uint_decimal|].
    pose proof (print_uint_length z 20 ltac:(lia) ltac:(lia)) as HL. eapply Nat.le_trans; [exact HL|lia].
Qed.

(** The fields of a written struct are clean. *)
Ltac clean_fields :=
  apply clean_struct; [apply (bool_decide_unpack _); vm_compute; exact I|];
  rewrite !Forall_cons, Forall_nil; split_and!; cbn [snd]; try exact I; try (exact (eq_refl true)).
