(* ===== verification/Service.v ===== *)
(** * The service ([nativeproof/service.go])

    The service is a state machine: [run] takes a request, the state and the
    file its ledger is kept in, and returns a response, an optional error and
    the state after the request. What the environment decides (random draws,
    the randomness of setup and proving, failures of the file system) is the
    record [Env]; a file system failure before the rename leaves the ledger
    file as it was, one after it (the directory sync) does not. Requests,
    responses and the ledger file are JSON text ([Json]). Error texts that
    quote a value ([%q]) show it unquoted. The mutex makes requests
    sequential. *)

From stdpp Require Import sorting.
From S2P Require Import Prelude Bytes Sha256 Curve Profile Circuit Backend Protocol Wire Text Json JsonStream.

Definition decodeB64 (s : string) : result bytes :=
  b ← DecodeString s;
  _ ← fail_if (negb (String.eqb (EncodeToString b) s)) "noncanonical base64";
  Ok b.

Definition decodeIssue (s : string) : result bytes :=
  hex_canonical 32 "issue must be 32 bytes in lowercase hex" s.

(** ** Requests, responses, state *)

Record Request := mkRequest {
  q_Op : string;
  q_Capacity : Z;
  q_User : string;
  q_Account : string;
  q_Issue : string;
  q_K : Z;
  q_Message : string;
  q_Timestamp : Z;
  q_Signature : string;
  q_SecondMessage : string;
  q_SecondSignature : string;
}.

Record Response := mkResponse {
  r_OK : bool;
  r_Error : string;
  r_Version : string;
  r_Signature : string;
  r_Verified : bool;
  r_Linked : bool;
  r_Trace : option TraceStatus;
  r_User : string;
  r_Members : Z;
}.

(** The fields of a request, by their JSON names. *)
Definition request_fields : list (field Request) :=
  [on_field "op" dec_string q_Op
     (fun x '(mkRequest _ b c d e f g h i j k) => mkRequest x b c d e f g h i j k);
   on_field "capacity" (dec_int 64) q_Capacity
     (fun x '(mkRequest a _ c d e f g h i j k) => mkRequest a x c d e f g h i j k);
   on_field "user" dec_string q_User
     (fun x '(mkRequest a b _ d e f g h i j k) => mkRequest a b x d e f g h i j k);
   on_field "account" dec_string q_Account
     (fun x '(mkRequest a b c _ e f g h i j k) => mkRequest a b c x e f g h i j k);
   on_field "issue" dec_string q_Issue
     (fun x '(mkRequest a b c d _ f g h i j k) => mkRequest a b c d x f g h i j k);
   on_field "k" (dec_uint 32) q_K
     (fun x '(mkRequest a b c d e _ g h i j k) => mkRequest a b c d e x g h i j k);
   on_field "message_b64" dec_string q_Message
     (fun x '(mkRequest a b c d e f _ h i j k) => mkRequest a b c d e f x h i j k);
   on_field "timestamp" (dec_uint 64) q_Timestamp
     (fun x '(mkRequest a b c d e f g _ i j k) => mkRequest a b c d e f g x i j k);
   on_field "signature_b64" dec_string q_Signature
     (fun x '(mkRequest a b c d e f g h _ j k) => mkRequest a b c d e f g h x j k);
   on_field "second_message_b64" dec_string q_SecondMessage
     (fun x '(mkRequest a b c d e f g h i _ k) => mkRequest a b c d e f g h i x k);
   on_field "second_signature_b64" dec_string q_SecondSignature
     (fun x '(mkRequest a b c d e f g h i j _) => mkRequest a b c d e f g h i j x)].

Definition zero_request : Request := mkRequest "" 0 "" "" "" 0 "" 0 "" "" "".

Definition decodeRequest (raw : bytes) : result Request :=
  _ ← fail_if (negb (utf8_valid raw)) "request is not valid UTF-8";
  _ ← rejectDuplicateJSON raw;
  decodeJSON (dec_struct request_fields) zero_request raw.

Definition trace_text (t : TraceStatus) : string :=
  match t with
  | TraceLegal => "legal"
  | TraceReplay => "replay"
  | TraceInvalid => "invalid"
  | TraceTraced => "traced"
  end.

(** Fields marked [omitempty]. *)
Definition omit_string (name value : string) : list (string * json) :=
  if String.eqb value "" then [] else [(name, enc_string value)].
Definition omit_false (name : string) (b : bool) : list (string * json) := if b then [(name, JBool true)] else [].

Definition enc_response (r : Response) : json :=
  enc_struct ([("ok", JBool (r_OK r))] ++ omit_string "error" (r_Error r) ++ omit_string "version" (r_Version r)
    ++ omit_string "signature_b64" (r_Signature r) ++ omit_false "verified" (r_Verified r)
    ++ omit_false "linked" (r_Linked r) ++ omit_string "trace" (match r_Trace r with Some t => trace_text t | None => "" end)
    ++ omit_string "user" (r_User r) ++ [("members", enc_int (r_Members r))]).

(** The ledger file. *)
Record durableServiceState := mkDurable {
  ds_Version : Z;
  ds_Policies : gmap string Z;
  ds_Revoked : list string;
  ds_Seen : list string;
}.

Definition state_fields : list (field durableServiceState) :=
  [on_field "version" (dec_int 64) ds_Version (fun x '(mkDurable _ b c d) => mkDurable x b c d);
   on_field "policies" (dec_map (dec_uint 32) 0) (fun s => Some (ds_Policies s))
     (fun x '(mkDurable a _ c d) => mkDurable a (default ∅ x) c d);
   on_field "revoked" (dec_slice dec_string "") ds_Revoked (fun x '(mkDurable a b _ d) => mkDurable a b x d);
   on_field "seen" (dec_slice dec_string "") ds_Seen (fun x '(mkDurable a b c _) => mkDurable a b c x)].

Definition zero_state : durableServiceState := mkDurable 0 ∅ [] [].

Definition enc_state (s : durableServiceState) : json :=
  enc_struct [("version", enc_int (ds_Version s)); ("policies", enc_map enc_uint (ds_Policies s));
              ("revoked", enc_slice enc_string (ds_Revoked s)); ("seen", enc_slice enc_string (ds_Seen s))].

Section defs.
Context `{CR : !Crypto, GR : !Groth16}.

(** Sets are maps to [true]; [active] also holds [false]. *)
Record Service := mkService {
  sv_params : Params;
  sv_prover : option Prover;
  sv_verifier : option Verifier;
  sv_users : gmap string Signer;
  sv_accounts : gmap string Registration;
  sv_active : gmap string bool;
  sv_policies : gmap bytes Z;
  sv_revoked : gset string;
  sv_seen : gset bytes;
  sv_statePath : string;
}.

Inductive fault :=
  | BeforeRename (e : error)
  | AfterRename (e : error).

Record Env := mkEnv {
  env_setup : Z -> result Z;      (* Setup's trapdoor *)
  env_backend : Z;                (* groth16.Setup *)
  env_x : Z -> result Z;          (* KeyGen's x *)
  env_d : Z -> result Z;          (* KeyGen's d *)
  env_prove : Z;                  (* groth16.Prove *)
  env_fault : option fault;       (* persistState *)
  env_order : list Registration -> list Registration;  (* range over a map *)
}.

(** The service and its ledger file. *)
Record World := mkWorld {
  w_service : Service;
  w_file : option bytes;
}.

Definition zero_params : Params := mkParams (g_inf BN) (g_inf BN2) (g_inf BN2) [].
Definition zero_registration : Registration := mkRegistration "" (mkAccount (g_inf Secp) (g_inf Secp) None).

Definition newService (path : string) : Service :=
  mkService zero_params None None ∅ ∅ ∅ ∅ ∅ ∅ path.

Definition NewService : Service := newService "".

(** ** The ledger *)

Definition durable_of (s : Service) : durableServiceState :=
  {| ds_Version := 1;
     ds_Policies := kmap hex_encode (sv_policies s);
     ds_Revoked := merge_sort String.le (elements (sv_revoked s));
     ds_Seen := merge_sort String.le (hex_encode <$> elements (sv_seen s)) |}.

Definition ledger_text (s : Service) : bytes := marshal (enc_state (durable_of s)).

Definition persistState (f : option fault) (w : World) : option error * World :=
  let s := w_service w in
  if String.eqb (sv_statePath s) "" then (None, w)
  else match f with
       | Some (BeforeRename e) => (Some e, w)
       | Some (AfterRename e) => (Some e, mkWorld s (Some (ledger_text s)))
       | None => (None, mkWorld s (Some (ledger_text s)))
       end.

Definition set_policies (s : Service) (m : gmap bytes Z) : Service :=
  mkService (sv_params s) (sv_prover s) (sv_verifier s) (sv_users s) (sv_accounts s) (sv_active s) m
    (sv_revoked s) (sv_seen s) (sv_statePath s).
Definition set_revoked (s : Service) (m : gset string) : Service :=
  mkService (sv_params s) (sv_prover s) (sv_verifier s) (sv_users s) (sv_accounts s) (sv_active s) (sv_policies s)
    m (sv_seen s) (sv_statePath s).
Definition set_seen (s : Service) (m : gset bytes) : Service :=
  mkService (sv_params s) (sv_prover s) (sv_verifier s) (sv_users s) (sv_accounts s) (sv_active s) (sv_policies s)
    (sv_revoked s) m (sv_statePath s).
Definition set_active (s : Service) (m : gmap string bool) : Service :=
  mkService (sv_params s) (sv_prover s) (sv_verifier s) (sv_users s) (sv_accounts s) m (sv_policies s)
    (sv_revoked s) (sv_seen s) (sv_statePath s).
Definition set_accounts (s : Service) (m : gmap string Registration) : Service :=
  mkService (sv_params s) (sv_prover s) (sv_verifier s) (sv_users s) m (sv_active s) (sv_policies s)
    (sv_revoked s) (sv_seen s) (sv_statePath s).
Definition set_users (s : Service) (m : gmap string Signer) : Service :=
  mkService (sv_params s) (sv_prover s) (sv_verifier s) m (sv_accounts s) (sv_active s) (sv_policies s)
    (sv_revoked s) (sv_seen s) (sv_statePath s).
Definition set_setup (s : Service) (p : Params) (pr : Prover) (v : Verifier) : Service :=
  mkService p (Some pr) (Some v) (sv_users s) (sv_accounts s) (sv_active s) (sv_policies s)
    (sv_revoked s) (sv_seen s) (sv_statePath s).

(** The three loops of [loadState]. *)
Fixpoint load_policies (m : gmap bytes Z) (l : list (string * Z)) : result (gmap bytes Z) :=
  match l with
  | [] => Ok m
  | (encoded, k) :: l =>
      match decodeIssue encoded with
      | Err _ => Err "invalid persisted issue policy"
      | Ok issue =>
          _ ← fail_if (k =? 0) "invalid persisted issue policy";
          load_policies (<[issue := k]> m) l
      end
  end.

Fixpoint load_revoked (m : gset string) (l : list string) : result (gset string) :=
  match l with
  | [] => Ok m
  | user :: l =>
      _ ← fail_if (blank user) "invalid persisted revoked user";
      load_revoked ({[user]} ∪ m) l
  end.

Fixpoint load_seen (m : gset bytes) (l : list string) : result (gset bytes) :=
  match l with
  | [] => Ok m
  | encoded :: l =>
      _ ← fail_if (negb (String.length encoded =? 64)%nat) "invalid persisted replay digest";
      match hex_decode encoded with
      | Err _ => Err "invalid persisted replay digest"
      | Ok b => load_seen ({[b]} ∪ m) l
      end
  end.

(** A missing file is an empty ledger. *)
Definition loadState (s : Service) (file : option bytes) : result Service :=
  match file with
  | None => Ok s
  | Some raw =>
      state ← decodeJSON (dec_struct state_fields) zero_state raw;
      _ ← fail_if (negb (ds_Version state =? 1)) "unsupported service state version";
      policies ← load_policies (sv_policies s) (map_to_list (ds_Policies state));
      revoked ← load_revoked (sv_revoked s) (ds_Revoked state);
      seen ← load_seen (sv_seen s) (ds_Seen state);
      Ok (set_seen (set_revoked (set_policies s policies) revoked) seen)
  end.

Definition NewPersistentService (path : string) (file : option bytes) : result Service :=
  _ ← fail_if (blank path) "state path is required";
  loadState (newService path) file.

(** ** The ring *)

Definition ring (s : Service) : list string * list Account :=
  let ids := merge_sort String.le (elements (dom (filter (fun kv => kv.2 = true) (sv_active s)))) in
  (ids, (fun id => reg_Account (default zero_registration (sv_accounts s !! id))) <$> ids).

Definition is_active (s : Service) (id : string) : bool := default false (sv_active s !! id).

(** ** Operations *)

Definition policy (s : Service) (issue : bytes) (k : Z) (create : bool) : result unit :=
  _ ← fail_if (k =? 0) "zero quota";
  match sv_policies s !! issue with
  | Some old => fail_if (negb (old =? k)) "quota already pinned for issue"
  | None => fail_if (negb create) "unknown issue policy"
  end.

Definition outcome : Type := Response * option error * World.

(** [Response{Version: CircuitVersion}] *)
Definition out0 : Response := mkResponse false "" CircuitVersion "" false false None "" 0.

Definition failed (e : error) (w : World) : outcome := (out0, Some e, w).

(** [return out, nil], or the wrapped error of [persistState]. *)
Definition persisted (env : Env) (label : error) (out : Response) (w : World) : outcome :=
  match persistState (env_fault env) w with
  | (Some e, w) => (out, Some (label +:+ ": " +:+ e), w)
  | (None, w) => (out, None, w)
  end.

Definition run_setup (env : Env) (q : Request) (w : World) : outcome :=
  let s := w_service w in
  match sv_prover s with
  | Some _ => failed "setup already completed" w
  | None =>
      match Setup (env_setup env) (q_Capacity q) with
      | Err e => failed e w
      | Ok p =>
          match NewBackend (env_backend env) with
          | Err e => failed e w
          | Ok (prover, verifier) =>
              persisted env "persist setup state" out0 (mkWorld (set_setup s p prover verifier) (w_file w))
          end
      end
  end.

(** The key generation of [keygen]: the account, and the users afterwards. *)
Definition keygen_account (env : Env) (s : Service) (user : string) : result (Account * gmap string Signer) :=
  match sv_users s !! user with
  | None =>
      '(a, x) ← KeyGen (env_x env) (env_d env) None;
      signer ← NewSigner (Some x);
      Ok (a, <[user := signer]> (sv_users s))
  | Some signer =>
      '(a, _) ← KeyGen (env_x env) (env_d env) (s_x signer);
      Ok (a, sv_users s)
  end.

Definition run_keygen (env : Env) (q : Request) (w : World) : outcome :=
  let s := w_service w in
  if blank (q_User q) || blank (q_Account q) then failed "user/account ids required" w
  else if bool_decide (is_Some (sv_accounts s !! q_Account q)) then failed "account exists" w
  else if bool_decide (q_User q ∈ sv_revoked s) then failed "user is permanently revoked" w
  else
    match keygen_account env s (q_User q) with
    | Err e => failed e w
    | Ok (a, users) =>
        let s := set_users s users in
        let s := set_accounts s (<[q_Account q := mkRegistration (q_User q) a]> (sv_accounts s)) in
        match persistState (env_fault env) (mkWorld s (w_file w)) with
        | (None, w) => (out0, None, w)
        | (Some e, w) =>
            (out0, Some ("persist keygen state: " +:+ e),
             mkWorld (set_accounts s (delete (q_Account q) (sv_accounts s))) (w_file w))
        end
    end.

Definition run_join (env : Env) (q : Request) (w : World) : outcome :=
  let s := w_service w in
  match sv_accounts s !! q_Account q with
  | None => failed "account unknown" w
  | Some reg =>
      match NewSnapshot (sv_params s) (ring s).2 with
      | Err e => failed e w
      | Ok snap =>
          if bool_decide (reg_UserID reg ∈ sv_revoked s) then failed "user is permanently revoked" w
          else
            match Join snap (reg_Account reg) with
            | Err e => failed e w
            | Ok _ =>
                persisted env "persist ring state" out0
                  (mkWorld (set_active s (<[q_Account q := true]> (sv_active s))) (w_file w))
            end
      end
  end.

Definition run_exit (env : Env) (q : Request) (w : World) : outcome :=
  let s := w_service w in
  match sv_accounts s !! q_Account q with
  | None => failed "account unknown" w
  | Some reg =>
      match NewSnapshot (sv_params s) (ring s).2 with
      | Err e => failed e w
      | Ok snap =>
          if negb (is_active s (q_Account q)) then failed "account inactive" w
          else
            match (member ← Member (reg_Account reg); Exit snap (Some member)) with
            | Err e => failed e w
            | Ok _ =>
                persisted env "persist ring state" out0
                  (mkWorld (set_active s (<[q_Account q := false]> (sv_active s))) (w_file w))
            end
      end
  end.

(** The loop over the accounts: every account of the user becomes inactive. *)
Definition deactivate (user : string) (accounts : gmap string Registration) (active : gmap string bool)
    : gmap string bool :=
  map_imap (fun _ (r : Registration) => if bool_decide (reg_UserID r = user) then Some false else None) accounts
  ∪ active.

Definition run_revoke (env : Env) (q : Request) (w : World) : outcome :=
  let s := w_service w in
  if negb (bool_decide (is_Some (sv_users s !! q_User q))) then failed "unknown user" w
  else
    let s := set_active s (deactivate (q_User q) (sv_accounts s) (sv_active s)) in
    let s := set_revoked s ({[q_User q]} ∪ sv_revoked s) in
    persisted env "persist revocation state" out0 (mkWorld s (w_file w)).

(** The loop that finds the position of the account among the ids. *)
Fixpoint account_index (account : string) (i : Z) (ids : list string) (idx : Z) : Z :=
  match ids with
  | [] => idx
  | id :: ids => account_index account (i + 1) ids (if bool_decide (id = account) then i else idx)
  end.

Definition run_sign (env : Env) (q : Request) (issue msg : bytes) (w : World) : outcome :=
  let s := w_service w in
  let '(ids, accounts) := ring s in
  let idx := account_index (q_Account q) 0 ids (-1) in
  if idx <? 0 then failed "account not in current ring" w
  else
    match NewSnapshot (sv_params s) accounts with
    | Err e => failed e w
    | Ok snap =>
        let user := reg_UserID (default zero_registration (sv_accounts s !! q_Account q)) in
        match sv_users s !! user with
        | None => failed "nil pointer dereference" w
        | Some signer =>
            let '(signed, signer) :=
              Sign signer (sv_prover s) (env_prove env) snap idx issue (q_K q) msg (q_Timestamp q) in
            let s := set_users s (<[user := signer]> (sv_users s)) in
            let w := mkWorld s (w_file w) in
            match signed with
            | Err e => failed e w
            | Ok signed =>
                match MarshalSigned signed with
                | Err e => failed e w
                | Ok enc =>
                    let w := mkWorld (set_policies s (<[issue := q_K q]> (sv_policies s))) (w_file w) in
                    match persistState (env_fault env) w with
                    | (Some e, w) => (out0, Some ("persist signing policy: " +:+ e), w)
                    | (None, w) =>
                        (mkResponse false "" CircuitVersion (EncodeToString enc) false false None "" 0, None, w)
                    end
                end
            end
        end
    end.

Definition out_verified (b : bool) : Response := mkResponse false "" CircuitVersion "" b false None "" 0.

Definition run_verify (env : Env) (ctx : VerificationContext) (msg enc : bytes) (signed : Signed) (w : World) : outcome :=
  let s := w_service w in
  let encDigest := sha256 enc in
  if bool_decide (encDigest ∈ sv_seen s) then failed "signature replay already consumed" w
  else
    match Verify (sv_verifier s) ctx msg signed with
    | Err e => (out_verified false, Some e, w)
    | Ok _ =>
        persisted env "persist replay state" (out_verified true)
          (mkWorld (set_seen s ({[encDigest]} ∪ sv_seen s)) (w_file w))
    end.

(** The second signature of [link] and [trace]. *)
Definition second_signature (q : Request) : result (Signed * bytes) :=
  enc2 ← decodeB64 (q_SecondSignature q);
  other ← UnmarshalSigned enc2;
  msg2 ← decodeB64 (q_SecondMessage q);
  Ok (other, msg2).

Definition run_link (q : Request) (ctx : VerificationContext) (msg : bytes) (signed other : Signed) (msg2 : bytes)
    (w : World) : outcome :=
  match Link (sv_verifier (w_service w)) ctx msg signed ctx msg2 other with
  | Ok b => (mkResponse false "" CircuitVersion "" false b None "" 0, None, w)
  | Err e => failed e w
  end.

Definition run_trace (env : Env) (q : Request) (ctx : VerificationContext) (msg : bytes) (signed other : Signed) (msg2 : bytes)
    (w : World) : outcome :=
  match NewRegistry (env_order env (map_to_list (sv_accounts (w_service w))).*2) with
  | Err e => failed e w
  | Ok registry =>
      let '(result, e) := Trace (sv_verifier (w_service w)) ctx msg signed ctx msg2 other registry in
      (mkResponse false "" CircuitVersion "" false false (Some (tr_Status result)) (tr_UserID result) 0, e, w)
  end.

(** The operations on an issue and a message. *)
Definition run_issue (env : Env) (q : Request) (w : World) : outcome :=
  let s := w_service w in
  match (issue ← decodeIssue (q_Issue q);
         msg ← decodeB64 (q_Message q);
         _ ← policy s issue (q_K q) (String.eqb (q_Op q) "sign");
         ctx ← NewVerificationContext (sv_params s) (ring s).2 issue (q_K q);
         Ok (issue, msg, ctx)) with
  | Err e => failed e w
  | Ok (issue, msg, ctx) =>
      if String.eqb (q_Op q) "sign" then run_sign env q issue msg w
      else
        match (enc ← decodeB64 (q_Signature q); signed ← UnmarshalSigned enc; Ok (enc, signed)) with
        | Err e => failed e w
        | Ok (enc, signed) =>
            if String.eqb (q_Op q) "verify" then run_verify env ctx msg enc signed w
            else if String.eqb (q_Op q) "link" || String.eqb (q_Op q) "trace" then
              match second_signature q with
              | Err e => failed e w
              | Ok (other, msg2) =>
                  if String.eqb (q_Op q) "link" then run_link q ctx msg signed other msg2 w
                  else run_trace env q ctx msg signed other msg2 w
              end
            else failed ("unknown operation " +:+ q_Op q) w
        end
  end.

Definition run_service (env : Env) (q : Request) (w : World) : outcome :=
  let s := w_service w in
  if String.eqb (q_Op q) "info" then (out0, None, w)
  else if String.eqb (q_Op q) "setup" then run_setup env q w
  else
    match sv_prover s with
    | None => failed "setup required" w
    | Some _ =>
        if String.eqb (q_Op q) "keygen" then run_keygen env q w
        else if String.eqb (q_Op q) "join" then run_join env q w
        else if String.eqb (q_Op q) "exit" then run_exit env q w
        else if String.eqb (q_Op q) "revoke_user" then run_revoke env q w
        else run_issue env q w
    end.

(** [Handle] between the decoded request and the response. *)
Definition respond (env : Env) (decoded : result Request) (w : World) : Response * World :=
  let '(out, w) :=
    match decoded with
    | Err e => (mkResponse false e "" "" false false None "" 0, w)
    | Ok q =>
        let '(out, e, w) := run_service env q w in
        match e with
        | Some e => (mkResponse false e (r_Version out) (r_Signature out) (r_Verified out) (r_Linked out)
                       (r_Trace out) (r_User out) (r_Members out), w)
        | None => (mkResponse true (r_Error out) (r_Version out) (r_Signature out) (r_Verified out) (r_Linked out)
                     (r_Trace out) (r_User out) (r_Members out), w)
        end
    end in
  (mkResponse (r_OK out) (r_Error out) (r_Version out) (r_Signature out) (r_Verified out) (r_Linked out)
     (r_Trace out) (r_User out) (Z.of_nat (length (ring (w_service w)).2)), w).

Definition Handle (env : Env) (raw : bytes) (w : World) : bytes * World :=
  let '(out, w) := respond env (decodeRequest raw) w in (marshal (enc_response out), w).
End defs.
