(* ===== verification/ServiceFacts.v ===== *)
(** * The ledger of the service

    What [persistState] writes, [loadState] reads back; the invariant of the
    service and that every request preserves it; the ledger in memory and on
    disk only grow, through requests, failed writes and restarts. *)

From stdpp Require Import sorting.
From S2P Require Import Prelude Bytes Sha256 Curve Profile Accumulator Circuit CircuitFacts.
From S2P Require Import Statements Backend BackendFacts Protocol ProtocolFacts Wire Encodings Text Json JsonStream JsonFacts JsonStreamFacts Service.

(** ** Ledgers *)

(** What the ledger file stands for. *)
Record Ledger := mkLedger {
  lg_policies : gmap bytes Z;
  lg_revoked : gset string;
  lg_seen : gset bytes;
}.

Definition no_ledger : Ledger := mkLedger ∅ ∅ ∅.

Record ledger_le (l l' : Ledger) : Prop := mk_ledger_le {
  le_policies : lg_policies l ⊆ lg_policies l';
  le_revoked : lg_revoked l ⊆ lg_revoked l';
  le_seen : lg_seen l ⊆ lg_seen l';
}.

#[export] Instance ledger_le_preorder : PreOrder ledger_le.
Proof. split; [by split|]. intros l1 l2 l3 [] []. split; by etrans. Qed.

Record wf_ledger (l : Ledger) : Prop := mk_wf_ledger {
  wl_policies : forall (issue : bytes) (k : Z), lg_policies l !! issue = Some k -> length issue = 32%nat /\ 0 < k < 2 ^ 32;
  wl_revoked : forall u, u ∈ lg_revoked l -> blank u = false /\ utf8_string u;
  wl_seen : forall d : bytes, d ∈ lg_seen l -> length d = 32%nat;
}.

Definition encode_ledger (l : Ledger) : durableServiceState :=
  {| ds_Version := 1;
     ds_Policies := kmap hex_encode (lg_policies l);
     ds_Revoked := merge_sort String.le (elements (lg_revoked l));
     ds_Seen := merge_sort String.le (hex_encode <$> elements (lg_seen l)) |}.

Definition ledger_bytes (l : Ledger) : bytes := marshal (enc_state (encode_ledger l)).

Definition on_disk (file : option bytes) (l : Ledger) : Prop :=
  match file with None => l = no_ledger | Some raw => raw = ledger_bytes l end.

#[export] Instance hex_encode_Inj : Inj (=) (=) hex_encode.
Proof. intros ??. apply hex_encode_inj. Qed.

Lemma encode_policies_lookup l e k :
  ds_Policies (encode_ledger l) !! e = Some k <-> exists i, e = hex_encode i /\ lg_policies l !! i = Some k.
Proof. cbn [ds_Policies encode_ledger]. apply lookup_kmap_Some. apply _. Qed.

Lemma encode_policies l e k :
  (e, k) ∈ map_to_list (ds_Policies (encode_ledger l)) <-> exists i, e = hex_encode i /\ lg_policies l !! i = Some k.
Proof. rewrite elem_of_map_to_list. apply encode_policies_lookup. Qed.

Lemma encode_revoked l u : u ∈ ds_Revoked (encode_ledger l) <-> u ∈ lg_revoked l.
Proof. cbn [ds_Revoked encode_ledger]. by rewrite merge_sort_Permutation, elem_of_elements. Qed.

Lemma encode_seen l e : e ∈ ds_Seen (encode_ledger l) <-> exists d, e = hex_encode d /\ d ∈ lg_seen l.
Proof.
  cbn [ds_Seen encode_ledger]. rewrite merge_sort_Permutation, list_elem_of_fmap.
  by setoid_rewrite elem_of_elements.
Qed.

(** ** The file *)

Lemma hex_encode_utf8 b : utf8_string (hex_encode b).
Proof.
  unfold utf8_string. apply utf8_valid_iff, utf8_ascii.
  induction b as [|x b IH]; [constructor|]. unfold ascii_bytes in *. cbn [hex_encode String.list_byte_of_string String.list_ascii_of_string map].
  pose proof (b2z_range x).
  assert (forall n, 0 <= n < 16 -> b2z (Ascii.byte_of_ascii (hex_digit n)) < 0x80) as H16.
  { intros n Hn. assert (Forall (fun n => b2z (Ascii.byte_of_ascii (hex_digit n)) < 0x80) (seqZ 0 16)) as HF by repeat constructor.
    rewrite Forall_forall in HF. apply HF, elem_of_seqZ. lia. }
  constructor; [apply H16; zlia|]. constructor; [apply H16; zlia|done].
Qed.

Lemma dec_enc_state d :
  ds_Version d = 1 -> (forall k x, ds_Policies d !! k = Some x -> 0 <= x < 2 ^ 32) ->
  dec_struct state_fields (enc_state d) zero_state = Ok d.
Proof.
  intros HV HP. destruct d as [v ps rs ss]. cbn [ds_Version ds_Policies] in *. subst v. unfold enc_state, enc_struct.
  cbn [ds_Version ds_Policies ds_Revoked ds_Seen map fst snd dec_struct].
  next_field 0%nat; [|apply dec_enc_int; lia].
  next_field 1%nat; [|apply dec_enc_map; [done|intros k x Hk; apply dec_enc_uint, (HP _ _ Hk)]].
  next_field 2%nat; [|apply dec_enc_elements, Forall_forall; intros; apply dec_enc_string].
  next_field 3%nat; [|apply dec_enc_elements, Forall_forall; intros; apply dec_enc_string].
  done.
Qed.

Lemma encode_ledger_wf l : wf_ledger l -> wf_json (enc_state (encode_ledger l)).
Proof.
  intros [_ HR _]. unfold enc_state. apply wf_enc_struct. split; [by repeat constructor|].
  rewrite !Forall_cons, Forall_nil. split_and!; cbn [snd]; try done.
  - apply enc_int_wf.
  - apply wf_enc_map. intros e k (i & -> & _)%(proj1 (encode_policies_lookup l e k)).
    split; [apply hex_encode_utf8|apply enc_uint_wf].
  - apply wf_enc_slice, Forall_forall. intros u Hu%encode_revoked. by apply enc_string_wf, HR.
  - apply wf_enc_slice, Forall_forall. intros e (d & -> & _)%encode_seen. apply enc_string_wf, hex_encode_utf8.
Qed.

Lemma encode_ledger_depth l : json_depth (enc_state (encode_ledger l)) <= maxNestingDepth.
Proof.
  trans (1 + 1); [|done]. apply depth_struct; [lia|]. rewrite !Forall_cons, Forall_nil. split_and!; cbn [snd]; try done.
  - apply (depth_map _ _ 0); [lia|]. done.
  - apply (depth_slice _ _ 0); [lia|]. by apply Forall_forall.
  - apply (depth_slice _ _ 0); [lia|]. by apply Forall_forall.
Qed.

(** The file decodes to the ledger it was written from. *)
Lemma decode_ledger l :
  wf_ledger l -> decodeJSON (dec_struct state_fields) zero_state (ledger_bytes l) = Ok (encode_ledger l).
Proof.
  intros Hwf. unfold ledger_bytes. rewrite decode_marshal; [|by apply encode_ledger_wf|apply encode_ledger_depth].
  apply dec_enc_state; [done|]. intros e k (i & -> & Hi)%(proj1 (encode_policies_lookup l e k)).
  destruct (wl_policies _ Hwf _ _ Hi). lia.
Qed.

(** ** Loading *)

Lemma load_policies_valid l m :
  (forall e k, (e, k) ∈ l -> exists i, e = hex_encode i /\ length i = 32%nat /\ k <> 0) -> NoDup l.*1 ->
  exists m', load_policies m l = Ok m' /\
    forall i k, m' !! i = Some k <-> (hex_encode i, k) ∈ l \/ ((hex_encode i ∉ l.*1) /\ m !! i = Some k).
Proof.
  revert m. induction l as [|[e k] l IH]; intros m HV HN.
  { exists m. split; [done|]. intros i k. cbn. set_solver. }
  destruct (HV e k) as (i & -> & Hi & Hk); [by left|]. apply NoDup_cons in HN as [Hni HN].
  destruct (IH (<[i := k]> m)) as (m' & Em & Hm'); [intros; apply HV; by right|done|]. exists m'. split.
  - cbn [load_policies]. unfold decodeIssue. rewrite (proj2 (hex_canonical_Ok _ _ _ _)) by done.
    by destruct (Z.eqb_spec k 0).
  - intros j kj. rewrite Hm'. cbn [fmap list_fmap fst] in *. rewrite !elem_of_cons.
    destruct (decide (j = i)) as [->|Hji].
    + rewrite lookup_insert_eq. split.
      * intros [H|[_ [= <-]]]; [|by left; left]. exfalso. apply Hni, list_elem_of_fmap. by exists (hex_encode i, kj).
      * intros [[[= <-]|H]|[H _]]; [by right|by left|]. exfalso. apply H. by left.
    + rewrite lookup_insert_ne by done. assert (hex_encode j <> hex_encode i) as Hne by (by intros ?%hex_encode_inj).
      split.
      * intros [H|[H1 H2]]; [by left; right|]. right. split; [|done]. by intros [?|?].
      * intros [[[= ? <-]|H]|[H1 H2]]; [done|by left|right]. split; [|done]. intros ?. apply H1. by right.
Qed.

Lemma load_revoked_valid l m :
  (forall u, u ∈ l -> blank u = false) -> load_revoked m l = Ok (list_to_set l ∪ m).
Proof.
  revert m. induction l as [|u l IH]; intros m HV; cbn [load_revoked]; [by f_equal; set_solver|].
  rewrite HV by (by left). cbn [fail_if mbind result_bind]. rewrite IH by (intros; apply HV; by right).
  f_equal. set_solver.
Qed.

Lemma load_seen_valid l m :
  (forall e, e ∈ l -> exists d, e = hex_encode d /\ length d = 32%nat) ->
  exists m', load_seen m l = Ok m' /\ forall d, d ∈ m' <-> hex_encode d ∈ l \/ d ∈ m.
Proof.
  revert m. induction l as [|e l IH]; intros m HV; cbn [load_seen].
  { exists m. split; [done|]. set_solver. }
  destruct (HV e) as (d & -> & Hd); [by left|].
  rewrite length_hex_encode, Hd. cbn [Nat.eqb Nat.mul Nat.add negb fail_if mbind result_bind]. rewrite hex_decode_encode.
  destruct (IH ({[d]} ∪ m)) as (m' & -> & Hm'); [intros; apply HV; by right|]. exists m'. split; [done|].
  intros d'. rewrite Hm', elem_of_union, elem_of_singleton, elem_of_cons.
  assert (hex_encode d' = hex_encode d <-> d' = d) as -> by (split; [apply hex_encode_inj|by intros ->]). tauto.
Qed.

Section facts.
Context `{CR : !Crypto, CL : !CryptoLaws, GR : !Groth16}.

Definition ledger_of (s : Service) : Ledger := mkLedger (sv_policies s) (sv_revoked s) (sv_seen s).

Lemma ledger_text_bytes s : ledger_text s = ledger_bytes (ledger_of s).
Proof. done. Qed.

(** A service that has just read the ledger [l]. *)
Definition fresh_service (path : string) (l : Ledger) : Service :=
  set_seen (set_revoked (set_policies (newService path) (lg_policies l)) (lg_revoked l)) (lg_seen l).

Lemma load_encoded path l file :
  wf_ledger l -> on_disk file l -> blank path = false ->
  NewPersistentService path file = Ok (fresh_service path l).
Proof.
  intros Hwf HF Hb. pose proof Hwf as [HP HR HS]. unfold NewPersistentService. rewrite Hb. cbn [fail_if mbind result_bind].
  destruct file as [raw|]; cbn [on_disk] in HF; subst; [|done]. cbn [loadState].
  rewrite decode_ledger by done. cbn [mbind result_bind].
  cbn [ds_Version encode_ledger Z.eqb Pos.eqb negb fail_if mbind result_bind].
  cbn [sv_policies sv_revoked sv_seen newService].
  destruct (load_policies_valid (map_to_list (ds_Policies (encode_ledger l))) ∅) as (m & -> & Hm).
  { intros e k (i & -> & Hi)%encode_policies. destruct (HP _ _ Hi). exists i. split; [done|]. split; [done|lia]. }
  { apply NoDup_fst_map_to_list. }
  cbn [mbind result_bind].
  rewrite load_revoked_valid by (by intros u [? _]%encode_revoked%HR). cbn [mbind result_bind].
  destruct (load_seen_valid (ds_Seen (encode_ledger l)) ∅) as (m' & -> & Hm').
  { intros e (d & -> & ?%HS)%encode_seen. by exists d. }
  cbn [mbind result_bind]. unfold fresh_service. f_equal.
  assert (m = lg_policies l) as ->.
  { apply map_eq. intros i. apply option_eq. intros k. rewrite Hm, encode_policies, lookup_empty. split.
    - intros [(j & ->%hex_encode_inj & ?)|[_ ?]]; done.
    - intros ?. left. by exists i. }
  assert (m' = lg_seen l) as ->.
  { apply set_eq. intros d. rewrite Hm', encode_seen. split.
    - intros [(d' & ->%hex_encode_inj & ?)|?]; [done|set_solver].
    - intros ?. left. by exists d. }
  f_equal. f_equal. apply set_eq. intros u. rewrite elem_of_union, elem_of_list_to_set, encode_revoked. set_solver.
Qed.

(** ** Rings *)

Definition active_ids (s : Service) : gset string := dom (filter (fun kv => kv.2 = true) (sv_active s)).
Definition account_at (s : Service) (id : string) : Account :=
  reg_Account (default zero_registration (sv_accounts s !! id)).

Lemma elem_of_active_ids s id : id ∈ active_ids s <-> is_active s id = true.
Proof.
  unfold active_ids, is_active. rewrite elem_of_dom. split.
  - intros [b [E Hb]%map_lookup_filter_Some]. cbn in Hb. by rewrite E, Hb.
  - intros H. exists true. apply map_lookup_filter_Some. split; [|done].
    by destruct (sv_active s !! id) as [[]|].
Qed.

Lemma ring_ids s : (ring s).1 ≡ₚ elements (active_ids s).
Proof. cbn [ring fst]. apply merge_sort_Permutation. Qed.

Lemma elem_of_ring s id : id ∈ (ring s).1 <-> is_active s id = true.
Proof. by rewrite ring_ids, elem_of_elements, elem_of_active_ids. Qed.

Lemma ring_ids_sorted s : NoDup (ring s).1 /\ StronglySorted String.le (ring s).1.
Proof. split; [rewrite ring_ids; apply NoDup_elements|]. apply (StronglySorted_merge_sort _). Qed.

Lemma ring_accounts s : (ring s).2 = account_at s <$> (ring s).1.
Proof. done. Qed.

Lemma ring_accounts_perm s : (ring s).2 ≡ₚ account_at s <$> elements (active_ids s).
Proof. by rewrite ring_accounts, ring_ids. Qed.

Definition ring_ok (s : Service) : Prop := is_ok (NewSnapshot (sv_params s) (ring s).2) = true.

Lemma NewSnapshot_perm p l l' : l ≡ₚ l' -> is_ok (NewSnapshot p l) = true -> is_ok (NewSnapshot p l') = true.
Proof using CL.
  intros HP (sn & (v & (tau & ms & Hs & Hm & Hl & Hz & _)%Accumulate_Ok & _)%NewSnapshot_Ok)%is_ok_exists.
  destruct (ring_members_perm l l' ms HP Hm) as (ms' & Hp & Hm').
  apply is_ok_exists. eexists. apply NewSnapshot_Ok. eexists. split; [|reflexivity].
  apply Accumulate_Ok. exists tau, ms'. split; [done|]. split; [done|]. split; [by rewrite <- HP|]. split; [|done].
  by rewrite <- (member_product_perm tau ms ms').
Qed.

(** Removing accounts, or adding one [Join] accepts, keeps the ring valid. *)
Lemma ring_ok_smaller s s' :
  sv_params s' = sv_params s -> active_ids s' ⊆ active_ids s ->
  (forall id, id ∈ active_ids s' -> account_at s' id = account_at s id) -> ring_ok s -> ring_ok s'.
Proof using CL.
  intros EP Hsub Heq HR. unfold ring_ok in *. rewrite EP.
  assert ((ring s').2 ≡ₚ account_at s <$> elements (active_ids s')) as HP.
  { rewrite ring_accounts_perm. erewrite list_fmap_ext; [reflexivity|]. intros i id Hid%list_elem_of_lookup_2.
    by apply Heq, elem_of_elements. }
  eapply NewSnapshot_perm; [symmetry; exact HP|].
  apply elements_submseteq in Hsub. apply (fmap_submseteq (account_at s)) in Hsub.
  rewrite <- ring_accounts_perm in Hsub. apply submseteq_Permutation in Hsub as [k Hk].
  apply (NewSnapshot_perm _ _ _ Hk) in HR. apply is_ok_exists in HR as [sn HR].
  eapply NewSnapshot_sublist in HR; [|apply sublist_inserts_r; reflexivity]. apply is_ok_exists. exact HR.
Qed.

Lemma ring_ok_join s id a sn sn' :
  id ∉ active_ids s -> account_at s id = a -> NewSnapshot (sv_params s) (ring s).2 = Ok sn -> Join sn a = Ok sn' ->
  ring_ok (set_active s (<[id := true]> (sv_active s))).
Proof using CL.
  intros Hn Ha (v & _ & ->)%NewSnapshot_Ok HJ. unfold Join in HJ. cbn [sn_params sn_accounts] in HJ.
  set (s' := set_active _ _). assert (active_ids s' = {[id]} ∪ active_ids s) as Hids.
  { apply set_eq. intros j. rewrite elem_of_union, elem_of_singleton, !elem_of_active_ids.
    unfold s', is_active. cbn [sv_active set_active]. destruct (decide (j = id)) as [->|Hj].
    - rewrite lookup_insert_eq. cbn. tauto.
    - rewrite lookup_insert_ne by done. tauto. }
  unfold ring_ok. change (sv_params s') with (sv_params s).
  eapply NewSnapshot_perm; [|apply is_ok_exists; exists sn'; exact HJ].
  rewrite ring_accounts_perm, (ring_accounts_perm s'), Hids, elements_union_singleton by done.
  change (account_at s') with (account_at s). cbn [fmap list_fmap]. rewrite Ha. by rewrite Permutation_app_comm.
Qed.
End facts.
