(* ===== verification/ServiceSteps.v ===== *)
(** * The invariant of the service

    [wf_service] holds of a new service and every request preserves it; what
    a request changes is [stepped]. Histories ([reachable]) interleave requests,
    with any failure of the ledger file, and restarts from that file. *)

From S2P Require Import Prelude Bytes Sha256 Curve Profile Accumulator Circuit CircuitFacts.
From S2P Require Import Statements Backend BackendFacts Protocol ProtocolFacts Wire Text Json JsonStream JsonFacts JsonStreamFacts Service.
From S2P Require Import ServiceFacts.

Section facts.
Context `{CR : !Crypto, CL : !CryptoLaws, GR : !Groth16}.

(** The widths of the Go types of a request; strings read from JSON are
    UTF-8. *)
Record wf_request (q : Request) : Prop := mk_wf_request {
  wq_k : 0 <= q_K q < 2 ^ 32;
  wq_ts : 0 <= q_Timestamp q < 2 ^ 64;
  wq_user : utf8_string (q_User q);
}.

(** What [crypto/rand] documents. *)
Definition wf_env (env : Env) : Prop := rand_in_range (env_setup env).

Record wf_service (s : Service) : Prop := mk_wf_service {
  wv_ledger : wf_ledger (ledger_of s);
  wv_users : forall u sg, sv_users s !! u = Some sg ->
    (blank u = false /\ utf8_string u) /\ exists x, signer_ok sg x;
  wv_accounts : forall id r, sv_accounts s !! id = Some r ->
    exists sg x d, sv_users s !! reg_UserID r = Some sg /\ s_x sg = Some x /\
      NewAccount (Some x) (Some d) = Ok (reg_Account r);
  wv_active : forall id, is_active s id = true ->
    exists r, sv_accounts s !! id = Some r /\ reg_UserID r ∉ sv_revoked s;
  wv_backend : match sv_prover s with
    | None => sv_accounts s = ∅ /\ sv_verifier s = None
    | Some p => exists rand v, sv_verifier s = Some v /\ NewBackend rand = Ok (p, v)
    end;
  wv_ring : is_Some (sv_prover s) -> ring_ok s;
}.

Lemma wf_ledger_empty : wf_ledger no_ledger.
Proof. constructor; cbn; [intros ?? []%lookup_empty_Some|set_solver|set_solver]. Qed.

Lemma fresh_service_wf path l : wf_ledger l -> wf_service (fresh_service path l).
Proof.
  intros Hl. destruct l as [ps rs ss]. constructor; cbn; try done.
Qed.

(** What a request may do: the invariant holds afterwards, the ledger grows,
    and the file is as it was or holds the new ledger. *)
Record stepped (w w' : World) : Prop := mk_stepped {
  sp_wf : wf_service (w_service w');
  sp_ledger : ledger_le (ledger_of (w_service w)) (ledger_of (w_service w'));
  sp_path : sv_statePath (w_service w') = sv_statePath (w_service w);
  sp_file : w_file w' = w_file w \/ w_file w' = Some (ledger_bytes (ledger_of (w_service w')));
}.

Lemma stepped_refl w : wf_service (w_service w) -> stepped w w.
Proof. intros H. constructor; [done|reflexivity|done|by left]. Qed.

Lemma persistState_stepped f w s e w' :
  wf_service s -> ledger_le (ledger_of (w_service w)) (ledger_of s) -> sv_statePath s = sv_statePath (w_service w) ->
  persistState f (mkWorld s (w_file w)) = (e, w') -> stepped w w' /\ w_service w' = s.
Proof.
  intros Hwf Hle Hp. unfold persistState. cbn [w_service w_file].
  destruct (String.eqb _ _); [|destruct f as [[]|]]; intros [= <- <-]; (split; [constructor; cbn; auto|done]).
Qed.

Lemma persisted_stepped env l o w s out e w' :
  wf_service s -> ledger_le (ledger_of (w_service w)) (ledger_of s) -> sv_statePath s = sv_statePath (w_service w) ->
  persisted env l o (mkWorld s (w_file w)) = (out, e, w') -> stepped w w'.
Proof.
  intros Hwf Hle Hp. unfold persisted. destruct (persistState _ _) as [e0 w0] eqn:E.
  apply persistState_stepped in E as [H _]; [|done..]. by destruct e0; intros [= <- <- <-].
Qed.

(** ** Requests that change the membership *)

(** A service without a setup takes one: there are no accounts yet. *)
Lemma set_setup_wf s p pr v rand :
  wf_service s -> sv_prover s = None -> ValidateParams p = Ok tt -> NewBackend rand = Ok (pr, v) -> wf_service (set_setup s p pr v).
Proof using CL.
  intros Hwf EP HV EB. pose proof (wv_backend _ Hwf) as Hb. rewrite EP in Hb. destruct Hb as [Hacc Hver].
  destruct Hwf as [Hl Hu Ha Hact _ _]. constructor; try done; [by exists rand, v|].
  intros _. unfold ring_ok. assert ((ring (set_setup s p pr v)).2 = []) as ->.
  { rewrite ring_accounts. assert ((ring (set_setup s p pr v)).1 = []) as ->; [|done].
    apply elem_of_nil_inv. intros id Hid%elem_of_ring. destruct (Hact id Hid) as (r & Hr & _).
    rewrite Hacc in Hr. by rewrite lookup_empty in Hr. }
  cbn [sv_params set_setup]. apply ValidateParams_srs in HV as [tau Hs].
  apply is_ok_exists. eexists. apply NewSnapshot_Ok. eexists. split; [|reflexivity].
  apply Accumulate_Ok. exists tau, []. split; [done|]. split; [split; constructor|].
  pose proof (srs_length _ _ Hs). cbn. split; [lia|]. split; [apply cong_1_0, order_prime|done].
Qed.

Lemma run_setup_stepped env q w out e w' :
  wf_env env -> wf_service (w_service w) -> run_setup env q w = (out, e, w') -> stepped w w'.
Proof using CL.
  intros Henv Hwf. unfold run_setup. destruct (sv_prover (w_service w)) as [p|] eqn:EP.
  { intros [= <- <- <-]. by apply stepped_refl. }
  destruct (Setup _ _) as [p|e0] eqn:ES; [|intros [= <- <- <-]; by apply stepped_refl].
  destruct (NewBackend _) as [[pr v]|e0] eqn:EB; [|intros [= <- <- <-]; by apply stepped_refl].
  apply persisted_stepped; [|reflexivity|done]. eapply set_setup_wf; [done|done| |done].
  apply Setup_srs in ES as (_ & _ & tau & Hs); [|done]. apply ValidateParams_srs. by exists tau.
Qed.

Lemma KeyGen_Ok rx rd ex a x :
  KeyGen rx rd ex = Ok (a, x) -> (forall y, ex = Some y -> x = y) /\ exists d, NewAccount (Some x) (Some d) = Ok a.
Proof.
  unfold KeyGen. destruct ex as [y|]; intros E; go_inv E; subst; (split; [|eauto]).
  - injection Hc as <-. by intros ? [= <-].
  - done.
Qed.

(** The invariant under the updates of single fields. *)
Lemma wf_set_users s users :
  wf_service s ->
  (forall u sg, users !! u = Some sg -> (blank u = false /\ utf8_string u) /\ exists x, signer_ok sg x) ->
  (forall u sg, sv_users s !! u = Some sg -> exists sg', users !! u = Some sg' /\ s_x sg' = s_x sg) ->
  wf_service (set_users s users).
Proof.
  intros [Hl Hu Ha Hact Hb Hr] H1 H2. constructor; try done.
  intros id r (sg & x & d & E & Ex & HN)%Ha. apply H2 in E as (sg' & E & Ex').
  exists sg', x, d. split; [done|]. split; [congruence|done].
Qed.

Lemma wf_add_account s id r sg x d :
  wf_service s -> sv_accounts s !! id = None -> is_Some (sv_prover s) ->
  sv_users s !! reg_UserID r = Some sg -> s_x sg = Some x -> NewAccount (Some x) (Some d) = Ok (reg_Account r) ->
  wf_service (set_accounts s (<[id := r]> (sv_accounts s))).
Proof using CL.
  intros Hwf Hid Hp Hsg Hx HN. pose proof Hwf as [Hl Hu Ha Hact Hb Hr]. constructor; try done; cbn [set_accounts sv_accounts sv_users].
  - intros j r' [[-> <-]|[Hj E]]%lookup_insert_Some; [|by apply Ha in E].
    exists sg, x, d. done.
  - intros j Hj. destruct (Hact j Hj) as (r' & E & Hn). exists r'. split; [|done]. rewrite lookup_insert_ne; [done|].
    intros <-. congruence.
  - cbn. destruct (sv_prover s) as [p|]; [done|]. by destruct Hp.
  - intros _. apply (ring_ok_smaller s); [done|done| |by apply Hr]. intros j Hj%elem_of_active_ids.
    destruct (Hact j Hj) as (r' & E & _). unfold account_at. cbn [set_accounts sv_accounts].
    rewrite lookup_insert_ne; [done|]. intros <-. congruence.
Qed.

Lemma keygen_account_Ok env s user a users :
  wf_service s -> blank user = false /\ utf8_string user -> keygen_account env s user = Ok (a, users) ->
  wf_service (set_users s users) /\
  exists sg x d, users !! user = Some sg /\ s_x sg = Some x /\ NewAccount (Some x) (Some d) = Ok a.
Proof.
  intros Hwf Hb. unfold keygen_account. destruct (sv_users s !! user) as [sg|] eqn:EU; intros E.
  - apply bind_Ok in E as ([a' x] & (Hx & d & HN)%KeyGen_Ok & [= <- <-]).
    destruct (wv_users _ Hwf _ _ EU) as (_ & y & Hy). pose proof (so_x _ _ Hy) as Ey. rewrite (Hx y) in HN by done.
    split; [by destruct s|]. exists sg, y, d. done.
  - apply bind_Ok in E as ([a' x] & (_ & d & HN)%KeyGen_Ok & E). apply bind_Ok in E as (sg & HS & [= <- <-]).
    apply NewSigner_ok in HS as [Hok _]. split.
    + apply wf_set_users; [done| |].
      * intros u sg' [[<- <-]|[Hu E]]%lookup_insert_Some; [by eauto|by apply (wv_users _ Hwf) in E].
      * intros u sg' E. exists sg'. split; [|done]. rewrite lookup_insert_ne; [done|]. intros <-. congruence.
    + exists sg, x, d. rewrite lookup_insert_eq. split; [done|]. split; [apply Hok|done].
Qed.

Lemma run_keygen_stepped env q w out e w' :
  is_Some (sv_prover (w_service w)) -> wf_request q -> wf_service (w_service w) -> run_keygen env q w = (out, e, w') ->
  stepped w w'.
Proof using CL.
  intros Hp Hq Hwf. unfold run_keygen. cbv zeta. pose proof (stepped_refl w Hwf) as Hrefl.
  destruct (blank (q_User q)) eqn:HbU; cbn [orb]; [by intros [= <- <- <-]|].
  destruct (blank (q_Account q)); [by intros [= <- <- <-]|].
  case_bool_decide as HA; [by intros [= <- <- <-]|]. apply eq_None_not_Some in HA.
  case_bool_decide; [by intros [= <- <- <-]|].
  destruct (keygen_account _ _ _) as [[a users]|e0] eqn:EK; [|by intros [= <- <- <-]].
  apply keygen_account_Ok in EK as (Hwf1 & sg & x & d & Hsg & Hx & HN); [|done|split; [done|apply Hq]].
  set (s1 := set_users _ users) in *. set (s2 := set_accounts s1 _).
  assert (wf_service s2) as Hwf2 by (by eapply wf_add_account).
  assert (set_accounts s2 (delete (q_Account q) (sv_accounts s2)) = s1) as ->.
  { unfold s2, set_accounts. cbn [sv_accounts]. rewrite delete_insert_id by done. by destruct s1. }
  destruct (persistState _ _) as [e0 w0] eqn:EP. apply persistState_stepped in EP as [Hst Hs]; [|done|reflexivity|done].
  destruct e0 as [e0|]; intros [= <- <- <-]; [|done].
  constructor; cbn [w_service w_file]; [done|reflexivity|done|].
  destruct (sp_file _ _ Hst) as [E|E]; [by left|right]. by rewrite E, Hs.
Qed.

Lemma account_at_Some s id r : sv_accounts s !! id = Some r -> account_at s id = reg_Account r.
Proof. unfold account_at. by intros ->. Qed.

(** An account of the ring cannot join again. *)
Lemma Join_inactive s id sn sn' :
  NewSnapshot (sv_params s) (ring s).2 = Ok sn -> Join sn (account_at s id) = Ok sn' -> is_active s id = false.
Proof using CL.
  intros (v & _ & ->)%NewSnapshot_Ok HJ. destruct (is_active s id) eqn:E; [|done]. exfalso.
  apply elem_of_ring in E. unfold Join in HJ. cbn [sn_params sn_accounts] in HJ.
  apply NewSnapshot_Ok in HJ as (v' & (tau & ms & _ & Hms & _)%Accumulate_Ok & _).
  assert (account_at s id ∈ (ring s).2) as (l1 & l2 & El)%list_elem_of_split.
  { rewrite ring_accounts. by apply list_elem_of_fmap_2. }
  rewrite El, <- app_assoc in Hms. cbn [app] in Hms.
  apply ring_members_middle in Hms as (m & ms1 & ms2 & _ & Hm & _ & HF & _ & Hn & _).
  apply Hn. apply Forall2_app_inv_l in HF as (ms3 & ms4 & _ & HF & ->).
  apply Forall2_cons_inv_l in HF as (m' & ms5 & Hm' & _ & ->). assert (m' = m) as -> by congruence.
  apply elem_of_app. right. by left.
Qed.

Lemma is_active_insert s id b j :
  is_active (set_active s (<[id := b]> (sv_active s))) j = if decide (j = id) then b else is_active s j.
Proof.
  unfold is_active. cbn [sv_active set_active]. case_decide as Hj.
  - subst j. by rewrite lookup_insert_eq.
  - by rewrite lookup_insert_ne.
Qed.

Lemma run_join_stepped env q w out e w' :
  wf_service (w_service w) -> run_join env q w = (out, e, w') -> stepped w w'.
Proof using CL.
  intros Hwf. unfold run_join. cbv zeta. pose proof (stepped_refl w Hwf) as Hrefl.
  set (s := w_service w) in *.
  destruct (sv_accounts s !! q_Account q) as [r|] eqn:EA; [|by intros [= <- <- <-]].
  destruct (NewSnapshot _ _) as [sn|e0] eqn:ES; [|by intros [= <- <- <-]].
  case_bool_decide as HR; [by intros [= <- <- <-]|].
  destruct (Join _ _) as [sn'|e0] eqn:EJ; [|by intros [= <- <- <-]].
  apply persisted_stepped; [|reflexivity|done].
  pose proof Hwf as [Hl Hu Ha Hact Hb Hr]. constructor; try done.
  - intros j. rewrite is_active_insert. case_decide as Hj; [|apply Hact]. subst j. intros _. by exists r.
  - intros _. pose proof (account_at_Some s _ _ EA) as Eat. rewrite <- Eat in EJ. eapply ring_ok_join; [| |exact ES|exact EJ]; [|done].
    rewrite elem_of_active_ids. by rewrite (Join_inactive s _ _ _ ES EJ).
Qed.

Lemma wf_deactivate s active revoked :
  wf_service s ->
  (forall u, u ∈ revoked -> blank u = false /\ utf8_string u) ->
  (forall id r, default false (active !! id) = true -> sv_accounts s !! id = Some r ->
     is_active s id = true /\ reg_UserID r ∉ revoked) ->
  (forall id, default false (active !! id) = true -> is_active s id = true) ->
  wf_service (set_revoked (set_active s active) revoked).
Proof using CL.
  intros Hwf Hrev H1 H2. pose proof Hwf as [[Hl1 Hl2 Hl3] Hu Ha Hact Hb Hr]. constructor; try done.
  - intros id Hid. destruct (Hact id (H2 id Hid)) as (r & E & _). exists r. split; [done|]. by apply (H1 id r).
  - intros Hp. apply (ring_ok_smaller s); [done| |done|by apply Hr].
    intros id. rewrite !elem_of_active_ids. apply H2.
Qed.

Lemma run_exit_stepped env q w out e w' :
  wf_service (w_service w) -> run_exit env q w = (out, e, w') -> stepped w w'.
Proof using CL.
  intros Hwf. unfold run_exit. cbv zeta. pose proof (stepped_refl w Hwf) as Hrefl.
  set (s := w_service w) in *.
  destruct (sv_accounts s !! q_Account q) as [r|] eqn:EA; [|by intros [= <- <- <-]].
  destruct (NewSnapshot _ _) as [sn|e0] eqn:ES; [|by intros [= <- <- <-]].
  destruct (is_active s (q_Account q)) eqn:EI; cbn [negb]; [|by intros [= <- <- <-]].
  destruct (mbind _ _) as [sn'|e0]; [|by intros [= <- <- <-]].
  apply persisted_stepped; [|reflexivity|done].
  assert (forall id, is_active (set_active s (<[q_Account q := false]> (sv_active s))) id = true -> is_active s id = true) as H.
  { intros id. rewrite is_active_insert. by case_decide. }
  change (wf_service (set_revoked (set_active s (<[q_Account q := false]> (sv_active s))) (sv_revoked s))).
  apply wf_deactivate; [done|apply (wl_revoked _ (wv_ledger _ Hwf))| |exact H].
  intros id r' Hid%H Hr'. split; [done|]. destruct (wv_active _ Hwf _ Hid) as (r'' & E & ?). by simplify_eq.
Qed.

Lemma deactivate_lookup user accounts active id :
  deactivate user accounts active !! id =
    match accounts !! id with
    | Some r => if bool_decide (reg_UserID r = user) then Some false else active !! id
    | None => active !! id
    end.
Proof.
  unfold deactivate. rewrite lookup_union, map_lookup_imap.
  destruct (accounts !! id) as [r|]; cbn; [|by rewrite (left_id_L None _)].
  case_bool_decide; [by destruct (active !! id)|]. by rewrite (left_id_L None _).
Qed.

Lemma run_revoke_stepped env q w out e w' :
  wf_service (w_service w) -> run_revoke env q w = (out, e, w') -> stepped w w'.
Proof using CL.
  intros Hwf. unfold run_revoke. cbv zeta. pose proof (stepped_refl w Hwf) as Hrefl.
  set (s := w_service w) in *. case_bool_decide as HU; cbn [negb]; [|by intros [= <- <- <-]].
  destruct HU as [sg HU]. destruct (wv_users _ Hwf _ _ HU) as [Hbl _].
  apply persisted_stepped; [|constructor; cbn; set_solver|done].
  assert (forall id, default false (deactivate (q_User q) (sv_accounts s) (sv_active s) !! id) = true ->
     is_active s id = true /\ forall r, sv_accounts s !! id = Some r -> reg_UserID r <> q_User q) as H.
  { intros id. rewrite deactivate_lookup. destruct (sv_accounts s !! id) as [r|]; [|by intros ?].
    case_bool_decide; [done|]. intros ?. split; [done|]. by intros ? [= <-]. }
  apply wf_deactivate; [done| | |intros id Hid; by apply H].
  - intros u [->%elem_of_singleton|Hin]%elem_of_union; [done|]. by apply (wl_revoked _ (wv_ledger _ Hwf)).
  - intros id r [Hid Hne]%H Hr. split; [done|]. apply Hne in Hr as Hn.
    destruct (wv_active _ Hwf _ Hid) as (r' & E & ?). simplify_eq. set_solver.
Qed.

(** ** Requests on an issue *)

Lemma policy_Ok s issue k create :
  policy s issue k create = Ok tt <->
  k <> 0 /\ (sv_policies s !! issue = Some k \/ sv_policies s !! issue = None /\ create = true).
Proof.
  unfold policy. rewrite bind_fail_if, Z.eqb_neq.
  destruct (sv_policies s !! issue) as [old|]; rewrite fail_if_Ok, negb_false_iff, ?Z.eqb_eq; naive_solver.
Qed.

Lemma decodeIssue_Ok s issue : decodeIssue s = Ok issue <-> s = hex_encode issue /\ length issue = 32%nat.
Proof. apply hex_canonical_Ok. Qed.

(** The common part of the requests on an issue. *)
Lemma issue_inputs q s c issue msg ctx :
  (issue ← decodeIssue (q_Issue q);
   msg ← decodeB64 (q_Message q);
   _ ← policy s issue (q_K q) c;
   ctx ← NewVerificationContext (sv_params s) (ring s).2 issue (q_K q);
   Ok (issue, msg, ctx)) = Ok (issue, msg, ctx) <->
  (q_Issue q = hex_encode issue /\ length issue = 32%nat) /\ decodeB64 (q_Message q) = Ok msg /\
  policy s issue (q_K q) c = Ok tt /\ NewVerificationContext (sv_params s) (ring s).2 issue (q_K q) = Ok ctx.
Proof.
  rewrite <- decodeIssue_Ok. split.
  - intros E. apply bind_Ok in E as (i & H1 & E). apply bind_Ok in E as (m & H2 & E).
    apply bind_Ok in E as ([] & H3 & E). apply bind_Ok in E as (c' & H4 & [= -> -> ->]). done.
  - intros (-> & -> & H3 & H4). cbn [mbind result_bind]. rewrite H3. cbn [mbind result_bind]. by rewrite H4.
Qed.

Lemma account_index_lookup account ids i idx :
  0 <= i -> idx < 0 -> NoDup ids ->
  forall j, account_index account i ids idx = j -> 0 <= j -> i <= j /\ ids !! Z.to_nat (j - i) = Some account.
Proof.
  intros Hi Hidx HN j. revert i idx Hi Hidx.
  assert (forall ids i idx, account ∉ ids -> account_index account i ids idx = idx) as Habs.
  { clear. induction ids as [|x ids IH]; intros i idx Hn; [done|]. apply not_elem_of_cons in Hn as [Hne Hn].
    cbn [account_index]. rewrite bool_decide_eq_false_2 by done. by apply IH. }
  induction HN as [|x ids Hx HN IH]; intros i idx Hi Hidx; cbn [account_index]; [lia|].
  case_bool_decide as E.
  - subst x. rewrite Habs by done. intros <- _. split; [lia|]. by rewrite Z.sub_diag.
  - intros EJ Hj. destruct (IH (i + 1) idx) as [H1 H2]; [lia|done|done|done|]. split; [lia|].
    replace (Z.to_nat (j - i)) with (S (Z.to_nat (j - (i + 1)))) by lia. done.
Qed.

(** The signer, the account and the ring position of a request to sign. *)
Lemma sign_position s account :
  wf_service s -> 0 <= account_index account 0 (ring s).1 (-1) ->
  exists r sg x d, (ring s).2 !! Z.to_nat (account_index account 0 (ring s).1 (-1)) = Some (reg_Account r) /\
    sv_accounts s !! account = Some r /\ sv_users s !! reg_UserID r = Some sg /\ signer_ok sg x /\
    a_D (reg_Account r) = Some d /\ NewAccount (Some x) (Some d) = Ok (reg_Account r) /\
    is_active s account = true.
Proof.
  intros Hwf Hi. set (i := account_index _ _ _ _) in *.
  destruct (account_index_lookup account (ring s).1 0 (-1) ltac:(lia) ltac:(lia) (proj1 (ring_ids_sorted s)) i eq_refl Hi)
    as [_ Hl]. rewrite Z.sub_0_r in Hl.
  pose proof (list_elem_of_lookup_2 _ _ _ Hl) as Hact%elem_of_ring.
  destruct (wv_active _ Hwf _ Hact) as (r & Er & _). destruct (wv_accounts _ Hwf _ _ Er) as (sg & x & d & Esg & Ex & HN).
  destruct (wv_users _ Hwf _ _ Esg) as (_ & y & Hok). assert (y = x) as -> by (destruct Hok; congruence).
  exists r, sg, x, d. rewrite ring_accounts, list_lookup_fmap, Hl. cbn [fmap option_fmap option_map].
  rewrite (account_at_Some _ _ _ Er). repeat (split; [done|]). split; [|done].
  apply NewAccount_Ok in HN. tauto.
Qed.

Lemma wf_sign s user sg sg' x issue k :
  wf_service s -> sv_users s !! user = Some sg -> signer_ok sg x -> signer_ok sg' x ->
  policy s issue k true = Ok tt -> length issue = 32%nat -> 0 <= k < 2 ^ 32 ->
  let s1 := set_users s (<[user := sg']> (sv_users s)) in
  let s2 := set_policies s1 (<[issue := k]> (sv_policies s1)) in
  wf_service s1 /\ wf_service s2 /\ ledger_le (ledger_of s) (ledger_of s2).
Proof.
  intros Hwf EU Hok Hok' [Hk HP]%policy_Ok HI Hkr. cbv zeta. set (s1 := set_users s _). set (s2 := set_policies s1 _).
  assert (wf_service s1) as Hwf1.
  { apply wf_set_users; [done| |].
    - intros u sg0 [[<- <-]|[Hu E]]%lookup_insert_Some; [|by apply (wv_users _ Hwf) in E].
      split; [exact (proj1 (wv_users _ Hwf _ _ EU))|eauto].
    - intros u sg0 E. destruct (decide (u = user)) as [->|Hu].
      + exists sg'. rewrite lookup_insert_eq. split; [done|]. destruct Hok, Hok'. congruence.
      + exists sg0. by rewrite lookup_insert_ne. }
  split; [done|]. split.
  - pose proof Hwf1 as [[Hl1 Hl2 Hl3] Hu Ha Hact Hb Hr]. constructor; try done. constructor; try done.
    cbn [lg_policies ledger_of s2 sv_policies set_policies].
    intros i k' [[<- <-]|[Hi E]]%lookup_insert_Some; [split; [done|lia]|]. by apply Hl1.
  - constructor; cbn [lg_policies lg_revoked lg_seen ledger_of s2 s1 sv_policies sv_revoked sv_seen set_policies set_users];
      try done. destruct HP as [HP|[HP _]]; [by rewrite insert_id|by apply insert_subseteq].
Qed.

Lemma run_sign_stepped env q issue msg w out e w' :
  wf_service (w_service w) -> wf_request q -> length issue = 32%nat ->
  policy (w_service w) issue (q_K q) true = Ok tt -> run_sign env q issue msg w = (out, e, w') -> stepped w w'.
Proof using CL.
  intros Hwf Hq HI HP. unfold run_sign. cbv zeta. pose proof (stepped_refl w Hwf) as Hrefl.
  destruct (ring (w_service w)) as [ids accounts] eqn:ER.
  pose proof (sign_position (w_service w) (q_Account q) Hwf) as Hpos. rewrite ER in Hpos. cbn [fst snd] in Hpos.
  destruct (Z.ltb_spec (account_index (q_Account q) 0 ids (-1)) 0) as [|Hi]; [by intros [= <- <- <-]|].
  destruct (Hpos Hi) as (r & sg & x & d & _ & Er & Esg & Hok & _).
  destruct (NewSnapshot _ _) as [sn|e0]; [|by intros [= <- <- <-]].
  rewrite Er. cbn [default from_option id]. rewrite Esg.
  destruct (Sign _ _ _ _ _ _ _ _ _) as [signed sg'] eqn:ES. destruct (Sign_step _ x _ _ _ _ _ _ _ _ _ _ Hok (proj2 (wq_k _ Hq)) ES) as [Hok' _].
  destruct (wf_sign _ _ _ _ _ _ _ Hwf Esg Hok Hok' HP HI (wq_k _ Hq)) as (Hwf1 & Hwf2 & Hle).
  set (s1 := set_users _ _) in *. set (s2 := set_policies s1 _) in *.
  assert (stepped w (mkWorld s1 (w_file w))) as H1 by (constructor; [done|reflexivity|done|by left]).
  destruct signed as [signed|e0]; [|by intros [= <- <- <-]].
  destruct (MarshalSigned signed) as [enc|e0]; [|by intros [= <- <- <-]]. cbn [w_file].
  destruct (persistState _ _) as [e0 w0] eqn:EP.
  apply persistState_stepped in EP as [Hst _]; [|done|done|done]. by destruct e0; intros [= <- <- <-].
Qed.

Lemma run_verify_stepped env ctx msg enc signed w out e w' :
  wf_service (w_service w) -> run_verify env ctx msg enc signed w = (out, e, w') -> stepped w w'.
Proof using CL.
  intros Hwf. unfold run_verify. cbv zeta. pose proof (stepped_refl w Hwf) as Hrefl.
  case_bool_decide; [by intros [= <- <- <-]|]. destruct (Verify _ _ _ _); [|by intros [= <- <- <-]].
  apply persisted_stepped; [|constructor; cbn; set_solver|done].
  pose proof Hwf as [[Hl1 Hl2 Hl3] Hu Ha Hact Hb Hr]. constructor; try done. constructor; try done.
  cbn [lg_seen ledger_of sv_seen set_seen]. intros d [->%elem_of_singleton|Hd]%elem_of_union; [apply Sha256.length_Sum256|by apply Hl3].
Qed.

Lemma run_issue_stepped env q w out e w' :
  wf_service (w_service w) -> wf_request q -> run_issue env q w = (out, e, w') -> stepped w w'.
Proof using CL.
  intros Hwf Hq. unfold run_issue. cbv zeta. pose proof (stepped_refl w Hwf) as Hrefl.
  destruct (mbind _ _) as [[[issue msg] ctx]|e0] eqn:E0; [|by intros [= <- <- <-]].
  apply issue_inputs in E0 as ((_ & HI) & _ & HP & _).
  destruct (String.eqb_spec (q_Op q) "sign") as [|_]; [by apply run_sign_stepped|].
  destruct (mbind _ _) as [[enc signed]|e0]; [|by intros [= <- <- <-]].
  destruct (String.eqb (q_Op q) "verify"); [by apply run_verify_stepped|].
  destruct (String.eqb (q_Op q) "link" || _); [|by intros [= <- <- <-]].
  destruct (second_signature q) as [[other msg2]|e0]; [|by intros [= <- <- <-]].
  destruct (String.eqb (q_Op q) "link"); unfold run_link, run_trace.
  - by destruct (Link _ _ _ _ _ _ _); intros [= <- <- <-].
  - destruct (NewRegistry _); [|by intros [= <- <- <-]]. by destruct (Trace _ _ _ _ _ _ _ _); intros [= <- <- <-].
Qed.

Lemma run_service_stepped env q w out e w' :
  wf_env env -> wf_request q -> wf_service (w_service w) -> run_service env q w = (out, e, w') -> stepped w w'.
Proof using CL.
  intros Henv Hq Hwf. unfold run_service. cbv zeta. pose proof (stepped_refl w Hwf) as Hrefl.
  destruct (String.eqb (q_Op q) "info"); [by intros [= <- <- <-]|].
  destruct (String.eqb (q_Op q) "setup"); [by apply run_setup_stepped|].
  destruct (sv_prover (w_service w)) as [p|] eqn:Hp; [|by intros [= <- <- <-]].
  destruct (String.eqb (q_Op q) "keygen"); [by apply run_keygen_stepped|].
  destruct (String.eqb (q_Op q) "join"); [by apply run_join_stepped|].
  destruct (String.eqb (q_Op q) "exit"); [by apply run_exit_stepped|].
  destruct (String.eqb (q_Op q) "revoke_user"); [by apply run_revoke_stepped|].
  by apply run_issue_stepped.
Qed.

(** ** Histories *)

(** A request is served, or the process stops and a new service reads the
    ledger file; the crash may come at any point between requests. *)
Inductive step : World -> World -> Prop :=
  | step_request env q w out e w' :
      wf_env env -> wf_request q -> run_service env q w = (out, e, w') -> step w w'
  | step_restart w s :
      NewPersistentService (sv_statePath (w_service w)) (w_file w) = Ok s -> step w (mkWorld s (w_file w)).

Inductive reachable (w : World) : World -> Prop :=
  | reach_refl : reachable w w
  | reach_step w1 w2 : reachable w w1 -> step w1 w2 -> reachable w w2.

(** Memory, and the ledger [disk] in the file, which memory includes. *)
Record wf_world (w : World) (disk : Ledger) : Prop := mk_wf_world {
  ww_service : wf_service (w_service w);
  ww_path : blank (sv_statePath (w_service w)) = false;
  ww_disk : wf_ledger disk;
  ww_file : on_disk (w_file w) disk;
  ww_le : ledger_le disk (ledger_of (w_service w));
}.

Lemma stepped_world w w' disk :
  wf_world w disk -> stepped w w' ->
  exists disk', wf_world w' disk' /\ ledger_le disk disk'.
Proof.
  intros [Hs Hp Hd Hf Hle] [Hs' Hle' Hp' [Ef|Ef]].
  - exists disk. split; [|reflexivity]. constructor; [done|by rewrite Hp'|done|by rewrite Ef|by etrans].
  - exists (ledger_of (w_service w')). split; [|by etrans].
    constructor; [done|by rewrite Hp'|apply Hs'|by rewrite Ef|reflexivity].
Qed.

Lemma restart_world w disk s :
  wf_world w disk -> NewPersistentService (sv_statePath (w_service w)) (w_file w) = Ok s ->
  wf_world (mkWorld s (w_file w)) disk /\ ledger_of s = disk.
Proof.
  intros [Hs Hp Hd Hf Hle] E. rewrite (load_encoded _ disk) in E by done. injection E as <-.
  assert (ledger_of (fresh_service (sv_statePath (w_service w)) disk) = disk) as El by (by destruct disk).
  split; [|done]. constructor; [by apply fresh_service_wf|done|done|done|]. cbn [w_service]. by rewrite El.
Qed.

Lemma step_world w w' disk :
  wf_world w disk -> step w w' -> exists disk', wf_world w' disk' /\ ledger_le disk disk'.
Proof using CL.
  intros Hw H. destruct H as [env q w out e w' He Hq E|w s E].
  - apply run_service_stepped in E; [|done|done|apply Hw]. by apply (stepped_world _ _ _ Hw E).
  - apply (restart_world _ disk) in E as [H _]; [|done]. by exists disk.
Qed.

Lemma reachable_world w w' disk :
  wf_world w disk -> reachable w w' -> exists disk', wf_world w' disk' /\ ledger_le disk disk'.
Proof using CL.
  intros Hw. induction 1 as [|w1 w2 _ IH Hst]; [by exists disk|].
  destruct IH as (d1 & Hw1 & Hle). destruct (step_world _ _ _ Hw1 Hst) as (d2 & Hw2 & Hle2).
  exists d2. split; [done|by etrans].
Qed.

(** What was on disk once is in memory and on disk ever after. *)
Lemma reachable_ledger w w' disk :
  wf_world w disk -> reachable w w' -> wf_service (w_service w') /\ ledger_le disk (ledger_of (w_service w')).
Proof using CL.
  intros Hw Hr. destruct (reachable_world _ _ _ Hw Hr) as (d & [Hs _ _ _ Hle] & Hle').
  split; [done|by etrans].
Qed.

Lemma start_world path s :
  NewPersistentService path None = Ok s -> wf_world (mkWorld s None) no_ledger.
Proof.
  intros E. unfold NewPersistentService in E. apply bind_fail_if in E as [Hb E]. injection E as <-.
  assert (wf_service (fresh_service path no_ledger)) as H by (apply fresh_service_wf, wf_ledger_empty).
  constructor; [exact H|done|apply wf_ledger_empty|done|reflexivity].
Qed.

(** A request that reported success left its ledger on disk. *)
Lemma persistState_None f s file w' :
  blank (sv_statePath s) = false -> persistState f (mkWorld s file) = (None, w') ->
  w' = mkWorld s (Some (ledger_bytes (ledger_of s))).
Proof.
  intros Hb. unfold persistState. cbn [w_service w_file].
  destruct (String.eqb_spec (sv_statePath s) "") as [E|_]; [by rewrite E in Hb|].
  by destruct f as [[]|]; intros [= <-].
Qed.

Lemma persisted_None env l o s file out w' :
  blank (sv_statePath s) = false -> persisted env l o (mkWorld s file) = (out, None, w') ->
  out = o /\ w' = mkWorld s (Some (ledger_bytes (ledger_of s))).
Proof.
  intros Hb. unfold persisted. destruct (persistState _ _) as [[e|] w0] eqn:E; [done|]. intros [= <- <-].
  split; [done|]. by eapply persistState_None.
Qed.

Lemma saved_world w w' disk :
  wf_world w disk -> stepped w w' -> w_file w' = Some (ledger_bytes (ledger_of (w_service w'))) ->
  wf_world w' (ledger_of (w_service w')).
Proof.
  intros [Hs Hp Hd Hf Hle] [Hs' Hle' Hp' _] Ef.
  constructor; [done|by rewrite Hp'|apply Hs'|by rewrite Ef|reflexivity].
Qed.

(** A list of requests served in order. *)
Definition serve (w : World) (eq : Env * Request) : World := (run_service eq.1 eq.2 w).2.

Lemma reachable_serve w w1 l :
  reachable w w1 -> Forall (fun eq => wf_env eq.1 /\ wf_request eq.2) l -> reachable w (foldl serve w1 l).
Proof.
  intros Hr HF. revert w1 Hr. induction HF as [|[env q] l [He Hq] _ IH]; intros w1 Hr; [done|]. cbn [foldl].
  apply IH. destruct (run_service env q w1) as [[out e] w2] eqn:E.
  eapply reach_step; [exact Hr|]. unfold serve. cbn [fst snd] in *. rewrite E. by eapply step_request.
Qed.
End facts.
