(* ===== verification/ServiceClaims.v ===== *)
(** * The properties of the service

    Replay protection, pinned quotas and permanent revocation across requests,
    failed writes and restarts; signatures the service makes are accepted by
    the service; what a request that reports an error leaves behind. *)

From S2P Require Import Prelude Bytes Sha256 Curve Toy Profile Samples Accumulator Circuit.
From S2P Require Import CircuitFacts Statements Backend BackendFacts ToyProofs Protocol.
From S2P Require Import ProtocolFacts Security Wire Text Json JsonStream JsonFacts JsonStreamFacts Service ServiceFacts ServiceSteps.

Section facts.
Context `{CR : !Crypto, CL : !CryptoLaws, GR : !Groth16}.

Lemma decodeB64_Ok s b : decodeB64 s = Ok b <-> s = EncodeToString b.
Proof.
  unfold decodeB64. split.
  - intros E. apply bind_Ok in E as (b' & _ & E). apply bind_fail_if in E as [E [= <-]].
    by apply negb_false_iff, String.eqb_eq in E.
  - intros ->. rewrite DecodeString_encode. cbn [mbind result_bind]. by rewrite String.eqb_refl.
Qed.

(** ** Reading requests *)

(** Every field within its Go type: the integers at their widths, the strings
    UTF-8. *)
Definition wf_fields (q : Request) : Prop :=
  wf_request q /\ - 2 ^ 63 <= q_Capacity q < 2 ^ 63 /\ utf8_string (q_Op q) /\ utf8_string (q_Account q) /\ utf8_string (q_Issue q) /\
  utf8_string (q_Message q) /\ utf8_string (q_Signature q) /\ utf8_string (q_SecondMessage q) /\
  utf8_string (q_SecondSignature q).

Lemma request_fields_wf :
  Forall (fun f => forall j cur cur', utf8_strings j -> wf_fields cur -> f.2 j cur = Ok cur' -> wf_fields cur') request_fields.
Proof.
  assert (forall get set name,
    (forall a, wf_fields a -> utf8_string (get a)) -> (forall x a, wf_fields a -> utf8_string x -> wf_fields (set x a)) ->
    forall j cur cur', utf8_strings j -> wf_fields cur -> (on_field name dec_string get set).2 j cur = Ok cur' -> wf_fields cur')
    as Hstr.
  { intros get set name HG HS. by apply (on_field_inv wf_fields utf8_string), HS; [apply dec_string_utf8|]. }
  unfold request_fields. rewrite !Forall_cons, Forall_nil. split_and!; try done;
    try (apply Hstr; [by intros a [[] ?]; destruct_and!|intros x [] [[] ?] ?; destruct_and!; by repeat split]).
  - apply (on_field_inv wf_fields (fun z => - 2 ^ 63 <= z < 2 ^ 63)); [|by intros a [[] ?]; destruct_and!|].
    + intros j cur x _ Hc. unfold dec_int. destruct j; try done; [by intros [= <-]|]. intros [?|?]%parse_int_range; lia.
    + intros x [] [[] ?] ?; destruct_and!; by repeat split.
  - apply (on_field_inv wf_fields (fun k => 0 <= k < 2 ^ 32)); [apply dec_uint_range|by intros a [[] ?]|].
    intros x [] [[] ?] ?; destruct_and!; by repeat split.
  - apply (on_field_inv wf_fields (fun k => 0 <= k < 2 ^ 64)); [apply dec_uint_range|by intros a [[] ?]|].
    intros x [] [[] ?] ?; destruct_and!; by repeat split.
Qed.

Lemma request_fields_fuel : Forall (fun f => forall j cur, f.2 j cur <> Err out_of_fuel) request_fields.
Proof.
  unfold request_fields. rewrite !Forall_cons, Forall_nil.
  split_and!; try done; apply on_field_fuel; (apply dec_string_fuel || apply dec_uint_fuel || apply dec_int_fuel).
Qed.

Lemma decodeRequest_Ok raw q :
  decodeRequest raw = Ok q <->
  utf8_valid raw = true /\ exists j, parse raw = Ok j /\ clean j = true /\ dec_struct request_fields j zero_request = Ok q.
Proof.
  rewrite <- strictJSON_Ok. unfold decodeRequest, strictJSON. by destruct (utf8_valid raw).
Qed.

Lemma decodeRequest_fields raw q : decodeRequest raw = Ok q -> wf_fields q.
Proof.
  intros (_ & j & HP & _ & Hj)%decodeRequest_Ok.
  apply (dec_struct_inv wf_fields request_fields j zero_request q request_fields_wf); [by apply (parse_utf8 raw)| |done].
  by repeat split.
Qed.

Lemma decodeRequest_wf raw q : decodeRequest raw = Ok q -> wf_request q.
Proof. intros [H _]%decodeRequest_fields. exact H. Qed.

(** C38: reading a request is exact and always ends. [decodeRequest] walks the
    tokens of the text and then decodes it; the walk has enough fuel, and a
    request is accepted exactly when the text is UTF-8, one JSON value in
    which no object at any depth has one key twice and every number is a
    finite float64, and the value decodes into the request. An accepted
    request has every field within its Go type. *)
Theorem decode_request_exact raw :
  decodeRequest raw <> Err out_of_fuel /\
  forall q, (decodeRequest raw = Ok q <->
      utf8_valid raw = true /\ exists j, parse raw = Ok j /\ keys_distinct j /\ numbers_finite j /\
        dec_struct request_fields j zero_request = Ok q) /\
    (decodeRequest raw = Ok q -> wf_fields q).
Proof.
  split.
  - unfold decodeRequest, decodeJSON. destruct (utf8_valid raw); [|done]. cbn [negb fail_if mbind result_bind].
    pose proof (rejectDuplicateJSON_fuel raw) as HR. destruct (rejectDuplicateJSON raw); cbn [mbind result_bind]; [|congruence].
    pose proof (parse_fuel raw) as HP. destruct (parse raw) as [j|e]; cbn [mbind result_bind]; [|congruence].
    apply dec_struct_fuel, request_fields_fuel.
  - intros q. split; [|apply decodeRequest_fields]. rewrite decodeRequest_Ok. setoid_rewrite clean_spec. naive_solver.
Qed.

(** ** The successful requests taken apart *)

Record issue_request (q : Request) (s : Service) (create : bool) (issue msg : bytes) (ctx : VerificationContext) : Prop :=
  mk_issue_request {
    ir_prover : is_Some (sv_prover s);
    ir_issue : q_Issue q = hex_encode issue;
    ir_length : length issue = 32%nat;
    ir_msg : q_Message q = EncodeToString msg;
    ir_policy : policy s issue (q_K q) create = Ok tt;
    ir_ctx : NewVerificationContext (sv_params s) (ring s).2 issue (q_K q) = Ok ctx;
  }.

(** A request on an issue: it is refused with the state unchanged, or its
    inputs are valid. *)
Definition issue_op (op : string) : Prop := op ∈ ["sign"; "verify"; "link"; "trace"].

Lemma issue_op_run env q w :
  issue_op (q_Op q) ->
  run_service env q w = match sv_prover (w_service w) with None => failed "setup required" w | Some _ => run_issue env q w end.
Proof.
  unfold issue_op. intros H. unfold run_service.
  repeat (apply elem_of_cons in H as [->|H]; [reflexivity|]). by apply not_elem_of_nil in H.
Qed.

Lemma issue_request_inv env q w out e w' :
  issue_op (q_Op q) -> run_service env q w = (out, e, w') ->
  (e <> None /\ out = out0 /\ w' = w) \/
  exists issue msg ctx, issue_request q (w_service w) (String.eqb (q_Op q) "sign") issue msg ctx /\
    run_issue env q w = (out, e, w').
Proof.
  intros Hop. rewrite (issue_op_run _ _ _ Hop). destruct (sv_prover (w_service w)) as [p|] eqn:EP.
  2: { intros [= <- <- <-]. by left. }
  intros E. pose proof E as E1. unfold run_issue in E1. cbv zeta in E1.
  destruct (mbind _ _) as [[[issue msg] ctx]|e0] eqn:E0; [|injection E1 as <- <- <-; by left].
  apply issue_inputs in E0 as ((HI & HL) & Hm%decodeB64_Ok & HP & HC).
  right. exists issue, msg, ctx. split; [|done]. by constructor.
Qed.

Lemma issue_request_run q s create issue msg ctx :
  issue_request q s create issue msg ctx ->
  (issue ← decodeIssue (q_Issue q);
   msg ← decodeB64 (q_Message q);
   _ ← policy s issue (q_K q) create;
   ctx ← NewVerificationContext (sv_params s) (ring s).2 issue (q_K q);
   Ok (issue, msg, ctx)) = Ok (issue, msg, ctx).
Proof. intros [_ H1 H2 H3%decodeB64_Ok H4 H5]. by apply issue_inputs. Qed.

Lemma issue_request_k q s create issue msg ctx :
  issue_request q s create issue msg ctx -> create = false \/ is_Some (sv_policies s !! issue) ->
  sv_policies s !! issue = Some (q_K q).
Proof.
  intros [_ _ _ _ [_ [H|[H ->]]]%policy_Ok _]; [done|]. intros [?|[k Hk]]; [done|congruence].
Qed.

Lemma verify_inv env q w out e w' :
  q_Op q = "verify" -> run_service env q w = (out, e, w') ->
  (e <> None /\ r_Verified out = false /\ w' = w) \/
  exists issue msg ctx enc signed, issue_request q (w_service w) false issue msg ctx /\
    q_Signature q = EncodeToString enc /\ UnmarshalSigned enc = Ok signed /\
    (sha256 enc ∉ sv_seen (w_service w)) /\ Verify (sv_verifier (w_service w)) ctx msg signed = Ok tt /\
    persisted env "persist replay state" (out_verified true)
      (mkWorld (set_seen (w_service w) ({[sha256 enc]} ∪ sv_seen (w_service w))) (w_file w)) = (out, e, w').
Proof.
  intros Hop E. assert (issue_op (q_Op q)) as Hi by (rewrite Hop; right; by left).
  apply (issue_request_inv _ _ _ _ _ _ Hi) in E as [(? & -> & ->)|(issue & msg & ctx & HR & E)]; [by left|].
  rewrite Hop in HR. unfold run_issue in E. cbv zeta in E. rewrite Hop in E.
  change (String.eqb "verify" "sign") with false in *. change (String.eqb "verify" "verify") with true in E.
  rewrite (issue_request_run _ _ _ _ _ _ HR) in E.
  destruct (decodeB64 (q_Signature q)) as [enc|e0] eqn:ED; [|injection E as <- <- <-; by left].
  apply decodeB64_Ok in ED. cbn [mbind result_bind] in E.
  destruct (UnmarshalSigned enc) as [signed|e0] eqn:EU; [|injection E as <- <- <-; by left].
  cbn [mbind result_bind] in E. unfold run_verify in E. cbv zeta in E.
  case_bool_decide as HS; [injection E as <- <- <-; by left|].
  destruct (Verify _ _ _ _) as [[]|e0] eqn:EV; [|injection E as <- <- <-; by left].
  right. exists issue, msg, ctx, enc, signed. done.
Qed.

Lemma sign_inv env q w out e w' :
  q_Op q = "sign" -> run_service env q w = (out, e, w') ->
  (e <> None /\ r_Signature out = "") \/
  exists issue msg ctx sn user sg signed sg' enc, issue_request q (w_service w) true issue msg ctx /\
    let s := w_service w in
    let i := account_index (q_Account q) 0 (ring s).1 (-1) in
    0 <= i /\ NewSnapshot (sv_params s) (ring s).2 = Ok sn /\
    user = reg_UserID (default zero_registration (sv_accounts s !! q_Account q)) /\ sv_users s !! user = Some sg /\
    Sign sg (sv_prover s) (env_prove env) sn i issue (q_K q) msg (q_Timestamp q) = (Ok signed, sg') /\
    MarshalSigned signed = Ok enc /\ r_Signature out = EncodeToString enc /\
    persistState (env_fault env)
      (mkWorld (set_policies (set_users s (<[user := sg']> (sv_users s))) (<[issue := q_K q]> (sv_policies s))) (w_file w))
      = (None, w') /\ e = None.
Proof.
  intros Hop E. assert (issue_op (q_Op q)) as Hi by (rewrite Hop; by left).
  apply (issue_request_inv _ _ _ _ _ _ Hi) in E as [(? & -> & ->)|(issue & msg & ctx & HR & E)]; [by left|].
  rewrite Hop in HR. unfold run_issue in E. cbv zeta in E. rewrite Hop in E.
  change (String.eqb "sign" "sign") with true in *. rewrite (issue_request_run _ _ _ _ _ _ HR) in E.
  unfold run_sign in E. cbv zeta in E. destruct (ring (w_service w)) as [ids accounts] eqn:ER.
  destruct (Z.ltb_spec (account_index (q_Account q) 0 ids (-1)) 0); [injection E as <- <- <-; by left|].
  destruct (NewSnapshot _ _) as [sn|e0] eqn:ES; [|injection E as <- <- <-; by left].
  destruct (sv_users (w_service w) !! _) as [sg|] eqn:EU; [|injection E as <- <- <-; by left].
  destruct (Sign _ _ _ _ _ _ _ _ _) as [[signed|e0] sg'] eqn:EG; [|injection E as <- <- <-; by left].
  destruct (MarshalSigned signed) as [enc|e0] eqn:EM; [|injection E as <- <- <-; by left].
  destruct (persistState _ _) as [[e0|] w0] eqn:EP; injection E as <- <- <-; [by left|].
  right. exists issue, msg, ctx, sn, (reg_UserID (default zero_registration (sv_accounts (w_service w) !! q_Account q))), sg, signed, sg', enc.
  cbv zeta. rewrite ?ER in *. cbn [fst snd]. repeat (split; [done|]). done.
Qed.

(** ** The theorems *)

(** The ledger round trip. Whatever well-formed ledger [persistState]
    wrote, a new service started on the file reads back exactly: the pinned
    quotas, the revoked users and the consumed signatures. *)
Theorem ledger_roundtrip s file w' :
  wf_service s -> blank (sv_statePath s) = false -> persistState None (mkWorld s file) = (None, w') ->
  exists s', NewPersistentService (sv_statePath s) (w_file w') = Ok s' /\ sv_policies s' = sv_policies s /\
    sv_revoked s' = sv_revoked s /\ sv_seen s' = sv_seen s.
Proof.
  intros Hwf Hb ->%persistState_None; [|done]. eexists. split.
  - apply (load_encoded _ (ledger_of s)); [apply Hwf|done|done].
  - done.
Qed.

(** C12: the invariant of the service. Starting on an empty ledger file, after
    any requests, with any failures of the file system, and any restarts:
    every active account is registered to an unrevoked user whose secret it
    holds, the current ring accumulates once setup is done, pinned quotas are
    nonzero 32-bit numbers, and the ledger file can be loaded. *)
Theorem service_invariant path s w :
  NewPersistentService path None = Ok s -> reachable (mkWorld s None) w ->
  wf_service (w_service w) /\ is_ok (NewPersistentService (sv_statePath (w_service w)) (w_file w)) = true.
Proof using CL.
  intros E%start_world Hr. destruct (reachable_world _ _ _ E Hr) as (d & [Hs Hp Hd Hf _] & _).
  split; [done|]. by rewrite (load_encoded _ d).
Qed.

Lemma seen_rejected env q w out e w' enc :
  q_Op q = "verify" -> q_Signature q = EncodeToString enc -> sha256 enc ∈ sv_seen (w_service w) ->
  run_service env q w = (out, e, w') -> e <> None /\ r_Verified out = false /\ w' = w.
Proof.
  intros Hop Hq HS [H|(? & ? & ? & enc' & ? & _ & Hq' & _ & Hn & _)]%verify_inv; [done| |done].
  assert (enc' = enc) as -> by (apply EncodeToString_inj; congruence). done.
Qed.

(** C5: replay protection. Once a verify request succeeded for a signature,
    no later verify request for the same signature is answered "verified":
    it is refused, through any requests, failed writes and restarts. *)
Theorem replay_rejected env q w disk out w1 w2 env' q' out' e' w3 :
  wf_world w disk -> wf_env env -> wf_request q -> q_Op q = "verify" -> run_service env q w = (out, None, w1) ->
  reachable w1 w2 -> q_Op q' = "verify" -> q_Signature q' = q_Signature q ->
  run_service env' q' w2 = (out', e', w3) ->
  r_Verified out = true /\ e' <> None /\ r_Verified out' = false /\ w3 = w2.
Proof using CL.
  intros Hw He Hq Hop E Hr Hop' Hsig E'.
  pose proof (run_service_stepped _ _ _ _ _ _ He Hq (ww_service _ _ Hw) E) as Hst.
  apply verify_inv in E as [[? _]|(issue & msg & ctx & enc & signed & _ & Henc & _ & _ & _ & HP)]; [done| |done].
  apply persisted_None in HP as [-> Ew]; [|exact (ww_path _ _ Hw)]. split; [done|].
  assert (wf_world w1 (ledger_of (w_service w1))) as Hw1 by (eapply saved_world; [done|done|by rewrite Ew]).
  destruct (reachable_ledger _ _ _ Hw1 Hr) as [_ [_ _ Hseen]].
  apply (seen_rejected _ _ _ _ _ _ enc) in E'; [done|done|congruence|].
  apply Hseen. rewrite Ew. cbn. set_solver.
Qed.

(** C10: quotas are pinned. After the service signed for an issue with quota
    [k], every request on that issue that reports success, to sign, verify,
    link or trace, has the same quota, through any requests, failed writes and
    restarts. *)
Theorem quota_pinned env q w disk out w1 w2 env' q' out' w3 :
  wf_world w disk -> wf_env env -> wf_request q -> q_Op q = "sign" -> run_service env q w = (out, None, w1) ->
  reachable w1 w2 -> issue_op (q_Op q') -> q_Issue q' = q_Issue q -> run_service env' q' w2 = (out', None, w3) ->
  q_K q' = q_K q.
Proof using CL.
  intros Hw He Hq Hop E Hr Hop' HI E'.
  pose proof (run_service_stepped _ _ _ _ _ _ He Hq (ww_service _ _ Hw) E) as Hst.
  apply sign_inv in E as [[? _]|(issue & msg & ctx & sn & user & sg & signed & sg' & enc & HR & E)]; [done| |done].
  cbv zeta in E. destruct E as (_ & _ & _ & _ & _ & _ & _ & Ew%persistState_None & _); [|exact (ww_path _ _ Hw)].
  assert (wf_world w1 (ledger_of (w_service w1))) as Hw1 by (eapply saved_world; [done|done|by rewrite Ew]).
  destruct (reachable_ledger _ _ _ Hw1 Hr) as [_ [Hpol _ _]].
  assert (sv_policies (w_service w2) !! issue = Some (q_K q)) as Hk.
  { eapply lookup_weaken; [|exact Hpol]. rewrite Ew. apply lookup_insert_eq. }
  apply (issue_request_inv _ _ _ _ _ _ Hop') in E' as [[? _]|(issue' & msg' & ctx' & HR' & _)]; [done|].
  assert (issue' = issue) as -> by (apply hex_encode_inj; destruct HR, HR'; congruence).
  apply issue_request_k in HR'; [congruence|right; eauto].
Qed.

Lemma revoke_inv env q w out w1 :
  blank (sv_statePath (w_service w)) = false -> q_Op q = "revoke_user" -> run_service env q w = (out, None, w1) ->
  q_User q ∈ sv_revoked (w_service w1) /\ w_file w1 = Some (ledger_bytes (ledger_of (w_service w1))).
Proof.
  intros Hb Hop. unfold run_service. rewrite Hop. destruct (sv_prover (w_service w)); [|done].
  unfold run_revoke. cbv zeta. change (String.eqb _ "info") with false. cbn [String.eqb Ascii.eqb Bool.eqb].
  case_bool_decide; [|done]. cbn [negb]. intros [-> ->]%persisted_None; [|done]. cbn. set_solver.
Qed.

Definition enrols (q : Request) (user : string) (s : Service) : Prop :=
  (q_Op q = "keygen" /\ q_User q = user) \/
  (q_Op q = "join" /\ exists r, sv_accounts s !! q_Account q = Some r /\ reg_UserID r = user).

Lemma revoked_refused env q w out e w' user :
  user ∈ sv_revoked (w_service w) -> enrols q user (w_service w) -> run_service env q w = (out, e, w') ->
  e <> None /\ w' = w.
Proof.
  intros Hu [[Hop <-]|[Hop (r & Er & <-)]]; unfold run_service; rewrite Hop;
    (destruct (sv_prover (w_service w)); [|by intros [= <- <- <-]]); cbn [String.eqb Ascii.eqb Bool.eqb].
  - unfold run_keygen. cbv zeta. destruct (blank _ || blank _); [by intros [= <- <- <-]|].
    case_bool_decide; [by intros [= <- <- <-]|]. rewrite bool_decide_eq_true_2 by done. by intros [= <- <- <-].
  - unfold run_join. cbv zeta. rewrite Er. destruct (NewSnapshot _ _); [|by intros [= <- <- <-]].
    rewrite bool_decide_eq_true_2 by done. by intros [= <- <- <-].
Qed.

(** C11: revocation is permanent. After a revoke_user request succeeded, the
    user has no account in the current ring and can neither register nor join
    with an account, through any requests, failed writes and restarts. *)
Theorem revocation_permanent env q w disk out w1 w2 :
  wf_world w disk -> wf_env env -> wf_request q -> q_Op q = "revoke_user" -> run_service env q w = (out, None, w1) ->
  reachable w1 w2 ->
  (forall id r, id ∈ (ring (w_service w2)).1 -> sv_accounts (w_service w2) !! id = Some r -> reg_UserID r <> q_User q) /\
  (forall env' q' out' e' w3, enrols q' (q_User q) (w_service w2) -> run_service env' q' w2 = (out', e', w3) ->
     e' <> None /\ w3 = w2).
Proof using CL.
  intros Hw He Hq Hop E Hr. pose proof (run_service_stepped _ _ _ _ _ _ He Hq (ww_service _ _ Hw) E) as Hst.
  apply revoke_inv in E as [Hu Ef]; [|exact (ww_path _ _ Hw)|done].
  assert (wf_world w1 (ledger_of (w_service w1))) as Hw1 by (by eapply saved_world).
  destruct (reachable_ledger _ _ _ Hw1 Hr) as [Hwf2 [_ Hrev _]]. apply Hrev in Hu. split.
  - intros id r Hid%elem_of_ring Er EU. destruct (wv_active _ Hwf2 _ Hid) as (r' & Er' & Hn).
    simplify_eq. by rewrite EU in Hn.
  - intros env' q' out' e' w3. by apply revoked_refused.
Qed.

(** ** Signing and verifying through the service *)

Lemma sign_result_made s pr rand sn i issue k m ts sg a d :
  sign_result s pr rand sn i issue k m ts = Ok sg -> sn_accounts sn !! Z.to_nat i = Some a -> a_D a = Some d ->
  is_ok (MakeStatement (sn_params sn) (sn_accounts sn) i (s_x s) (Some d) issue (sha256 m) ts k (counter_of s issue)) = true.
Proof.
  unfold sign_result. destruct pr as [pr|]; [|done]. intros E Ha Hd. go_inv E. bool_prop. simplify_eq.
  rewrite Hd in E. apply bind_Ok in E as ([st w] & HM & _). by rewrite HM.
Qed.

(** What the service signs for a well-formed state verifies, and marshals. *)
Lemma service_signs `{GL : !Groth16Laws GR} s account i issue k msg ts rand sn sg signed sg' ctx :
  wf_service s -> is_Some (sv_prover s) -> i = account_index account 0 (ring s).1 (-1) -> 0 <= i ->
  sv_users s !! reg_UserID (default zero_registration (sv_accounts s !! account)) = Some sg ->
  NewSnapshot (sv_params s) (ring s).2 = Ok sn -> NewVerificationContext (sv_params s) (ring s).2 issue k = Ok ctx ->
  0 <= k < 2 ^ 32 -> 0 <= ts < 2 ^ 64 -> ts < g_order BN -> length issue = 32%nat ->
  Sign sg (sv_prover s) rand sn i issue k msg ts = (Ok signed, sg') ->
  Verify (sv_verifier s) ctx msg signed = Ok tt /\ exists enc, MarshalSigned signed = Ok enc /\ UnmarshalSigned enc = Ok signed.
Proof using CL.
  intros Hwf [pr Hpr] -> Hi Esg Hsn Hctx Hk Hts HtsF HI HS. set (i := account_index _ _ _ _) in *.
  destruct (sign_position s account Hwf Hi) as (r & sg0 & x & d & Hl & Er & Esg0 & Hok & Hd & _). fold i in Hl.
  rewrite Er in Esg. cbn [default from_option id] in Esg. assert (sg0 = sg) as -> by congruence.
  pose proof (wv_backend _ Hwf) as HB. rewrite Hpr in HB. destruct HB as (rand0 & v & Hv & HB). rewrite Hpr in HS. rewrite Hv.
  pose proof Hsn as (v0 & _ & Esn)%NewSnapshot_Ok.
  assert (sign_result sg (Some pr) rand sn i issue k msg ts = Ok signed) as HSR.
  { unfold Sign in HS. destruct (sign_result _ _ _ _ _ _ _ _ _); congruence. }
  pose proof (sign_result_made _ _ _ _ _ _ _ _ _ _ (reg_Account r) d HSR) as HM.
  rewrite Esn in HM. cbn [sn_accounts sn_params] in HM. specialize (HM Hl Hd). rewrite (so_x _ _ Hok) in HM.
  destruct (Sign_honest rand0 pr v sg x _ _ sn i (reg_Account r) d issue k msg ts rand ctx HB Hok Hsn Hl Hd HM Hctx
              (proj2 Hk) Hts HtsF) as (signed1 & s1 & HS1 & HV & _).
  assert (signed1 = signed) as -> by congruence. split; [done|].
  destruct (accepted_marshals v ctx msg signed HV) as [enc Henc].
  { apply NewVerificationContext_Ok in Hctx as (Hk0 & _ & rd & _ & ->). done. }
  exists enc. split; [done|]. apply UnmarshalSigned_Ok. split; [|done].
  by eapply (sign_result_wf rand0 pr v sg rand sn i issue k msg ts).
Qed.

(** C15: completeness of the service. A signature the service returned for an
    issue, a quota and a message is reported verified by the next verify
    request with the same issue, quota and message, when it was not consumed
    before. *)
Theorem service_sign_verify `{GL : !Groth16Laws GR} env q w out w1 env' q' :
  wf_service (w_service w) -> wf_request q -> q_Timestamp q < g_order BN -> q_Op q = "sign" ->
  run_service env q w = (out, None, w1) ->
  q_Op q' = "verify" -> q_Issue q' = q_Issue q -> q_K q' = q_K q -> q_Message q' = q_Message q ->
  q_Signature q' = r_Signature out -> env_fault env' = None ->
  (forall enc, r_Signature out = EncodeToString enc -> sha256 enc ∉ sv_seen (w_service w)) ->
  exists w2, run_service env' q' w1 = (out_verified true, None, w2).
Proof using CL.
  intros Hwf [Hk Hts] HtsF Hop E Hop' EI EK EM ES Hf Hfresh.
  apply sign_inv in E as [[? _]|(issue & msg & ctx & sn & user & sg & signed & sg' & enc & HR & E)]; [done| |done].
  cbv zeta in E. destruct E as (Hi & Hsn & -> & Hsg & HS & HM & Hsig & HP & _).
  destruct HR as [Hpr HI HL Hm Hpol Hctx].
  destruct (service_signs (w_service w) (q_Account q) _ issue (q_K q) msg (q_Timestamp q) (env_prove env) sn sg signed sg' ctx
    Hwf Hpr eq_refl Hi Hsg Hsn Hctx Hk Hts HtsF HL HS) as (HV & enc' & HM' & HU). assert (enc' = enc) as -> by congruence.
  set (s2 := set_policies _ _) in HP.
  assert (w_service w1 = s2) as Ew.
  { unfold persistState in HP. by destruct (String.eqb _ _), (env_fault env) as [[]|]; simplify_eq. }
  assert (policy s2 issue (q_K q) false = Ok tt) as Hpol2.
  { apply policy_Ok. apply policy_Ok in Hpol as [? _]. split; [done|]. left. apply lookup_insert_eq. }
  unfold run_service. rewrite Hop', Ew. cbn [String.eqb Ascii.eqb Bool.eqb].
  change (sv_prover s2) with (sv_prover (w_service w)). destruct Hpr as [pr Hpr]. rewrite Hpr.
  unfold run_issue. cbv zeta. rewrite Hop', Ew. cbn [String.eqb Ascii.eqb Bool.eqb].
  rewrite (issue_request_run q' s2 false issue msg ctx).
  2: { constructor; rewrite ?EI, ?EK, ?EM; try done. }
  rewrite (proj2 (decodeB64_Ok _ enc)) by congruence. cbn [mbind result_bind]. rewrite HU. cbn [mbind result_bind].
  unfold run_verify. cbv zeta. rewrite Ew. rewrite bool_decide_eq_false_2 by (by apply Hfresh).
  change (sv_verifier s2) with (sv_verifier (w_service w)). rewrite HV.
  unfold persisted, persistState. rewrite Hf. destruct (String.eqb _ _); eauto.
Qed.

(** ** Errors *)

Lemma persisted_clean env l o w out e w' :
  env_fault env = None -> persisted env l o w = (out, e, w') -> e = None.
Proof. intros Hf. unfold persisted, persistState. rewrite Hf. destruct (String.eqb _ _); by intros [= <- <- <-]. Qed.

Lemma persistState_clean w e w' : persistState None w = (e, w') -> e = None.
Proof. unfold persistState. destruct (String.eqb _ _); by intros [= <- <-]. Qed.

Lemma set_users_same s user sg : sv_users s !! user = Some sg -> set_users s (<[user := sg]> (sv_users s)) = s.
Proof. intros E. rewrite insert_id by done. by destruct s. Qed.

Lemma run_sign_clean `{GL : !Groth16Laws GR} env q issue msg ctx w out e w' :
  env_fault env = None -> wf_service (w_service w) -> wf_request q -> q_Timestamp q < g_order BN ->
  issue_request q (w_service w) true issue msg ctx -> run_sign env q issue msg w = (out, Some e, w') -> w' = w.
Proof using CL.
  intros Hf Hwf [Hk Hts] HtsF [Hpr HI HL Hm Hpol Hctx]. unfold run_sign. cbv zeta.
  pose proof (fun i => service_signs (w_service w) (q_Account q) i issue (q_K q) msg (q_Timestamp q) (env_prove env)) as HSV.
  destruct (ring (w_service w)) as [ids accounts] eqn:ER. cbn [fst snd] in *.
  destruct (Z.ltb_spec (account_index (q_Account q) 0 ids (-1)) 0) as [|Hi]; [by intros [= <- <- <-]|].
  destruct (NewSnapshot _ _) as [sn|e0] eqn:ES; [|by intros [= <- <- <-]].
  destruct (sv_users (w_service w) !! _) as [sg|] eqn:EU; [|by intros [= <- <- <-]].
  destruct (Sign _ _ _ _ _ _ _ _ _) as [[signed|e0] sg'] eqn:EG.
  - destruct (HSV _ sn sg signed sg' ctx Hwf Hpr eq_refl Hi eq_refl eq_refl Hctx Hk Hts HtsF HL EG) as (_ & enc & -> & _).
    destruct (persistState _ _) as [e0 w0] eqn:EP. rewrite Hf in EP. apply persistState_clean in EP as ->. by intros [= _ ? _].
  - assert (sg' = sg) as ->.
    { unfold Sign in EG. destruct (sign_result _ _ _ _ _ _ _ _ _); congruence. }
    rewrite set_users_same by done. intros [= _ _ <-]. by destruct w.
Qed.

Lemma run_keygen_clean env q w out e w' :
  env_fault env = None -> run_keygen env q w = (out, Some e, w') -> w' = w.
Proof.
  intros Hf. unfold run_keygen. cbv zeta. rewrite Hf.
  repeat (case_match; try (by intros [= <- <- <-])).
  rename select (persistState _ _ = _) into EP. by apply persistState_clean in EP.
Qed.

Lemma run_issue_clean `{GL : !Groth16Laws GR} env q w out e w' :
  env_fault env = None -> wf_service (w_service w) -> wf_request q -> q_Timestamp q < g_order BN ->
  is_Some (sv_prover (w_service w)) -> run_issue env q w = (out, Some e, w') -> w' = w.
Proof using CL.
  intros Hf Hwf Hq HtsF Hp. unfold run_issue. cbv zeta.
  destruct (mbind _ _) as [[[issue msg] ctx]|e0] eqn:E0; [|by intros [= <- <- <-]].
  apply issue_inputs in E0 as ((HI & HL) & Hm%decodeB64_Ok & HP & HC).
  destruct (String.eqb_spec (q_Op q) "sign") as [Hop|_].
  { by apply (run_sign_clean env q issue msg ctx). }
  destruct (mbind _ _) as [[enc signed]|e0]; [|by intros [= <- <- <-]].
  destruct (String.eqb (q_Op q) "verify").
  { unfold run_verify. cbv zeta. case_bool_decide; [by intros [= <- <- <-]|].
    destruct (Verify _ _ _ _); [|by intros [= <- <- <-]]. by intros ?%persisted_clean. }
  destruct (String.eqb (q_Op q) "link" || _); [|by intros [= <- <- <-]].
  destruct (second_signature q) as [[other msg2]|e0]; [|by intros [= <- <- <-]].
  destruct (String.eqb (q_Op q) "link"); unfold run_link, run_trace.
  - by destruct (Link _ _ _ _ _ _ _); intros [= <- <- <-].
  - destruct (NewRegistry _); [|by intros [= <- <- <-]]. by destruct (Trace _ _ _ _ _ _ _ _); intros [= _ _ <-].
Qed.

(** C16: errors change nothing. When the ledger file can be written, a request
    that reports an error leaves the service and its file as they were. *)
Theorem request_atomic `{GL : !Groth16Laws GR} env q w out e w' :
  env_fault env = None -> wf_service (w_service w) -> wf_request q -> q_Timestamp q < g_order BN ->
  run_service env q w = (out, Some e, w') -> w' = w.
Proof using CL.
  intros Hf Hwf Hq HtsF. unfold run_service. cbv zeta.
  destruct (String.eqb (q_Op q) "info"); [done|].
  destruct (String.eqb (q_Op q) "setup").
  { unfold run_setup. repeat (case_match; try (by intros [= <- <- <-])). by intros ?%persisted_clean. }
  destruct (sv_prover (w_service w)) as [p|] eqn:Hp; [|by intros [= <- <- <-]].
  destruct (String.eqb (q_Op q) "keygen"); [by apply run_keygen_clean|].
  destruct (String.eqb (q_Op q) "join").
  { unfold run_join. cbv zeta. repeat (case_match; try (by intros [= <- <- <-])). by intros ?%persisted_clean. }
  destruct (String.eqb (q_Op q) "exit").
  { unfold run_exit. cbv zeta. repeat (case_match; try (by intros [= <- <- <-])). by intros ?%persisted_clean. }
  destruct (String.eqb (q_Op q) "revoke_user").
  { unfold run_revoke. cbv zeta. repeat (case_match; try (by intros [= <- <- <-])). by intros ?%persisted_clean. }
  apply run_issue_clean; done.
Qed.

Definition with_fault (env : Env) (f : option fault) : Env :=
  mkEnv (env_setup env) (env_backend env) (env_x env) (env_d env) (env_prove env) f (env_order env).

(** C40: a join whose ledger cannot be written is reported as an error, and
    the account is in the ring all the same: the ring of later requests
    includes it, though the caller was told that the join failed. *)
Theorem join_error_keeps_member env q w w1 out err :
  wf_service (w_service w) -> sv_statePath (w_service w) <> "" -> q_Op q = "join" ->
  run_service (with_fault env None) q w = (out, None, w1) ->
  exists w2, run_service (with_fault env (Some (BeforeRename err))) q w
      = (out, Some ("persist ring state: " +:+ err), w2) /\
    w_file w2 = w_file w /\ w_service w2 = w_service w1 /\
    is_active (w_service w) (q_Account q) = false /\ is_active (w_service w2) (q_Account q) = true.
Proof using CL.
  intros Hwf Hpath Hop. unfold run_service. rewrite Hop. cbn [String.eqb Ascii.eqb Bool.eqb].
  destruct (sv_prover (w_service w)) as [p|]; [|done]. unfold run_join. cbv zeta.
  destruct (sv_accounts _ !! _) as [r|] eqn:EA; [|done]. destruct (NewSnapshot _ _) as [sn|] eqn:ES; [|done].
  case_bool_decide; [done|]. destruct (Join _ _) as [sn'|] eqn:EJ; [|done].
  unfold persisted, persistState. cbn [env_fault with_fault w_service w_file].
  change (sv_statePath (set_active (w_service w) (<[q_Account q := true]> (sv_active (w_service w)))))
    with (sv_statePath (w_service w)).
  destruct (String.eqb_spec (sv_statePath (w_service w)) "") as [|_]; [done|]. intros [= <- <-].
  eexists. split; [reflexivity|]. cbn [w_service w_file]. split; [done|]. split; [done|]. split.
  - rewrite <- (account_at_Some _ _ _ EA) in EJ. by eapply Join_inactive.
  - rewrite is_active_insert. by rewrite decide_True.
Qed.
End facts.

(** ** Concrete instances *)

Definition svc_env (x d : Z) : Env := mkEnv (fixed_rand 12345) 0 (fixed_rand x) (fixed_rand d) 0 None id.
Definition svc_request (op user account signature : string) : Request :=
  mkRequest op 4 user account (hex_encode sample_issue) 2 (EncodeToString message_1) 1700000000 signature "" "".

(** Text with single quotes for double quotes. *)
Definition quoted (s : string) : bytes := (fun b => if b2z b =? 39 then dquote else b) <$> ascii_bytes s.

Definition svc_text : bytes := quoted "{ 'op': 'sign', 'user': 'al\u0069ce', 'k': 2, 'timestamp': 1700000000 }".

Example decodeRequest_sample :
  decodeRequest svc_text = Ok (mkRequest "sign" 0 "alice" "" "" 2 "" 1700000000 "" "" "").
Proof. vm_compute. reflexivity. Qed.

(** Keys that differ in case name the same field and are not duplicates: the
    last one wins. *)
Example case_variant_keys_accepted :
  decodeRequest (quoted "{'op':'info','OP':'setup'}") = Ok (mkRequest "setup" 0 "" "" "" 0 "" 0 "" "" "") /\
  is_ok (decodeRequest (quoted "{'op':'info','op':'setup'}")) = false.
Proof. split; vm_compute; reflexivity. Qed.

(** The walk looks into arrays and nested objects. *)
Example nested_duplicates_rejected :
  rejectDuplicateJSON (quoted "[{'x':1},{'x':{'y':[],'z':0}}]") = Ok tt /\
  rejectDuplicateJSON (quoted "[{'x':1},{'x':{'y':[],'y':0}}]") = Err "duplicate JSON key" /\
  rejectDuplicateJSON (quoted "[1,]") = Err "invalid character looking for beginning of value" /\
  is_ok (rejectDuplicateJSON (quoted "[1e309]")) = false.
Proof. split_and!; vm_compute; reflexivity. Qed.

Definition svc_start : World := mkWorld (get_ok NewService (NewPersistentService "ledger.json" None)) None.
Definition svc_members : list (Env * Request) :=
  [(svc_env 0 0, svc_request "setup" "" "" ""); (svc_env 777 888, svc_request "keygen" "alice" "a1" "");
   (svc_env 777 999, svc_request "keygen" "alice" "a2" ""); (svc_env 0 0, svc_request "join" "" "a1" "")].
Definition svc_ready : World := foldl serve svc_start svc_members.
Definition svc_sign : outcome := run_service (svc_env 0 0) (svc_request "sign" "" "a1" "") svc_ready.
Definition svc_signed : World := svc_sign.2.
Definition svc_verify_request : Request := svc_request "verify" "" "" (r_Signature svc_sign.1.1).
Definition svc_verify : outcome := run_service (svc_env 0 0) svc_verify_request svc_signed.
Definition svc_verified : World := svc_verify.2.
Definition svc_revoke : outcome := run_service (svc_env 0 0) (svc_request "revoke_user" "alice" "" "") svc_ready.

Lemma svc_env_ok x d : wf_env (svc_env x d).
Proof. intros u n. apply fixed_rand_in_range. Qed.

Lemma svc_request_ok op user account signature :
  utf8_string user -> wf_request (svc_request op user account signature).
Proof. split; cbn; lia || done. Qed.

Lemma svc_same_inputs op user account signature op' user' account' signature' :
  let q := svc_request op user account signature in
  let q' := svc_request op' user' account' signature' in
  q_Issue q = q_Issue q' /\ q_K q = q_K q' /\ q_Message q = q_Message q'.
Proof. done. Qed.

Lemma svc_start_ok : NewPersistentService "ledger.json" None = Ok (w_service svc_start).
Proof. apply get_ok_eq. vm_compute. reflexivity. Qed.

Lemma svc_reach l : Forall (fun eq => wf_env eq.1 /\ wf_request eq.2) l -> reachable svc_start (foldl serve svc_start l).
Proof. apply reachable_serve, reach_refl. Qed.

Lemma svc_members_ok : Forall (fun eq => wf_env eq.1 /\ wf_request eq.2) svc_members.
Proof. repeat apply List.Forall_cons; try apply List.Forall_nil; (split; [apply svc_env_ok|apply svc_request_ok; reflexivity]). Qed.

Lemma svc_ready_world : exists disk, wf_world svc_ready disk.
Proof.
  destruct (reachable_world svc_start svc_ready no_ledger) as (disk & H & _); [|apply svc_reach, svc_members_ok|by exists disk].
  apply (start_world "ledger.json"), svc_start_ok.
Qed.

Lemma svc_plain_ok op account signature : wf_request (svc_request op "" account signature).
Proof. by apply svc_request_ok. Qed.
Lemma svc_alice_ok op account signature : wf_request (svc_request op "alice" account signature).
Proof. by apply svc_request_ok. Qed.

(** The outcome of a request that reports no error. *)
Lemma served_ok (o : outcome) : bool_decide (o.1.2 = None) = true -> o = (o.1.1, None, o.2).
Proof. destruct o as [[out e] w]. cbn. by intros ->%bool_decide_eq_true. Qed.

Lemma svc_sign_ok : svc_sign = (svc_sign.1.1, None, svc_signed).
Proof. apply served_ok. vm_compute. reflexivity. Qed.
Lemma svc_verify_ok : svc_verify = (svc_verify.1.1, None, svc_verified).
Proof. apply served_ok. vm_compute. reflexivity. Qed.
Lemma svc_revoke_ok : svc_revoke = (svc_revoke.1.1, None, svc_revoke.2).
Proof. apply served_ok. vm_compute. reflexivity. Qed.

Lemma svc_signed_world : exists disk, wf_world svc_signed disk.
Proof.
  destruct svc_ready_world as [d Hw].
  destruct (step_world svc_ready svc_signed d Hw) as (d' & H & _); [|by exists d'].
  exact (step_request _ _ _ _ _ _ (svc_env_ok 0 0) (svc_plain_ok _ _ _) svc_sign_ok).
Qed.

Lemma service_invariant_witness :
  wf_service (w_service svc_ready) /\
  is_ok (NewPersistentService (sv_statePath (w_service svc_ready)) (w_file svc_ready)) = true.
Proof.
  exact (service_invariant "ledger.json" _ svc_ready svc_start_ok (svc_reach _ svc_members_ok)).
Defined.

Lemma ledger_roundtrip_witness :
  exists s', NewPersistentService (sv_statePath (w_service svc_signed)) (w_file (persistState None svc_signed).2) = Ok s' /\
    sv_policies s' = sv_policies (w_service svc_signed) /\ sv_revoked s' = sv_revoked (w_service svc_signed) /\
    sv_seen s' = sv_seen (w_service svc_signed).
Proof.
  destruct svc_signed_world as [d Hw].
  apply (ledger_roundtrip (w_service svc_signed) (w_file svc_signed)).
  - exact (ww_service _ _ Hw).
  - exact (ww_path _ _ Hw).
  - unfold persistState. destruct svc_signed as [s f]. cbn [w_service w_file]. by destruct (String.eqb _ _).
Defined.

Lemma replay_rejected_witness :
  r_Verified svc_verify.1.1 = true /\
  (run_service (svc_env 0 0) svc_verify_request svc_verified).1.2 <> None /\
  r_Verified (run_service (svc_env 0 0) svc_verify_request svc_verified).1.1 = false /\
  (run_service (svc_env 0 0) svc_verify_request svc_verified).2 = svc_verified.
Proof.
  destruct svc_signed_world as [d Hw].
  refine (replay_rejected (svc_env 0 0) svc_verify_request svc_signed d _ svc_verified svc_verified (svc_env 0 0)
    svc_verify_request _ _ _ Hw (svc_env_ok 0 0) (svc_plain_ok _ _ _) eq_refl svc_verify_ok (reach_refl _) eq_refl eq_refl _).
  by destruct (run_service _ _ _) as [[]].
Defined.

Lemma quota_pinned_witness : q_K svc_verify_request = q_K (svc_request "sign" "" "a1" "").
Proof.
  destruct svc_ready_world as [d Hw].
  refine (quota_pinned (svc_env 0 0) (svc_request "sign" "" "a1" "") svc_ready d _ svc_signed svc_signed (svc_env 0 0)
    svc_verify_request _ svc_verified Hw (svc_env_ok 0 0) (svc_plain_ok _ _ _) eq_refl svc_sign_ok (reach_refl _) _ _ svc_verify_ok).
  - right. by left.
  - apply svc_same_inputs.
Defined.

Definition svc_rejoin : outcome := run_service (svc_env 0 0) (svc_request "keygen" "alice" "a3" "") svc_revoke.2.

Lemma revocation_permanent_witness : svc_rejoin.1.2 <> None /\ svc_rejoin.2 = svc_revoke.2.
Proof.
  destruct svc_ready_world as [d Hw].
  refine (proj2 (revocation_permanent (svc_env 0 0) (svc_request "revoke_user" "alice" "" "") svc_ready d _ svc_revoke.2 svc_revoke.2
    Hw (svc_env_ok 0 0) (svc_alice_ok _ _ _) eq_refl svc_revoke_ok (reach_refl _))
    (svc_env 0 0) (svc_request "keygen" "alice" "a3" "") svc_rejoin.1.1 _ _ _ _).
  - left. split; reflexivity.
  - unfold svc_rejoin. by destruct (run_service _ _ _) as [[]].
Defined.

Lemma service_sign_verify_witness :
  exists w2, run_service (svc_env 0 0) svc_verify_request svc_signed = (out_verified true, None, w2).
Proof.
  destruct svc_ready_world as [d Hw].
  refine (service_sign_verify (svc_env 0 0) (svc_request "sign" "" "a1" "") svc_ready svc_sign.1.1 svc_signed (svc_env 0 0)
    svc_verify_request (ww_service _ _ Hw) (svc_plain_ok _ _ _) _ eq_refl svc_sign_ok eq_refl _ _ _ eq_refl eq_refl _).
  - vm_compute. reflexivity.
  - apply svc_same_inputs.
  - apply svc_same_inputs.
  - apply svc_same_inputs.
  - intros enc _. assert (sv_seen (w_service svc_ready) = ∅) as ->; [vm_compute; reflexivity|]. apply not_elem_of_empty.
Defined.

Definition svc_refused : outcome := run_service (svc_env 0 0) (svc_request "join" "" "a1" "") svc_ready.

Lemma request_atomic_witness : svc_refused.2 = svc_ready.
Proof.
  destruct svc_ready_world as [d Hw].
  refine (request_atomic (svc_env 0 0) (svc_request "join" "" "a1" "") svc_ready svc_refused.1.1 (default "" svc_refused.1.2) _
    eq_refl (ww_service _ _ Hw) (svc_plain_ok _ _ _) _ _).
  - vm_compute. reflexivity.
  - assert (svc_refused.1.2 = Some (default "" svc_refused.1.2)) as E by (vm_compute; reflexivity).
    change (svc_refused = (svc_refused.1.1, Some (default "" svc_refused.1.2), svc_refused.2)).
    rewrite <- E. by destruct svc_refused as [[]].
Defined.

Definition svc_join : outcome := run_service (with_fault (svc_env 0 0) None) (svc_request "join" "" "a2" "") svc_ready.

Lemma join_error_keeps_member_witness :
  exists w2, run_service (with_fault (svc_env 0 0) (Some (BeforeRename "disk full"))) (svc_request "join" "" "a2" "") svc_ready
      = (svc_join.1.1, Some "persist ring state: disk full", w2) /\
    w_file w2 = w_file svc_ready /\ w_service w2 = w_service svc_join.2 /\
    is_active (w_service svc_ready) "a2" = false /\ is_active (w_service w2) "a2" = true.
Proof.
  destruct svc_ready_world as [d Hw].
  refine (join_error_keeps_member (svc_env 0 0) (svc_request "join" "" "a2" "") svc_ready svc_join.2 _ "disk full"
    (ww_service _ _ Hw) _ eq_refl _).
  - vm_compute. discriminate.
  - apply (served_ok svc_join). vm_compute. reflexivity.
Defined.
