(* ===== verification/SetupEncoding.v ===== *)
(** * Encodings of the setup ([nativeproof/setup_encoding.go])

    Public parameters as bytes: [UnmarshalParams] accepts exactly what
    [MarshalParams] writes for valid parameters. [preflightProvingKey]
    accepts exactly the compressed layout of a proving key for the compiled
    circuit. What gnark and gnark-crypto do with points, keys and FFT domains
    is the interface [SetupBackend]. A cursor into the input is its unread
    rest. *)

From S2P Require Import Prelude Bytes Sha256 Curve Profile Accumulator Circuit CircuitFacts.
From S2P Require Import Statements Backend BackendFacts.
From Stdlib Require Import Strings.Byte.

Section interface.
Context `{CR : !Crypto, GR : !Groth16}.

Class SetupBackend := {
  bn_bytes : BN -> bytes;                     (* G1Affine.Bytes *)
  bn_set_bytes : bytes -> result BN;          (* G1Affine.SetBytes *)
  bn2_bytes : BN2 -> bytes;
  bn2_set_bytes : bytes -> result BN2;
  cs_constraints : CS -> Z;                   (* GetNbConstraints *)
  cs_secret : CS -> Z;                        (* GetNbSecretVariables *)
  cs_internal : CS -> Z;                      (* GetNbInternalVariables *)
  cs_private : CS -> list Z;                  (* len(c.PrivateCommitted) of each commitment *)
  fft_bytes : Z -> result bytes;              (* fft.NewDomain(n).WriteTo *)
  fft_cardinality : Z -> Z;                   (* fft.NewDomain(n).Cardinality *)
  next_power_of_two : Z -> Z;                 (* ecc.NextPowerOfTwo *)
  pk_bytes : PK -> result bytes;              (* WriteTo *)
  pk_read : bytes -> result (PK * bytes);     (* ReadFrom, and the unread rest *)
  pk_G1_Alpha : PK -> BN;                     (* the points both keys of a setup carry *)
  pk_G1_Beta : PK -> BN;
  pk_G1_Delta : PK -> BN;
  pk_G2_Beta : PK -> BN2;
  pk_G2_Delta : PK -> BN2;
  vk_G1_Alpha : VK -> BN;
  vk_G1_Beta : VK -> BN;
  vk_G1_Delta : VK -> BN;
  vk_G2_Beta : VK -> BN2;
  vk_G2_Delta : VK -> BN2;
}.

(** Compressed points: 32 and 64 bytes, decoded to the point they encode. *)
Class PointLaws `{SB : !SetupBackend} : Prop := {
  length_bn_bytes p : length (bn_bytes p) = 32%nat;
  length_bn2_bytes p : length (bn2_bytes p) = 64%nat;
  bn_set_bytes_bytes p : good p = true -> bn_set_bytes (bn_bytes p) = Ok p;
  bn2_set_bytes_bytes p : good p = true -> bn2_set_bytes (bn2_bytes p) = Ok p;
}.
End interface.

Definition paramsMagic := "LKTRSP01".
Definition maxParamsBytes : Z := 12 + 32 + 64 * 2 + (2 ^ 16 + 1) * 32.

Section defs.
Context `{CR : !Crypto, GR : !Groth16, SB : !SetupBackend}.

(** ** Public parameters *)

Definition params_bytes (p : Params) : bytes :=
  ascii_bytes paramsMagic ++ be_enc 4 (Z.of_nat (length (p_Powers p)))
  ++ bn_bytes (p_G p) ++ bn2_bytes (p_H p) ++ bn2_bytes (p_HTau p) ++ concat (bn_bytes <$> p_Powers p).

Definition MarshalParams (p : Params) : result bytes :=
  _ ← ValidateParams p;
  Ok (params_bytes p).

(** The closures [g1] and [g2]. *)
Definition params_g1 (r : bytes) : result (BN * bytes) :=
  let data := take 32 r in
  out ← bn_set_bytes data;
  _ ← fail_if (negb (bool_decide (data = bn_bytes out)) || negb (goodBN out)) "noncanonical public G1";
  Ok (out, drop 32 r).

Definition params_g2 (r : bytes) : result (BN2 * bytes) :=
  let data := take 64 r in
  out ← bn2_set_bytes data;
  _ ← fail_if (negb (bool_decide (data = bn2_bytes out)) || negb (goodBN2 out)) "noncanonical public G2";
  Ok (out, drop 64 r).

Fixpoint params_powers (n : nat) (r : bytes) : result (list BN * bytes) :=
  match n with
  | O => Ok ([], r)
  | S n =>
      '(q, r) ← params_g1 r;
      '(qs, r) ← params_powers n r;
      Ok (q :: qs, r)
  end.

Definition UnmarshalParams (raw : bytes) : result Params :=
  let n := Z.of_nat (length raw) in
  _ ← fail_if ((n <? 12) || (maxParamsBytes <? n) || negb (bool_decide (take 8 raw = ascii_bytes paramsMagic)))
        "invalid public parameter header";
  let count := be_dec (take 4 (drop 8 raw)) in
  _ ← fail_if ((count <? 2) || (2 ^ 16 + 1 <? count) || negb (n =? 12 + 32 + 128 + count * 32))
        "invalid public power count or size";
  '(G, r) ← params_g1 (drop 12 raw);
  '(H, r) ← params_g2 r;
  '(HTau, r) ← params_g2 r;
  '(powers, r) ← params_powers (Z.to_nat count) r;
  let p := mkParams G H HTau powers in
  _ ← ValidateParams p;
  Ok p.

(** ** The proving key *)

Definition domainSize : Z := 8 + 5 * 32 + 1.

(** The closures of [preflightProvingKey]. *)
Definition pk_take (n : Z) (r : bytes) : result (bytes * bytes) :=
  _ ← fail_if ((n <? 0) || (Z.of_nat (length r) <? n)) "truncated proving key";
  Ok (take (Z.to_nat n) r, drop (Z.to_nat n) r).

Definition pk_u32 (r : bytes) : result (Z * bytes) := '(b, r) ← pk_take 4 r; Ok (be_dec b, r).
Definition pk_u64 (r : bytes) : result (Z * bytes) := '(b, r) ← pk_take 8 r; Ok (be_dec b, r).

(** The loop over the first bytes of [n] points. *)
Fixpoint pk_flags (n width : nat) (b : bytes) : result unit :=
  match n with
  | O => Ok tt
  | S n =>
      c ← index b 0;
      _ ← fail_if (negb (compressed_flag c)) "uncompressed PK point forbidden";
      pk_flags n width (drop width b)
  end.

Definition pk_points (n width : Z) (r : bytes) : result bytes :=
  _ ← fail_if ((n <? 0) || (Z.of_nat (length r) / width <? n)) "unsafe PK point count";
  '(b, r) ← pk_take (n * width) r;
  _ ← pk_flags (Z.to_nat n) (Z.to_nat width) b;
  Ok r.

Definition pk_vector (width max : Z) (r : bytes) : result (Z * bytes) :=
  '(n, r) ← match pk_u32 r with
            | Ok (n, r) => _ ← fail_if (max <? n) "unsafe PK vector length"; Ok (n, r)
            | Err _ => Err "unsafe PK vector length"
            end;
  r ← pk_points n width r;
  Ok (n, r).

(** [n, e := u64(); if e != nil || bad(n) { return errors.New(e) }] *)
Definition pk_checked (read : bytes -> result (Z * bytes)) (bad : Z -> bool) (e : error) (r : bytes) : result (Z * bytes) :=
  match read r with
  | Ok (n, r) => _ ← fail_if (bad n) e; Ok (n, r)
  | Err _ => Err e
  end.

(** One row of infinity flags. *)
Definition pk_infinity (wires n : Z) (r : bytes) : result bytes :=
  '(b, r) ← pk_take wires r;
  _ ← fail_if (existsb (fun v => 1 <? b2z v) b) "invalid PK infinity flag";
  _ ← fail_if (negb (foldr (fun v count => b2z v + count) 0 b =? n)) "PK infinity flags mismatch";
  Ok r.

(** The loop over the commitment bases. *)
Fixpoint pk_bases (i : nat) (wires : Z) (committed : list Z) (r : bytes) : result bytes :=
  match committed with
  | [] => Ok r
  | c :: committed =>
      '(a, r) ← pk_vector 32 wires r;
      '(b, r) ← pk_vector 32 wires r;
      _ ← fail_if (negb (a =? b) || negb (a =? c)) ("PK commitment basis " +:+ pretty i +:+ " differs from circuit");
      pk_bases (S i) wires committed r
  end.

Definition cs_wires (cs : CS) : Z := cs_public cs + cs_secret cs + cs_internal cs.

(** The private wires outside the commitments. *)
Definition cs_private_wires (cs : CS) : Z :=
  foldl Z.sub (cs_secret cs + cs_internal cs - Z.of_nat (length (cs_private cs))) (cs_private cs).

Definition preflightProvingKey (raw : bytes) (cs : CS) : result unit :=
  expected ← fft_bytes (cs_constraints cs);
  _ ← fail_if (Z.of_nat (length raw) <? domainSize) "PK FFT domain differs from circuit";
  _ ← fail_if (Z.of_nat (length expected) <? domainSize - 1) "slice bounds out of range";
  flag ← index raw (domainSize - 1);
  _ ← fail_if (negb (bool_decide (take (Z.to_nat (domainSize - 1)) raw = take (Z.to_nat (domainSize - 1)) expected))
               || (1 <? b2z flag)) "PK FFT domain differs from circuit";
  let wires := cs_wires cs in
  _ ← fail_if (bool_decide (cs_commitments cs = None)) "unsupported commitments";
  r ← pk_points 3 32 (drop (Z.to_nat domainSize) raw);
  '(na, r) ← pk_vector 32 wires r;
  '(nb, r) ← pk_vector 32 wires r;
  '(nz, r) ← pk_vector 32 (next_power_of_two (cs_constraints cs)) r;
  '(nk, r) ← pk_vector 32 wires r;
  _ ← fail_if (negb (nk =? cs_private_wires cs) || negb (nz =? fft_cardinality (cs_constraints cs) - 1))
        "PK private or quotient vector differs from circuit";
  r ← pk_points 2 64 r;
  '(nb2, r) ← pk_vector 64 wires r;
  '(nw, r) ← pk_checked pk_u64 (fun nw => negb (nw =? wires)) "PK wire count differs from circuit" r;
  '(ia, r) ← pk_checked pk_u64 (fun ia => nw <? ia) "invalid PK infinity count" r;
  '(ib, r) ← pk_checked pk_u64 (fun ib => nw <? ib) "invalid PK infinity count" r;
  _ ← fail_if (negb (na =? wires - ia) || negb (nb =? wires - ib) || negb (nb2 =? nb)) "inconsistent PK point vectors";
  r ← pk_infinity wires ia r;
  r ← pk_infinity wires ib r;
  '(nc, r) ← pk_checked pk_u32 (fun nc => negb (nc =? Z.of_nat (length (cs_private cs))))
               "PK commitment count differs from circuit" r;
  r ← pk_bases 0 wires (cs_private cs) r;
  fail_if (negb (Z.of_nat (length r) =? 0)) "trailing proving key bytes".
End defs.

(** ** Parameters round trip *)

Section params.
Context `{CR : !Crypto, CL : !CryptoLaws, GR : !Groth16, SB : !SetupBackend, PL : !PointLaws}.

Lemma params_g1_Ok r q r' : params_g1 r = Ok (q, r') <-> r = bn_bytes q ++ r' /\ good q = true.
Proof using PL.
  unfold params_g1. split.
  - intros (out & _ & E)%bind_Ok. apply bind_fail_if in E as [[HD HG]%orb_false_iff [= <- <-]].
    apply negb_false_iff in HD, HG. apply bool_decide_eq_true in HD. split; [|done].
    rewrite <- HD at 1. by rewrite take_drop.
  - intros [-> Hg]. rewrite take_app_length', drop_app_length' by (by rewrite length_bn_bytes).
    rewrite bn_set_bytes_bytes by done. cbn [mbind result_bind]. unfold goodBN. by rewrite bool_decide_eq_true_2, Hg.
Qed.

Lemma params_g2_Ok r q r' : params_g2 r = Ok (q, r') <-> r = bn2_bytes q ++ r' /\ good q = true.
Proof using PL.
  unfold params_g2. split.
  - intros (out & _ & E)%bind_Ok. apply bind_fail_if in E as [[HD HG]%orb_false_iff [= <- <-]].
    apply negb_false_iff in HD, HG. apply bool_decide_eq_true in HD. split; [|done].
    rewrite <- HD at 1. by rewrite take_drop.
  - intros [-> Hg]. rewrite take_app_length', drop_app_length' by (by rewrite length_bn2_bytes).
    rewrite bn2_set_bytes_bytes by done. cbn [mbind result_bind]. unfold goodBN2. by rewrite bool_decide_eq_true_2, Hg.
Qed.

Lemma params_powers_Ok n r qs r' :
  params_powers n r = Ok (qs, r') <->
  r = concat (bn_bytes <$> qs) ++ r' /\ length qs = n /\ Forall (fun q => good q = true) qs.
Proof using PL.
  revert r qs r'. induction n as [|n IH]; intros r qs r'; cbn [params_powers].
  - split; [by intros [= <- <-]|]. intros (-> & Hl & _). by destruct qs.
  - rewrite bind_Ok. split.
    + intros ([q r1] & [-> Hq]%params_g1_Ok & E). apply bind_Ok in E as ([qs1 r2] & (-> & Hl & HF)%IH & [= <- <-]).
      cbn [fmap list_fmap concat length]. rewrite <- app_assoc. split; [done|]. split; [by rewrite Hl|by constructor].
    + intros (-> & Hl & HF). destruct qs as [|q qs]; [done|]. apply Forall_cons in HF as [Hq HF].
      exists (q, concat (bn_bytes <$> qs) ++ r'). split.
      * apply params_g1_Ok. cbn [fmap list_fmap concat]. by rewrite <- app_assoc.
      * by rewrite (proj2 (IH _ qs r')) by (cbn in Hl; split_and!; [done|lia|done]).
Qed.

Lemma length_concat_bn qs : length (concat (bn_bytes <$> qs)) = (32 * length qs)%nat.
Proof using PL.
  induction qs as [|q qs IH]; [done|]. cbn [fmap list_fmap concat length]. rewrite length_app, length_bn_bytes, IH. lia.
Qed.

Lemma valid_params_points p :
  ValidateParams p = Ok tt ->
  2 <= Z.of_nat (length (p_Powers p)) <= 2 ^ 16 + 1 /\ good (p_G p) = true /\ good (p_H p) = true /\
  good (p_HTau p) = true /\ Forall (fun q => good q = true) (p_Powers p).
Proof.
  unfold ValidateParams, goodBN, goodBN2. intros [Hn E]%bind_fail_if. apply bind_fail_if in E as [Hg E].
  apply bind_fail_if in E as [_ E]. apply orb_false_iff in Hn as [?%Z.ltb_ge ?%Z.ltb_ge].
  apply orb_false_iff in Hg as [[->%negb_false_iff ->%negb_false_iff]%orb_false_iff ->%negb_false_iff].
  split_and!; try done. revert E. generalize 0%nat. generalize (@None BN). generalize (p_Powers p).
  intros l. induction l as [|q l IH]; intros prev i; [constructor|]. cbn [validate_powers].
  intros [Hq%negb_false_iff E]%bind_fail_if. apply bind_Ok in E as (u & _ & E). constructor; [exact Hq|by eapply IH].
Qed.

Lemma Params_encoded raw p : UnmarshalParams raw = Ok p <-> MarshalParams p = Ok raw.
Proof using PL CL.
  unfold MarshalParams, UnmarshalParams. split.
  - intros [H1 E]%bind_fail_if. apply bind_fail_if in E as [H2 E].
    apply orb_false_iff in H1 as [[?%Z.ltb_ge ?%Z.ltb_ge]%orb_false_iff HM%negb_false_iff%bool_decide_eq_true].
    apply orb_false_iff in H2 as [[?%Z.ltb_ge ?%Z.ltb_ge]%orb_false_iff HL%negb_false_iff%Z.eqb_eq].
    apply bind_Ok in E as ([G r1] & [E1 HG]%params_g1_Ok & E). apply bind_Ok in E as ([H' r2] & [-> HH]%params_g2_Ok & E).
    apply bind_Ok in E as ([HT r3] & [-> HHT]%params_g2_Ok & E).
    apply bind_Ok in E as ([ps r4] & (-> & Hps & HF)%params_powers_Ok & E).
    apply bind_Ok in E as ([] & HV & [= <-]). rewrite HV. cbn [mbind result_bind]. f_equal.
    assert (length (take 4 (drop 8 raw)) = 4%nat) as Hl4 by (rewrite length_take, length_drop; lia).
    assert (r4 = []) as ->.
    { apply (f_equal length) in E1. rewrite length_drop in E1.
      rewrite !length_app, length_concat_bn, length_bn_bytes, !length_bn2_bytes in E1. apply length_zero_iff_nil. lia. }
    unfold params_bytes. cbn [p_G p_H p_HTau p_Powers]. rewrite Hps, Z2Nat.id by lia.
    rewrite be_enc_dec by done. rewrite app_nil_r in E1. rewrite <- E1, <- HM.
    replace (drop 12 raw) with (drop 4 (drop 8 raw)) by (by rewrite drop_drop). by rewrite !take_drop.
  - intros ([] & HV & [= <-])%bind_Ok. pose proof (valid_params_points p HV) as (Hn & HG & HH & HT & HF).
    assert (Z.of_nat (length (params_bytes p)) = 12 + 32 + 128 + Z.of_nat (length (p_Powers p)) * 32) as HL.
    { unfold params_bytes. rewrite !length_app, length_concat_bn, length_bn_bytes, !length_bn2_bytes, length_be_enc.
      change (length (ascii_bytes paramsMagic)) with 8%nat. lia. }
    assert (take 4 (drop 8 (params_bytes p)) = be_enc 4 (Z.of_nat (length (p_Powers p)))) as H4.
    { unfold params_bytes. rewrite drop_app_length' by done. by rewrite take_app_length' by (by rewrite length_be_enc). }
    apply bind_fail_if. split.
    { rewrite !orb_false_iff, negb_false_iff, bool_decide_eq_true. split_and!; [apply Z.ltb_ge; lia| |].
      - apply Z.ltb_ge. unfold maxParamsBytes. lia.
      - unfold params_bytes. by rewrite take_app_length' by done. }
    rewrite H4, be_dec_enc_small by (cbn; lia). apply bind_fail_if. split.
    { rewrite !orb_false_iff, negb_false_iff, Z.eqb_eq. split_and!; [apply Z.ltb_ge; lia|apply Z.ltb_ge; lia|done]. }
    replace (drop 12 (params_bytes p)) with (bn_bytes (p_G p) ++ bn2_bytes (p_H p) ++ bn2_bytes (p_HTau p) ++ concat (bn_bytes <$> p_Powers p)).
    2: { unfold params_bytes. rewrite (app_assoc (ascii_bytes paramsMagic)). symmetry. apply drop_app_length'.
         by rewrite length_app, length_be_enc. }
    rewrite (proj2 (params_g1_Ok _ (p_G p) _)) by (split; [reflexivity|done]). cbn [mbind result_bind].
    rewrite (proj2 (params_g2_Ok _ (p_H p) _)) by (split; [reflexivity|done]). cbn [mbind result_bind].
    rewrite (proj2 (params_g2_Ok _ (p_HTau p) _)) by (split; [reflexivity|done]). cbn [mbind result_bind].
    rewrite (proj2 (params_powers_Ok _ _ (p_Powers p) [])) by (rewrite app_nil_r, Nat2Z.id; done). cbn [mbind result_bind].
    destruct p as [g h ht ps]. cbn [p_G p_H p_HTau p_Powers] in *. by rewrite HV.
Qed.
End params.

(** ** The layout of a proving key *)

(** A vector of points: its length and the compressed points. *)
Definition vec_seg (l : list bytes) : bytes := be_enc 4 (len l) ++ concat l.

Definition points_of (width : nat) (n : Z) (l : list bytes) : Prop := len l = n /\ Forall (compressed_seg width) l.

Definition vector_of (width : nat) (max n : Z) (l : list bytes) : Prop := points_of width n l /\ n <= max /\ n < 2 ^ 32.

(** One flag per wire, [n] of them set. *)
Definition flags_of (wires n : Z) (b : bytes) : Prop :=
  len b = wires /\ Forall (fun v => b2z v <= 1) b /\ foldr (fun v count => b2z v + count) 0 b = n.

Lemma pk_take_Ok n r b r' : pk_take n r = Ok (b, r') <-> r = b ++ r' /\ len b = n.
Proof.
  unfold pk_take. rewrite bind_fail_if, orb_false_iff, !Z.ltb_ge. split.
  - intros [[? ?] [= <- <-]]. rewrite take_drop, length_take. split; [done|lia].
  - intros [-> <-]. rewrite length_app, Nat2Z.id, take_app_length, drop_app_length. split; [lia|done].
Qed.

Lemma pk_u32_Ok r n r' : pk_u32 r = Ok (n, r') <-> r = be_enc 4 n ++ r' /\ 0 <= n < 2 ^ 32.
Proof.
  unfold pk_u32. rewrite bind_Ok. split.
  - intros ([b r1] & [-> Hl]%pk_take_Ok & [= <- <-]). rewrite be_enc_dec by lia. split; [done|].
    pose proof (be_dec_range b) as Hr. by rewrite Hl in Hr.
  - intros [-> Hn]. exists (be_enc 4 n, r'). split; [apply pk_take_Ok; by rewrite length_be_enc|].
    by rewrite be_dec_enc_small.
Qed.

Lemma pk_u64_Ok r n r' : pk_u64 r = Ok (n, r') <-> r = be_enc 8 n ++ r' /\ 0 <= n < 2 ^ 64.
Proof.
  unfold pk_u64. rewrite bind_Ok. split.
  - intros ([b r1] & [-> Hl]%pk_take_Ok & [= <- <-]). rewrite be_enc_dec by lia. split; [done|].
    pose proof (be_dec_range b) as Hr. by rewrite Hl in Hr.
  - intros [-> Hn]. exists (be_enc 8 n, r'). split; [apply pk_take_Ok; by rewrite length_be_enc|].
    by rewrite be_dec_enc_small.
Qed.

Lemma pk_flags_Ok n width b :
  (0 < width)%nat -> length b = (n * width)%nat ->
  pk_flags n width b = Ok tt <-> exists l, b = concat l /\ length l = n /\ Forall (compressed_seg width) l.
Proof.
  intros Hw. revert b. induction n as [|n IH]; intros b Hl; cbn [pk_flags].
  - split; [intros _; exists []; by destruct b|done].
  - destruct b as [|c b]; [cbn in Hl; lia|]. change (index (c :: b) 0) with (Ok (A:=byte) c). cbn [mbind result_bind].
    assert (length (take width (c :: b)) = width) as Ht by (rewrite length_take; lia).
    rewrite bind_fail_if, negb_false_iff, IH by (rewrite length_drop; lia). split.
    + intros (Hc & l & E & Hn & HF). exists (take width (c :: b) :: l). cbn [concat length]. rewrite <- E, take_drop.
      split; [done|]. split; [by rewrite Hn|]. constructor; [|done]. split; [done|].
      destruct width as [|w]; [lia|]. by exists c, (take w b).
    + intros (l & E & Hn & HF). destruct l as [|seg l]; [done|]. apply Forall_cons in HF as [[Hs (c' & tl & -> & Hc)] HF].
      cbn [concat app] in E. injection E as <- E. split; [done|]. exists l. rewrite E.
      change (c :: tl ++ concat l) with ((c :: tl) ++ concat l). rewrite drop_app_length' by done. cbn in Hn. split_and!; [done|lia|done].
Qed.

Lemma length_concat_points width l : Forall (compressed_seg width) l -> length (concat l) = (length l * width)%nat.
Proof. induction 1 as [|s l [Hs _] _ IH]; [done|]. cbn [concat length]. rewrite length_app, Hs, IH. lia. Qed.

Lemma pk_points_Ok n width r r' :
  0 < width ->
  pk_points n width r = Ok r' <-> exists l, r = concat l ++ r' /\ points_of (Z.to_nat width) n l.
Proof.
  intros Hw. unfold pk_points, points_of. rewrite bind_fail_if, orb_false_iff, !Z.ltb_ge, bind_Ok. split.
  - intros ([Hn _] & [b r1] & [-> Hl]%pk_take_Ok & E). apply bind_Ok in E as ([] & HF & [= <-]).
    apply pk_flags_Ok in HF as (l & -> & Hn' & HF); [|lia|nia]. exists l. split; [done|]. split; [lia|done].
  - intros (l & -> & <- & HF). pose proof (length_concat_points _ _ HF) as Hl. split.
    + split; [lia|]. apply Z.div_le_lower_bound; [lia|]. rewrite length_app. nia.
    + exists (concat l, r'). split; [apply pk_take_Ok; split; [done|nia]|].
      rewrite (proj2 (pk_flags_Ok (Z.to_nat (len l)) (Z.to_nat width) (concat l) ltac:(lia) ltac:(lia))); [done|].
      exists l. split_and!; [done|lia|done].
Qed.

Lemma pk_vector_Ok width max r n r' :
  0 < width ->
  pk_vector width max r = Ok (n, r') <-> exists l, r = vec_seg l ++ r' /\ vector_of (Z.to_nat width) max n l.
Proof.
  intros Hw. unfold pk_vector, vector_of, vec_seg. rewrite bind_Ok. split.
  - intros ([n' r1] & H & E). apply bind_Ok in E as (r2 & (l & -> & Hp)%pk_points_Ok & [= <- <-]); [|done].
    destruct (pk_u32 r) as [[n0 r0]|] eqn:E32; [|done]. apply bind_fail_if in H as [Hm%Z.ltb_ge [= -> ->]].
    apply pk_u32_Ok in E32 as [-> Hn]. exists l. rewrite (proj1 Hp), <- app_assoc. split_and!; [done|done|lia|lia].
  - intros (l & -> & Hp & Hm & Hn). rewrite (proj1 Hp), <- app_assoc. pose proof (proj1 Hp). exists (n, concat l ++ r'). split.
    + rewrite (proj2 (pk_u32_Ok _ n (concat l ++ r'))) by (split; [done|lia]). apply bind_fail_if. split; [by apply Z.ltb_ge|done].
    + rewrite (proj2 (pk_points_Ok n width _ r' Hw)) by eauto. done.
Qed.

Lemma pk_infinity_Ok wires n r r' : pk_infinity wires n r = Ok r' <-> exists b, r = b ++ r' /\ flags_of wires n b.
Proof.
  unfold pk_infinity, flags_of. rewrite bind_Ok.
  assert (forall b, existsb (fun v => 1 <? b2z v) b = false <-> Forall (fun v => b2z v <= 1) b) as Hex.
  { intros b. rewrite <- not_true_iff_false, existsb_exists, Forall_forall. setoid_rewrite Z.ltb_lt. split.
    - intros H v Hv. destruct (Z.le_gt_cases (b2z v) 1); [done|]. exfalso. apply H. exists v. split; [by apply list_elem_of_In|lia].
    - intros H (v & Hv%list_elem_of_In & ?). specialize (H v Hv). lia. }
  split.
  - intros ([b r1] & [-> Hl]%pk_take_Ok & E). apply bind_fail_if in E as [Hf%Hex E].
    apply bind_fail_if in E as [Hs%negb_false_iff%Z.eqb_eq [= <-]]. by exists b.
  - intros (b & -> & Hl & Hf & Hs). exists (b, r'). split; [by apply pk_take_Ok|]. apply bind_fail_if. split; [by apply Hex|].
    apply bind_fail_if. split; [by apply negb_false_iff, Z.eqb_eq|done].
Qed.

Lemma pk_bases_Ok i wires committed r r' :
  pk_bases i wires committed r = Ok r' <->
  exists bases, r = concat ((fun ab => vec_seg ab.1 ++ vec_seg ab.2) <$> bases) ++ r' /\
    Forall2 (fun c ab => vector_of 32 wires c ab.1 /\ vector_of 32 wires c ab.2) committed bases.
Proof.
  revert i r. induction committed as [|c committed IH]; intros i r; cbn [pk_bases].
  - split; [intros [= <-]; exists []; split; [done|constructor]|]. intros (bases & -> & HF). by apply Forall2_nil_inv_l in HF as ->.
  - rewrite bind_Ok. split.
    + intros ([a r1] & (la & -> & Ha)%pk_vector_Ok & E); [|done]. apply bind_Ok in E as ([b r2] & (lb & -> & Hb)%pk_vector_Ok & E); [|done].
      apply bind_fail_if in E as [[Eab%negb_false_iff%Z.eqb_eq Eac%negb_false_iff%Z.eqb_eq]%orb_false_iff E]. subst b c.
      apply IH in E as (bases & -> & HF). exists ((la, lb) :: bases). cbn [fmap list_fmap concat fst snd].
      rewrite <- !app_assoc. split; [done|]. by constructor.
    + intros (bases & -> & HF). apply Forall2_cons_inv_l in HF as ([la lb] & bases' & [Ha Hb] & HF & ->).
      cbn [fmap list_fmap concat fst snd] in *. rewrite <- !app_assoc. eexists (c, _). split; [apply pk_vector_Ok; [done|]; eauto|].
      rewrite (proj2 (pk_vector_Ok 32 wires _ c _ ltac:(lia))) by eauto. cbn [mbind result_bind].
      apply bind_fail_if. split; [by rewrite Z.eqb_refl|]. apply IH. eauto.
Qed.

Lemma pk_checked_Ok read bad e r n r' :
  pk_checked read bad e r = Ok (n, r') <-> read r = Ok (n, r') /\ bad n = false.
Proof.
  unfold pk_checked. destruct (read r) as [[n0 r0]|]; [|naive_solver]. rewrite bind_fail_if. naive_solver.
Qed.

(** The steps on inputs that start with the expected piece. *)
Lemma pk_points_app n width l r :
  0 < width -> points_of (Z.to_nat width) n l -> pk_points n width (concat l ++ r) = Ok r.
Proof. intros. apply pk_points_Ok; eauto. Qed.

Lemma pk_vector_app width max n l r :
  0 < width -> vector_of (Z.to_nat width) max n l -> pk_vector width max (vec_seg l ++ r) = Ok (n, r).
Proof. intros. apply pk_vector_Ok; eauto. Qed.

Lemma pk_infinity_app wires n b r : flags_of wires n b -> pk_infinity wires n (b ++ r) = Ok r.
Proof. intros. apply pk_infinity_Ok; eauto. Qed.

Lemma pk_u64_app bad e n r : 0 <= n < 2 ^ 64 -> bad n = false -> pk_checked pk_u64 bad e (be_enc 8 n ++ r) = Ok (n, r).
Proof. intros. apply pk_checked_Ok. split; [by apply pk_u64_Ok|done]. Qed.

Lemma pk_u32_app bad e n r : 0 <= n < 2 ^ 32 -> bad n = false -> pk_checked pk_u32 bad e (be_enc 4 n ++ r) = Ok (n, r).
Proof. intros. apply pk_checked_Ok. split; [by apply pk_u32_Ok|done]. Qed.

Section proving_key.
Context `{CR : !Crypto, GR : !Groth16, SB : !SetupBackend}.

(** The parts of a proving key, and the counts of its infinity flags. *)
Record pk_parts := mk_pk_parts {
  pp_precompute : byte;
  pp_g1 : list bytes;
  pp_A : list bytes;
  pp_B : list bytes;
  pp_Z : list bytes;
  pp_K : list bytes;
  pp_g2 : list bytes;
  pp_B2 : list bytes;
  pp_ia : Z;
  pp_ib : Z;
  pp_infA : bytes;
  pp_infB : bytes;
  pp_bases : list (list bytes * list bytes);
}.

Definition pk_text (domain : bytes) (wires : Z) (p : pk_parts) : bytes :=
  take (Z.to_nat (domainSize - 1)) domain ++ pp_precompute p :: concat (pp_g1 p)
  ++ vec_seg (pp_A p) ++ vec_seg (pp_B p) ++ vec_seg (pp_Z p) ++ vec_seg (pp_K p) ++ concat (pp_g2 p) ++ vec_seg (pp_B2 p)
  ++ be_enc 8 wires ++ be_enc 8 (pp_ia p) ++ be_enc 8 (pp_ib p) ++ pp_infA p ++ pp_infB p
  ++ be_enc 4 (len (pp_bases p)) ++ concat ((fun ab => vec_seg ab.1 ++ vec_seg ab.2) <$> pp_bases p).

Record pk_layout (cs : CS) (raw domain : bytes) (p : pk_parts) : Prop := mk_pk_layout {
  ply_domain : fft_bytes (cs_constraints cs) = Ok domain /\ domainSize - 1 <= len domain;
  ply_commitments : cs_commitments cs <> None;
  ply_precompute : b2z (pp_precompute p) <= 1;
  ply_g1 : points_of 32 3 (pp_g1 p);
  ply_A : vector_of 32 (cs_wires cs) (cs_wires cs - pp_ia p) (pp_A p);
  ply_B : vector_of 32 (cs_wires cs) (cs_wires cs - pp_ib p) (pp_B p);
  ply_Z : vector_of 32 (next_power_of_two (cs_constraints cs)) (fft_cardinality (cs_constraints cs) - 1) (pp_Z p);
  ply_K : vector_of 32 (cs_wires cs) (cs_private_wires cs) (pp_K p);
  ply_g2 : points_of 64 2 (pp_g2 p);
  ply_B2 : vector_of 64 (cs_wires cs) (cs_wires cs - pp_ib p) (pp_B2 p);
  ply_wires : 0 <= cs_wires cs < 2 ^ 64;
  ply_ia : 0 <= pp_ia p <= cs_wires cs;
  ply_ib : 0 <= pp_ib p <= cs_wires cs;
  ply_infA : flags_of (cs_wires cs) (pp_ia p) (pp_infA p);
  ply_infB : flags_of (cs_wires cs) (pp_ib p) (pp_infB p);
  ply_bases : len (pp_bases p) < 2 ^ 32 /\
    Forall2 (fun c ab => vector_of 32 (cs_wires cs) c ab.1 /\ vector_of 32 (cs_wires cs) c ab.2) (cs_private cs) (pp_bases p);
  ply_raw : raw = pk_text domain (cs_wires cs) p;
}.

Lemma index_drop raw n b : index raw (Z.of_nat n) = Ok b <-> exists r, drop n raw = b :: r /\ drop (S n) raw = r.
Proof.
  unfold index. destruct (Z.ltb_spec (Z.of_nat n) 0); [lia|]. rewrite Nat2Z.id. split.
  - destruct (raw !! n) as [c|] eqn:E; [|done]. intros [= ->]. exists (drop (S n) raw). split; [by apply drop_S|done].
  - intros (r & E & _). assert (raw !! n = Some b) as ->; [|done]. rewrite <- (Nat.add_0_r n), <- lookup_drop, E. done.
Qed.

Lemma preflightProvingKey_sound raw cs :
  preflightProvingKey raw cs = Ok tt -> exists domain p, pk_layout cs raw domain p.
Proof.
  unfold preflightProvingKey. intros (domain & HD & E)%bind_Ok. apply bind_fail_if in E as [_ E].
  apply bind_fail_if in E as [Hd%Z.ltb_ge E]. apply bind_Ok in E as (flag & Hflag & E).
  apply bind_fail_if in E as [[HT%negb_false_iff%bool_decide_eq_true Hf%Z.ltb_ge]%orb_false_iff E].
  apply bind_fail_if in E as [HC%bool_decide_eq_false E].
  apply (index_drop raw (Z.to_nat (domainSize - 1))) in Hflag as (r0 & ER & ER').
  apply bind_Ok in E as (r1 & (g1 & E1 & Hg1)%pk_points_Ok & E); [|done].
  apply bind_Ok in E as ([na r2] & (A & -> & HA)%pk_vector_Ok & E); [|done].
  apply bind_Ok in E as ([nb r3] & (B & -> & HB)%pk_vector_Ok & E); [|done].
  apply bind_Ok in E as ([nz r4] & (Zs & -> & HZ)%pk_vector_Ok & E); [|done].
  apply bind_Ok in E as ([nk r5] & (K & -> & HK)%pk_vector_Ok & E); [|done].
  apply bind_fail_if in E as [[EK%negb_false_iff%Z.eqb_eq EZ%negb_false_iff%Z.eqb_eq]%orb_false_iff E].
  apply bind_Ok in E as (r6 & (g2 & -> & Hg2)%pk_points_Ok & E); [|done].
  apply bind_Ok in E as ([nb2 r7] & (B2 & -> & HB2)%pk_vector_Ok & E); [|done].
  apply bind_Ok in E as ([nw r8] & [[-> Hnw]%pk_u64_Ok Enw%negb_false_iff%Z.eqb_eq]%pk_checked_Ok & E).
  apply bind_Ok in E as ([ia r9] & [[-> Hia]%pk_u64_Ok Eia%Z.ltb_ge]%pk_checked_Ok & E).
  apply bind_Ok in E as ([ib r10] & [[-> Hib]%pk_u64_Ok Eib%Z.ltb_ge]%pk_checked_Ok & E).
  apply bind_fail_if in E as [HEQ E].
  apply orb_false_iff in HEQ as [[Ena%negb_false_iff%Z.eqb_eq Enb%negb_false_iff%Z.eqb_eq]%orb_false_iff Eb2%negb_false_iff%Z.eqb_eq].
  apply bind_Ok in E as (r11 & (fa & -> & Hfa)%pk_infinity_Ok & E). apply bind_Ok in E as (r12 & (fb & -> & Hfb)%pk_infinity_Ok & E).
  apply bind_Ok in E as ([nc r13] & [[-> Hnc]%pk_u32_Ok Enc%negb_false_iff%Z.eqb_eq]%pk_checked_Ok & E).
  apply bind_Ok in E as (r14 & (bases & -> & Hbases)%pk_bases_Ok & E). apply fail_if_Ok, negb_false_iff, Z.eqb_eq in E.
  destruct r14; [|done]. rewrite app_nil_r in E1. subst nk nz nw na nb nb2.
  pose proof (Forall2_length _ _ _ Hbases) as Hlb.
  exists domain, (mk_pk_parts flag g1 A B Zs K g2 B2 ia ib fa fb bases).
  constructor; cbn [pp_precompute pp_g1 pp_A pp_B pp_Z pp_K pp_g2 pp_B2 pp_ia pp_ib pp_infA pp_infB pp_bases]; try done; try lia.
  - split; [lia|done].
  - unfold pk_text. cbn [pp_precompute pp_g1 pp_A pp_B pp_Z pp_K pp_g2 pp_B2 pp_ia pp_ib pp_infA pp_infB pp_bases].
    rewrite <- (take_drop (Z.to_nat (domainSize - 1)) raw), HT, ER. f_equal. f_equal.
    change (S (Z.to_nat (domainSize - 1))) with (Z.to_nat domainSize) in ER'. rewrite <- ER', E1.
    do 13 f_equal. by rewrite <- Hlb, <- Enc.
Qed.

Lemma preflightProvingKey_complete raw cs domain p :
  pk_layout cs raw domain p -> preflightProvingKey raw cs = Ok tt.
Proof.
  intros [[HD Hd] HC Hf Hg1 HA HB HZ HK Hg2 HB2 Hw Hia Hib Hfa Hfb [Hnb Hb] ->]. unfold preflightProvingKey.
  rewrite HD. cbn [mbind result_bind].
  set (rest := concat (pp_g1 p) ++ vec_seg (pp_A p) ++ vec_seg (pp_B p) ++ vec_seg (pp_Z p) ++ vec_seg (pp_K p) ++ concat (pp_g2 p) ++ vec_seg (pp_B2 p)
    ++ be_enc 8 (cs_wires cs) ++ be_enc 8 (pp_ia p) ++ be_enc 8 (pp_ib p) ++ pp_infA p ++ pp_infB p
    ++ be_enc 4 (len (pp_bases p)) ++ concat ((fun ab => vec_seg ab.1 ++ vec_seg ab.2) <$> pp_bases p)).
  change (pk_text domain (cs_wires cs) p) with (take (Z.to_nat (domainSize - 1)) domain ++ pp_precompute p :: rest).
  assert (length (take (Z.to_nat (domainSize - 1)) domain) = Z.to_nat (domainSize - 1)) as Ht by (rewrite length_take; lia).
  apply bind_fail_if. split; [apply Z.ltb_ge; rewrite length_app, Ht; cbn [length]; unfold domainSize; lia|].
  apply bind_fail_if. split; [apply Z.ltb_ge; lia|].
  assert (index (take (Z.to_nat (domainSize - 1)) domain ++ pp_precompute p :: rest) (domainSize - 1) = Ok (pp_precompute p)) as ->.
  { replace (domainSize - 1) with (len (take (Z.to_nat (domainSize - 1)) domain)) at 2 by (rewrite Ht; done). apply index_app. }
  cbn [mbind result_bind]. apply bind_fail_if. split.
  { rewrite orb_false_iff, negb_false_iff, bool_decide_eq_true, Z.ltb_ge. split; [|done]. by rewrite take_app_length' by done. }
  apply bind_fail_if. split; [by apply bool_decide_eq_false|].
  replace (drop (Z.to_nat domainSize) (take (Z.to_nat (domainSize - 1)) domain ++ pp_precompute p :: rest)) with rest.
  2: { symmetry. change (Z.to_nat domainSize) with (Z.to_nat (domainSize - 1) + 1)%nat. rewrite <- Ht at 1.
       rewrite drop_app_add. done. }
  unfold rest. clear rest.
  rewrite (pk_points_app 3 32) by done. cbn [mbind result_bind].
  rewrite (pk_vector_app 32 (cs_wires cs) _ (pp_A p) _ ltac:(lia) HA). cbn [mbind result_bind].
  rewrite (pk_vector_app 32 (cs_wires cs) _ (pp_B p) _ ltac:(lia) HB). cbn [mbind result_bind].
  rewrite (pk_vector_app 32 _ _ (pp_Z p) _ ltac:(lia) HZ). cbn [mbind result_bind].
  rewrite (pk_vector_app 32 (cs_wires cs) _ (pp_K p) _ ltac:(lia) HK). cbn [mbind result_bind].
  apply bind_fail_if. split; [by rewrite !Z.eqb_refl|].
  rewrite (pk_points_app 2 64) by done. cbn [mbind result_bind].
  rewrite (pk_vector_app 64 (cs_wires cs) _ (pp_B2 p) _ ltac:(lia) HB2). cbn [mbind result_bind].
  rewrite pk_u64_app by (done || by rewrite Z.eqb_refl). cbn [mbind result_bind].
  rewrite pk_u64_app by (lia || by apply Z.ltb_ge). cbn [mbind result_bind].
  rewrite pk_u64_app by (lia || by apply Z.ltb_ge). cbn [mbind result_bind].
  apply bind_fail_if. split; [by rewrite !Z.eqb_refl|].
  rewrite (pk_infinity_app _ _ _ _ Hfa). cbn [mbind result_bind].
  rewrite (pk_infinity_app _ _ _ _ Hfb). cbn [mbind result_bind].
  rewrite pk_u32_app by (lia || by rewrite (Forall2_length _ _ _ Hb), Z.eqb_refl). cbn [mbind result_bind].
  rewrite (proj2 (pk_bases_Ok 0 (cs_wires cs) (cs_private cs) _ [])); [done|]. exists (pp_bases p). by rewrite app_nil_r.
Qed.

(** C37: the proving key preflight. [preflightProvingKey] accepts a byte
    string exactly when it is a proving key for the compiled circuit in
    gnark's compressed layout: the FFT domain of the circuit, compressed
    points only, every vector of the length the circuit prescribes, flags
    that match the counts, one pair of bases per commitment, and nothing
    left over. So no length in an accepted file exceeds the file. *)
Theorem preflightProvingKey_exact raw cs :
  preflightProvingKey raw cs = Ok tt <-> exists domain p, pk_layout cs raw domain p.
Proof.
  split; [apply preflightProvingKey_sound|]. intros (domain & p & H). by eapply preflightProvingKey_complete.
Qed.
End proving_key.
