(* ===== verification/Setup.v ===== *)
(** * Setup bundles ([nativeproof/setup.go])

    A setup is exported as a directory: the manifest, the public parameters
    and the two keys. A directory is a map from names to files, absent when
    the path does not exist. Loading starts from the digest of the manifest,
    which pins everything else. [io] gives the failures of the system calls
    when a file is read; failures while a bundle is written are the [fault]s
    of [Service]. *)

From S2P Require Import Prelude Bytes Sha256 Curve Profile Accumulator Circuit CircuitFacts.
From S2P Require Import Statements Backend BackendFacts Protocol Wire Encodings Text Json JsonStream Service SetupEncoding.

Definition setupFormat := "lktrs/setup/v1".
Definition gnarkVersion := "v0.16.3".
Definition cryptoVersion := "v0.21.0".
Definition maxManifestBytes : Z := 2 ^ 20.
Definition maxProvingKeyBytes : Z := 2 ^ 30.

Record ArtifactDigest := mkArtifactDigest {
  ad_SHA256 : string;
  ad_Size : Z;
}.

Record CircuitDescriptor := mkCircuitDescriptor {
  cd_SHA256 : string;
  cd_Constraints : Z;
  cd_PublicVariables : Z;
  cd_SecretVariables : Z;
  cd_InternalVariables : Z;
  cd_Commitments : Z;
}.

#[export] Instance CircuitDescriptor_eq_dec : EqDecision CircuitDescriptor.
Proof. solve_decision. Defined.

Record SetupManifest := mkSetupManifest {
  m_Format : string;
  m_Profile : string;
  m_SetupKind : string;
  m_PairingCurve : string;
  m_StandaloneCurve : string;
  m_PairingScalarOrder : string;
  m_StandaloneScalarOrder : string;
  m_Gnark : string;
  m_GnarkCrypto : string;
  m_Circuit : CircuitDescriptor;
  m_Capacity : Z;
  m_Parameters : ArtifactDigest;
  m_ProvingKey : ArtifactDigest;
  m_VerifyingKey : ArtifactDigest;
}.

(** ** Text *)

Definition zero_artifact : ArtifactDigest := mkArtifactDigest "" 0.
Definition zero_circuit : CircuitDescriptor := mkCircuitDescriptor "" 0 0 0 0 0.
Definition zero_manifest : SetupManifest :=
  mkSetupManifest "" "" "" "" "" "" "" "" "" zero_circuit 0 zero_artifact zero_artifact zero_artifact.

Definition artifact_fields : list (field ArtifactDigest) :=
  [on_field "sha256" dec_string ad_SHA256 (fun x '(mkArtifactDigest _ b) => mkArtifactDigest x b);
   on_field "bytes" (dec_int 64) ad_Size (fun x '(mkArtifactDigest a _) => mkArtifactDigest a x)].

Definition circuit_fields : list (field CircuitDescriptor) :=
  [on_field "sha256" dec_string cd_SHA256 (fun x '(mkCircuitDescriptor _ b c d e f) => mkCircuitDescriptor x b c d e f);
   on_field "constraints" (dec_int 64) cd_Constraints (fun x '(mkCircuitDescriptor a _ c d e f) => mkCircuitDescriptor a x c d e f);
   on_field "public_variables_including_constant" (dec_int 64) cd_PublicVariables
     (fun x '(mkCircuitDescriptor a b _ d e f) => mkCircuitDescriptor a b x d e f);
   on_field "secret_variables" (dec_int 64) cd_SecretVariables (fun x '(mkCircuitDescriptor a b c _ e f) => mkCircuitDescriptor a b c x e f);
   on_field "internal_variables" (dec_int 64) cd_InternalVariables
     (fun x '(mkCircuitDescriptor a b c d _ f) => mkCircuitDescriptor a b c d x f);
   on_field "commitments" (dec_int 64) cd_Commitments (fun x '(mkCircuitDescriptor a b c d e _) => mkCircuitDescriptor a b c d e x)].

Definition manifest_fields : list (field SetupManifest) :=
  [on_field "format" dec_string m_Format
     (fun x '(mkSetupManifest _ b c d e f g h i j k l m n) => mkSetupManifest x b c d e f g h i j k l m n);
   on_field "profile" dec_string m_Profile
     (fun x '(mkSetupManifest a _ c d e f g h i j k l m n) => mkSetupManifest a x c d e f g h i j k l m n);
   on_field "setup_kind" dec_string m_SetupKind
     (fun x '(mkSetupManifest a b _ d e f g h i j k l m n) => mkSetupManifest a b x d e f g h i j k l m n);
   on_field "pairing_curve" dec_string m_PairingCurve
     (fun x '(mkSetupManifest a b c _ e f g h i j k l m n) => mkSetupManifest a b c x e f g h i j k l m n);
   on_field "standalone_curve" dec_string m_StandaloneCurve
     (fun x '(mkSetupManifest a b c d _ f g h i j k l m n) => mkSetupManifest a b c d x f g h i j k l m n);
   on_field "pairing_scalar_order" dec_string m_PairingScalarOrder
     (fun x '(mkSetupManifest a b c d e _ g h i j k l m n) => mkSetupManifest a b c d e x g h i j k l m n);
   on_field "standalone_scalar_order" dec_string m_StandaloneScalarOrder
     (fun x '(mkSetupManifest a b c d e f _ h i j k l m n) => mkSetupManifest a b c d e f x h i j k l m n);
   on_field "gnark" dec_string m_Gnark
     (fun x '(mkSetupManifest a b c d e f g _ i j k l m n) => mkSetupManifest a b c d e f g x i j k l m n);
   on_field "gnark_crypto" dec_string m_GnarkCrypto
     (fun x '(mkSetupManifest a b c d e f g h _ j k l m n) => mkSetupManifest a b c d e f g h x j k l m n);
   on_field "circuit" (dec_struct circuit_fields) m_Circuit
     (fun x '(mkSetupManifest a b c d e f g h i _ k l m n) => mkSetupManifest a b c d e f g h i x k l m n);
   on_field "capacity" (dec_int 64) m_Capacity
     (fun x '(mkSetupManifest a b c d e f g h i j _ l m n) => mkSetupManifest a b c d e f g h i j x l m n);
   on_field "parameters" (dec_struct artifact_fields) m_Parameters
     (fun x '(mkSetupManifest a b c d e f g h i j k _ m n) => mkSetupManifest a b c d e f g h i j k x m n);
   on_field "proving_key" (dec_struct artifact_fields) m_ProvingKey
     (fun x '(mkSetupManifest a b c d e f g h i j k l _ n) => mkSetupManifest a b c d e f g h i j k l x n);
   on_field "verifying_key" (dec_struct artifact_fields) m_VerifyingKey
     (fun x '(mkSetupManifest a b c d e f g h i j k l m _) => mkSetupManifest a b c d e f g h i j k l m x)].

Definition enc_artifact (a : ArtifactDigest) : json :=
  enc_struct [("sha256", enc_string (ad_SHA256 a)); ("bytes", enc_int (ad_Size a))].

Definition enc_circuit (c : CircuitDescriptor) : json :=
  enc_struct [("sha256", enc_string (cd_SHA256 c)); ("constraints", enc_int (cd_Constraints c));
              ("public_variables_including_constant", enc_int (cd_PublicVariables c));
              ("secret_variables", enc_int (cd_SecretVariables c));
              ("internal_variables", enc_int (cd_InternalVariables c)); ("commitments", enc_int (cd_Commitments c))].

Definition enc_manifest (m : SetupManifest) : json :=
  enc_struct [("format", enc_string (m_Format m)); ("profile", enc_string (m_Profile m));
              ("setup_kind", enc_string (m_SetupKind m)); ("pairing_curve", enc_string (m_PairingCurve m));
              ("standalone_curve", enc_string (m_StandaloneCurve m));
              ("pairing_scalar_order", enc_string (m_PairingScalarOrder m));
              ("standalone_scalar_order", enc_string (m_StandaloneScalarOrder m));
              ("gnark", enc_string (m_Gnark m)); ("gnark_crypto", enc_string (m_GnarkCrypto m));
              ("circuit", enc_circuit (m_Circuit m)); ("capacity", enc_int (m_Capacity m));
              ("parameters", enc_artifact (m_Parameters m)); ("proving_key", enc_artifact (m_ProvingKey m));
              ("verifying_key", enc_artifact (m_VerifyingKey m))].

(** [json.MarshalIndent] and the final newline. *)
Definition manifest_text (m : SetupManifest) : bytes := marshal_indent (enc_manifest m) ++ [z2b 10].

(** [big.Int.String] of a nonnegative number. *)
Definition decimal_string (z : Z) : string := String.string_of_list_byte (print_uint z).

(** ** Files of a bundle *)

Abbreviation bundle := (gmap string file).

(** Failures when the named file is read. *)
Abbreviation read_io := (string -> option error).

Definition file_in (dir : option bundle) (name : string) : option file := dir ≫= fun b => b !! name.

Definition readArtifact (io : read_io) (dir : option bundle) (name : string) (ref : ArtifactDigest) (max : Z) : result bytes :=
  _ ← fail_if ((ad_Size ref <? 1) || (max <? ad_Size ref)) ("invalid " +:+ name +:+ " size");
  digest ← ParseDigest (ad_SHA256 ref);
  raw ← ReadBoundedFile (io name) (file_in dir name) (ad_Size ref);
  _ ← fail_if (negb (Z.of_nat (length raw) =? ad_Size ref) || negb (bool_decide (sha256 raw = digest)))
        (name +:+ " digest or size mismatch");
  Ok raw.

(** [WriteTo] through the budget: more than [max] bytes fail. *)
Definition writeArtifact (b : bundle) (name : string) (w : result bytes) (max : Z) : result (ArtifactDigest * bundle) :=
  _ ← fail_if (bool_decide (is_Some (b !! name))) "file exists";
  data ← w;
  _ ← fail_if (max <? Z.of_nat (length data)) "artifact exceeds size budget";
  Ok (mkArtifactDigest (hex_encode (sha256 data)) (Z.of_nat (length data)), <[name := private_file data]> b).

(** The bundle is filled aside and renamed; an existing one is kept. *)
Definition newBundle (f : option fault) (dst : option bundle) (fill : bundle -> result bundle) : result unit * option bundle :=
  match dst with
  | Some _ => (Err "output bundle already exists or cannot be inspected", dst)
  | None =>
      match f with
      | Some (BeforeRename e) => (Err e, dst)
      | _ =>
          match fill ∅ with
          | Err e => (Err e, dst)
          | Ok b => (match f with Some (AfterRename e) => Err e | _ => Ok tt end, Some b)
          end
      end
  end.

Section defs.
Context `{CR : !Crypto, GR : !Groth16, SB : !SetupBackend}.

Definition describeCircuit (cs : CS) : result CircuitDescriptor :=
  hash ← digestWriter (cs_bytes cs);
  match cs_commitments cs with
  | None => Err "unsupported circuit commitments"
  | Some commitments =>
      Ok (mkCircuitDescriptor (hexDigest hash) (cs_constraints cs) (cs_public cs) (cs_secret cs) (cs_internal cs) commitments)
  end.

(** ** Export *)

Definition base_manifest (descriptor : CircuitDescriptor) (params : Params) : SetupManifest :=
  mkSetupManifest setupFormat CircuitVersion "local-single-party" "bn254" "secp256k1" (decimal_string (g_order BN))
    (decimal_string (g_order Secp)) gnarkVersion cryptoVersion descriptor (Z.of_nat (length (p_Powers params)) - 1)
    zero_artifact zero_artifact zero_artifact.

Definition set_artifacts (m : SetupManifest) (pp pk vk : ArtifactDigest) : SetupManifest :=
  mkSetupManifest (m_Format m) (m_Profile m) (m_SetupKind m) (m_PairingCurve m) (m_StandaloneCurve m)
    (m_PairingScalarOrder m) (m_StandaloneScalarOrder m) (m_Gnark m) (m_GnarkCrypto m) (m_Circuit m) (m_Capacity m) pp pk vk.

(** The four artifacts; the digest of the last is the pin. *)
Definition fill_setup (m : SetupManifest) (pp : bytes) (p : Prover) (vk : VK) (b : bundle) : result (bundle * bytes) :=
  '(ap, b) ← writeArtifact b "parameters.bin" (Ok pp) maxParamsBytes;
  '(av, b) ← writeArtifact b "vk.bin" (vk_bytes vk) maxProofBytes;
  _ ← fail_if (negb (String.eqb (ad_SHA256 av) (hexDigest (pr_keyID p)))) "VK identity mismatch";
  '(ak, b) ← writeArtifact b "pk.bin" (pk_bytes (pr_pk p)) maxProvingKeyBytes;
  let raw := manifest_text (set_artifacts m ap ak av) in
  '(_, b) ← writeArtifact b "manifest.json" (Ok raw) maxManifestBytes;
  Ok (b, sha256 raw).

(** With an error the Go function also returns the digest reached so far; no
    caller reads it, and the result here is the error. *)
Definition ExportSetup (f : option fault) (dst : option bundle) (params : Params) (p : option Prover) (v : option Verifier)
    : result bytes * option bundle :=
  match (match p, v with
         | Some p, Some v =>
             match v_vk v with
             | None => Err "missing setup"
             | Some vk =>
                 _ ← fail_if (negb (bool_decide (pr_circuitHash p = v_circuitHash v)) || negb (bool_decide (pr_keyID p = v_keyID v)))
                       "prover/verifier identity mismatch";
                 pp ← MarshalParams params;
                 descriptor ← describeCircuit (pr_cs p);
                 _ ← fail_if (negb (String.eqb (cd_SHA256 descriptor) (hexDigest (pr_circuitHash p))))
                       "prover circuit identity mismatch";
                 Ok (fill_setup (base_manifest descriptor params) pp p vk)
             end
         | _, _ => Err "missing setup"
         end) with
  | Err e => (Err e, dst)
  | Ok fill =>
      let '(e, dst) := newBundle f dst (fun b => '(b, _) ← fill b; Ok b) in
      (_ ← e; '(_, pin) ← fill ∅; Ok pin, dst)
  end.

(** ** Loading *)

Definition check_manifest (m : SetupManifest) : result SetupManifest :=
  _ ← fail_if (negb (String.eqb (m_Format m) setupFormat) || negb (String.eqb (m_Profile m) CircuitVersion)
               || negb (String.eqb (m_SetupKind m) "local-single-party") || negb (String.eqb (m_PairingCurve m) "bn254")
               || negb (String.eqb (m_StandaloneCurve m) "secp256k1")
               || negb (String.eqb (m_PairingScalarOrder m) (decimal_string (g_order BN)))
               || negb (String.eqb (m_StandaloneScalarOrder m) (decimal_string (g_order Secp)))
               || negb (String.eqb (m_Gnark m) gnarkVersion) || negb (String.eqb (m_GnarkCrypto m) cryptoVersion)
               || (m_Capacity m <? 1) || (2 ^ 16 <? m_Capacity m))
        "unsupported setup manifest profile";
  _ ← fail_if (existsb (fun ref => negb (is_ok (ParseDigest (ad_SHA256 ref))) || (ad_Size ref <=? 0))
                 [m_Parameters m; m_ProvingKey m; m_VerifyingKey m]) "invalid manifest artifact";
  _ ← fail_if ((maxParamsBytes <? ad_Size (m_Parameters m)) || (maxProvingKeyBytes <? ad_Size (m_ProvingKey m))
               || (maxProofBytes <? ad_Size (m_VerifyingKey m))) "manifest artifact exceeds size budget";
  _ ← ParseDigest (cd_SHA256 (m_Circuit m));
  Ok m.

Definition readManifest (io : read_io) (dir : option bundle) (pin : bytes) : result (SetupManifest * bytes) :=
  _ ← fail_if (bool_decide (pin = zero_digest)) "trusted manifest digest required";
  raw ← ReadBoundedFile (io "manifest.json") (file_in dir "manifest.json") maxManifestBytes;
  _ ← fail_if (negb (bool_decide (sha256 raw = pin))) "manifest digest mismatch";
  m ← strictJSON (dec_struct manifest_fields) zero_manifest raw;
  m ← check_manifest m;
  Ok (m, raw).

Record LoadedSetup := mkLoadedSetup {
  ls_Parameters : Params;
  ls_Prover : option Prover;
  ls_Verifier : Verifier;
  ls_Manifest : SetupManifest;
}.

(** The comparison of the setup points of both keys. *)
Definition setup_points_differ (np : PK) (nv : VK) : bool :=
  negb (bool_decide (pk_G1_Alpha np = vk_G1_Alpha nv)) || negb (bool_decide (pk_G1_Beta np = vk_G1_Beta nv))
  || negb (bool_decide (pk_G1_Delta np = vk_G1_Delta nv)) || negb (bool_decide (pk_G2_Beta np = vk_G2_Beta nv))
  || negb (bool_decide (pk_G2_Delta np = vk_G2_Delta nv)).

(** The part of [loadSetup] for the proving key. *)
Definition load_prover (io : read_io) (dir : option bundle) (m : SetupManifest) (cs : CS) (ch kid : bytes) (verifier : Verifier)
    : result Prover :=
  raw ← readArtifact io dir "pk.bin" (m_ProvingKey m) maxProvingKeyBytes;
  _ ← wrap "PK layout" (preflightProvingKey raw cs);
  '(pk, rest) ← pk_read raw;
  _ ← fail_if (negb (length rest =? 0)%nat) "trailing PK bytes";
  vk ← deref (v_vk verifier);
  _ ← fail_if (setup_points_differ pk vk) "PK/VK setup points differ";
  Ok (mkProver cs pk ch kid).

Definition loadSetup (io : read_io) (dir : option bundle) (pin : bytes) (withProver : bool) : result LoadedSetup :=
  '(m, _) ← readManifest io dir pin;
  raw ← readArtifact io dir "parameters.bin" (m_Parameters m) maxParamsBytes;
  params ← UnmarshalParams raw;
  _ ← fail_if (negb (Z.of_nat (length (p_Powers params)) - 1 =? m_Capacity m)) "parameter capacity mismatch";
  key ← readArtifact io dir "vk.bin" (m_VerifyingKey m) maxProofBytes;
  _ ← preflightVerifyingKey key;
  cs ← Compile;
  descriptor ← describeCircuit cs;
  _ ← fail_if (negb (bool_decide (descriptor = m_Circuit m))) "manifest circuit differs from locally compiled circuit";
  ch ← ParseDigest (cd_SHA256 (m_Circuit m));
  kid ← ParseDigest (ad_SHA256 (m_VerifyingKey m));
  verifier ← loadVerifierForCircuit key ch kid cs;
  if negb withProver then Ok (mkLoadedSetup params None verifier m)
  else
    prover ← load_prover io dir m cs ch kid verifier;
    Ok (mkLoadedSetup params (Some prover) verifier m).

Definition LoadPublicSetup (io : read_io) (dir : option bundle) (pin : bytes) : result LoadedSetup := loadSetup io dir pin false.
Definition LoadSetup (io : read_io) (dir : option bundle) (pin : bytes) : result LoadedSetup := loadSetup io dir pin true.

(** The loop that copies the three public files. *)
Fixpoint copy_artifacts (files : list (string * bytes)) (b : bundle) : result bundle :=
  match files with
  | [] => Ok b
  | (name, data) :: files =>
      '(_, b) ← writeArtifact b name (Ok data) (Z.of_nat (length data));
      copy_artifacts files b
  end.

Definition ExportPublicSetup (io : read_io) (f : option fault) (src dst : option bundle) (pin : bytes)
    : result unit * option bundle :=
  match (_ ← LoadPublicSetup io src pin;
         '(m, manifest) ← readManifest io src pin;
         pp ← readArtifact io src "parameters.bin" (m_Parameters m) maxParamsBytes;
         vk ← readArtifact io src "vk.bin" (m_VerifyingKey m) maxProofBytes;
         Ok [("manifest.json", manifest); ("parameters.bin", pp); ("vk.bin", vk)]) with
  | Err e => (Err e, dst)
  | Ok files => newBundle f dst (copy_artifacts files)
  end.

(** [Service.LoadSetup]: a service without a setup takes the loaded one. *)
Definition ServiceLoadSetup (io : read_io) (dir : option bundle) (pin : bytes) (s : Service) : result unit * Service :=
  match sv_prover s with
  | Some _ => (Err "setup already completed", s)
  | None =>
      match LoadSetup io dir pin with
      | Err e => (Err e, s)
      | Ok loaded =>
          (Ok tt, mkService (ls_Parameters loaded) (ls_Prover loaded) (Some (ls_Verifier loaded)) (sv_users s) (sv_accounts s)
                    (sv_active s) (sv_policies s) (sv_revoked s) (sv_seen s) (sv_statePath s))
      end
  end.
End defs.
