(* ===== verification/SetupFacts.v ===== *)
(** * Setup bundles load as they were exported

    The manifest's text round trips; an exported bundle loads under its pin
    to the setup that was exported, in full or without the prover; a pin
    determines what is loaded, unless SHA-256 has a collision. *)

From S2P Require Import Prelude Bytes Sha256 Curve Toy Profile Samples Accumulator Circuit CircuitFacts.
From S2P Require Import Statements Backend BackendFacts ToyProofs Protocol ProtocolFacts Security Wire Encodings Text.
From S2P Require Import Json JsonStream JsonFacts JsonStreamFacts Service ServiceFacts ServiceSteps SetupEncoding Setup.

(** ** The manifest's text *)

Definition int64 (z : Z) : Prop := - 2 ^ 63 <= z < 2 ^ 63.

Definition wf_artifact (a : ArtifactDigest) : Prop := utf8_string (ad_SHA256 a) /\ int64 (ad_Size a).

Definition wf_circuit (c : CircuitDescriptor) : Prop :=
  utf8_string (cd_SHA256 c) /\ int64 (cd_Constraints c) /\ int64 (cd_PublicVariables c) /\
  int64 (cd_SecretVariables c) /\ int64 (cd_InternalVariables c) /\ int64 (cd_Commitments c).

Record wf_manifest (m : SetupManifest) : Prop := mk_wf_manifest {
  wm_strings : Forall utf8_string [m_Format m; m_Profile m; m_SetupKind m; m_PairingCurve m; m_StandaloneCurve m;
                 m_PairingScalarOrder m; m_StandaloneScalarOrder m; m_Gnark m; m_GnarkCrypto m];
  wm_circuit : wf_circuit (m_Circuit m);
  wm_capacity : int64 (m_Capacity m);
  wm_parameters : wf_artifact (m_Parameters m);
  wm_provingkey : wf_artifact (m_ProvingKey m);
  wm_verifyingkey : wf_artifact (m_VerifyingKey m);
}.

Lemma dec_enc_int64 z cur : int64 z -> dec_int 64 (enc_int z) cur = Ok z.
Proof. intros H. apply dec_enc_int; [exact H|lia]. Qed.

Lemma dec_enc_artifact a cur : wf_artifact a -> dec_struct artifact_fields (enc_artifact a) cur = Ok a.
Proof.
  intros [_ Hn]. destruct a as [h n], cur as [h0 n0]. unfold enc_artifact, enc_struct. cbn [ad_SHA256 ad_Size map fst snd dec_struct] in *.
  next_field 0%nat; [|apply dec_enc_string]. next_field 1%nat; [|by apply dec_enc_int64]. done.
Qed.

Lemma dec_enc_circuit c cur : wf_circuit c -> dec_struct circuit_fields (enc_circuit c) cur = Ok c.
Proof.
  intros (_ & H1 & H2 & H3 & H4 & H5). destruct c as [c1 c2 c3 c4 c5 c6], cur as [d1 d2 d3 d4 d5 d6]. unfold enc_circuit, enc_struct.
  cbn [cd_SHA256 cd_Constraints cd_PublicVariables cd_SecretVariables cd_InternalVariables cd_Commitments map fst snd dec_struct] in *.
  next_field 0%nat; [|apply dec_enc_string]. next_field 1%nat; [|by apply dec_enc_int64]. next_field 2%nat; [|by apply dec_enc_int64].
  next_field 3%nat; [|by apply dec_enc_int64]. next_field 4%nat; [|by apply dec_enc_int64]. next_field 5%nat; [|by apply dec_enc_int64].
  done.
Qed.

Lemma dec_enc_manifest m : wf_manifest m -> dec_struct manifest_fields (enc_manifest m) zero_manifest = Ok m.
Proof.
  intros [_ HC Hcap HP HK HV]. destruct m as [x1 x2 x3 x4 x5 x6 x7 x8 x9 x10 x11 x12 x13 x14]. unfold enc_manifest, enc_struct.
  cbn [m_Format m_Profile m_SetupKind m_PairingCurve m_StandaloneCurve m_PairingScalarOrder m_StandaloneScalarOrder m_Gnark
    m_GnarkCrypto m_Circuit m_Capacity m_Parameters m_ProvingKey m_VerifyingKey map fst snd dec_struct] in *.
  next_field 0%nat; [|apply dec_enc_string]. next_field 1%nat; [|apply dec_enc_string]. next_field 2%nat; [|apply dec_enc_string].
  next_field 3%nat; [|apply dec_enc_string]. next_field 4%nat; [|apply dec_enc_string]. next_field 5%nat; [|apply dec_enc_string].
  next_field 6%nat; [|apply dec_enc_string]. next_field 7%nat; [|apply dec_enc_string]. next_field 8%nat; [|apply dec_enc_string].
  next_field 9%nat; [|by apply dec_enc_circuit]. next_field 10%nat; [|by apply dec_enc_int64].
  next_field 11%nat; [|by apply dec_enc_artifact]. next_field 12%nat; [|by apply dec_enc_artifact].
  next_field 13%nat; [|by apply dec_enc_artifact]. done.
Qed.

Lemma enc_artifact_wf a : wf_artifact a -> wf_json (enc_artifact a).
Proof.
  intros [Hs _]. apply wf_enc_struct. split; [by repeat constructor|]. rewrite !Forall_cons, Forall_nil.
  split_and!; cbn [snd]; first [by apply enc_string_wf|apply enc_int_wf|done].
Qed.

Lemma enc_circuit_wf c : wf_circuit c -> wf_json (enc_circuit c).
Proof.
  intros [Hs _]. apply wf_enc_struct. split; [by repeat constructor|]. rewrite !Forall_cons, Forall_nil.
  split_and!; cbn [snd]; first [by apply enc_string_wf|apply enc_int_wf|done].
Qed.

Lemma enc_manifest_wf m : wf_manifest m -> wf_json (enc_manifest m).
Proof.
  intros [HS HC _ HP HK HV]. rewrite !Forall_cons in HS. destruct_and! HS. apply wf_enc_struct. split; [by repeat constructor|].
  rewrite !Forall_cons, Forall_nil.
  split_and!; cbn [snd]; first [by apply enc_string_wf|by apply enc_circuit_wf|by apply enc_artifact_wf|apply enc_int_wf|done].
Qed.

Lemma enc_manifest_depth m : json_depth (enc_manifest m) <= maxNestingDepth.
Proof.
  trans (1 + 1); [|done]. apply depth_struct; [lia|]. rewrite !Forall_cons, Forall_nil. split_and!; cbn [snd]; try done;
    apply (depth_struct _ 0); try lia; by repeat constructor.
Qed.

Lemma enc_artifact_clean a : wf_artifact a -> clean (enc_artifact a) = true.
Proof. intros [_ Hz]. unfold enc_artifact. clean_fields. by apply clean_int. Qed.

Lemma enc_circuit_clean c : wf_circuit c -> clean (enc_circuit c) = true.
Proof. intros [_ Hz]. unfold enc_circuit. destruct_and! Hz. clean_fields; by apply clean_int. Qed.

Lemma enc_manifest_clean m : wf_manifest m -> clean (enc_manifest m) = true.
Proof.
  intros [_ HC Hz HP HK HV]. unfold enc_manifest. clean_fields;
    first [by apply enc_circuit_clean|by apply enc_artifact_clean|by apply clean_int].
Qed.

Lemma strict_manifest m :
  wf_manifest m -> strictJSON (dec_struct manifest_fields) zero_manifest (manifest_text m) = Ok m.
Proof.
  intros H. unfold manifest_text. rewrite strict_marshal_indent; [by apply dec_enc_manifest|by apply enc_manifest_wf|
    apply enc_manifest_depth|by apply enc_manifest_clean|]. by repeat constructor.
Qed.

Lemma decimal_string_utf8 z : utf8_string (decimal_string z).
Proof.
  unfold utf8_string, decimal_string, ascii_bytes. rewrite String.list_byte_of_string_of_list_byte.
  apply utf8_valid_iff, utf8_ascii, digits_ascii, uint_bytes_digits.
Qed.

(** ** Artifacts *)

Lemma readArtifact_written io b name data max :
  io name = None -> b !! name = Some (private_file data) -> 1 <= len data <= max ->
  readArtifact io (Some b) name (mkArtifactDigest (hex_encode (sha256 data)) (len data)) max = Ok data.
Proof.
  intros Hio Hb Hl. unfold readArtifact. cbn [ad_SHA256 ad_Size]. apply bind_fail_if. split.
  { apply orb_false_iff. split; apply Z.ltb_ge; lia. }
  rewrite (proj2 (ParseDigest_Ok _ (sha256 data))) by (split; [done|apply Sha256.length_Sum256]). cbn [mbind result_bind].
  rewrite (proj2 (ReadBoundedFile_Ok _ _ _ data)).
  2: { split; [done|]. exists 384. cbn. rewrite Hb. split; [done|lia]. }
  cbn [mbind result_bind]. rewrite Z.eqb_refl, bool_decide_eq_true_2 by done. done.
Qed.

Lemma writeArtifact_Ok b name w max a b' :
  writeArtifact b name w max = Ok (a, b') <->
  exists data, w = Ok data /\ b !! name = None /\ len data <= max /\
    a = mkArtifactDigest (hex_encode (sha256 data)) (len data) /\ b' = <[name := private_file data]> b.
Proof.
  unfold writeArtifact. rewrite bind_fail_if, bool_decide_eq_false, <- eq_None_not_Some, bind_Ok. split.
  - intros (Hn & data & -> & E). apply bind_fail_if in E as [?%Z.ltb_ge [= <- <-]]. by exists data.
  - intros (data & -> & Hn & Hl & -> & ->). split; [done|]. exists data. split; [done|].
    apply bind_fail_if. split; [by apply Z.ltb_ge|done].
Qed.

Lemma readArtifact_Ok io dir name ref max raw :
  readArtifact io dir name ref max = Ok raw ->
  io name = None /\ len raw = ad_Size ref /\ 1 <= len raw <= max /\ ad_SHA256 ref = hexDigest (sha256 raw) /\
  exists perm, file_in dir name = Some (mkFile true perm raw).
Proof.
  unfold readArtifact. intros [[?%Z.ltb_ge ?%Z.ltb_ge]%orb_false_iff E]%bind_fail_if.
  apply bind_Ok in E as (d & [Ed Hd]%ParseDigest_Ok & E). apply bind_Ok in E as (raw' & [Hio (perm & Hf & _)]%ReadBoundedFile_Ok & E).
  apply bind_fail_if in E as [[El%negb_false_iff%Z.eqb_eq Eh%negb_false_iff%bool_decide_eq_true]%orb_false_iff [= <-]].
  subst d. split_and!; try done; [lia|lia|eauto].
Qed.

(** ** What gnark does with keys *)

Section laws.
Context `{CR : !Crypto, GR : !Groth16, SB : !SetupBackend}.

Class SetupLaws : Prop := {
  #[global] setup_points :: PointLaws;
  (* the counts of a compiled circuit are Go ints *)
  cs_counts cs : gr_compile = Ok cs ->
    int64 (cs_constraints cs) /\ int64 (cs_public cs) /\ int64 (cs_secret cs) /\ int64 (cs_internal cs);
  (* WriteTo / ReadFrom of proving keys, in the compressed format *)
  pk_encoding cs rho pk vk raw :
    gr_compile = Ok cs -> gr_setup cs rho = Ok (pk, vk) -> pk_bytes pk = Ok raw ->
    (exists domain p, pk_layout cs raw domain p) /\ forall rest, pk_read (raw ++ rest) = Ok (pk, rest);
  (* both keys of a setup share its points *)
  pk_same_points cs rho pk vk : gr_compile = Ok cs -> gr_setup cs rho = Ok (pk, vk) ->
    pk_G1_Alpha pk = vk_G1_Alpha vk /\ pk_G1_Beta pk = vk_G1_Beta vk /\ pk_G1_Delta pk = vk_G1_Delta vk /\
    pk_G2_Beta pk = vk_G2_Beta vk /\ pk_G2_Delta pk = vk_G2_Delta vk;
}.
End laws.
#[global] Arguments SetupLaws {CR GR} SB.

(** The file of a literal name in a bundle of literal names. *)
Ltac file_lookup :=
  repeat (rewrite lookup_insert_ne by done); first [apply lookup_insert_eq|apply lookup_singleton_eq].

Section theorems.
Context `{CR : !Crypto, CL : !CryptoLaws, GR : !Groth16, GL : !Groth16Laws GR, SB : !SetupBackend, SL : !SetupLaws SB}.

Lemma setup_points_same cs rho pk vk :
  gr_compile = Ok cs -> gr_setup cs rho = Ok (pk, vk) -> setup_points_differ pk vk = false.
Proof using SL.
  intros Hcs Hset. destruct (pk_same_points cs rho pk vk Hcs Hset) as (E1 & E2 & E3 & E4 & E5).
  unfold setup_points_differ. by rewrite E1, E2, E3, E4, E5, !bool_decide_eq_true_2.
Qed.

(** ** Exported bundles *)

(** The digest and size of a written artifact. *)
Definition artifact_of (data : bytes) : ArtifactDigest := mkArtifactDigest (hex_encode (sha256 data)) (len data).

(** The manifest of a setup with the given artifacts. *)
Definition manifest_of (descriptor : CircuitDescriptor) (params : Params) (pp pk vk : bytes) : SetupManifest :=
  set_artifacts (base_manifest descriptor params) (artifact_of pp) (artifact_of pk) (artifact_of vk).

(** The public files of a bundle. *)
Record holds_public (b : bundle) (m : SetupManifest) (pp vk : bytes) : Prop := mk_holds_public {
  hp_manifest : b !! "manifest.json" = Some (private_file (manifest_text m));
  hp_parameters : b !! "parameters.bin" = Some (private_file pp);
  hp_vk : b !! "vk.bin" = Some (private_file vk);
}.

Record exported (params : Params) (pr : Prover) (v : Verifier) (pin : bytes) (b : bundle) (m : SetupManifest) (pp pk vk : bytes)
  : Prop := mk_exported {
  ex_public : holds_public b m pp vk;
  ex_pk : b !! "pk.bin" = Some (private_file pk);
  ex_params : MarshalParams params = Ok pp;
  ex_vk : KeyBytes v = Ok vk /\ len vk <= maxProofBytes;
  ex_pkbytes : pk_bytes (pr_pk pr) = Ok pk /\ len pk <= maxProvingKeyBytes;
  ex_manifest : exists d, describeCircuit (pr_cs pr) = Ok d /\ m = manifest_of d params pp pk vk;
  ex_text : len (manifest_text m) <= maxManifestBytes;
  ex_pin : pin = sha256 (manifest_text m);
}.

Lemma fill_setup_Ok m pp p vk b' pin :
  fill_setup m pp p vk ∅ = Ok (b', pin) ->
  exists rv rk, vk_bytes vk = Ok rv /\ len rv <= maxProofBytes /\ pk_bytes (pr_pk p) = Ok rk /\ len rk <= maxProvingKeyBytes /\
    let text := manifest_text (set_artifacts m (artifact_of pp) (artifact_of rk) (artifact_of rv)) in
    len text <= maxManifestBytes /\ pin = sha256 text /\
    b' = <["manifest.json" := private_file text]> (<["pk.bin" := private_file rk]>
           (<["vk.bin" := private_file rv]> {["parameters.bin" := private_file pp]})).
Proof.
  unfold fill_setup. intros ([ap b1] & (pp' & [= <-] & _ & _ & -> & ->)%writeArtifact_Ok & E)%bind_Ok.
  apply bind_Ok in E as ([av b2] & (rv & Hrv & _ & Hlv & -> & ->)%writeArtifact_Ok & E). apply bind_fail_if in E as [_ E].
  apply bind_Ok in E as ([ak b3] & (rk & Hrk & _ & Hlk & -> & ->)%writeArtifact_Ok & E).
  apply bind_Ok in E as ([am b4] & (text & [= <-] & _ & Hlm & -> & ->)%writeArtifact_Ok & [= <- <-]).
  exists rv, rk. done.
Qed.

Lemma ExportSetup_Ok params pr v pin b :
  ExportSetup None None params (Some pr) (Some v) = (Ok pin, Some b) ->
  exists m pp pk vk, exported params pr v pin b m pp pk vk.
Proof.
  unfold ExportSetup. destruct (v_vk v) as [vk|] eqn:Ev; [|done].
  destruct (_ ← fail_if _ _; _) as [fill|] eqn:E; [|done].
  apply bind_fail_if in E as [_ E]. apply bind_Ok in E as (pp & Hpp & E). apply bind_Ok in E as (d & Hd & E).
  apply bind_fail_if in E as [_ [= <-]]. cbn [newBundle].
  destruct (fill_setup _ _ _ _ _) as [[b' pin']|] eqn:EF; cbn [mbind result_bind]; [|done]. intros [= -> ->].
  apply fill_setup_Ok in EF as (rv & rk & Hrv & Hlv & Hrk & Hlk & Hlm & -> & ->).
  eexists _, pp, rk, rv. split; [split| | | | | |exact Hlm|done].
  - file_lookup.
  - file_lookup.
  - file_lookup.
  - file_lookup.
  - exact Hpp.
  - unfold KeyBytes. by rewrite Ev.
  - done.
  - by exists d.
Qed.

Lemma params_size p pp :
  MarshalParams p = Ok pp -> 1 <= Z.of_nat (length (p_Powers p)) - 1 <= 2 ^ 16 /\ 1 <= len pp <= maxParamsBytes.
Proof using SL.
  unfold MarshalParams. intros ([] & HV & [= <-])%bind_Ok. destruct (valid_params_points p HV) as [Hn _]. split; [lia|].
  unfold params_bytes. rewrite !length_app, length_concat_bn, length_bn_bytes, !length_bn2_bytes, length_be_enc.
  change (length (ascii_bytes paramsMagic)) with 8%nat. unfold maxParamsBytes. lia.
Qed.

Lemma describe_Ok cs d :
  describeCircuit cs = Ok d -> exists h n, digestWriter (cs_bytes cs) = Ok h /\ cs_commitments cs = Some n /\
    d = mkCircuitDescriptor (hexDigest h) (cs_constraints cs) (cs_public cs) (cs_secret cs) (cs_internal cs) n.
Proof.
  unfold describeCircuit. intros (h & Hh & E)%bind_Ok. destruct (cs_commitments cs) as [n|]; [|done]. injection E as <-. eauto.
Qed.

Lemma length_digestWriter w h : digestWriter w = Ok h -> length h = 32%nat.
Proof. unfold digestWriter. intros (b & _ & [= <-])%bind_Ok. apply Sha256.length_Sum256. Qed.

Lemma artifact_of_wf data : len data < 2 ^ 63 -> wf_artifact (artifact_of data).
Proof. intros H. split; cbn [ad_SHA256 ad_Size artifact_of]; [apply hex_encode_utf8|]. unfold int64. lia. Qed.

Section exported.
Context (rand : Z) (pr : Prover) (v : Verifier) (params : Params) (pin : bytes) (b0 : bundle) (m : SetupManifest)
  (pp pk vk : bytes).
Context (HB : NewBackend rand = Ok (pr, v)) (HX : exported params pr v pin b0 m pp pk vk).

Lemma exported_sizes : 1 <= len pp <= maxParamsBytes /\ 1 <= len vk <= maxProofBytes /\ 1 <= len pk <= maxProvingKeyBytes.
Proof using All.
  pose proof HB as (cs & pk' & vk' & raw' & Hcs & Hset & Hraw & Ecs & Epk & Evk & _)%NewBackend_Ok.
  destruct (params_size _ _ (ex_params _ _ _ _ _ _ _ _ _ HX)) as [_ Hpp].
  destruct (ex_vk _ _ _ _ _ _ _ _ _ HX) as [Hk Hlv]. destruct (ex_pkbytes _ _ _ _ _ _ _ _ _ HX) as [Hp Hlp].
  split; [done|]. split.
  - split; [|done]. unfold KeyBytes in Hk. rewrite Evk in Hk. cbn in Hk.
    destruct (vk_encoding cs rand pk' vk' vk Hcs Hset Hk) as [(hdr & ks & rows & cms & [Hh _ _ _ _ _ _ _ ->]) _].
    apply Forall2_cons_inv_l in Hh as (seg & segs & (c & tl & -> & _) & _ & ->). cbn [concat app length]. lia.
  - split; [|done]. rewrite Epk in Hp. destruct (pk_encoding cs rand pk' vk' pk Hcs Hset Hp) as [(dom & p & HL) _].
    rewrite (ply_raw _ _ _ _ HL). unfold pk_text. rewrite length_app. cbn [length]. lia.
Qed.

Lemma exported_circuit :
  exists cs d, Compile = Ok cs /\ pr_cs pr = cs /\ describeCircuit cs = Ok d /\ m = manifest_of d params pp pk vk /\
    cd_SHA256 d = hexDigest (v_circuitHash v) /\ length (v_circuitHash v) = 32%nat /\ wf_circuit d.
Proof using All.
  pose proof HB as (cs & pk' & vk' & raw' & Hcs & Hset & Hraw & Ecs & Epk & Evk & EID & _ & Ech & ED)%NewBackend_Ok.
  destruct (ex_manifest _ _ _ _ _ _ _ _ _ HX) as (d & Hd & Em). exists cs, d. rewrite Ecs in Hd.
  pose proof Hd as (h & n & Hh & Hn & ->)%describe_Ok. assert (h = v_circuitHash v) as -> by congruence.
  destruct (vk_for_circuit cs rand pk' vk' Hcs Hset) as (n' & Hn' & Hr & _). assert (n' = n) as -> by congruence.
  destruct (cs_counts cs Hcs) as (? & ? & ? & ?). split_and!; try done.
  - by eapply length_digestWriter.
  - unfold wf_circuit. cbn. split_and!; first [done|apply hex_encode_utf8|unfold int64; lia].
Qed.

Lemma exported_wf : wf_manifest m.
Proof using All.
  destruct exported_circuit as (cs & d & _ & _ & _ & Em & _ & _ & Hc). destruct exported_sizes as (? & ? & ?).
  destruct (params_size _ _ (ex_params _ _ _ _ _ _ _ _ _ HX)) as [? _]. rewrite Em.
  unfold maxParamsBytes, maxProofBytes, maxProvingKeyBytes in *.
  split; [|exact Hc|unfold int64; cbn [m_Capacity manifest_of set_artifacts base_manifest]; lia|..]; try (apply artifact_of_wf; lia).
  cbn [m_Format m_Profile m_SetupKind m_PairingCurve m_StandaloneCurve m_PairingScalarOrder m_StandaloneScalarOrder m_Gnark
    m_GnarkCrypto manifest_of set_artifacts base_manifest].
  rewrite !Forall_cons, Forall_nil. split_and!; first [done|apply decimal_string_utf8].
Qed.

Lemma artifact_of_valid data : negb (is_ok (ParseDigest (ad_SHA256 (artifact_of data)))) = false.
Proof.
  cbn [artifact_of ad_SHA256]. rewrite (proj2 (ParseDigest_Ok _ (sha256 data))) by (split; [done|apply Sha256.length_Sum256]). done.
Qed.

Lemma exported_checked : check_manifest m = Ok m.
Proof using All.
  destruct exported_circuit as (cs & d & _ & _ & _ & Em & Hh & Hlh & Hc). destruct exported_sizes as (? & ? & ?).
  destruct (params_size _ _ (ex_params _ _ _ _ _ _ _ _ _ HX)) as [Hcap _]. rewrite Em. unfold check_manifest, manifest_of.
  cbn [m_Format m_Profile m_SetupKind m_PairingCurve m_StandaloneCurve m_PairingScalarOrder m_StandaloneScalarOrder m_Gnark
    m_GnarkCrypto m_Capacity m_Parameters m_ProvingKey m_VerifyingKey m_Circuit set_artifacts base_manifest].
  apply bind_fail_if. split.
  { rewrite !String.eqb_refl. cbn [negb orb]. apply orb_false_iff. split; apply Z.ltb_ge; lia. }
  apply bind_fail_if. split.
  { cbn [existsb]. rewrite !artifact_of_valid. cbn [orb]. rewrite !orb_false_iff. cbn [artifact_of ad_Size].
    split_and!; [apply Z.leb_gt; lia..|done]. }
  apply bind_fail_if. split; [rewrite !orb_false_iff; split_and!; apply Z.ltb_ge; cbn [artifact_of ad_Size]; lia|].
  rewrite Hh, (proj2 (ParseDigest_Ok _ (v_circuitHash v))) by done. done.
Qed.

Lemma exported_manifest_read io b :
  (forall name, io name = None) -> pin <> zero_digest -> holds_public b m pp vk ->
  readManifest io (Some b) pin = Ok (m, manifest_text m).
Proof using All.
  intros Hio Hpin Hb. unfold readManifest. apply bind_fail_if. split; [by apply bool_decide_eq_false|].
  rewrite (proj2 (ReadBoundedFile_Ok _ _ _ (manifest_text m))).
  2: { split; [done|]. exists 384. cbn [file_in mbind option_bind]. rewrite (hp_manifest _ _ _ _ Hb). split; [done|]. apply HX. }
  cbn [mbind result_bind]. apply bind_fail_if. split.
  { apply negb_false_iff, bool_decide_eq_true. symmetry. apply HX. }
  rewrite (strict_manifest m exported_wf). cbn [mbind result_bind]. by rewrite exported_checked.
Qed.

Lemma exported_artifacts io b :
  (forall name, io name = None) -> holds_public b m pp vk ->
  readArtifact io (Some b) "parameters.bin" (m_Parameters m) maxParamsBytes = Ok pp /\
  readArtifact io (Some b) "vk.bin" (m_VerifyingKey m) maxProofBytes = Ok vk.
Proof using All.
  intros Hio Hb. destruct exported_circuit as (cs & d & _ & _ & _ & Em & _). destruct exported_sizes as (? & ? & ?). rewrite Em.
  cbn [m_Parameters m_VerifyingKey manifest_of set_artifacts].
  split; (apply readArtifact_written; [done|apply Hb|done]).
Qed.

Lemma exported_verifier cs :
  Compile = Ok cs -> preflightVerifyingKey vk = Ok tt /\ loadVerifierForCircuit vk (v_circuitHash v) (v_keyID v) cs = Ok v.
Proof using All.
  intros Hcs. destruct (ex_vk _ _ _ _ _ _ _ _ _ HX) as [Hk Hlv].
  pose proof (loadVerifier_own rand pr v vk HB Hk Hlv) as HL. unfold LoadVerifier in HL.
  apply bind_fail_if in HL as [_ HL]. apply bind_fail_if in HL as [_ HL]. apply bind_Ok in HL as ([] & HP & HL).
  rewrite Hcs in HL. done.
Qed.

Lemma exported_load io b wp :
  (forall name, io name = None) -> pin <> zero_digest -> holds_public b m pp vk ->
  (wp = true -> b !! "pk.bin" = Some (private_file pk)) ->
  loadSetup io (Some b) pin wp = Ok (mkLoadedSetup params (if wp then Some pr else None) v m).
Proof using All.
  intros Hio Hpin Hb Hpk. unfold loadSetup. rewrite (exported_manifest_read io b) by done. cbn [mbind result_bind].
  destruct (exported_artifacts io b Hio Hb) as [-> ->]. cbn [mbind result_bind].
  rewrite (proj2 (Params_encoded pp params)) by apply HX. cbn [mbind result_bind].
  destruct exported_circuit as (cs & d & Hcs & Ecs & Hd & Em & Hh & Hlh & _).
  apply bind_fail_if. split; [rewrite Em; cbn [m_Capacity manifest_of set_artifacts base_manifest]; by rewrite Z.eqb_refl|].
  destruct (exported_verifier cs Hcs) as [-> HV]. rewrite Hcs. cbn [mbind result_bind]. rewrite Hd. cbn [mbind result_bind].
  assert (m_Circuit m = d) as Ed by (by rewrite Em). rewrite Ed. rewrite bool_decide_eq_true_2 by done. cbn [negb fail_if mbind result_bind].
  rewrite Hh, (proj2 (ParseDigest_Ok (hexDigest (v_circuitHash v)) (v_circuitHash v))) by done. cbn [mbind result_bind].
  pose proof HB as (cs' & pk' & vk' & raw' & Hcs' & Hset & Hraw & Ecs' & Epk & Evk & EID & Eid & Ech & ED)%NewBackend_Ok.
  assert (ad_SHA256 (m_VerifyingKey m) = hexDigest (v_keyID v)) as ->.
  { rewrite Em. cbn [m_VerifyingKey manifest_of set_artifacts artifact_of ad_SHA256].
    destruct (ex_vk _ _ _ _ _ _ _ _ _ HX) as [Hk _]. unfold KeyBytes in Hk. rewrite Evk in Hk. cbn in Hk. unfold hexDigest. congruence. }
  rewrite (proj2 (ParseDigest_Ok _ (v_keyID v))) by (split; [done|rewrite EID; apply Sha256.length_Sum256]).
  cbn [mbind result_bind]. rewrite HV. cbn [mbind result_bind]. destruct wp; cbn [negb]; [|done].
  destruct exported_sizes as (_ & _ & Hlp). unfold load_prover.
  assert (m_ProvingKey m = artifact_of pk) as -> by (by rewrite Em). unfold artifact_of.
  rewrite (readArtifact_written io b "pk.bin" pk _ (Hio _) (Hpk eq_refl) Hlp). cbn [mbind result_bind].
  destruct (ex_pkbytes _ _ _ _ _ _ _ _ _ HX) as [Hp _]. rewrite Epk in Hp.
  assert (cs' = cs) as -> by (unfold Compile in Hcs; congruence).
  destruct (pk_encoding cs rand pk' vk' pk Hcs' Hset Hp) as [(dom & parts & HL) Hrd].
  rewrite (preflightProvingKey_complete _ _ _ _ HL). cbn [wrap mbind result_bind].
  specialize (Hrd []). rewrite app_nil_r in Hrd. rewrite Hrd. cbn [mbind result_bind length Nat.eqb negb fail_if].
  rewrite Evk. cbn [deref mbind result_bind]. rewrite (setup_points_same cs rand pk' vk' Hcs' Hset).
  cbn [negb fail_if mbind result_bind]. do 3 f_equal. rewrite <- Eid, <- Ech, <- Epk, <- Ecs. by destruct pr.
Qed.

Lemma exported_public io :
  (forall name, io name = None) -> pin <> zero_digest ->
  exists b', ExportPublicSetup io None (Some b0) None pin = (Ok tt, Some b') /\ holds_public b' m pp vk.
Proof using All.
  intros Hio Hpin. pose proof (ex_public _ _ _ _ _ _ _ _ _ HX) as Hb. unfold ExportPublicSetup, LoadPublicSetup.
  rewrite (exported_load io b0 false) by done. cbn [mbind result_bind].
  rewrite (exported_manifest_read io b0) by done. cbn [mbind result_bind].
  destruct (exported_artifacts io b0 Hio Hb) as [-> ->]. cbn [mbind result_bind newBundle].
  assert (copy_artifacts [("manifest.json", manifest_text m); ("parameters.bin", pp); ("vk.bin", vk)] ∅
          = Ok (<["vk.bin" := private_file vk]> (<["parameters.bin" := private_file pp]> {["manifest.json" := private_file (manifest_text m)]})))
    as ->.
  { cbn [copy_artifacts].
    rewrite (proj2 (writeArtifact_Ok _ _ _ _ _ _)) by (eexists; split_and!; [done|apply lookup_empty|lia|done|done]). cbn [mbind result_bind].
    rewrite (proj2 (writeArtifact_Ok _ _ _ _ _ _)) by (eexists; split_and!; [done|by rewrite lookup_insert_ne|lia|done|done]). cbn [mbind result_bind].
    rewrite (proj2 (writeArtifact_Ok _ _ _ _ _ _)) by (eexists; split_and!; [done|by rewrite !lookup_insert_ne|lia|done|done]). done. }
  eexists. split; [reflexivity|]. split; file_lookup.
Qed.
End exported.

(** ** Theorems *)

(** C24: exported setups load as they were. A bundle that [ExportSetup] wrote
    for the keys of one [NewBackend] run loads under its pin to the same
    parameters, prover and verifier; [LoadPublicSetup] gives the same without
    the prover, and so does the bundle [ExportPublicSetup] makes of it. *)
Theorem setup_roundtrip rand pr v params pin b io :
  NewBackend rand = Ok (pr, v) -> ExportSetup None None params (Some pr) (Some v) = (Ok pin, Some b) ->
  pin <> zero_digest -> (forall name, io name = None) ->
  exists m, LoadSetup io (Some b) pin = Ok (mkLoadedSetup params (Some pr) v m) /\
    LoadPublicSetup io (Some b) pin = Ok (mkLoadedSetup params None v m) /\
    exists b', ExportPublicSetup io None (Some b) None pin = (Ok tt, Some b') /\
      LoadPublicSetup io (Some b') pin = Ok (mkLoadedSetup params None v m).
Proof using CL GL SL.
  intros HB (m & pp & pk & vk & HX)%ExportSetup_Ok Hpin Hio. exists m. unfold LoadSetup, LoadPublicSetup.
  pose proof (exported_load rand pr v params pin b m pp pk vk HB HX io) as HL. pose proof (ex_public _ _ _ _ _ _ _ _ _ HX) as Hb.
  split; [apply (HL b true); [done..|]; intros _; apply HX|]. split; [by apply (HL b false)|].
  destruct (exported_public rand pr v params pin b m pp pk vk HB HX io Hio Hpin) as (b' & E & Hb'). exists b'.
  split; [done|]. by apply (HL b' false).
Qed.

(** The bytes of a file of a bundle. *)
Definition data_in (dir : option bundle) (name : string) : option bytes := f_data <$> file_in dir name.

(** What a loaded setup rests on. *)
Record loaded_from (io : read_io) (dir : option bundle) (pin : bytes) (wp : bool) (l : LoadedSetup) (text pp key : bytes) (cs : CS)
  : Prop := mk_loaded_from {
  lf_text : data_in dir "manifest.json" = Some text;
  lf_pin : sha256 text = pin;
  lf_manifest : strictJSON (dec_struct manifest_fields) zero_manifest text = Ok (ls_Manifest l);
  lf_pp_data : data_in dir "parameters.bin" = Some pp;
  lf_pp : ad_SHA256 (m_Parameters (ls_Manifest l)) = hexDigest (sha256 pp);
  lf_params : UnmarshalParams pp = Ok (ls_Parameters l);
  lf_key_data : data_in dir "vk.bin" = Some key;
  lf_key : ad_SHA256 (m_VerifyingKey (ls_Manifest l)) = hexDigest (sha256 key);
  lf_cs : Compile = Ok cs;
  lf_circuit : describeCircuit cs = Ok (m_Circuit (ls_Manifest l));
  lf_verifier : exists ch kid, ParseDigest (cd_SHA256 (m_Circuit (ls_Manifest l))) = Ok ch /\
    ParseDigest (ad_SHA256 (m_VerifyingKey (ls_Manifest l))) = Ok kid /\
    loadVerifierForCircuit key ch kid cs = Ok (ls_Verifier l) /\
    match ls_Prover l with
    | None => wp = false
    | Some p => exists rk pk, data_in dir "pk.bin" = Some rk /\ ad_SHA256 (m_ProvingKey (ls_Manifest l)) = hexDigest (sha256 rk) /\
        pk_read rk = Ok (pk, []) /\ p = mkProver cs pk ch kid
    end;
}.

Lemma loadSetup_Ok io dir pin wp l :
  loadSetup io dir pin wp = Ok l -> exists text pp key cs, loaded_from io dir pin wp l text pp key cs.
Proof.
  unfold loadSetup. intros ([m text] & HM & E)%bind_Ok. apply bind_Ok in E as (pp & Hpp & E). apply bind_Ok in E as (params & HP & E).
  apply bind_fail_if in E as [_ E]. apply bind_Ok in E as (key & Hkey & E). apply bind_Ok in E as (u & _ & E).
  apply bind_Ok in E as (cs & Hcs & E). apply bind_Ok in E as (d & Hd & E).
  apply bind_fail_if in E as [->%negb_false_iff%bool_decide_eq_true E]. apply bind_Ok in E as (ch & Hch & E).
  apply bind_Ok in E as (kid & Hkid & E). apply bind_Ok in E as (v & Hv & E).
  unfold readManifest in HM. apply bind_fail_if in HM as [_ HM]. apply bind_Ok in HM as (text' & [_ (perm & Htext & _)]%ReadBoundedFile_Ok & HM).
  apply bind_fail_if in HM as [Hpin%negb_false_iff%bool_decide_eq_true HM]. apply bind_Ok in HM as (m0 & HJ & HM).
  apply bind_Ok in HM as (m1 & HCk & [= -> ->]). assert (m0 = m) as ->.
  { unfold check_manifest in HCk. do 3 (apply bind_fail_if in HCk as [_ HCk]). by apply bind_Ok in HCk as (? & _ & [= <-]). }
  assert (forall name perm' raw, file_in dir name = Some (mkFile true perm' raw) -> data_in dir name = Some raw) as HF.
  { intros name perm' raw Hf. unfold data_in. by rewrite Hf. }
  apply readArtifact_Ok in Hpp as (_ & _ & _ & Hpp & ? & ?%HF). apply readArtifact_Ok in Hkey as (_ & _ & _ & Hkey & ? & ?%HF).
  apply HF in Htext. exists text, pp, key, cs. destruct wp; cbn [negb] in E.
  - apply bind_Ok in E as (p & HPr & [= <-]). split; cbn [ls_Manifest ls_Parameters ls_Verifier ls_Prover]; try done.
    exists ch, kid. split_and!; try done. unfold load_prover in HPr.
    apply bind_Ok in HPr as (rk & (_ & _ & _ & Hrk & ? & ?%HF)%readArtifact_Ok & HPr). apply bind_Ok in HPr as (u' & _ & HPr).
    apply bind_Ok in HPr as ([pk rest] & Hpk & HPr). apply bind_fail_if in HPr as [Hr%negb_false_iff%Nat.eqb_eq HPr].
    apply bind_Ok in HPr as (vk & _ & HPr). apply bind_fail_if in HPr as [_ [= <-]]. destruct rest; [|done]. by exists rk, pk.
  - injection E as <-. split; cbn [ls_Manifest ls_Parameters ls_Verifier ls_Prover]; try done. by exists ch, kid.
Qed.

(** Two bundles collide in a file: both have it, with different contents of
    one digest. *)
Definition collide_in (dir dir' : option bundle) (name : string) : Prop :=
  exists a b, data_in dir name = Some a /\ data_in dir' name = Some b /\ a <> b /\ sha256 a = sha256 b.

Definition setup_files : list string := ["manifest.json"; "parameters.bin"; "vk.bin"; "pk.bin"].

(** A pair of different files of the two bundles at hand is a collision of
    SHA-256. *)
Definition colliding_bundles (dir dir' : option bundle) : Prop := Exists (collide_in dir dir') setup_files.

Lemma files_agree dir dir' name a b :
  name ∈ setup_files -> data_in dir name = Some a -> data_in dir' name = Some b -> sha256 a = sha256 b ->
  a = b \/ colliding_bundles dir dir'.
Proof.
  intros Hin Ha Hb E. destruct (decide (a = b)) as [|Hne]; [by left|right]. apply Exists_exists. exists name.
  split; [done|]. by exists a, b.
Qed.

(** Nothing collides with a bundle of which every common file is a copy. *)
Lemma copies_do_not_collide dir dir' :
  (forall name a b, name ∈ setup_files -> data_in dir name = Some a -> data_in dir' name = Some b -> a = b) ->
  ~ colliding_bundles dir dir'.
Proof. intros H (name & Hin & a & b & Ha & Hb & Hne & _)%Exists_exists. exact (Hne (H name a b Hin Ha Hb)). Qed.

Lemma no_self_collision dir : ~ colliding_bundles dir dir.
Proof. apply copies_do_not_collide. intros name a b _ Ha Hb. congruence. Qed.

Lemma loads_agree io io' dir dir' pin wp wp' l l' :
  loadSetup io dir pin wp = Ok l -> loadSetup io' dir' pin wp' = Ok l' ->
  (ValidateParams (ls_Parameters l) = Ok tt /\ ExpectedCircuitHash = Ok (v_circuitHash (ls_Verifier l))) /\
  ((ls_Parameters l = ls_Parameters l' /\ ls_Verifier l = ls_Verifier l' /\ ls_Manifest l = ls_Manifest l' /\
    forall p p', ls_Prover l = Some p -> ls_Prover l' = Some p' -> p = p') \/ colliding_bundles dir dir').
Proof using CL SL.
  intros (text & pp & key & cs & H)%loadSetup_Ok (text' & pp' & key' & cs' & H')%loadSetup_Ok.
  destruct H as [D1 E1 HM D2 HP Hp D3 HK Hc Hd (ch & kid & Hch & Hkid & HV & Hpr)].
  destruct H' as [D1' E1' HM' D2' HP' Hp' D3' HK' Hc' _ (ch' & kid' & Hch' & Hkid' & HV' & Hpr')]. split.
  { apply Params_encoded in Hp. unfold MarshalParams in Hp. apply bind_Ok in Hp as ([] & -> & _). split; [done|].
    unfold loadVerifierForCircuit in HV. apply bind_fail_if in HV as [_ HV]. apply bind_Ok in HV as (h & Hh & HV).
    apply bind_fail_if in HV as [->%negb_false_iff%bool_decide_eq_true HV]. apply bind_Ok in HV as (u & _ & HV).
    apply bind_Ok in HV as ([vk rest] & _ & HV). apply bind_fail_if in HV as [_ HV]. destruct (cs_commitments cs); [|done].
    apply bind_fail_if in HV as [_ [= <-]]. unfold ExpectedCircuitHash. rewrite Hc. exact Hh. }
  assert (cs' = cs) as -> by congruence.
  assert (forall a b, hexDigest (sha256 a) = hexDigest (sha256 b) -> sha256 a = sha256 b) as HX.
  { intros a b E. apply hex_encode_inj. exact E. }
  destruct (files_agree dir dir' "manifest.json" text text') as [<-|]; [repeat constructor|done|done|congruence| |by right].
  assert (ls_Manifest l' = ls_Manifest l) as EM by congruence. rewrite EM in *.
  destruct (files_agree dir dir' "parameters.bin" pp pp') as [<-|]; [repeat constructor|done|done|apply HX; congruence| |by right].
  destruct (files_agree dir dir' "vk.bin" key key') as [<-|]; [repeat constructor|done|done|apply HX; congruence| |by right].
  assert (ch' = ch) as -> by congruence. assert (kid' = kid) as -> by congruence.
  destruct (ls_Prover l) as [p|], (ls_Prover l') as [p'|]; try (left; split_and!; [congruence|congruence|done|done]).
  destruct Hpr as (rk & pk & D4 & Hrk & Hpk & ->), Hpr' as (rk' & pk' & D4' & Hrk' & Hpk' & ->).
  destruct (files_agree dir dir' "pk.bin" rk rk') as [<-|]; [repeat constructor|done|done|apply HX; congruence| |by right].
  left. split_and!; [congruence|congruence|done|]. intros p p' [= <-] [= <-]. congruence.
Qed.

(** C25: a pin determines the setup. Whatever is in two directories, if both
    load under one manifest digest then the parameters, the verifier, the
    manifest and, where both were loaded, the provers are the same, unless
    the two directories hold under one of the four names two different files
    with one SHA-256 digest. The parameters are valid and the verifier is for
    the compiled circuit. *)
Theorem pin_determines_setup io io' dir dir' pin wp wp' l l' :
  loadSetup io dir pin wp = Ok l -> loadSetup io' dir' pin wp' = Ok l' ->
  (ValidateParams (ls_Parameters l) = Ok tt /\ ExpectedCircuitHash = Ok (v_circuitHash (ls_Verifier l))) /\
  ((ls_Parameters l = ls_Parameters l' /\ ls_Verifier l = ls_Verifier l' /\ ls_Manifest l = ls_Manifest l' /\
    forall p p', ls_Prover l = Some p -> ls_Prover l' = Some p' -> p = p') \/ colliding_bundles dir dir').
Proof using CL SL. apply loads_agree. Qed.

(** A service starts from an exported setup. A service without a setup
    that loads an exported bundle under its pin keeps its ledger and is again
    well formed, so the properties of requests hold from there on; a service
    that has a setup refuses another one and is unchanged. *)
Theorem service_loads_setup rand pr v params pin b io s :
  NewBackend rand = Ok (pr, v) -> ExportSetup None None params (Some pr) (Some v) = (Ok pin, Some b) ->
  pin <> zero_digest -> (forall name, io name = None) -> wf_service s ->
  match sv_prover s with
  | None => exists s', ServiceLoadSetup io (Some b) pin s = (Ok tt, s') /\ wf_service s' /\ sv_params s' = params /\
      sv_prover s' = Some pr /\ sv_verifier s' = Some v /\ ledger_of s' = ledger_of s
  | Some _ => ServiceLoadSetup io (Some b) pin s = (Err "setup already completed", s)
  end.
Proof using CL GL SL.
  intros HB (m & pp & pk & vk & HX)%ExportSetup_Ok Hpin Hio Hs. unfold ServiceLoadSetup.
  destruct (sv_prover s) as [p|] eqn:EP; [done|]. unfold LoadSetup.
  rewrite (exported_load rand pr v params pin b m pp pk vk HB HX io b true); [|done|done|apply HX|intros _; apply HX].
  eexists. split; [reflexivity|]. split; [|done]. eapply (set_setup_wf s params pr v rand); [done|done| |done].
  pose proof (ex_params _ _ _ _ _ _ _ _ _ HX) as HP. unfold MarshalParams in HP. by apply bind_Ok in HP as ([] & -> & _).
Qed.

(** The encoding of public parameters is exact. [UnmarshalParams] accepts
    a byte string with parameters [p] exactly when [MarshalParams] writes
    that byte string for [p]: there is one encoding of each valid parameter
    set, and nothing else is accepted. *)
Theorem params_roundtrip raw p : UnmarshalParams raw = Ok p <-> MarshalParams p = Ok raw.
Proof using CL SL. apply Params_encoded. Qed.
End theorems.

(** ** Concrete instances *)

Definition toy_domain : bytes := be_enc 8 4 ++ replicate 161 Byte.x00.

Definition toy_pk_parts : pk_parts :=
  {| pp_precompute := Byte.x00; pp_g1 := replicate 3 (slot 32 0); pp_A := replicate 6 (slot 32 0);
     pp_B := replicate 6 (slot 32 0); pp_Z := replicate 3 (slot 32 0); pp_K := []; pp_g2 := replicate 2 (slot 64 0);
     pp_B2 := replicate 6 (slot 64 0); pp_ia := 0; pp_ib := 0; pp_infA := replicate 6 Byte.x00;
     pp_infB := replicate 6 Byte.x00; pp_bases := replicate 5 ([], []) |}.

Definition toy_pk : bytes := pk_text toy_domain 6 toy_pk_parts.

(** Points as their two coordinates, and one proving key. *)
Definition coords_bytes (n : nat) (p : BN) : bytes := be_enc n (c_x p) ++ be_enc n (c_y p).
Definition coords_read (n : nat) (b : bytes) : result BN := Ok (c_mk (be_dec (take n b)) (be_dec (drop n b))).

#[export] Instance toy_setup : SetupBackend := {|
  bn_bytes := coords_bytes 16;
  bn_set_bytes := coords_read 16;
  bn2_bytes := coords_bytes 32;
  bn2_set_bytes := coords_read 32;
  cs_constraints _ := 4;
  cs_secret _ := 3;
  cs_internal _ := 2;
  cs_private _ := replicate 5 0;
  fft_bytes _ := Ok toy_domain;
  fft_cardinality n := n;
  next_power_of_two n := n;
  pk_bytes _ := Ok toy_pk;
  pk_read raw := _ ← fail_if (negb (bool_decide (take (length toy_pk) raw = toy_pk))) "malformed key";
                 Ok (tt, drop (length toy_pk) raw);
  pk_G1_Alpha _ := g_pow BN 2;
  pk_G1_Beta _ := g_pow BN 3;
  pk_G1_Delta _ := g_pow BN 5;
  pk_G2_Beta _ := g_pow BN2 3;
  pk_G2_Delta _ := g_pow BN2 5;
  vk_G1_Alpha _ := g_pow BN 2;
  vk_G1_Beta _ := g_pow BN 3;
  vk_G1_Delta _ := g_pow BN 5;
  vk_G2_Beta _ := g_pow BN2 3;
  vk_G2_Delta _ := g_pow BN2 5;
|}.

Lemma coords_roundtrip n (p : BN) : (5 <= n)%nat -> length (coords_bytes n p) = (n + n)%nat /\ coords_read n (coords_bytes n p) = Ok p.
Proof.
  intros Hn. unfold coords_bytes, coords_read. rewrite length_app, !length_be_enc. split; [done|].
  rewrite take_app_length', drop_app_length' by (by rewrite length_be_enc).
  assert (forall z, 0 <= z < c_mod BN -> be_dec (be_enc n z) = z) as H.
  { intros z Hz. apply be_dec_enc_small. split; [lia|]. apply Z.lt_le_trans with (256 ^ 5).
    - apply Z.lt_trans with (c_mod BN); [lia|]. reflexivity.
    - apply Z.pow_le_mono_r; lia. }
  rewrite !H by (apply c_x_range || apply c_y_range). by rewrite c_mk_xy.
Qed.

Lemma toy_points n k : Forall (compressed_seg (S k)) (replicate n (slot (S k) 0)).
Proof. apply Forall_replicate, slot_seg. Qed.

Lemma toy_pk_layout : pk_layout (tt : CS) toy_pk toy_domain toy_pk_parts.
Proof.
  assert (flags_of 6 0 (replicate 6 Byte.x00)) as Hflags by (split_and!; [done|by apply Forall_replicate|done]).
  split; try done; try (cbn; lia); try (split; [split|]; done || apply toy_points);
    try (split; [|split]; done || split; done || apply toy_points || constructor).
  - split; [done|]. cbn [cs_private toy_setup toy_pk_parts pp_bases replicate].
    do 5 (apply List.Forall2_cons; [split; (split; [split; [done|constructor]|done])|]). apply List.Forall2_nil.
Qed.

#[export] Instance toy_setup_laws : SetupLaws toy_setup.
Proof.
  split.
  - split; intros p; try intros _; [exact (proj1 (coords_roundtrip 16 p ltac:(lia)))|
      exact (proj1 (coords_roundtrip 32 p ltac:(lia)))|exact (proj2 (coords_roundtrip 16 p ltac:(lia)))|
      exact (proj2 (coords_roundtrip 32 p ltac:(lia)))].
  - intros cs _. done.
  - intros cs rho pk vk raw _ _ [= <-]. split; [exists toy_domain, toy_pk_parts; destruct cs; apply toy_pk_layout|].
    intros rest. cbn -[toy_pk]. rewrite take_app_length, bool_decide_eq_true_2, drop_app_length by done. by destruct pk.
  - done.
Qed.

Definition sample_export : result bytes * option bundle :=
  ExportSetup None None sample_params (Some sample_prover) (Some sample_verifier).
Definition sample_pin : bytes := get_ok [] sample_export.1.
Definition sample_bundle : bundle := default ∅ sample_export.2.
Definition no_io : read_io := fun _ => None.

Lemma sample_export_eq :
  ExportSetup None None sample_params (Some sample_prover) (Some sample_verifier) = (Ok sample_pin, Some sample_bundle).
Proof.
  assert (is_ok sample_export.1 = true) as H1 by (vm_compute; reflexivity).
  assert (bool_decide (is_Some sample_export.2) = true) as H2 by (vm_compute; reflexivity).
  change (sample_export = (Ok sample_pin, Some sample_bundle)). unfold sample_pin, sample_bundle.
  destruct sample_export as [[pin|] [b|]]; done.
Qed.

Lemma sample_pin_nonzero : sample_pin <> zero_digest.
Proof. apply (bool_decide_unpack _). vm_compute. exact I. Qed.

Lemma setup_roundtrip_witness :
  exists m, LoadSetup no_io (Some sample_bundle) sample_pin = Ok (mkLoadedSetup sample_params (Some sample_prover) sample_verifier m) /\
    LoadPublicSetup no_io (Some sample_bundle) sample_pin = Ok (mkLoadedSetup sample_params None sample_verifier m) /\
    exists b', ExportPublicSetup no_io None (Some sample_bundle) None sample_pin = (Ok tt, Some b') /\
      LoadPublicSetup no_io (Some b') sample_pin = Ok (mkLoadedSetup sample_params None sample_verifier m).
Proof.
  exact (setup_roundtrip 0 sample_prover sample_verifier sample_params sample_pin sample_bundle no_io sample_backend_eq
    sample_export_eq sample_pin_nonzero (fun _ => eq_refl)).
Defined.

Definition no_setup : LoadedSetup := mkLoadedSetup sample_params None sample_verifier zero_manifest.
Definition sample_loaded (wp : bool) : LoadedSetup := get_ok no_setup (loadSetup no_io (Some sample_bundle) sample_pin wp).

Lemma sample_loaded_eq wp : loadSetup no_io (Some sample_bundle) sample_pin wp = Ok (sample_loaded wp).
Proof.
  assert (is_ok (loadSetup no_io (Some sample_bundle) sample_pin wp) = true) as H by (destruct wp; vm_compute; reflexivity).
  exact (get_ok_eq no_setup _ H).
Qed.

Lemma pin_determines_setup_witness :
  (ValidateParams (ls_Parameters (sample_loaded true)) = Ok tt /\
   ExpectedCircuitHash = Ok (v_circuitHash (ls_Verifier (sample_loaded true)))) /\
  ls_Parameters (sample_loaded true) = ls_Parameters (sample_loaded false) /\
    ls_Verifier (sample_loaded true) = ls_Verifier (sample_loaded false) /\
    ls_Manifest (sample_loaded true) = ls_Manifest (sample_loaded false) /\
    forall p p', ls_Prover (sample_loaded true) = Some p -> ls_Prover (sample_loaded false) = Some p' -> p = p'.
Proof.
  destruct (pin_determines_setup no_io no_io (Some sample_bundle) (Some sample_bundle) sample_pin true false
    (sample_loaded true) (sample_loaded false) (sample_loaded_eq true) (sample_loaded_eq false)) as [H [H'|Hc]].
  - exact (conj H H').
  - destruct (no_self_collision _ Hc).
Defined.

Lemma params_roundtrip_witness :
  UnmarshalParams (get_ok [] (MarshalParams sample_params)) = Ok sample_params <->
  MarshalParams sample_params = Ok (get_ok [] (MarshalParams sample_params)).
Proof. exact (params_roundtrip (get_ok [] (MarshalParams sample_params)) sample_params). Defined.

Example sample_params_encoded : UnmarshalParams (get_ok [] (MarshalParams sample_params)) = Ok sample_params.
Proof. apply Params_encoded, get_ok_eq. vm_compute. reflexivity. Qed.

Lemma service_loads_setup_witness :
  exists s', ServiceLoadSetup no_io (Some sample_bundle) sample_pin NewService = (Ok tt, s') /\ wf_service s' /\
    sv_params s' = sample_params /\ sv_prover s' = Some sample_prover /\ sv_verifier s' = Some sample_verifier /\
    ledger_of s' = ledger_of NewService.
Proof.
  exact (service_loads_setup 0 sample_prover sample_verifier sample_params sample_pin sample_bundle no_io NewService
    sample_backend_eq sample_export_eq sample_pin_nonzero (fun _ => eq_refl) (fresh_service_wf "" no_ledger wf_ledger_empty)).
Defined.
