(* ===== verification/Trust.v ===== *)
(** * Authorities and enrollment ([nativeproof/trust.go])

    A setup authority approves a setup and a registry authority signs the
    registry of an epoch; both are Ed25519 keys of an independently
    provisioned policy. Users enroll accounts with a Schnorr proof of
    possession bound to authority, namespace, setup and challenge. An
    authorized verifier checks the approval and the registry before any
    signature. Ed25519 verification is the parameter [Ed25519]; a signer is
    the [crypto.Signer] the caller supplies. *)

From S2P Require Import Prelude Bytes Sha256 Curve Profile Accumulator Circuit CircuitFacts.
From S2P Require Import Statements Backend BackendFacts Protocol Wire Encodings Text Json JsonStream Service SetupEncoding Setup.

Definition trustDomain : bytes := ascii_bytes "lktrs/authority-signature/v1" ++ [Byte.x00].
Definition maxTrustBytes : Z := 16 * 2 ^ 20.

(** ** Ed25519 *)

(** [ed25519.Verify(key, message, sig)] *)
Class Ed25519 := {
  ed_verify : bytes -> bytes -> bytes -> bool;
}.

(** Signatures have 64 bytes. *)
Class Ed25519Laws `{!Ed25519} : Prop := {
  ed_verify_length key message sig : ed_verify key message sig = true -> length sig = 64%nat;
}.

(** A [crypto.Signer]: its public key when that is an Ed25519 key, and what
    [Sign] returns for a message. *)
Record AuthoritySigner := mkAuthoritySigner {
  as_public : option bytes;
  as_sign : bytes -> result bytes;
}.

(** ** Policies *)

Record TrustPolicy := mkTrustPolicy {
  tp_Format : string;
  tp_Namespace : string;
  tp_ManifestSHA256 : string;
  tp_SetupAuthority : string;
  tp_RegistryAuthority : string;
  tp_RegistryEpoch : Z;
  tp_Issue : string;
  tp_K : Z;
}.

Definition zero_policy : TrustPolicy := mkTrustPolicy "" "" "" "" "" 0 "" 0.

Definition policy_fields : list (field TrustPolicy) :=
  [on_field "format" dec_string tp_Format (fun x '(mkTrustPolicy _ b c d e f g h) => mkTrustPolicy x b c d e f g h);
   on_field "namespace" dec_string tp_Namespace (fun x '(mkTrustPolicy a _ c d e f g h) => mkTrustPolicy a x c d e f g h);
   on_field "manifest_sha256" dec_string tp_ManifestSHA256 (fun x '(mkTrustPolicy a b _ d e f g h) => mkTrustPolicy a b x d e f g h);
   on_field "setup_authority" dec_string tp_SetupAuthority (fun x '(mkTrustPolicy a b c _ e f g h) => mkTrustPolicy a b c x e f g h);
   on_field "registry_authority" dec_string tp_RegistryAuthority
     (fun x '(mkTrustPolicy a b c d _ f g h) => mkTrustPolicy a b c d x f g h);
   on_field "registry_epoch" (dec_uint 64) tp_RegistryEpoch (fun x '(mkTrustPolicy a b c d e _ g h) => mkTrustPolicy a b c d e x g h);
   on_field "issue" dec_string tp_Issue (fun x '(mkTrustPolicy a b c d e f _ h) => mkTrustPolicy a b c d e f x h);
   on_field "k" (dec_uint 32) tp_K (fun x '(mkTrustPolicy a b c d e f g _) => mkTrustPolicy a b c d e f g x)].

Definition trust_alphabet : list ascii :=
  String.list_ascii_of_string "abcdefghijklmnopqrstuvwxyzABCDEFGHIJKLMNOPQRSTUVWXYZ0123456789._:@/-".

(** A rune outside ASCII, and a byte that is not UTF-8, is not in the set. *)
Definition validTrustID (s : string) : bool :=
  negb ((String.length s =? 0)%nat || (128 <? String.length s)%nat)
  && forallb (fun c => bool_decide (c ∈ trust_alphabet)) (String.list_ascii_of_string s).

Definition authorityKey (encoded : string) : result bytes :=
  _ ← fail_if (negb (String.length encoded =? 44)%nat) "invalid authority key length";
  match decodeB64 encoded with
  | Ok b =>
      _ ← fail_if (negb (length b =? 32)%nat) "authority must be an independently trusted Ed25519 public key";
      Ok b
  | Err _ => Err "authority must be an independently trusted Ed25519 public key"
  end.

Definition validate (p : TrustPolicy) : result unit :=
  _ ← fail_if (negb (String.eqb (tp_Format p) "lktrs/trust-policy/v1") || negb (validTrustID (tp_Namespace p))
               || (tp_RegistryEpoch p =? 0) || (tp_K p =? 0)) "invalid trust policy";
  _ ← match ParseDigest (tp_ManifestSHA256 p) with
      | Ok h => fail_if (bool_decide (h = zero_digest)) "invalid setup identity"
      | Err _ => Err "invalid setup identity"
      end;
  _ ← decodeIssue (tp_Issue p);
  _ ← authorityKey (tp_SetupAuthority p);
  _ ← authorityKey (tp_RegistryAuthority p);
  Ok tt.

Definition ParseTrustPolicy (raw : bytes) : result TrustPolicy :=
  _ ← fail_if (8192 <? Z.of_nat (length raw)) "oversized trust policy";
  p ← strictJSON (dec_struct policy_fields) zero_policy raw;
  _ ← validate p;
  Ok p.

(** ** Signed documents *)

Record authorityEnvelope := mkAuthorityEnvelope {
  ae_Payload : string;
  ae_Signature : string;
}.

Definition zero_envelope : authorityEnvelope := mkAuthorityEnvelope "" "".

Definition envelope_fields : list (field authorityEnvelope) :=
  [on_field "payload_b64" dec_string ae_Payload (fun x '(mkAuthorityEnvelope _ b) => mkAuthorityEnvelope x b);
   on_field "signature_b64" dec_string ae_Signature (fun x '(mkAuthorityEnvelope a _) => mkAuthorityEnvelope a x)].

Definition enc_envelope (e : authorityEnvelope) : json :=
  enc_struct [("payload_b64", enc_string (ae_Payload e)); ("signature_b64", enc_string (ae_Signature e))].

Section envelopes.
Context `{ED : !Ed25519}.

(** The document is given by its JSON value. *)
Definition authoritySign (document : json) (signer : option AuthoritySigner) : result bytes :=
  match signer with
  | None => Err "missing authority signer"
  | Some signer =>
      match as_public signer with
      | None => Err "authority signer must use Ed25519"
      | Some key =>
          _ ← fail_if (negb (length key =? 32)%nat) "authority signer must use Ed25519";
          let raw := marshal document in
          _ ← fail_if (maxTrustBytes / 2 <? Z.of_nat (length raw)) "oversized authority document";
          let message := trustDomain ++ raw in
          sig ← as_sign signer message;
          _ ← fail_if (negb (ed_verify key message sig)) "authority signer returned invalid signature";
          Ok (marshal (enc_envelope (mkAuthorityEnvelope (EncodeToString raw) (EncodeToString sig))))
      end
  end.

Definition authorityVerify {A} (raw key : bytes) (dec : decoder A) (zero : A) : result A :=
  _ ← fail_if ((maxTrustBytes <? Z.of_nat (length raw)) || negb (length key =? 32)%nat) "invalid authority envelope or key";
  env ← strictJSON (dec_struct envelope_fields) zero_envelope raw;
  payload ← decodeB64 (ae_Payload env);
  sig ← decodeB64 (ae_Signature env);
  _ ← fail_if (negb (ed_verify key (trustDomain ++ payload) sig)) "invalid authority signature";
  strictJSON dec zero payload.
End envelopes.

Definition validTrustTime (before after now : Z) : bool :=
  (0 <=? before) && (before <? after) && (before <=? now) && (now <? after).

(** ** Setup approvals *)

Record setupApproval := mkSetupApproval {
  sa_Format : string;
  sa_Namespace : string;
  sa_ManifestSHA256 : string;
  sa_NotBefore : Z;
  sa_NotAfter : Z;
}.

Definition zero_approval : setupApproval := mkSetupApproval "" "" "" 0 0.

Definition approval_fields : list (field setupApproval) :=
  [on_field "format" dec_string sa_Format (fun x '(mkSetupApproval _ b c d e) => mkSetupApproval x b c d e);
   on_field "namespace" dec_string sa_Namespace (fun x '(mkSetupApproval a _ c d e) => mkSetupApproval a x c d e);
   on_field "manifest_sha256" dec_string sa_ManifestSHA256 (fun x '(mkSetupApproval a b _ d e) => mkSetupApproval a b x d e);
   on_field "not_before" (dec_int 64) sa_NotBefore (fun x '(mkSetupApproval a b c _ e) => mkSetupApproval a b c x e);
   on_field "not_after" (dec_int 64) sa_NotAfter (fun x '(mkSetupApproval a b c d _) => mkSetupApproval a b c d x)].

Definition enc_approval (a : setupApproval) : json :=
  enc_struct [("format", enc_string (sa_Format a)); ("namespace", enc_string (sa_Namespace a));
              ("manifest_sha256", enc_string (sa_ManifestSHA256 a)); ("not_before", enc_int (sa_NotBefore a));
              ("not_after", enc_int (sa_NotAfter a))].

Section approvals.
Context `{ED : !Ed25519}.

Definition SignSetupApproval (pin : bytes) (namespace : string) (before after : Z) (signer : option AuthoritySigner)
    : result bytes :=
  _ ← fail_if (bool_decide (pin = zero_digest) || negb (validTrustID namespace) || negb (validTrustTime before after before))
        "invalid setup approval";
  authoritySign (enc_approval (mkSetupApproval "lktrs/setup-approval/v1" namespace (hexDigest pin) before after)) signer.

Definition verifySetupApproval (policy : TrustPolicy) (raw : bytes) (now : Z) : result unit :=
  _ ← validate policy;
  key ← authorityKey (tp_SetupAuthority policy);
  a ← authorityVerify raw key (dec_struct approval_fields) zero_approval;
  fail_if (negb (String.eqb (sa_Format a) "lktrs/setup-approval/v1") || negb (String.eqb (sa_Namespace a) (tp_Namespace policy))
           || negb (String.eqb (sa_ManifestSHA256 a) (tp_ManifestSHA256 policy))
           || negb (validTrustTime (sa_NotBefore a) (sa_NotAfter a) now)) "setup approval scope or validity mismatch".
End approvals.

(** ** Enrollment *)

Record Enrollment := mkEnrollment {
  en_UserID : string;
  en_AccountID : string;
  en_U : string;
  en_Y : string;
  en_D : string;
  en_Challenge : string;
  en_Commitment : string;
  en_Response : string;
}.

Definition zero_enrollment : Enrollment := mkEnrollment "" "" "" "" "" "" "" "".

Definition enrollment_fields : list (field Enrollment) :=
  [on_field "user_id" dec_string en_UserID (fun x '(mkEnrollment _ b c d e f g h) => mkEnrollment x b c d e f g h);
   on_field "account_id" dec_string en_AccountID (fun x '(mkEnrollment a _ c d e f g h) => mkEnrollment a x c d e f g h);
   on_field "u" dec_string en_U (fun x '(mkEnrollment a b _ d e f g h) => mkEnrollment a b x d e f g h);
   on_field "y" dec_string en_Y (fun x '(mkEnrollment a b c _ e f g h) => mkEnrollment a b c x e f g h);
   on_field "d" dec_string en_D (fun x '(mkEnrollment a b c d _ f g h) => mkEnrollment a b c d x f g h);
   on_field "challenge" dec_string en_Challenge (fun x '(mkEnrollment a b c d e _ g h) => mkEnrollment a b c d e x g h);
   on_field "commitment" dec_string en_Commitment (fun x '(mkEnrollment a b c d e f _ h) => mkEnrollment a b c d e f x h);
   on_field "response" dec_string en_Response (fun x '(mkEnrollment a b c d e f g _) => mkEnrollment a b c d e f g x)].

Definition enc_enrollment (e : Enrollment) : json :=
  enc_struct [("user_id", enc_string (en_UserID e)); ("account_id", enc_string (en_AccountID e)); ("u", enc_string (en_U e));
              ("y", enc_string (en_Y e)); ("d", enc_string (en_D e)); ("challenge", enc_string (en_Challenge e));
              ("commitment", enc_string (en_Commitment e)); ("response", enc_string (en_Response e))].

Definition set_response (e : Enrollment) (z : string) : Enrollment :=
  mkEnrollment (en_UserID e) (en_AccountID e) (en_U e) (en_Y e) (en_D e) (en_Challenge e) (en_Commitment e) z.

(** What the challenge hashes: everything but the response. *)
Definition challenge_text (e : Enrollment) (namespace : string) (pin key : bytes) : bytes :=
  marshal (enc_struct [("Domain", enc_string "lktrs/enrollment-pop/v1"); ("Namespace", enc_string namespace);
                       ("Setup", enc_string (hexDigest pin)); ("Authority", enc_string (EncodeToString key));
                       ("Enrollment", enc_enrollment (set_response e ""))]).

Section defs.
Context `{CR : !Crypto, GR : !Groth16, SB : !SetupBackend, ED : !Ed25519}.

Definition enrollmentChallenge (e : Enrollment) (namespace : string) (pin key : bytes) : result Z :=
  HashScalar (challenge_text e namespace pin key) (Some (g_order Secp)).

(** The draw of [randomNonzero] is the argument [rand]. *)
Definition CreateEnrollment (rand : Z -> result Z) (x : option Z) (a : Account) (user account namespace : string)
    (pin key challenge : bytes) : result Enrollment :=
  _ ← fail_if (negb (canonicalNonzero x (g_order Secp)) || negb (is_ok (validateAccount a)) || bool_decide (a_D a = None)
               || negb (validTrustID user) || negb (validTrustID account) || negb (validTrustID namespace)
               || bool_decide (pin = zero_digest) || negb (length key =? 32)%nat || bool_decide (challenge = zero_digest))
        "invalid enrollment input";
  x ← deref x;
  d ← deref (a_D a);
  _ ← fail_if (negb (bool_decide (g_mul x (a_U a) = a_Y a))) "enrollment secret does not own account";
  r ← randomNonzero rand (g_order Secp);
  let out := mkEnrollment user account (pointHex (a_U a)) (pointHex (a_Y a)) (scalarHex d) (hexDigest challenge)
               (pointHex (g_mul r (a_U a))) "" in
  c ← enrollmentChallenge out namespace pin key;
  Ok (set_response out (scalarHex ((c * x + r) mod g_order Secp))).

Definition VerifyEnrollment (e : Enrollment) (namespace : string) (pin key expectedChallenge : bytes) : result Registration :=
  _ ← fail_if (negb (validTrustID (en_UserID e)) || negb (validTrustID (en_AccountID e)) || negb (validTrustID namespace)
               || negb (length key =? 32)%nat || bool_decide (pin = zero_digest) || bool_decide (expectedChallenge = zero_digest)
               || negb (String.eqb (en_Challenge e) (hexDigest expectedChallenge)))
        "enrollment identity or challenge mismatch";
  u ← trustPoint (en_U e);
  y ← trustPoint (en_Y e);
  d ← trustScalar (en_D e) true;
  let a := mkAccount u y (Some d) in
  _ ← validateAccount a;
  r ← trustPoint (en_Commitment e);
  z ← trustScalar (en_Response e) false;
  c ← enrollmentChallenge e namespace pin key;
  _ ← fail_if (negb (bool_decide (g_mul z u = g_add r (g_mul c y)))) "invalid enrollment proof of possession";
  Ok (mkRegistration (en_UserID e) a).

(** ** Registry authorizations *)

Record RegistryAuthorization := mkRegistryAuthorization {
  ra_Format : string;
  ra_Namespace : string;
  ra_ManifestSHA256 : string;
  ra_Epoch : Z;
  ra_NotBefore : Z;
  ra_NotAfter : Z;
  ra_Issue : string;
  ra_K : Z;
  ra_Entries : list Enrollment;
}.

Definition zero_authorization : RegistryAuthorization := mkRegistryAuthorization "" "" "" 0 0 0 "" 0 [].

Definition authorization_fields : list (field RegistryAuthorization) :=
  [on_field "format" dec_string ra_Format
     (fun x '(mkRegistryAuthorization _ b c d e f g h i) => mkRegistryAuthorization x b c d e f g h i);
   on_field "namespace" dec_string ra_Namespace
     (fun x '(mkRegistryAuthorization a _ c d e f g h i) => mkRegistryAuthorization a x c d e f g h i);
   on_field "manifest_sha256" dec_string ra_ManifestSHA256
     (fun x '(mkRegistryAuthorization a b _ d e f g h i) => mkRegistryAuthorization a b x d e f g h i);
   on_field "epoch" (dec_uint 64) ra_Epoch
     (fun x '(mkRegistryAuthorization a b c _ e f g h i) => mkRegistryAuthorization a b c x e f g h i);
   on_field "not_before" (dec_int 64) ra_NotBefore
     (fun x '(mkRegistryAuthorization a b c d _ f g h i) => mkRegistryAuthorization a b c d x f g h i);
   on_field "not_after" (dec_int 64) ra_NotAfter
     (fun x '(mkRegistryAuthorization a b c d e _ g h i) => mkRegistryAuthorization a b c d e x g h i);
   on_field "issue" dec_string ra_Issue
     (fun x '(mkRegistryAuthorization a b c d e f _ h i) => mkRegistryAuthorization a b c d e f x h i);
   on_field "k" (dec_uint 32) ra_K
     (fun x '(mkRegistryAuthorization a b c d e f g _ i) => mkRegistryAuthorization a b c d e f g x i);
   on_field "entries" (dec_slice (dec_struct enrollment_fields) zero_enrollment) ra_Entries
     (fun x '(mkRegistryAuthorization a b c d e f g h _) => mkRegistryAuthorization a b c d e f g h x)].

(** A nil slice of entries is written as [null]; no authorization is signed
    with an empty one. *)
Definition enc_authorization (a : RegistryAuthorization) : json :=
  enc_struct [("format", enc_string (ra_Format a)); ("namespace", enc_string (ra_Namespace a));
              ("manifest_sha256", enc_string (ra_ManifestSHA256 a)); ("epoch", enc_uint (ra_Epoch a));
              ("not_before", enc_int (ra_NotBefore a)); ("not_after", enc_int (ra_NotAfter a));
              ("issue", enc_string (ra_Issue a)); ("k", enc_uint (ra_K a));
              ("entries", enc_slice enc_enrollment (ra_Entries a))].

(** The loop over the entries; [ids] holds the account ids met so far. *)
Fixpoint verify_entries (namespace : string) (pin key : bytes) (ids : gset string) (entries : list Enrollment)
    : result (list Registration) :=
  match entries with
  | [] => Ok []
  | e :: entries =>
      _ ← fail_if (bool_decide (en_AccountID e ∈ ids)) "duplicate account id";
      challenge ← ParseDigest (en_Challenge e);
      r ← VerifyEnrollment e namespace pin key challenge;
      rs ← verify_entries namespace pin key ({[en_AccountID e]} ∪ ids) entries;
      Ok (r :: rs)
  end.

Definition registryRegistrations (a : RegistryAuthorization) (key : bytes) : result (list Registration) :=
  pin ← ParseDigest (ra_ManifestSHA256 a);
  _ ← fail_if (negb (String.eqb (ra_Format a) "lktrs/registry-authorization/v1") || negb (validTrustID (ra_Namespace a))
               || (ra_Epoch a =? 0) || (ra_K a =? 0) || negb (validTrustTime (ra_NotBefore a) (ra_NotAfter a) (ra_NotBefore a))
               || (length (ra_Entries a) =? 0)%nat || (65536 <? Z.of_nat (length (ra_Entries a))))
        "invalid registry authorization";
  _ ← decodeIssue (ra_Issue a);
  entries ← verify_entries (ra_Namespace a) pin key ∅ (ra_Entries a);
  _ ← NewRegistry entries;
  Ok entries.

Definition SignRegistryAuthorization (a : RegistryAuthorization) (signer : option AuthoritySigner) : result bytes :=
  match signer with
  | None => Err "missing registry signer"
  | Some s =>
      match as_public s with
      | None => Err "registry signer must use Ed25519"
      | Some key =>
          _ ← registryRegistrations a key;
          authoritySign (enc_authorization a) signer
      end
  end.

(** ** The authorized verifier *)

Record AuthorizedVerifier := mkAuthorizedVerifier {
  av_loaded : option LoadedSetup;
  av_policy : TrustPolicy;
  av_approval : bytes;
}.

Definition LoadAuthorizedVerifier (io : read_io) (dir : option bundle) (policy : TrustPolicy) (approval : bytes) (now : Z)
    : result AuthorizedVerifier :=
  _ ← verifySetupApproval policy approval now;
  pin ← ParseDigest (tp_ManifestSHA256 policy);
  loaded ← LoadPublicSetup io dir pin;
  Ok (mkAuthorizedVerifier (Some loaded) policy approval).

Definition forget_d (e : Registration) : Account := mkAccount (a_U (reg_Account e)) (a_Y (reg_Account e)) None.

Definition authorizedContext (params : Params) (policy : TrustPolicy) (raw : bytes) (now : Z)
    : result (VerificationContext * Registry) :=
  _ ← validate policy;
  key ← authorityKey (tp_RegistryAuthority policy);
  a ← authorityVerify raw key (dec_struct authorization_fields) zero_authorization;
  _ ← fail_if (negb (String.eqb (ra_Namespace a) (tp_Namespace policy))
               || negb (String.eqb (ra_ManifestSHA256 a) (tp_ManifestSHA256 policy))
               || negb (ra_Epoch a =? tp_RegistryEpoch policy) || negb (String.eqb (ra_Issue a) (tp_Issue policy))
               || negb (ra_K a =? tp_K policy) || negb (validTrustTime (ra_NotBefore a) (ra_NotAfter a) now))
        "registry authority scope, epoch, policy or validity mismatch";
  _ ← fail_if (Z.of_nat (length (p_Powers params)) - 1 <? Z.of_nat (length (ra_Entries a))) "registry exceeds setup capacity";
  entries ← registryRegistrations a key;
  registry ← NewRegistry entries;
  issue ← decodeIssue (ra_Issue a);
  ctx ← NewVerificationContext params (forget_d <$> entries) issue (ra_K a);
  Ok (ctx, registry).

(** A nil verifier is [None]. *)
Definition AuthorizedVerify (v : option AuthorizedVerifier) (registry message : bytes) (sig : Signed) (now : Z) : result unit :=
  match v with
  | None => Err "missing authorized verifier"
  | Some v =>
      match av_loaded v with
      | None => Err "missing authorized verifier"
      | Some loaded =>
          _ ← verifySetupApproval (av_policy v) (av_approval v) now;
          '(ctx, _) ← authorizedContext (ls_Parameters loaded) (av_policy v) registry now;
          Verify (Some (ls_Verifier loaded)) ctx message sig
      end
  end.

Definition RegistryDigest (raw : bytes) : bytes := sha256 raw.

Definition AuthorizedTrace (v : option AuthorizedVerifier) (registry messageA : bytes) (sigA : Signed) (messageB : bytes)
    (sigB : Signed) (now : Z) : TraceResult * option error :=
  match v with
  | None => (invalid, Some "missing authorized verifier")
  | Some v =>
      match av_loaded v with
      | None => (invalid, Some "missing authorized verifier")
      | Some loaded =>
          match (_ ← verifySetupApproval (av_policy v) (av_approval v) now;
                 authorizedContext (ls_Parameters loaded) (av_policy v) registry now) with
          | Err e => (invalid, Some e)
          | Ok (ctx, enrolled) => Trace (Some (ls_Verifier loaded)) ctx messageA sigA ctx messageB sigB enrolled
          end
      end
  end.
End defs.
