(* ===== verification/Context.v ===== *)
(** * Public verification contexts ([nativeproof/context.go])

    The ring, issue and quota of a verification context as JSON text. Reading
    back what was written gives the context without the accounts' exponents,
    and verification under either gives the same answer. *)

From S2P Require Import Prelude Bytes Sha256 Curve Toy Profile Samples Accumulator Circuit CircuitFacts.
From S2P Require Import Statements Backend BackendFacts ToyProofs Protocol ProtocolFacts Security Wire Encodings Text.
From S2P Require Import Json JsonStream JsonFacts JsonStreamFacts Service ServiceFacts.

Definition MaxPublicContextBytes : Z := 16 * 2 ^ 20.

Record publicAccountEncoding := mkPublicAccountEncoding {
  pa_U : string;
  pa_Y : string;
}.

Record publicContextEncoding := mkPublicContextEncoding {
  pc_Format : string;
  pc_Issue : string;
  pc_K : Z;
  pc_Accounts : list publicAccountEncoding;
}.

Definition zero_public_account : publicAccountEncoding := mkPublicAccountEncoding "" "".
Definition zero_public_context : publicContextEncoding := mkPublicContextEncoding "" "" 0 [].

Definition account_fields : list (field publicAccountEncoding) :=
  [on_field "u" dec_string pa_U (fun x '(mkPublicAccountEncoding _ b) => mkPublicAccountEncoding x b);
   on_field "y" dec_string pa_Y (fun x '(mkPublicAccountEncoding a _) => mkPublicAccountEncoding a x)].

Definition context_fields : list (field publicContextEncoding) :=
  [on_field "format" dec_string pc_Format (fun x '(mkPublicContextEncoding _ b c d) => mkPublicContextEncoding x b c d);
   on_field "issue" dec_string pc_Issue (fun x '(mkPublicContextEncoding a _ c d) => mkPublicContextEncoding a x c d);
   on_field "k" (dec_uint 32) pc_K (fun x '(mkPublicContextEncoding a b _ d) => mkPublicContextEncoding a b x d);
   on_field "accounts" (dec_slice (dec_struct account_fields) zero_public_account) pc_Accounts
     (fun x '(mkPublicContextEncoding a b c _) => mkPublicContextEncoding a b c x)].

Definition enc_public_account (a : publicAccountEncoding) : json :=
  enc_struct [("u", enc_string (pa_U a)); ("y", enc_string (pa_Y a))].

Definition enc_public_context (c : publicContextEncoding) : json :=
  enc_struct [("format", enc_string (pc_Format c)); ("issue", enc_string (pc_Issue c)); ("k", enc_uint (pc_K c));
              ("accounts", enc_slice enc_public_account (pc_Accounts c))].

Section defs.
Context `{CR : !Crypto, GR : !Groth16}.

Definition encode_context (ctx : VerificationContext) : publicContextEncoding :=
  {| pc_Format := "lktrs/context/v1"; pc_Issue := hex_encode (ctx_issue ctx); pc_K := ctx_k ctx;
     pc_Accounts := (fun a => mkPublicAccountEncoding (pointHex (a_U a)) (pointHex (a_Y a))) <$> ctx_accounts ctx |}.

Definition MarshalVerificationContext (ctx : VerificationContext) : result bytes :=
  let raw := marshal_indent (enc_public_context (encode_context ctx)) in
  _ ← fail_if (MaxPublicContextBytes <? Z.of_nat (length raw) + 1) "public context exceeds size budget";
  Ok (raw ++ [z2b 10]).

(** One coordinate pair of an entry. *)
Definition context_point (s : string) : result Secp :=
  b ← hex_canonical 64 "noncanonical account coordinates" s;
  '(point, _) ← readSecp b;
  Ok point.

Definition context_account (entry : publicAccountEncoding) : result Account :=
  u ← context_point (pa_U entry);
  y ← context_point (pa_Y entry);
  Ok (mkAccount u y None).

Definition UnmarshalVerificationContext (params : Params) (raw : bytes) : result VerificationContext :=
  _ ← fail_if (MaxPublicContextBytes <? Z.of_nat (length raw)) "oversized public context";
  c ← strictJSON (dec_struct context_fields) zero_public_context raw;
  _ ← fail_if (negb (String.eqb (pc_Format c) "lktrs/context/v1")
               || (Z.of_nat (length (p_Powers params)) - 1 <? Z.of_nat (length (pc_Accounts c))))
        "invalid public context format or capacity";
  issue ← decodeIssue (pc_Issue c);
  accounts ← mapM context_account (pc_Accounts c);
  NewVerificationContext params accounts issue (pc_K c).
End defs.

Section facts.
Context `{CR : !Crypto, CL : !CryptoLaws, GR : !Groth16}.

(** ** Accounts without their exponents *)

Definition public_account (a : Account) : Account := mkAccount (a_U a) (a_Y a) None.

Definition public_context (ctx : VerificationContext) : VerificationContext :=
  mkVerificationContext (ctx_params ctx) (public_account <$> ctx_accounts ctx) (ctx_issue ctx) (ctx_k ctx) (ctx_vDigest ctx).

Lemma Member_public a m : Member a = Ok m -> Member (public_account a) = Ok m.
Proof.
  unfold Member, validateAccount. cbn [a_U a_Y a_D public_account]. intros (u & H & E)%bind_Ok.
  apply bind_fail_if in H as [H _]. rewrite H. done.
Qed.

Lemma membersOf_public accounts ms : membersOf accounts = Ok ms -> membersOf (public_account <$> accounts) = Ok ms.
Proof.
  rewrite !membersOf_spec. intros ([HF HN] & Hne & Hl). rewrite length_fmap. split_and!; [|by destruct accounts|done].
  split; [|done]. apply Forall2_fmap_l. eapply Forall2_impl; [exact HF|]. apply Member_public.
Qed.

Lemma Accumulate_public p accounts :
  is_ok (Accumulate p accounts) = true -> Accumulate p (public_account <$> accounts) = Accumulate p accounts.
Proof.
  unfold Accumulate. destruct (ValidateParams p); [|done]. cbn [mbind result_bind]. rewrite length_fmap.
  destruct (length accounts =? 0)%nat; [done|]. destruct (membersOf accounts) as [ms|] eqn:E; [|done].
  by rewrite (membersOf_public _ _ E).
Qed.

Lemma RingDigest_public accounts rd : RingDigest accounts = Ok rd -> RingDigest (public_account <$> accounts) = Ok rd.
Proof.
  unfold RingDigest. destruct (membersOf accounts) as [ms|] eqn:E; [|done]. rewrite (membersOf_public _ _ E).
  cbn [mbind result_bind]. by rewrite length_fmap, <- list_fmap_compose.
Qed.

Lemma NewVerificationContext_public p accounts issue k ctx :
  NewVerificationContext p accounts issue k = Ok ctx ->
  NewVerificationContext p (public_account <$> accounts) issue k = Ok (public_context ctx).
Proof using CL.
  intros (Hk & Ha & rd & Hrd & ->)%NewVerificationContext_Ok. apply NewVerificationContext_Ok.
  rewrite Accumulate_public by done. split; [done|]. split; [done|]. exists rd. split; [by apply RingDigest_public|done].
Qed.

(** Verification does not look at the exponents. *)
Lemma Verify_public v p accounts issue k ctx m sg :
  NewVerificationContext p accounts issue k = Ok ctx -> Verify v (public_context ctx) m sg = Verify v ctx m sg.
Proof using CL.
  intros (Hk & Ha & rd & Hrd & ->)%NewVerificationContext_Ok. unfold Verify. destruct v as [v|]; [|done].
  destruct (v_vk v); [|done].
  assert (check (public_context (mkVerificationContext p accounts issue k rd)) m (sg_Statement sg)
          = check (mkVerificationContext p accounts issue k rd) m (sg_Statement sg)) as ->; [|done].
  unfold check, public_context. cbn [ctx_params ctx_accounts ctx_issue ctx_k ctx_vDigest]. by rewrite Accumulate_public.
Qed.

(** ** The text *)

Lemma dec_enc_public_account a : dec_struct account_fields (enc_public_account a) zero_public_account = Ok a.
Proof.
  destruct a as [u y]. unfold enc_public_account, enc_struct. cbn [pa_U pa_Y map fst snd dec_struct].
  next_field 0%nat; [|apply dec_enc_string]. next_field 1%nat; [|apply dec_enc_string]. done.
Qed.

Lemma dec_enc_public_context c :
  0 <= pc_K c < 2 ^ 32 -> dec_struct context_fields (enc_public_context c) zero_public_context = Ok c.
Proof.
  intros Hk. destruct c as [f i k l]. cbn [pc_K] in Hk. unfold enc_public_context, enc_struct.
  cbn [pc_Format pc_Issue pc_K pc_Accounts map fst snd dec_struct].
  next_field 0%nat; [|apply dec_enc_string]. next_field 1%nat; [|apply dec_enc_string].
  next_field 2%nat; [|by apply dec_enc_uint].
  next_field 3%nat; [|apply dec_enc_elements, Forall_forall; intros; apply dec_enc_public_account]. done.
Qed.

Lemma enc_context_wf ctx : wf_json (enc_public_context (encode_context ctx)).
Proof.
  unfold enc_public_context. apply wf_enc_struct. split; [by repeat constructor|].
  rewrite !Forall_cons, Forall_nil. split_and!; cbn [snd pc_Format pc_Issue pc_K pc_Accounts encode_context]; try done.
  - apply enc_string_wf, hex_encode_utf8.
  - apply enc_uint_wf.
  - apply wf_enc_slice, Forall_fmap, Forall_forall. intros a _.
    apply (wf_enc_struct [("u", enc_string (pointHex (a_U a))); ("y", enc_string (pointHex (a_Y a)))]). split; [by repeat constructor|]. rewrite !Forall_cons, Forall_nil.
    split_and!; cbn [snd]; try done; apply enc_string_wf, hex_encode_utf8.
Qed.

Lemma enc_context_depth c : json_depth (enc_public_context c) <= maxNestingDepth.
Proof.
  trans (1 + 2); [|done]. apply depth_struct; [lia|]. rewrite !Forall_cons, Forall_nil. split_and!; cbn [snd]; try done.
  apply (depth_slice _ _ 1); [lia|]. apply Forall_forall. intros a _. apply (depth_struct _ 0); [lia|]. by repeat constructor.
Qed.

Lemma enc_context_clean c : 0 <= pc_K c < 2 ^ 32 -> clean (enc_public_context c) = true.
Proof.
  intros Hk. unfold enc_public_context. clean_fields; [apply clean_uint; lia|].
  apply clean_slice, Forall_forall. intros a _. clean_fields.
Qed.

Lemma strict_context ctx :
  0 <= ctx_k ctx < 2 ^ 32 ->
  strictJSON (dec_struct context_fields) zero_public_context
    (marshal_indent (enc_public_context (encode_context ctx)) ++ [z2b 10]) = Ok (encode_context ctx).
Proof.
  intros Hk. rewrite strict_marshal_indent; [by apply dec_enc_public_context|apply enc_context_wf|apply enc_context_depth|
    by apply enc_context_clean|]. by repeat constructor.
Qed.

Lemma context_point_Ok s p : context_point s = Ok p <-> s = pointHex p /\ good p = true.
Proof using CL.
  rewrite <- trustPoint_Ok. unfold context_point, trustPoint. split.
  - intros (b & [-> Hb]%hex_canonical_Ok & E)%bind_Ok. apply bind_fail_if. rewrite length_hex_encode, Hb. split; [done|].
    by rewrite (proj2 (hex_canonical_Ok _ _ _ b)).
  - intros [_ E]%bind_fail_if. apply bind_Ok in E as (b & [-> Hb]%hex_canonical_Ok & E).
    by rewrite (proj2 (hex_canonical_Ok _ _ _ b)).
Qed.

Lemma mapM_Ok {A B} (f : A -> result B) l l' : Forall2 (fun x y => f x = Ok y) l l' -> mapM f l = Ok l'.
Proof. induction 1 as [|x y l l' H _ IH]; [done|]. cbn. by rewrite H, IH. Qed.

Lemma Member_good a m : Member a = Ok m -> good (a_U a) = true /\ good (a_Y a) = true.
Proof.
  unfold Member, validateAccount, goodSecp. intros (u & H & _)%bind_Ok. apply bind_fail_if in H as [H _].
  by apply orb_false_iff in H as [->%negb_false_iff ->%negb_false_iff].
Qed.

Lemma context_accounts accounts ms :
  membersOf accounts = Ok ms ->
  mapM context_account ((fun a => mkPublicAccountEncoding (pointHex (a_U a)) (pointHex (a_Y a))) <$> accounts)
  = Ok (public_account <$> accounts).
Proof using CL.
  intros ([HF _] & _ & _)%membersOf_spec. apply mapM_Ok, Forall2_fmap, Forall_Forall2_diag.
  apply Forall_forall. intros a Ha. apply list_elem_of_lookup in Ha as [i Hi].
  destruct (Forall2_lookup_l _ _ _ _ _ HF Hi) as (m & _ & [HU HY]%Member_good). unfold context_account. cbn [pa_U pa_Y].
  rewrite (proj2 (context_point_Ok (pointHex (a_U a)) (a_U a))) by done. cbn [mbind result_bind].
  by rewrite (proj2 (context_point_Ok (pointHex (a_Y a)) (a_Y a))).
Qed.

Lemma context_read p accounts issue k ctx raw :
  NewVerificationContext p accounts issue k = Ok ctx -> length issue = 32%nat -> 0 <= k < 2 ^ 32 ->
  MarshalVerificationContext ctx = Ok raw ->
  UnmarshalVerificationContext p raw = Ok (public_context ctx) /\ forall v m sg, Verify v (public_context ctx) m sg = Verify v ctx m sg.
Proof using CL.
  intros HN Hi Hk HM. split; [|intros; by eapply Verify_public].
  pose proof HN as (Hk0 & HA & rd & HRD & Ectx)%NewVerificationContext_Ok.
  unfold MarshalVerificationContext in HM. apply bind_fail_if in HM as [Hl%Z.ltb_ge HM].
  assert (raw = marshal_indent (enc_public_context (encode_context ctx)) ++ [z2b 10]) as -> by congruence. clear HM.
  unfold UnmarshalVerificationContext. apply bind_fail_if. split; [apply Z.ltb_ge; rewrite length_app; change (length [z2b 10]) with 1%nat; lia|].
  rewrite strict_context by (by rewrite Ectx). cbn [mbind result_bind]. apply bind_fail_if. split.
  { cbn [pc_Format pc_Accounts encode_context]. rewrite String.eqb_refl, length_fmap, Ectx. cbn [negb orb ctx_accounts].
    apply Z.ltb_ge. apply is_ok_exists in HA as [v HA]. apply Accumulate_Ok in HA as (tau & ms & _ & _ & Hcap & _). lia. }
  cbn [pc_Issue pc_Accounts pc_K encode_context]. rewrite Ectx. cbn [ctx_issue ctx_accounts ctx_k].
  unfold decodeIssue. rewrite (proj2 (hex_canonical_Ok _ _ _ issue)) by done. cbn [mbind result_bind].
  unfold RingDigest in HRD. apply bind_Ok in HRD as (ms & Hms & HRD). rewrite (context_accounts _ _ Hms). cbn [mbind result_bind].
  rewrite <- Ectx. by apply NewVerificationContext_public.
Qed.

(** C36: published contexts. What [MarshalVerificationContext] writes for a
    context, [UnmarshalVerificationContext] reads back under the same
    parameters as that context without the accounts' exponents, and [Verify]
    gives the same answer under the context read as under the original, for
    every verifier, message and signature. *)
Theorem context_roundtrip p accounts issue k ctx raw :
  NewVerificationContext p accounts issue k = Ok ctx -> length issue = 32%nat -> 0 <= k < 2 ^ 32 ->
  MarshalVerificationContext ctx = Ok raw ->
  exists ctx', UnmarshalVerificationContext p raw = Ok ctx' /\ ctx' = public_context ctx /\
    forall v m sg, Verify v ctx' m sg = Verify v ctx m sg.
Proof using CL.
  intros HN Hi Hk HM. destruct (context_read p accounts issue k ctx raw HN Hi Hk HM) as [HR HV].
  by exists (public_context ctx).
Qed.
End facts.

(** The context of the sample deployment. *)
Definition sample_context_text : bytes := get_ok [] (MarshalVerificationContext (sample_ctx 2)).

Lemma context_roundtrip_witness :
  exists ctx', UnmarshalVerificationContext sample_params sample_context_text = Ok ctx' /\ ctx' = public_context (sample_ctx 2) /\
    forall v m sg, Verify v ctx' m sg = Verify v (sample_ctx 2) m sg.
Proof.
  apply (context_roundtrip sample_params sample_ring sample_issue 2 (sample_ctx 2) sample_context_text);
    [by apply sample_ctx_eq|reflexivity|lia|]. apply get_ok_eq. vm_compute. reflexivity.
Defined.
