(* ===== verification/Vault.v ===== *)
(** * The encrypted wallet ([nativeproof/vault.go])

    A wallet keeps the user's secret and the counters of every issue in one
    encrypted file; each operation reads the file, and a reservation writes
    it back before the proof is made. The state is that file: a handle
    ([SignerVault]) only names it and holds the wrapping key. XChaCha20-
    Poly1305 is the parameter [AEAD]. The lock serializes operations of all
    handles, so a history is a sequence of calls; what the system decides in
    a call (the random nonce, failures of locking, reading and writing) is
    the record [VaultEnv], a crash during [write] being one of the two
    [fault]s of an interrupted call. *)

From S2P Require Import Prelude Bytes Sha256 Curve Profile Circuit Backend Protocol Wire Encodings Text Json JsonStream Service.

(** ** The cipher *)

(** [chacha20poly1305.NewX(key)]: [Seal(nonce, plain, aad)] and [Open]. *)
Class AEAD := {
  aead_seal : bytes -> bytes -> bytes -> bytes -> bytes;
  aead_open : bytes -> bytes -> bytes -> bytes -> option bytes;
}.

Definition NonceSize : Z := 24.
Definition Overhead : Z := 16.

Class AEADLaws `{!AEAD} : Prop := {
  open_seal key nonce plain aad :
    length key = 32%nat -> Z.of_nat (length nonce) = NonceSize ->
    aead_open key nonce (aead_seal key nonce plain aad) aad = Some plain;
  length_seal key nonce plain aad :
    Z.of_nat (length (aead_seal key nonce plain aad)) = Z.of_nat (length plain) + Overhead;
}.

(** ** The contents *)

Definition vaultMagic := "LKTRSV02".
Definition maxVaultBytes : Z := 2 ^ 20.

Record vaultCounter := mkVaultCounter {
  vc_Next : Z;
  vc_K : Z;
}.

Record vaultState := mkVaultState {
  vs_X : string;
  vs_Counters : option (gmap string vaultCounter);
}.

Definition zero_counter : vaultCounter := mkVaultCounter 0 0.
Definition zero_vault : vaultState := mkVaultState "" None.

Definition counter_fields : list (field vaultCounter) :=
  [on_field "next" (dec_uint 32) vc_Next (fun x '(mkVaultCounter _ b) => mkVaultCounter x b);
   on_field "k" (dec_uint 32) vc_K (fun x '(mkVaultCounter a _) => mkVaultCounter a x)].

Definition vault_fields : list (field vaultState) :=
  [on_field "x" dec_string vs_X (fun x '(mkVaultState _ b) => mkVaultState x b);
   on_field "counters" (dec_map (dec_struct counter_fields) zero_counter) vs_Counters
     (fun x '(mkVaultState a _) => mkVaultState a x)].

Definition enc_counter (c : vaultCounter) : json :=
  enc_struct [("next", enc_uint (vc_Next c)); ("k", enc_uint (vc_K c))].

Definition enc_vault (s : vaultState) : json :=
  enc_struct [("x", enc_string (vs_X s));
              ("counters", match vs_Counters s with Some m => enc_map enc_counter m | None => JNull end)].

(** ** Handles *)

Record SignerVault := mkSignerVault {
  v_path : string;
  v_id : bytes;
  v_key : bytes;
}.

Record VaultEnv := mkVaultEnv {
  ve_abs : string -> result string;  (* filepath.Abs *)
  ve_mkdir : option error;           (* os.MkdirAll *)
  ve_lock : option error;            (* opening and locking the lock file *)
  ve_lstat : option error;           (* os.Lstat *)
  ve_read : option error;            (* reading the file *)
  ve_nonce : result bytes;           (* rand.Read *)
  ve_fault : option fault;           (* writing the file *)
  ve_prove : Z;                      (* groth16.Prove *)
}.

Definition newSignerVault (env : VaultEnv) (path : string) (key id : bytes) : result SignerVault :=
  _ ← fail_if (negb (length key =? 32)%nat || bool_decide (key = replicate 32 Byte.x00)
               || bool_decide (id = zero_digest) || String.eqb path "")
        "vault needs path, nonzero id and external 32-byte wrapping key";
  absolute ← ve_abs env path;
  Ok (mkSignerVault absolute id key).

(** [Close]: the key is dropped. *)
Definition Close (v : SignerVault) : SignerVault := mkSignerVault (v_path v) (v_id v) [].

Definition lock (env : VaultEnv) (v : SignerVault) : result unit :=
  _ ← fail_if (negb (length (v_key v) =? 32)%nat) "vault is closed";
  match ve_lock env with Some e => Err e | None => Ok tt end.

(** [chacha20poly1305.NewX] refuses a key of another length. *)
Definition aead (v : SignerVault) : result bytes :=
  _ ← fail_if (negb (length (v_key v) =? 32)%nat) "chacha20poly1305: bad key length";
  Ok (v_key v).

Definition aad (v : SignerVault) : bytes := ascii_bytes vaultMagic ++ v_id v.

Section defs.
Context `{CR : !Crypto, GR : !Groth16, AE : !AEAD}.

(** The checks of [read] on the decrypted state. *)
Definition valid_counters (m : gmap string vaultCounter) : bool :=
  forallb (fun '(issue, c) => is_ok (decodeIssue issue) && negb (vc_K c =? 0) && negb (vc_K c <? vc_Next c)) (map_to_list m).

Definition check_state (state : vaultState) : result vaultState :=
  _ ← trustScalar (vs_X state) true;
  match vs_Counters state with
  | None => Err "invalid vault counters"
  | Some m =>
      _ ← fail_if (10000 <? Z.of_nat (size m)) "invalid vault counters";
      _ ← fail_if (negb (valid_counters m)) "invalid persisted counter or quota";
      Ok state
  end.

Definition read (env : VaultEnv) (v : SignerVault) (disk : option file) : result vaultState :=
  match ve_lstat env, disk with
  | Some e, _ => Err e
  | _, None => Err "no such file or directory"
  | None, Some f =>
      _ ← fail_if (negb (Z.land (f_perm f) 63 =? 0)) "vault file must have owner-only permissions";
      raw ← ReadBoundedFile (ve_read env) disk maxVaultBytes;
      key ← aead v;
      let prefix := aad v in
      _ ← fail_if ((Z.of_nat (length raw) <? Z.of_nat (length prefix) + NonceSize + Overhead)
                   || negb (bool_decide (take (length prefix) raw = prefix)))
            "invalid vault identity or encoding";
      let rest := drop (length prefix) raw in
      let nonce := take (Z.to_nat NonceSize) rest in
      match aead_open key nonce (drop (Z.to_nat NonceSize) rest) prefix with
      | None => Err "vault authentication failed"
      | Some plain =>
          state ← strictJSON (dec_struct vault_fields) zero_vault plain;
          check_state state
      end
  end.

(** The text [write] encrypts, and the file it makes. *)
Definition seal_state (key nonce prefix plain : bytes) : bytes :=
  prefix ++ nonce ++ aead_seal key nonce plain prefix.

(** [os.Link] fails when the file exists, [os.Rename] replaces it. *)
Definition write (env : VaultEnv) (v : SignerVault) (state : vaultState) (create : bool) (disk : option file)
    : result unit * option file :=
  match (let plain := marshal (enc_vault state) in
         _ ← fail_if (maxVaultBytes - 128 <? Z.of_nat (length plain)) "vault state exceeds size budget";
         key ← aead v;
         nonce ← ve_nonce env;
         Ok (seal_state key nonce (aad v) plain)) with
  | Err e => (Err e, disk)
  | Ok raw =>
      match ve_fault env with
      | Some (BeforeRename e) => (Err e, disk)
      | f =>
          if create && bool_decide (is_Some disk) then (Err "file exists", disk)
          else (match f with Some (AfterRename e) => Err e | _ => Ok tt end, Some (private_file raw))
      end
  end.

Definition CreateSignerVault (env : VaultEnv) (path : string) (key id : bytes) (x : option Z) (disk : option file)
    : result SignerVault * option file :=
  match (_ ← fail_if (negb (canonicalNonzero x (g_order Secp))) "invalid wallet secret";
         x ← deref x;
         v ← newSignerVault env path key id;
         _ ← match ve_mkdir env with Some e => Err e | None => Ok tt end;
         _ ← lock env v;
         Ok (x, v)) with
  | Err e => (Err e, disk)
  | Ok (x, v) =>
      let '(e, disk) := write env v (mkVaultState (scalarHex x) (Some ∅)) true disk in
      (_ ← e; Ok v, disk)
  end.

Definition OpenSignerVault (env : VaultEnv) (path : string) (key id : bytes) (disk : option file)
    : result SignerVault :=
  v ← newSignerVault env path key id;
  _ ← lock env v;
  _ ← read env v disk;
  Ok v.

(** A missing counter reads as zero. *)
Definition counter_at (m : gmap string vaultCounter) (label : string) : vaultCounter :=
  default zero_counter (m !! label).

Definition VaultNextCounter (env : VaultEnv) (v : SignerVault) (issue : bytes) (disk : option file) : result Z :=
  _ ← lock env v;
  state ← read env v disk;
  Ok (vc_Next (counter_at (default ∅ (vs_Counters state)) (hexDigest issue))).

(** The guards of [reserveAndProve]: the secret, the counter to use and the
    state to write. *)
Definition reserve (state : vaultState) (issue : bytes) (k : Z) : result (Z * Z * vaultState) :=
  let m := default ∅ (vs_Counters state) in
  let label := hexDigest issue in
  let counter := counter_at m label in
  let present := bool_decide (is_Some (m !! label)) in
  _ ← fail_if ((k =? 0) || (present && negb (vc_K counter =? k)) || (k <=? vc_Next counter))
        "wallet quota exhausted or policy changed";
  _ ← fail_if (negb present && (10000 <=? Z.of_nat (size m))) "wallet issue limit reached";
  x ← trustScalar (vs_X state) true;
  let next := (vc_Next counter + 1) mod 2 ^ 32 in
  Ok (x, vc_Next counter, mkVaultState (vs_X state) (Some (<[label := mkVaultCounter next k]> m))).

Definition reserveAndProve (env : VaultEnv) (v : SignerVault) (issue : bytes) (k : Z)
    (prove : Z -> Z -> result Signed) (disk : option file) : result Signed * option file :=
  match (_ ← lock env v; state ← read env v disk; reserve state issue k) with
  | Err e => (Err e, disk)
  | Ok (x, count, state) =>
      match write env v state false disk with
      | (Err e, disk) => (Err ("reserve wallet counter: " +:+ e), disk)
      | (Ok _, disk) => (prove x count, disk)
      end
  end.

Definition VaultSign (env : VaultEnv) (v : SignerVault) (p : option Prover) (ring : Snapshot) (account : Z)
    (issue : bytes) (k : Z) (message : bytes) (ts : Z) (disk : option file) : result Signed * option file :=
  match p, (if account <? 0 then None else sn_accounts ring !! Z.to_nat account) with
  | Some p, Some a =>
      match a_D a with
      | Some d =>
          reserveAndProve env v issue k (fun x count =>
            '(st, w) ← MakeStatement (sn_params ring) (sn_accounts ring) account (Some x) (Some d) issue
                         (sha256 message) ts k count;
            Prove (ve_prove env) p (sn_params ring) st w) disk
      | None => (Err "invalid wallet signing context", disk)
      end
  | _, _ => (Err "invalid wallet signing context", disk)
  end.
End defs.
