(* ===== verification/VaultFacts.v ===== *)
(** * The wallet's file and its counters

    What [write] stores [read] returns; a state [read] accepts is well
    formed, whatever the file holds; a reservation advances the counter of
    its issue on disk before the proof is made, and never leaves the quota.
    Histories of calls on one wallet follow. *)

From S2P Require Import Prelude Bytes Sha256 Curve Profile Accumulator Circuit CircuitFacts.
From S2P Require Import Statements Backend BackendFacts Protocol ProtocolFacts Security Wire Encodings Text.
From S2P Require Import Json JsonStream JsonFacts JsonStreamFacts Service ServiceFacts Vault.

(** ** Hexadecimal text in JSON *)

Lemma hex_plain b : Forall plain_char (ascii_bytes (hex_encode b)).
Proof.
  assert (Forall (fun n => plain_char (Ascii.byte_of_ascii (hex_digit n))) (seqZ 0 16)) as HF by (repeat constructor).
  rewrite Forall_forall in HF. induction b as [|x b IH]; [constructor|].
  pose proof (b2z_range x). unfold ascii_bytes in *.
  cbn [hex_encode String.list_byte_of_string String.list_ascii_of_string map].
  constructor; [apply HF, elem_of_seqZ; zlia|]. constructor; [apply HF, elem_of_seqZ; zlia|done].
Qed.

Lemma length_quote_hex b : length (quote (ascii_bytes (hex_encode b))) = (2 * length b + 2)%nat.
Proof.
  rewrite quote_plain by apply hex_plain. cbn [length]. rewrite length_app, length_ascii_bytes, length_hex_encode. cbn. lia.
Qed.

Section facts.
Context `{CR : !Crypto, CL : !CryptoLaws, GR : !Groth16, AE : !AEAD, AL : !AEADLaws}.
Abbreviation ell := (g_order Secp).

(** ** Well-formed states *)

Definition wf_counter (c : vaultCounter) : Prop := 0 <= vc_Next c <= vc_K c /\ 0 < vc_K c < 2 ^ 32.

Record wf_vault (s : vaultState) (x : Z) (m : gmap string vaultCounter) : Prop := mk_wf_vault {
  wv_state : s = mkVaultState (scalarHex x) (Some m);
  wv_x : 0 < x < ell;
  wv_size : Z.of_nat (size m) <= 10000;
  wv_labels : forall l c, m !! l = Some c -> exists issue, l = hexDigest issue /\ length issue = 32%nat;
  wv_counters : map_Forall (fun _ => wf_counter) m;
}.

Lemma valid_counters_true m :
  valid_counters m = true <->
  map_Forall (fun l c => is_ok (decodeIssue l) = true /\ vc_K c <> 0 /\ vc_Next c <= vc_K c) m.
Proof.
  unfold valid_counters. rewrite forallb_forall, map_Forall_to_list, Forall_forall. split; intros H [l c] Hin.
  - specialize (H (l, c) (proj1 (list_elem_of_In _ _) Hin)). cbn in H. rewrite !andb_true_iff, !negb_true_iff, Z.eqb_neq, Z.ltb_ge in H.
    cbn. tauto.
  - apply list_elem_of_In in Hin. specialize (H _ Hin). cbn in H.
    rewrite !andb_true_iff, !negb_true_iff, Z.eqb_neq, Z.ltb_ge. tauto.
Qed.

Lemma check_state_Ok s s' : check_state s = Ok s' -> s' = s.
Proof.
  unfold check_state. intros (x & _ & E)%bind_Ok. destruct (vs_Counters s); [|done].
  apply bind_fail_if in E as [_ E]. apply bind_fail_if in E as [_ E]. by injection E.
Qed.

Lemma check_state_iff s x m :
  (forall l c, default ∅ (vs_Counters s) !! l = Some c -> 0 <= vc_Next c /\ 0 <= vc_K c < 2 ^ 32) ->
  (check_state s = Ok s /\ trustScalar (vs_X s) true = Ok x /\ vs_Counters s = Some m) <-> wf_vault s x m.
Proof using CL.
  intros HR. unfold check_state. split.
  - intros (E & Hx & Em). rewrite Hx, Em in E. cbn [mbind result_bind] in E. rewrite Em in HR. cbn in HR.
    apply bind_fail_if in E as [Hs%Z.ltb_ge E]. apply bind_fail_if in E as [Hv%negb_false_iff%valid_counters_true _].
    apply trustScalar_Ok in Hx as (EX & Hx & Hx0). specialize (Hx0 eq_refl). split; [|lia|done|..].
    + destruct s as [X C]. cbn in *. by subst.
    + intros l c Hl. destruct (Hv _ _ Hl) as ([issue [-> ?]%hex_canonical_Ok]%is_ok_exists & _). by exists issue.
    + intros l c Hl. destruct (Hv _ _ Hl) as (_ & ? & ?), (HR _ _ Hl). unfold wf_counter. lia.
  - intros [-> Hx Hs Hl Hc]. cbn [vs_X vs_Counters].
    assert (trustScalar (scalarHex x) true = Ok x) as -> by (apply trustScalar_Ok; split_and!; [done|lia|lia|lia]).
    split_and!; [|done|done]. cbn [mbind result_bind]. apply bind_fail_if. split; [by apply Z.ltb_ge|].
    apply bind_fail_if. split; [|done]. apply negb_false_iff, valid_counters_true. intros l c H.
    destruct (Hl _ _ H) as (issue & -> & Hi), (Hc _ _ H). split_and!; [|lia|lia].
    apply is_ok_exists. exists issue. by apply hex_canonical_Ok.
Qed.

(** ** The text *)

Lemma dec_enc_counter c : wf_counter c -> dec_struct counter_fields (enc_counter c) zero_counter = Ok c.
Proof.
  intros [H1 H2]. destruct c as [n k]. cbn [vc_Next vc_K] in *. unfold enc_counter, enc_struct.
  cbn [vc_Next vc_K map fst snd dec_struct].
  next_field 0%nat; [|apply dec_enc_uint; lia]. next_field 1%nat; [|apply dec_enc_uint; lia]. done.
Qed.

Lemma dec_enc_vault s x m : wf_vault s x m -> dec_struct vault_fields (enc_vault s) zero_vault = Ok s.
Proof.
  intros [-> _ _ _ HC]. unfold enc_vault, enc_struct. cbn [vs_X vs_Counters map fst snd dec_struct].
  next_field 0%nat; [|apply dec_enc_string].
  next_field 1%nat; [|apply dec_enc_map; [done|intros l c H; apply dec_enc_counter, (HC _ _ H)]]. done.
Qed.

Lemma enc_vault_wf s x m : wf_vault s x m -> wf_json (enc_vault s).
Proof.
  intros [-> _ _ HL _]. unfold enc_vault. apply wf_enc_struct. split; [by repeat constructor|].
  rewrite !Forall_cons, Forall_nil. split_and!; cbn [snd vs_X vs_Counters]; try done.
  - apply enc_string_wf, hex_encode_utf8.
  - apply wf_enc_map. intros l c (issue & -> & _)%HL. split; [apply hex_encode_utf8|].
    apply wf_enc_struct. split; [by repeat constructor|]. rewrite !Forall_cons, Forall_nil.
    split_and!; cbn [snd]; try done; apply enc_uint_wf.
Qed.

Lemma enc_vault_depth s x m : wf_vault s x m -> json_depth (enc_vault s) <= maxNestingDepth.
Proof.
  intros [-> _ _ _ _]. trans (1 + 2); [|done]. apply depth_struct; [lia|]. rewrite !Forall_cons, Forall_nil.
  split_and!; cbn [snd vs_X vs_Counters]; try done. apply (depth_map _ _ 1); [lia|]. intros l c _.
  apply (depth_struct _ 0); [lia|]. by repeat constructor.
Qed.

Lemma enc_vault_clean s x m : wf_vault s x m -> clean (enc_vault s) = true.
Proof.
  intros [-> _ _ _ HC]. unfold enc_vault. cbn [vs_X vs_Counters]. clean_fields. apply clean_map. intros l c Hl.
  destruct (HC _ _ Hl) as [H1 H2]. unfold enc_counter. clean_fields; apply clean_uint; lia.
Qed.

Lemma strict_vault s x m :
  wf_vault s x m -> strictJSON (dec_struct vault_fields) zero_vault (marshal (enc_vault s)) = Ok s.
Proof.
  intros H. rewrite strict_marshal; [by eapply dec_enc_vault|by eapply enc_vault_wf|by eapply enc_vault_depth|
    by eapply enc_vault_clean].
Qed.

(** The longest state fits the size budget of [write]. *)
Lemma enc_counter_length c : wf_counter c -> (length (marshal (enc_counter c)) <= 34)%nat.
Proof.
  intros [H1 H2]. unfold enc_counter. rewrite marshal_struct_length. cbn [fmap list_fmap sum_list id fst snd].
  change (marshal (enc_uint ?z)) with (print_uint z).
  pose proof (print_uint_length (vc_Next c) 10 ltac:(lia) ltac:(lia)). pose proof (print_uint_length (vc_K c) 10 ltac:(lia) ltac:(lia)).
  change (length (quote (ascii_bytes "next"))) with 6%nat. change (length (quote (ascii_bytes "k"))) with 3%nat. lia.
Qed.

Lemma enc_vault_fits s x m : wf_vault s x m -> Z.of_nat (length (marshal (enc_vault s))) <= maxVaultBytes - 128.
Proof.
  intros [-> Hx Hs HL HC]. unfold enc_vault. cbn [vs_X vs_Counters]. rewrite marshal_struct_length.
  cbn [fmap list_fmap sum_list id fst snd]. change (marshal (enc_string ?z)) with (quote (ascii_bytes z)).
  assert (length (marshal (enc_map enc_counter m)) <= 2 + 102 * size m)%nat.
  { apply marshal_map_length. intros l c Hl. destruct (HL _ _ Hl) as (issue & -> & Hi). unfold hexDigest.
    rewrite length_quote_hex, Hi. pose proof (enc_counter_length c (HC _ _ Hl)). lia. }
  unfold scalarHex. rewrite length_quote_hex, length_be_enc.
  change (length (quote (ascii_bytes "x"))) with 3%nat. change (length (quote (ascii_bytes "counters"))) with 10%nat.
  unfold maxVaultBytes. lia.
Qed.
(** ** Reading and writing *)

(** Environments that hand out nonces of the right size. *)
Definition wf_nonce (env : VaultEnv) : Prop := forall n, ve_nonce env = Ok n -> Z.of_nat (length n) = NonceSize.

Definition readable (env : VaultEnv) : Prop := ve_lstat env = None /\ ve_read env = None.

(** The file holds the state, sealed for the handle's identity and key. *)
Definition stored (v : SignerVault) (s : vaultState) (disk : option file) : Prop :=
  exists nonce, Z.of_nat (length nonce) = NonceSize /\
    Z.of_nat (length (marshal (enc_vault s))) <= maxVaultBytes - 128 /\
    disk = Some (private_file (seal_state (v_key v) nonce (aad v) (marshal (enc_vault s)))).

Definition wf_handle (v : SignerVault) : Prop := length (v_key v) = 32%nat /\ length (v_id v) = 32%nat.

Lemma length_aad v : wf_handle v -> length (aad v) = 40%nat.
Proof. intros [_ H]. unfold aad. rewrite length_app, H. done. Qed.

Lemma aead_Ok v key : aead v = Ok key <-> length (v_key v) = 32%nat /\ key = v_key v.
Proof. unfold aead. rewrite bind_fail_if, negb_false_iff, Nat.eqb_eq. naive_solver. Qed.

Lemma lock_Ok env v u : lock env v = Ok u <-> length (v_key v) = 32%nat /\ ve_lock env = None.
Proof.
  unfold lock. rewrite bind_fail_if, negb_false_iff, Nat.eqb_eq. destruct u. destruct (ve_lock env); naive_solver.
Qed.

Lemma read_stored env v s x m disk :
  wf_handle v -> wf_vault s x m -> stored v s disk -> readable env -> read env v disk = Ok s.
Proof using CL AL.
  intros Hv Hs (nonce & Hn & Hl & ->) [Hls Hrd]. pose proof (length_aad v Hv) as Ha. destruct Hv as [Hk _]. unfold read.
  rewrite Hls. apply bind_fail_if. split; [by vm_compute|].
  set (raw := seal_state _ _ _ _).
  assert (Z.of_nat (length raw) = Z.of_nat (length (marshal (enc_vault s))) + 80) as Hraw.
  { unfold raw, seal_state. rewrite !length_app, Ha. pose proof (length_seal (v_key v) nonce (marshal (enc_vault s)) (aad v)).
    unfold NonceSize, Overhead in *. lia. }
  rewrite (proj2 (ReadBoundedFile_Ok _ _ _ raw)); [|split; [done|]; eexists; split; [reflexivity|lia]].
  cbn [mbind result_bind]. rewrite (proj2 (aead_Ok v _)) by done. cbn [mbind result_bind].
  apply bind_fail_if. split.
  { apply orb_false_iff. split; [apply Z.ltb_ge; rewrite Ha; unfold NonceSize, Overhead in *; lia|].
    apply negb_false_iff, bool_decide_eq_true. unfold raw, seal_state. by rewrite take_app_length. }
  unfold raw, seal_state. rewrite drop_app_length.
  assert (length nonce = Z.to_nat NonceSize) as En by lia. rewrite <- En, take_app_length, drop_app_length.
  rewrite open_seal by done. rewrite (strict_vault _ _ _ Hs). cbn [mbind result_bind].
  eapply check_state_iff; [|done]. destruct Hs as [-> _ _ _ HC]. cbn. intros l c H. destruct (HC _ _ H). lia.
Qed.

Lemma write_cases env v s create disk o disk' :
  wf_nonce env -> write env v s create disk = (o, disk') ->
  (disk' = disk /\ exists e, o = Err e) \/ (stored v s disk' /\ (create = true -> disk = None)).
Proof using AL.
  intros Hn. unfold write.
  destruct (_ ← fail_if _ _; _) as [raw|e] eqn:E; [|intros [= <- <-]; left; eauto].
  apply bind_fail_if in E as [Hl%Z.ltb_ge E]. apply bind_Ok in E as (key & [Hk ->]%aead_Ok & E).
  apply bind_Ok in E as (nonce & Hnonce & [= <-]).
  assert (stored v s (Some (private_file (seal_state (v_key v) nonce (aad v) (marshal (enc_vault s)))))) as Hst.
  { exists nonce. split_and!; [by apply Hn|done|done]. }
  destruct (create && bool_decide (is_Some disk)) eqn:Ec; destruct (ve_fault env) as [[e|e]|]; intros [= <- <-];
    try (left; by eauto); (right; split; [exact Hst|]); intros ->; cbn in Ec;
    apply bool_decide_eq_false in Ec; by apply eq_None_not_Some.
Qed.

Definition in_uint32 (c : vaultCounter) : Prop := 0 <= vc_Next c < 2 ^ 32 /\ 0 <= vc_K c < 2 ^ 32.
Definition in_range_state (s : vaultState) : Prop := map_Forall (fun _ => in_uint32) (default ∅ (vs_Counters s)).

Lemma counter_fields_inv j c : utf8_strings j -> dec_struct counter_fields j zero_counter = Ok c -> in_uint32 c.
Proof.
  intros Hj. apply dec_struct_inv; [|done|by unfold in_uint32; cbn]. unfold counter_fields.
  rewrite !Forall_cons, Forall_nil. split_and!; [..|done].
  - apply (on_field_inv in_uint32 (fun z => 0 <= z < 2 ^ 32)); [apply dec_uint_range|by intros [] []|by intros y [] []].
  - apply (on_field_inv in_uint32 (fun z => 0 <= z < 2 ^ 32)); [apply dec_uint_range|by intros [] []|by intros y [] []].
Qed.

Lemma vault_fields_inv j s : utf8_strings j -> dec_struct vault_fields j zero_vault = Ok s -> in_range_state s.
Proof.
  intros Hj. apply dec_struct_inv; [|done|apply map_Forall_empty]. unfold vault_fields.
  rewrite !Forall_cons, Forall_nil. split_and!; [..|done].
  - apply (on_field_inv in_range_state (fun _ => True)); [done|done|]. by intros y [] ?.
  - apply (on_field_inv in_range_state (fun c => map_Forall (fun _ => in_uint32) (default ∅ c)));
      [|by intros []|by intros y [] ?].
    intros j0 cur y. apply dec_map_inv. apply counter_fields_inv.
Qed.

Lemma strictJSON_decoded {A} (dec : decoder A) zero raw a :
  strictJSON dec zero raw = Ok a -> exists j, utf8_strings j /\ dec j zero = Ok a.
Proof.
  intros (_ & j & Hp%parse_utf8 & _ & E)%strictJSON_Ok. eauto.
Qed.

(** Every state [read] accepts is well formed: bytes are not trusted. *)
Lemma read_wf env v disk s : read env v disk = Ok s -> exists x m, wf_vault s x m.
Proof using CL.
  unfold read. destruct (ve_lstat env); [done|]. destruct disk as [f|]; [|done].
  intros [_ E]%bind_fail_if. apply bind_Ok in E as (raw & _ & E). apply bind_Ok in E as (key & _ & E).
  apply bind_fail_if in E as [_ E]. destruct (aead_open _ _ _ _) as [plain|]; [|done].
  apply bind_Ok in E as (s0 & (j & Hj & HR)%strictJSON_decoded & HC).
  pose proof (vault_fields_inv _ _ Hj HR) as HR'.
  pose proof (check_state_Ok _ _ HC) as ->. pose proof HC as HC0.
  unfold check_state in HC0. apply bind_Ok in HC0 as (x & Hx & HC0).
  destruct (vs_Counters s0) as [m|] eqn:Em; [|done]. exists x, m. apply check_state_iff; [|done].
  intros l c H. destruct (HR' l c H). lia.
Qed.

(** ** Reservations *)

Definition quota_of (m : gmap string vaultCounter) (issue : bytes) : option Z := vc_K <$> m !! hexDigest issue.
Definition next_of (m : gmap string vaultCounter) (issue : bytes) : Z := vc_Next (counter_at m (hexDigest issue)).

Definition advance (m : gmap string vaultCounter) (issue : bytes) (k : Z) : gmap string vaultCounter :=
  <[hexDigest issue := mkVaultCounter (next_of m issue + 1) k]> m.

Lemma next_of_range m issue : map_Forall (fun _ => wf_counter) m -> 0 <= next_of m issue < 2 ^ 32.
Proof.
  intros H. unfold next_of, counter_at. destruct (m !! hexDigest issue) as [c|] eqn:E; cbn; [|lia].
  destruct (H _ _ E). lia.
Qed.

(** What the guards leave: a counter below the quota, the pinned quota kept,
    and a state that is well formed again. *)
Lemma reserve_Ok s x m issue k x' count s' :
  wf_vault s x m -> length issue = 32%nat -> 0 <= k < 2 ^ 32 ->
  reserve s issue k = Ok (x', count, s') <->
  (0 < k /\ (forall q, quota_of m issue = Some q -> q = k) /\ next_of m issue < k /\
   (m !! hexDigest issue = None -> Z.of_nat (size m) < 10000)) /\
  x' = x /\ count = next_of m issue /\ s' = mkVaultState (scalarHex x) (Some (advance m issue k)).
Proof using CL.
  intros [-> Hx _ _ HC] Hi Hk. pose proof (next_of_range m issue HC). unfold reserve, quota_of. cbn [vs_X vs_Counters default from_option id].
  assert (trustScalar (scalarHex x) true = Ok x) as -> by (apply trustScalar_Ok; split_and!; [done|lia|lia|lia]).
  fold (next_of m issue). rewrite !bind_fail_if, !orb_false_iff, !andb_false_iff, !negb_false_iff, Z.eqb_neq, Z.eqb_eq, Z.leb_gt, Z.leb_gt.
  cbn [mbind result_bind]. unfold advance.
  assert (bool_decide (is_Some (m !! hexDigest issue)) = false <-> m !! hexDigest issue = None) as ->
    by (rewrite bool_decide_eq_false; symmetry; apply eq_None_not_Some).
  assert (bool_decide (is_Some (m !! hexDigest issue)) = true <-> m !! hexDigest issue <> None) as ->
    by (rewrite bool_decide_eq_true; symmetry; apply not_eq_None_Some).
  assert ((m !! hexDigest issue = None \/ vc_K (counter_at m (hexDigest issue)) = k) <->
          (forall q, vc_K <$> m !! hexDigest issue = Some q -> q = k)) as ->.
  { unfold counter_at. destruct (m !! hexDigest issue); cbn; naive_solver. }
  split.
  - intros (((H0 & HQ) & HN) & HS & [= <- <- <-]). rewrite Z.mod_small by lia. split_and!; try done; [lia|]. tauto.
  - intros ((H0 & HQ & HN & HS) & -> & -> & ->). rewrite Z.mod_small by lia. split_and!; [lia|done|done| |done].
    destruct (m !! hexDigest issue); [by left|right; by apply HS].
Qed.

Lemma advance_wf s x m issue k :
  wf_vault s x m -> length issue = 32%nat -> 0 < k < 2 ^ 32 -> next_of m issue < k ->
  (m !! hexDigest issue = None -> Z.of_nat (size m) < 10000) ->
  wf_vault (mkVaultState (scalarHex x) (Some (advance m issue k))) x (advance m issue k).
Proof.
  intros [-> Hx Hs HL HC] Hi Hk Hn Hsz. pose proof (next_of_range m issue HC). split; [done|done|..].
  - unfold advance. destruct (m !! hexDigest issue) eqn:E.
    + rewrite map_size_insert_Some by done. lia.
    + rewrite map_size_insert_None by done. specialize (Hsz eq_refl). lia.
  - unfold advance. intros l c [[<- _]|[_ ?]]%lookup_insert_Some; [by exists issue|eauto].
  - apply map_Forall_insert_2; [|done]. split; cbn [vc_Next vc_K]; lia.
Qed.

(** Counters only grow and quotas stay pinned. *)
Definition grows (m m' : gmap string vaultCounter) : Prop :=
  forall issue, next_of m issue <= next_of m' issue /\ (forall q, quota_of m issue = Some q -> quota_of m' issue = Some q).

#[export] Instance grows_preorder : PreOrder grows.
Proof.
  split; [intros m issue; split; [lia|done]|]. intros m1 m2 m3 H12 H23 issue.
  destruct (H12 issue) as [? Q1], (H23 issue) as [? Q2]. split; [lia|auto].
Qed.

Lemma next_of_advance m issue k issue' :
  next_of (advance m issue k) issue' = if decide (issue' = issue) then next_of m issue + 1 else next_of m issue'.
Proof.
  unfold next_of at 1, advance, counter_at. case_decide as E; [by subst; rewrite lookup_insert_eq|].
  rewrite lookup_insert_ne; [done|]. by intros ?%hex_encode_inj.
Qed.

Lemma quota_of_advance m issue k issue' :
  quota_of (advance m issue k) issue' = if decide (issue' = issue) then Some k else quota_of m issue'.
Proof.
  unfold quota_of, advance. case_decide as E; [by subst; rewrite lookup_insert_eq|].
  rewrite lookup_insert_ne; [done|]. by intros ?%hex_encode_inj.
Qed.

Lemma advance_grows m issue k : (forall q, quota_of m issue = Some q -> q = k) -> grows m (advance m issue k).
Proof.
  intros HQ issue'. rewrite next_of_advance, quota_of_advance. case_decide; [subst|].
  - split; [lia|]. intros q ?%HQ. by subst.
  - split; [lia|done].
Qed.
End facts.
