(* ===== verification/VaultClaims.v ===== *)
(** * The properties of the wallet

    The encrypted file round trips; a wallet answers as the in-memory signer
    with its counters does, except that failed proofs burn their slots;
    through any history of calls,
    failures and reopened handles the signatures of one issue use distinct
    counters below the pinned quota, so they are linked and never traced. *)

From S2P Require Import Prelude Bytes Sha256 Curve Toy Profile Samples Accumulator Circuit CircuitFacts.
From S2P Require Import Statements Backend BackendFacts ToyProofs Protocol ProtocolFacts Security Wire Encodings Text.
From S2P Require Import Json JsonStream JsonFacts JsonStreamFacts Service ServiceFacts Vault VaultFacts.

Section theorems.
Context `{CR : !Crypto, CL : !CryptoLaws, GR : !Groth16, AE : !AEAD, AL : !AEADLaws}.
Abbreviation ell := (g_order Secp).

(** ** One call *)

(** Handles on one wallet: opened with its key under any identity, or closed. *)
Definition handle_of (v0 v : SignerVault) : Prop :=
  length (v_id v) = 32%nat /\ (v_key v = v_key v0 \/ v_key v = []).

Lemma read_handle env v0 v s x m disk s' :
  wf_handle v0 -> wf_vault s x m -> stored v0 s disk -> handle_of v0 v -> read env v disk = Ok s' ->
  s' = s /\ v_key v = v_key v0 /\ v_id v = v_id v0.
Proof using CL AL.
  intros H0 Hs Hst [Hid Hkey] HR.
  assert (readable env /\ v_key v = v_key v0 /\ v_id v = v_id v0) as (Hrd & Ek & Ei).
  { pose proof Hst as (nonce & _ & _ & ->). unfold read in HR. destruct (ve_lstat env) eqn:El; [done|].
    apply bind_fail_if in HR as [_ HR]. apply bind_Ok in HR as (raw & [Hrd (perm & [= _ <-] & _)]%ReadBoundedFile_Ok & HR).
    apply bind_Ok in HR as (key & [Hk ->]%aead_Ok & HR). apply bind_fail_if in HR as [[_ HR]%orb_false_iff _].
    split; [done|]. destruct Hkey as [Ek|Ek]; [|by rewrite Ek in Hk]. split; [done|].
    apply negb_false_iff, bool_decide_eq_true in HR. unfold seal_state, aad in HR. destruct H0 as [_ H0].
    rewrite length_app, Hid, <- (app_assoc _ (v_id v0)) in HR.
    rewrite (app_assoc (ascii_bytes vaultMagic)), take_app_le in HR by (rewrite length_app, H0; done).
    rewrite take_ge in HR by (rewrite length_app, H0; done). by apply app_inv_head in HR. }
  assert (stored v s disk) as Hst' by (unfold stored, aad; rewrite Ek, Ei; exact Hst).
  split; [|done]. assert (wf_handle v) as Hv by (unfold wf_handle; rewrite Ek, Ei; exact H0).
  pose proof (read_stored env v s x m disk Hv Hs Hst' Hrd) as E. congruence.
Qed.

(** A call leaves the file alone and fails, or reserves the next counter in
    the file and only then fails or returns what the prover makes of it. *)
Lemma reserveAndProve_cases env v0 v s x m issue k prove disk o disk' :
  wf_handle v0 -> wf_vault s x m -> stored v0 s disk -> handle_of v0 v -> wf_nonce env ->
  length issue = 32%nat -> 0 <= k < 2 ^ 32 -> reserveAndProve env v issue k prove disk = (o, disk') ->
  (disk' = disk /\ exists e, o = Err e) \/
  (exists s', wf_vault s' x (advance m issue k) /\ stored v0 s' disk' /\ grows m (advance m issue k) /\
   (forall q, quota_of m issue = Some q -> q = k) /\ 0 <= next_of m issue < k /\
   ((exists e, o = Err e) \/ o = prove x (next_of m issue))).
Proof using CL AL.
  intros H0 Hs Hst Hh Hn Hi Hk. unfold reserveAndProve.
  destruct (_ ← lock env v; _) as [[[x' count] s']|e] eqn:E; [|intros [= <- <-]; left; by eauto].
  apply bind_Ok in E as ([] & _ & E). apply bind_Ok in E as (s0 & HR & E).
  destruct (read_handle _ _ _ _ _ _ _ _ H0 Hs Hst Hh HR) as (-> & Ek & Ei).
  apply (reserve_Ok _ x m) in E as ((Hk0 & HQ & HN & HS) & -> & -> & ->); [|done..].
  assert (0 < k < 2 ^ 32) as Hk' by lia. pose proof (advance_wf _ _ _ _ _ Hs Hi Hk' HN HS) as Hwf. pose proof (next_of_range m issue (wv_counters _ _ _ Hs)).
  destruct (write env v _ false disk) as [w disk1] eqn:EW. intros E.
  destruct (write_cases _ _ _ _ _ _ _ Hn EW) as [[-> [e ->]]|[Hst' _]].
  { injection E as <- <-. left. eauto. }
  right. eexists. split; [exact Hwf|]. assert (disk1 = disk') as -> by (destruct w; congruence).
  split; [unfold stored, aad in *; rewrite <- Ek, <- Ei; exact Hst'|].
  split; [by apply advance_grows|]. split; [done|]. split; [lia|].
  destruct w; injection E as <-; [by right|left; by eauto].
Qed.

(** Signatures of one secret and counter. *)
Definition signature_of (x cnt k : Z) (issue : bytes) (sg : Signed) : Prop :=
  st_Issue (sg_Statement sg) = issue /\ st_K (sg_Statement sg) = k /\
  exists bases s t r ut, Bases = Ok bases /\ tagged bases (sg_Statement sg) x cnt s t r ut.

Lemma VaultSign_cases env v0 v s x m p ring account issue k message ts disk o disk' :
  wf_handle v0 -> wf_vault s x m -> stored v0 s disk -> handle_of v0 v -> wf_nonce env ->
  length issue = 32%nat -> 0 <= k < 2 ^ 32 -> VaultSign env v p ring account issue k message ts disk = (o, disk') ->
  (disk' = disk /\ exists e, o = Err e) \/
  (exists s', wf_vault s' x (advance m issue k) /\ stored v0 s' disk' /\ grows m (advance m issue k) /\
   (forall q, quota_of m issue = Some q -> q = k) /\ 0 <= next_of m issue < k /\
   match o with Err _ => True | Ok sg => signature_of x (next_of m issue) k issue sg end).
Proof using CL AL.
  intros H0 Hs Hst Hh Hn Hi Hk. unfold VaultSign. destruct p as [p|]; [|intros [= <- <-]; left; by eauto].
  destruct (if account <? 0 then None else _) as [a|]; [|intros [= <- <-]; left; by eauto].
  destruct (a_D a) as [d|]; [|intros [= <- <-]; left; by eauto]. intros E.
  destruct (reserveAndProve_cases _ _ _ _ _ _ _ _ _ _ _ _ H0 Hs Hst Hh Hn Hi Hk E)
    as [?|(s' & Hs' & Hst' & Hg & HQ & HN & Ho)]; [by left|]. right. exists s'. split_and!; try done; [lia|lia|].
  destruct o as [sg|]; [|done]. destruct Ho as [[e ?]|Ho]; [done|]. symmetry in Ho.
  apply bind_Ok in Ho as ([st w] & HM & HP). rewrite <- (Prove_statement _ _ _ _ _ _ HP) in HM.
  apply MakeStatement_inv in HM as (x' & d' & bases & sd & t & r & ut & a' & [= <-] & _ & M).
  destruct (made_inputs _ _ _ _ _ _ _ _ _ _ _ _ _ _ _ _ _ _ M) as (? & _ & _ & ?). split; [done|]. split; [done|].
  exists bases, sd, t, r, ut. split; [apply M|]. eapply Made_tagged; [done|lia|lia].
Qed.

(** ** Histories *)

Record VaultCall := mkVaultCall {
  vl_env : VaultEnv;
  vl_handle : SignerVault;
  vl_prover : option Prover;
  vl_ring : Snapshot;
  vl_account : Z;
  vl_issue : bytes;
  vl_k : Z;
  vl_message : bytes;
  vl_ts : Z;
}.

(** Signing with some handle, and creating a wallet at the same path. *)
Inductive vault_op :=
  | OpSign (c : VaultCall)
  | OpCreate (env : VaultEnv) (path : string) (key id : bytes) (x : option Z).

Definition vault_step (op : vault_op) (disk : option file) : option Signed * option file :=
  match op with
  | OpSign c =>
      let '(r, disk) := VaultSign (vl_env c) (vl_handle c) (vl_prover c) (vl_ring c) (vl_account c) (vl_issue c) (vl_k c)
                          (vl_message c) (vl_ts c) disk in
      (match r with Ok sg => Some sg | Err _ => None end, disk)
  | OpCreate env path key id x => (None, (CreateSignerVault env path key id x disk).2)
  end.

Fixpoint vault_run (ops : list vault_op) (disk : option file) : list (option Signed) * option file :=
  match ops with
  | [] => ([], disk)
  | op :: ops =>
      let '(o, disk) := vault_step op disk in
      let '(os, disk) := vault_run ops disk in
      (o :: os, disk)
  end.

(** The wallet's handles, nonces of the right size and the ranges of the Go
    types; failures of the system are unrestricted. *)
Definition wf_op (v0 : SignerVault) (op : vault_op) : Prop :=
  match op with
  | OpSign c => handle_of v0 (vl_handle c) /\ wf_nonce (vl_env c) /\ length (vl_issue c) = 32%nat /\ 0 <= vl_k c < 2 ^ 32
  | OpCreate env _ _ _ _ => wf_nonce env
  end.

Definition vault_at (v0 : SignerVault) (x : Z) (m : gmap string vaultCounter) (disk : option file) : Prop :=
  wf_handle v0 /\ exists s, wf_vault s x m /\ stored v0 s disk.

Lemma create_keeps env path key id x f : wf_nonce env -> (CreateSignerVault env path key id x (Some f)).2 = Some f.
Proof using AL.
  intros Hn. unfold CreateSignerVault. destruct (_ ← fail_if _ _; _) as [[x' v]|e]; [|done].
  destruct (write env v _ true (Some f)) as [o disk'] eqn:E. cbn [snd].
  by destruct (write_cases _ _ _ _ _ _ _ Hn E) as [[-> _]|[_ H]]; [|specialize (H eq_refl)].
Qed.

Lemma vault_step_spec v0 x m op disk o disk' :
  vault_at v0 x m disk -> wf_op v0 op -> vault_step op disk = (o, disk') ->
  exists m', vault_at v0 x m' disk' /\ grows m m' /\
    match o with
    | None => True
    | Some sg => exists c, op = OpSign c /\ signature_of x (next_of m (vl_issue c)) (vl_k c) (vl_issue c) sg /\
        next_of m' (vl_issue c) = next_of m (vl_issue c) + 1 /\ quota_of m' (vl_issue c) = Some (vl_k c)
    end.
Proof using CL AL.
  intros [H0 (s & Hs & Hst)] Hop. destruct op as [c|env path key id y]; cbn [vault_step wf_op] in *.
  - destruct Hop as (Hh & Hn & Hi & Hk).
    destruct (VaultSign (vl_env c) (vl_handle c) (vl_prover c) (vl_ring c) (vl_account c) (vl_issue c) (vl_k c)
      (vl_message c) (vl_ts c) disk) as [r disk1] eqn:E. intros [= <- <-].
    destruct (VaultSign_cases _ _ _ _ _ _ _ _ _ _ _ _ _ _ _ _ H0 Hs Hst Hh Hn Hi Hk E)
      as [[-> [e ->]]|(s' & Hs' & Hst' & Hg & HQ & HN & Ho)].
    + exists m. split; [|done]. split; [done|]. by exists s.
    + eexists. split; [split; [done|]; by exists s'|]. split; [done|]. destruct r as [sg|]; [|done].
      exists c. split; [done|]. split; [done|]. by rewrite next_of_advance, quota_of_advance, !decide_True.
  - intros [= <- <-]. exists m. split; [|done]. split; [done|]. exists s. split; [done|].
    pose proof Hst as (nonce & _ & _ & ->). by rewrite create_keeps.
Qed.

Lemma vault_run_cons v0 x m op ops disk os disk' :
  vault_at v0 x m disk -> wf_op v0 op -> vault_run (op :: ops) disk = (os, disk') ->
  exists o os1 disk1 m1, os = o :: os1 /\ vault_run ops disk1 = (os1, disk') /\ vault_at v0 x m1 disk1 /\ grows m m1 /\
    match o with
    | None => True
    | Some sg => exists c, op = OpSign c /\ signature_of x (next_of m (vl_issue c)) (vl_k c) (vl_issue c) sg /\
        next_of m1 (vl_issue c) = next_of m (vl_issue c) + 1 /\ quota_of m1 (vl_issue c) = Some (vl_k c)
    end.
Proof using CL AL.
  intros HI Hop. cbn [vault_run]. destruct (vault_step op disk) as [o disk1] eqn:E.
  destruct (vault_run ops disk1) as [os1 disk2] eqn:Er. intros [= <- <-].
  destruct (vault_step_spec _ _ _ _ _ _ _ HI Hop E) as (m1 & HI1 & Hg & Ho). exists o, os1, disk1, m1. done.
Qed.

(** The file stays a wallet of the same secret. *)
Lemma vault_run_at v0 x m ops disk os disk' :
  vault_at v0 x m disk -> Forall (wf_op v0) ops -> vault_run ops disk = (os, disk') ->
  exists m', vault_at v0 x m' disk' /\ grows m m'.
Proof using CL AL.
  intros HI HF. revert m disk os HI. induction HF as [|op ops Hop _ IH]; intros m disk os HI.
  { intros [= <- <-]. by exists m. }
  intros (o & os1 & disk1 & m1 & -> & Er & HI1 & Hg & _)%(vault_run_cons v0 x m); [|done..].
  destruct (IH m1 disk1 os1 HI1 Er) as (m' & ? & ?). exists m'. split; [done|]. by etrans.
Qed.

(** Every signature of a history uses a counter that was free, under the
    pinned quota. *)
Lemma vault_run_signature v0 x m ops disk os disk' j c sg :
  vault_at v0 x m disk -> Forall (wf_op v0) ops -> vault_run ops disk = (os, disk') ->
  ops !! j = Some (OpSign c) -> os !! j = Some (Some sg) ->
  exists cnt, next_of m (vl_issue c) <= cnt /\ signature_of x cnt (vl_k c) (vl_issue c) sg /\
    forall q, quota_of m (vl_issue c) = Some q -> q = vl_k c.
Proof using CL AL.
  intros HI HF. revert m disk os j HI. induction HF as [|op ops Hop _ IH]; intros m disk os j HI; [done|].
  intros (o & os1 & disk1 & m1 & -> & Er & HI1 & Hg & Ho)%(vault_run_cons v0 x m); [|done..]. destruct j as [|j]; cbn.
  - intros [= ->] [= ->]. destruct Ho as (c' & [= <-] & Hsg & _ & HQ). exists (next_of m (vl_issue c)).
    split; [lia|]. split; [done|]. intros q ?%Hg. congruence.
  - intros Hc Hsg. destruct (IH m1 disk1 os1 j HI1 Er Hc Hsg) as (cnt & Hle & Hs & HQ). exists cnt.
    destruct (Hg (vl_issue c)) as [? Hq]. split; [lia|]. split; [done|]. intros q ?%Hq. by apply HQ.
Qed.

(** Two signatures of one wallet on one issue: one quota, other counters. *)
Lemma vault_run_distinct v0 x m ops disk os disk' i j ci cj si sj :
  vault_at v0 x m disk -> Forall (wf_op v0) ops -> vault_run ops disk = (os, disk') -> (i < j)%nat ->
  ops !! i = Some (OpSign ci) -> ops !! j = Some (OpSign cj) -> os !! i = Some (Some si) -> os !! j = Some (Some sj) ->
  vl_issue ci = vl_issue cj ->
  vl_k ci = vl_k cj /\ exists a b, a < b /\ signature_of x a (vl_k ci) (vl_issue ci) si /\ signature_of x b (vl_k ci) (vl_issue ci) sj.
Proof using CL AL.
  intros HI HF. revert m disk os i j HI. induction HF as [|op ops Hop HF IH]; intros m disk os i j HI; [done|].
  intros (o & os1 & disk1 & m1 & -> & Er & HI1 & Hg & Ho)%(vault_run_cons v0 x m); [|done..].
  intros Hij. destruct j as [|j]; [lia|]. destruct i as [|i]; cbn.
  - intros [= ->] Hcj [= ->] Hsj EI. destruct Ho as (c' & [= <-] & Hsi & HN & HQ).
    destruct (vault_run_signature _ _ _ _ _ _ _ _ _ _ HI1 HF Er Hcj Hsj) as (cnt & Hle & Hs & HQ').
    rewrite <- EI in *. specialize (HQ' _ HQ). split; [done|]. rewrite HQ' in *. eexists _, cnt. split; [|done]. lia.
  - intros Hci Hcj Hsi Hsj. by apply (IH m1 disk1 os1 i j HI1 Er ltac:(lia)).
Qed.

(** The number of signatures a history released for an issue. *)
Definition signs_on (issue : bytes) (oo : vault_op * option Signed) : bool :=
  match oo with (OpSign c, Some _) => bool_decide (vl_issue c = issue) | _ => false end.
Definition vault_signed (issue : bytes) (oos : list (vault_op * option Signed)) : Z :=
  Z.of_nat (length (List.filter (signs_on issue) oos)).

Lemma vault_run_count v0 x m ops disk os disk' issue :
  vault_at v0 x m disk -> Forall (wf_op v0) ops -> vault_run ops disk = (os, disk') ->
  exists m', vault_at v0 x m' disk' /\ grows m m' /\
    next_of m issue + vault_signed issue (zip ops os) <= next_of m' issue /\
    (forall j c sg, ops !! j = Some (OpSign c) -> os !! j = Some (Some sg) ->
     quota_of m' (vl_issue c) = Some (vl_k c) /\
     exists cnt, 0 <= cnt < next_of m' (vl_issue c) /\ signature_of x cnt (vl_k c) (vl_issue c) sg).
Proof using CL AL.
  intros HI HF. revert m disk os HI. induction HF as [|op ops Hop _ IH]; intros m disk os HI.
  { intros [= <- <-]. exists m. split; [done|]. split; [done|]. split; [unfold vault_signed; cbn [zip_with List.filter length]; lia|done]. }
  intros (o & os1 & disk1 & m1 & -> & Er & HI1 & Hg & Ho)%(vault_run_cons v0 x m); [|done..].
  destruct (IH m1 disk1 os1 HI1 Er) as (m' & HI' & Hg' & Hc & HQ). exists m'. split; [done|]. split; [by etrans|]. split.
  - destruct (Hg issue) as [Hle _]. unfold vault_signed in *. cbn [zip_with List.filter].
    destruct (signs_on issue (op, o)) eqn:Es; [|lia]. destruct op as [c|]; [|done]. destruct o as [sg|]; [|done].
    destruct Ho as (c' & [= <-] & _ & HN & _). cbn [signs_on] in Es. apply bool_decide_eq_true in Es. subst issue.
    cbn [length]. lia.
  - intros [|j] c sg; cbn; [|apply HQ]. intros [= ->] [= ->]. destruct Ho as (c' & [= <-] & Hsg & HN & HQ1).
    destruct (Hg' (vl_issue c)) as [Hle Hq]. split; [by apply Hq|]. exists (next_of m (vl_issue c)). split; [|done].
    destruct HI as [_ (s & Hs & _)]. pose proof (next_of_range m (vl_issue c) (wv_counters _ _ _ Hs)). lia.
Qed.

Lemma create_at env path key id x v0 disk :
  wf_nonce env -> length id = 32%nat -> CreateSignerVault env path key id (Some x) None = (Ok v0, disk) ->
  vault_at v0 x ∅ disk /\ v_key v0 = key /\ v_id v0 = id.
Proof using CL AL.
  intros Hn Hid. unfold CreateSignerVault. destruct (_ ← fail_if _ _; _) as [[x' v]|e] eqn:E; [|done].
  apply bind_fail_if in E as [Hx%negb_false_iff%canonicalNonzero_Some E]. cbn [deref mbind result_bind] in E.
  apply bind_Ok in E as (v' & Hv & E). apply bind_Ok in E as ([] & _ & E). apply bind_Ok in E as ([] & [Hk _]%lock_Ok & [= <- <-]).
  unfold newSignerVault in Hv. apply bind_fail_if in Hv as [_ Hv]. apply bind_Ok in Hv as (absolute & _ & [= <-]).
  destruct (write env _ _ true None) as [w disk1] eqn:EW. intros [= E <-].
  destruct w as [[]|]; [|done]. injection E as <-.
  destruct (write_cases _ _ _ _ _ _ _ Hn EW) as [[_ [e ?]]|[Hst _]]; [done|]. split; [|done]. split; [done|].
  eexists. split; [|exact Hst]. split; [done|done|rewrite map_size_empty; lia|..].
  - intros l c H. by rewrite lookup_empty in H.
  - apply map_Forall_empty.
Qed.

(** ** Theorems *)

(** The wallet file round trips. After [write] returns without an error,
    [read] with any handle on the file returns the state that was written:
    the JSON text, the encryption, the header and the permissions agree. *)
Theorem vault_roundtrip env env' v s create disk disk' :
  wf_handle v -> check_state s = Ok s -> in_range_state s -> wf_nonce env -> readable env' ->
  write env v s create disk = (Ok tt, disk') -> read env' v disk' = Ok s.
Proof using CL AL.
  intros Hv HC HR Hn Hrd HW. pose proof HC as HC0. unfold check_state in HC0. apply bind_Ok in HC0 as (x & Hx & HC0).
  destruct (vs_Counters s) as [m|] eqn:Em; [|done].
  assert (wf_vault s x m) as Hs.
  { apply check_state_iff; [|done]. intros l c H. destruct (HR l c H). lia. }
  destruct (write_cases _ _ _ _ _ _ _ Hn HW) as [[_ [e ?]]|[Hst _]]; [done|]. by eapply read_stored.
Qed.

(** C35: file contents are not trusted. Whatever a wallet file holds, a state
    that [read] accepts has a secret in range, labels that are digests,
    32-bit counters not above their nonzero quotas, and at most 10000 of
    them. *)
Theorem vault_read_safe env v disk s : read env v disk = Ok s -> exists x m, wf_vault s x m.
Proof using CL. apply read_wf. Qed.

(** C7: a wallet never spends a counter twice. Take a wallet just created and
    any history of signing calls with its handles (open, closed, of another
    identity), over any rings and provers, in which locking, reading,
    writing and proving may fail and writes may be interrupted, and attempts
    to create it again. Two signatures released for one issue carry the same
    quota; when both verify they are linked, and tracing them answers legal. *)
Theorem vault_linked_and_legal env path key id x v0 disk ops os disk' i j ci cj si sj v a ma b mb reg :
  wf_nonce env -> length id = 32%nat -> CreateSignerVault env path key id (Some x) None = (Ok v0, disk) ->
  Forall (wf_op v0) ops -> vault_run ops disk = (os, disk') -> (i < j)%nat ->
  ops !! i = Some (OpSign ci) -> ops !! j = Some (OpSign cj) -> os !! i = Some (Some si) -> os !! j = Some (Some sj) ->
  vl_issue ci = vl_issue cj -> Verify (Some v) a ma si = Ok tt -> Verify (Some v) b mb sj = Ok tt ->
  vl_k ci = vl_k cj /\ Link (Some v) a ma si b mb sj = Ok true /\
  Trace (Some v) a ma si b mb sj reg = (trace_status TraceLegal, None).
Proof using CL AL.
  intros Hn Hid (HI & _)%create_at HF HR Hij Hci Hcj Hsi Hsj EI HVa HVb; [|done..].
  destruct (vault_run_distinct _ _ _ _ _ _ _ _ _ _ _ _ _ HI HF HR Hij Hci Hcj Hsi Hsj EI)
    as (EK & ca & cb & Hlt & (Ia & Ka & bases & s & t & r & ut & HB & Ta) & (Ib & Kb & bases' & s' & t' & r' & ut' & HB' & Tb)).
  assert (bases' = bases) as -> by congruence.
  destruct (verified_context _ _ _ _ HVa) as [Xa Ya], (verified_context _ _ _ _ HVb) as [Xb Yb].
  split; [done|]. split.
  - unfold Link. rewrite HVa, HVb. cbn [mbind result_bind]. rewrite bool_decide_eq_true_2 by congruence.
    rewrite bool_decide_eq_true_2; [done|]. eapply tagged_nym; [exact Ta|exact Tb|congruence].
  - rewrite (Trace_tagged v a ma si b mb sj reg bases x ca cb s t s' t' r r' ut ut') by (done || congruence).
    by rewrite (proj2 (Z.eqb_neq ca cb)) by lia.
Qed.

(** C19: counters are reserved before a proof is released. After any such
    history the wallet still opens, and the counter it reports for an issue
    exceeds the counter inside every signature released for the issue, is at
    least their number, and is at most the quota of any of them. *)
Theorem vault_counter_bounds env path key id x v0 disk ops os disk' env' issue :
  wf_nonce env -> length id = 32%nat -> CreateSignerVault env path key id (Some x) None = (Ok v0, disk) ->
  Forall (wf_op v0) ops -> vault_run ops disk = (os, disk') -> readable env' -> ve_lock env' = None ->
  exists n, VaultNextCounter env' v0 issue disk' = Ok n /\ vault_signed issue (zip ops os) <= n /\
    forall j c sg, ops !! j = Some (OpSign c) -> os !! j = Some (Some sg) -> vl_issue c = issue ->
      n <= vl_k c /\ exists cnt, 0 <= cnt < n /\ signature_of x cnt (vl_k c) issue sg.
Proof using CL AL.
  intros Hn Hid (HI & _)%create_at HF HR Hrd Hlk; [|done..].
  destruct (vault_run_count _ _ _ _ _ _ _ issue HI HF HR) as (m & [Hv (s & Hs & Hst)] & Hg & Hc & HQ).
  exists (next_of m issue). split_and!.
  - unfold VaultNextCounter. rewrite (proj2 (lock_Ok env' v0 tt)) by (split; [apply Hv|done]).
    cbn [mbind result_bind]. rewrite (read_stored env' v0 s x m disk') by done. cbn [mbind result_bind].
    by rewrite (wv_state _ _ _ Hs).
  - revert Hc. change (next_of ∅ issue) with 0. lia.
  - intros j c sg Hj Hsg <-. destruct (HQ j c sg Hj Hsg) as [HK Hcnt]. split; [|exact Hcnt]. clear HQ. unfold quota_of in HK.
    destruct (m !! hexDigest (vl_issue c)) as [cn|] eqn:E; [|done]. injection HK as HK.
    unfold next_of, counter_at. rewrite E. cbn. destruct (wv_counters _ _ _ Hs _ _ E). lia.
Qed.

(** ** The wallet and the in-memory signer *)

(** The signer holds the wallet's secret and counters. *)
Definition vault_sim (sgn : Signer) (x : Z) (m : gmap string vaultCounter) : Prop :=
  s_x sgn = Some x /\ forall issue, length issue = 32%nat -> counter_of sgn issue = next_of m issue.

(** No failure of the system in this call. *)
Definition working (env : VaultEnv) : Prop :=
  ve_lock env = None /\ readable env /\ is_ok (ve_nonce env) = true /\ wf_nonce env /\ ve_fault env = None.

Lemma write_working env v s x m disk :
  wf_handle v -> wf_vault s x m -> working env -> exists disk', write env v s false disk = (Ok tt, disk') /\ stored v s disk'.
Proof using AL.
  intros Hv Hs (_ & _ & [n Hn]%is_ok_exists & Hwn & Hf).
  destruct (write env v s false disk) as [w disk'] eqn:E. exists disk'.
  assert (w = Ok tt) as ->.
  { unfold write in E. pose proof (enc_vault_fits _ _ _ Hs) as Hl%Z.ltb_ge. rewrite Hl, Hn, Hf in E. cbn [fail_if mbind result_bind] in E.
    rewrite (proj2 (aead_Ok v (v_key v))) in E by (split; [apply Hv|done]). by injection E. }
  split; [done|]. by destruct (write_cases _ _ _ _ _ _ _ Hwn E) as [[_ [e ?]]|[? _]].
Qed.

(** The guards of a reservation: the quota is not zero and is the pinned one,
    a new issue finds room, and the counter is below the quota. *)
Definition reserve_admits (m : gmap string vaultCounter) (issue : bytes) (k : Z) : bool :=
  (0 <? k) && match quota_of m issue with Some q => q =? k | None => Z.of_nat (size m) <? 10000 end && (next_of m issue <? k).

Lemma reserve_admits_true m issue k :
  reserve_admits m issue k = true <->
  0 < k /\ (forall q, quota_of m issue = Some q -> q = k) /\ next_of m issue < k /\
  (m !! hexDigest issue = None -> Z.of_nat (size m) < 10000).
Proof.
  unfold reserve_admits, quota_of. rewrite !andb_true_iff, !Z.ltb_lt.
  destruct (m !! hexDigest issue) as [c|]; cbn [fmap option_fmap option_map]; rewrite ?Z.eqb_eq, ?Z.ltb_lt; naive_solver.
Qed.

Lemma reserveAndProve_working env v x m issue k prove disk :
  vault_at v x m disk -> working env -> length issue = 32%nat -> 0 <= k < 2 ^ 32 ->
  if reserve_admits m issue k
  then exists disk', reserveAndProve env v issue k prove disk = (prove x (next_of m issue), disk') /\
         vault_at v x (advance m issue k) disk'
  else exists e, reserveAndProve env v issue k prove disk = (Err e, disk).
Proof using CL AL.
  intros [Hv (s & Hs & Hst)] Hw Hi Hk. unfold reserveAndProve. pose proof Hw as (Hl & Hrd & _).
  rewrite (proj2 (lock_Ok env v tt)) by (split; [apply Hv|done]). cbn [mbind result_bind].
  rewrite (read_stored env v s x m disk) by done. cbn [mbind result_bind].
  destruct (reserve_admits m issue k) eqn:Ek.
  - apply reserve_admits_true in Ek as Had. pose proof Had as (Hk0 & HQ & HN & HS).
    rewrite (proj2 (reserve_Ok s x m issue k x (next_of m issue) (mkVaultState (scalarHex x) (Some (advance m issue k))) Hs Hi Hk))
      by done.
    pose proof (advance_wf _ _ _ _ _ Hs Hi (conj Hk0 (proj2 Hk)) HN HS) as Hwf.
    destruct (write_working env v _ _ _ disk Hv Hwf Hw) as (disk' & -> & Hst'). exists disk'.
    split; [done|]. split; [done|]. by eexists.
  - destruct (reserve s issue k) as [[[x' c] s']|e] eqn:E; [|by exists e].
    apply (reserve_Ok _ x m) in E as (Had%reserve_admits_true & _); [|done..]. congruence.
Qed.

(** The signer with the issue's next counter used up. *)
Definition burn (sgn : Signer) (issue : bytes) : Signer :=
  {| s_x := s_x sgn; s_next := <[issue := (counter_of sgn issue + 1) mod 2 ^ 32]> (s_next sgn) |}.

Lemma vault_sim_advance sgn x m issue k :
  vault_sim sgn x m -> length issue = 32%nat -> 0 <= next_of m issue < 2 ^ 32 - 1 ->
  vault_sim (burn sgn issue) x (advance m issue k).
Proof.
  intros [Hx Hc] Hi Hn. split; [done|]. intros issue' Hi'. rewrite next_of_advance. unfold counter_of at 1, burn. cbn [s_next].
  case_decide as E; [subst; rewrite lookup_insert_eq; cbn; rewrite Hc by done; apply Z.mod_small; lia|].
  rewrite lookup_insert_ne by done. by apply Hc.
Qed.

(** The calls the wallet makes a reservation for. *)
Definition account_usable (p : option Prover) (ring : Snapshot) (account : Z) : bool :=
  bool_decide (is_Some p) && negb (account <? 0) &&
  match sn_accounts ring !! Z.to_nat account with Some a => bool_decide (is_Some (a_D a)) | None => false end.

Definition vault_admits (m : gmap string vaultCounter) (p : option Prover) (ring : Snapshot) (account : Z) (issue : bytes) (k : Z) : bool :=
  account_usable p ring account && reserve_admits m issue k.

Lemma account_usable_true p ring account :
  account_usable p ring account = true <->
  exists pr a d, p = Some pr /\ 0 <= account < len (sn_accounts ring) /\ sn_accounts ring !! Z.to_nat account = Some a /\ a_D a = Some d.
Proof.
  unfold account_usable. rewrite !andb_true_iff, negb_true_iff, Z.ltb_ge, bool_decide_eq_true. split.
  - intros [[[pr ->] Ha] H]. destruct (sn_accounts ring !! Z.to_nat account) as [a|] eqn:E; [|done].
    apply bool_decide_eq_true in H as [d Hd]. exists pr, a, d. pose proof (lookup_lt_Some _ _ _ E). split_and!; (done || lia).
  - intros (pr & a & d & -> & Ha & -> & Hd). split; [split; [done|lia]|]. apply bool_decide_eq_true. by exists d.
Qed.

(** A reserving call, of the wallet and of the signer with its counter. *)
Lemma VaultSign_admitted env v x m sgn p ring account issue k message ts disk :
  vault_at v x m disk -> vault_sim sgn x m -> working env -> length issue = 32%nat -> 0 <= k < 2 ^ 32 ->
  vault_admits m p ring account issue k = true ->
  exists disk', VaultSign env v p ring account issue k message ts disk
                  = ((Sign sgn p (ve_prove env) ring account issue k message ts).1, disk') /\
    vault_at v x (advance m issue k) disk' /\ vault_sim (burn sgn issue) x (advance m issue k).
Proof using CL AL.
  intros HI Hsim Hw Hi Hk [(pr & a & d & -> & Ha & El & Ed)%account_usable_true Hr]%andb_true_iff. pose proof Hsim as [Hx Hc].
  pose proof Hr as (Hk0 & _ & HN & _)%reserve_admits_true.
  unfold Sign, VaultSign, sign_result. rewrite El, Hx, Hc by done.
  destruct (Z.ltb_spec account 0); [lia|]. destruct (Z.leb_spec (len (sn_accounts ring)) account); [lia|].
  destruct (Z.eqb_spec k 0); [lia|]. destruct (Z.leb_spec k (next_of m issue)); [lia|]. cbn [orb fail_if deref mbind result_bind].
  rewrite Ed. set (prove := fun (x' count : Z) => _).
  pose proof (reserveAndProve_working env v x m issue k prove disk HI Hw Hi Hk) as HP. rewrite Hr in HP.
  destruct HP as (disk' & -> & HI'). exists disk'. split.
  - unfold prove. destruct (MakeStatement _ _ _ _ _ _ _ _ _ _) as [[st w]|e]; cbn [mbind result_bind]; [|done].
    by destruct (Prove _ _ _ _ _).
  - split; [done|]. apply vault_sim_advance; [done|done|].
    pose proof HI as [_ (s & Hs & _)]. pose proof (next_of_range m issue (wv_counters _ _ _ Hs)). lia.
Qed.

(** A refused call; the signer refuses it too, or makes it under another
    quota or for an issue more. *)
Lemma VaultSign_refused env v x m sgn p ring account issue k message ts disk :
  vault_at v x m disk -> vault_sim sgn x m -> working env -> length issue = 32%nat -> 0 <= k < 2 ^ 32 ->
  vault_admits m p ring account issue k = false ->
  (exists e, VaultSign env v p ring account issue k message ts disk = (Err e, disk)) /\
  (is_ok (Sign sgn p (ve_prove env) ring account issue k message ts).1 = true ->
   (exists q, quota_of m issue = Some q /\ q <> k) \/ (m !! hexDigest issue = None /\ 10000 <= Z.of_nat (size m))).
Proof using CL AL.
  intros HI [Hx Hc] Hw Hi Hk Had. unfold vault_admits in Had. split.
  - unfold VaultSign. destruct p as [pr|]; [|by eexists]. destruct (account <? 0) eqn:Ea; [by eexists|].
    destruct (sn_accounts ring !! Z.to_nat account) as [a|] eqn:El; [|by eexists]. destruct (a_D a) as [d|] eqn:Ed; [|by eexists].
    assert (reserve_admits m issue k = false) as Hr.
    { unfold account_usable in Had. by rewrite Ea, El, Ed in Had. }
    set (prove := fun (x' count : Z) => _).
    pose proof (reserveAndProve_working env v x m issue k prove disk HI Hw Hi Hk) as HP. by rewrite Hr in HP.
  - unfold Sign. destruct (sign_result _ _ _ _ _ _ _ _ _) as [sg|] eqn:ES; [intros _|done]. unfold sign_result in ES.
    destruct p as [pr|]; [|done]. apply bind_fail_if in ES as [[Ea _]%orb_false_iff ES].
    apply bind_fail_if in ES as [[Hk0%Z.eqb_neq HN%Z.leb_gt]%orb_false_iff ES]. rewrite Hc in HN by done.
    apply bind_Ok in ES as (a & Hl & ES). destruct (a_D a) as [d|] eqn:Ed; [|done].
    assert (sn_accounts ring !! Z.to_nat account = Some a) as El
      by (unfold deref in Hl; destruct (sn_accounts ring !! Z.to_nat account); congruence).
    unfold account_usable in Had. rewrite Ea, El, Ed in Had. cbn [negb andb is_Some] in Had.
    rewrite !bool_decide_eq_true_2 in Had by done. cbn [andb] in Had. unfold reserve_admits, quota_of in *.
    destruct (Z.ltb_spec 0 k); [|lia]. destruct (Z.ltb_spec (next_of m issue) k); [|lia].
    rewrite andb_true_l, andb_true_r in Had. destruct (m !! hexDigest issue) as [c|]; cbn [fmap option_fmap option_map] in *.
    + left. exists (vc_K c). split; [done|]. by apply Z.eqb_neq.
    + right. split; [done|]. by apply Z.ltb_ge.
Qed.

(** C18: the wallet implements the signer, with slots burned by failures.
    When no system call fails, [SignerVault.Sign] of a wallet whose counters
    are those of a signer either reserves or refuses. It reserves when prover
    and account are usable, the quota is not zero and is the pinned one, a
    new issue is within the limit of 10000, and the counter is below the
    quota: then it returns exactly what [Signer.Sign] returns, signature or
    error, and its file holds the signer's counters with the slot used up.
    That is the signer's own next state when the proof succeeds; the signer
    keeps its slot when the proof fails, the wallet does not. Otherwise it
    fails and the file is unchanged, and the signer fails too unless the
    quota differs from the pinned one or the issue limit is reached. *)
Theorem vault_refines_signer env v x m sgn p ring account issue k message ts disk :
  vault_at v x m disk -> vault_sim sgn x m -> working env -> length issue = 32%nat -> 0 <= k < 2 ^ 32 ->
  let '(r, sgn') := Sign sgn p (ve_prove env) ring account issue k message ts in
  if vault_admits m p ring account issue k then
    exists disk', VaultSign env v p ring account issue k message ts disk = (r, disk') /\
      vault_at v x (advance m issue k) disk' /\ vault_sim (burn sgn issue) x (advance m issue k) /\
      sgn' = (if is_ok r then burn sgn issue else sgn)
  else
    (exists e, VaultSign env v p ring account issue k message ts disk = (Err e, disk)) /\
    (is_ok r = true ->
     (exists q, quota_of m issue = Some q /\ q <> k) \/ (m !! hexDigest issue = None /\ 10000 <= Z.of_nat (size m))).
Proof using CL AL.
  intros HI Hsim Hw Hi Hk.
  pose proof (VaultSign_admitted env v x m sgn p ring account issue k message ts disk HI Hsim Hw Hi Hk) as HA.
  pose proof (VaultSign_refused env v x m sgn p ring account issue k message ts disk HI Hsim Hw Hi Hk) as HR.
  destruct (Sign sgn p (ve_prove env) ring account issue k message ts) as [r sgn'] eqn:ES. cbn [fst] in HA, HR.
  destruct (vault_admits m p ring account issue k); [|by apply HR].
  destruct (HA eq_refl) as (disk' & E & HI' & Hsim'). exists disk'. split_and!; try done.
  unfold Sign in ES. by destruct (sign_result _ _ _ _ _ _ _ _ _); injection ES as <- <-.
Qed.
End theorems.

(** ** Concrete instances *)

(** A cipher that does not hide its input and authenticates it with a
    truncated digest. *)
Definition toy_tag (key nonce plain ad : bytes) : bytes := take 16 (sha256 (key ++ nonce ++ ad ++ plain)).

#[export] Instance toy_aead : AEAD := {|
  aead_seal key nonce plain ad := plain ++ toy_tag key nonce plain ad;
  aead_open key nonce sealed ad :=
    let plain := take (length sealed - 16) sealed in
    if bool_decide (sealed = plain ++ toy_tag key nonce plain ad) then Some plain else None;
|}.

#[export] Instance toy_aead_laws : AEADLaws.
Proof.
  assert (forall key nonce plain ad, length (toy_tag key nonce plain ad) = 16%nat) as Hl.
  { intros. unfold toy_tag. rewrite length_take, Sha256.length_Sum256. lia. }
  constructor.
  - intros key nonce plain ad _ _. cbn [aead_open aead_seal toy_aead]. rewrite length_app, Hl, Nat.add_sub, take_app_length.
    by rewrite bool_decide_eq_true_2.
  - intros. cbn [aead_seal toy_aead]. rewrite length_app, Hl. unfold Overhead. lia.
Qed.

Definition vault_env (f : option fault) : VaultEnv :=
  mkVaultEnv (fun p => Ok ("/home/alice/" +:+ p)) None None None None (Ok (replicate 24 Byte.x2a)) f 0.

Definition vault_key : bytes := replicate 32 Byte.x11.
Definition vault_ident : bytes := replicate 32 Byte.x22.
Definition sample_vault : SignerVault := mkSignerVault "/home/alice/wallet" vault_ident vault_key.
Definition sample_created : result SignerVault * option file :=
  CreateSignerVault (vault_env None) "wallet" vault_key vault_ident (Some alice_x) None.
Definition sample_disk : option file := sample_created.2.

Lemma sample_created_eq :
  CreateSignerVault (vault_env None) "wallet" vault_key vault_ident (Some alice_x) None = (Ok sample_vault, sample_disk).
Proof.
  assert (sample_created.1 = Ok sample_vault) as E by (vm_compute; reflexivity).
  rewrite <- E. apply surjective_pairing.
Qed.

Lemma vault_env_nonce f : wf_nonce (vault_env f).
Proof. intros n [= <-]. reflexivity. Qed.

Lemma vault_env_working : working (vault_env None).
Proof. repeat split. apply vault_env_nonce. Qed.

Lemma sample_vault_at : vault_at sample_vault alice_x ∅ sample_disk.
Proof.
  exact (proj1 (create_at (vault_env None) "wallet" vault_key vault_ident alice_x _ _ (vault_env_nonce None) eq_refl sample_created_eq)).
Qed.

(** Signing, an attempt to create the wallet again, a failed write, signing. *)
Definition vault_call (f : option fault) (i : Z) (m : bytes) : VaultCall :=
  mkVaultCall (vault_env f) sample_vault (Some sample_prover) (sample_snapshot sample_ring) i sample_issue 2 m 1700000000.
Definition vault_ops : list vault_op :=
  [OpSign (vault_call None 1 message_1); OpCreate (vault_env None) "wallet" vault_key vault_ident (Some bob_x);
   OpSign (vault_call (Some (BeforeRename "disk full")) 0 message_2); OpSign (vault_call None 0 message_2)].
Definition vault_history : list (option Signed) * option file := vault_run vault_ops sample_disk.

Lemma vault_ops_wf : Forall (wf_op sample_vault) vault_ops.
Proof.
  assert (forall f i m, wf_op sample_vault (OpSign (vault_call f i m))) as H.
  { intros f i m. split; [split; [reflexivity|by left]|]. split; [apply vault_env_nonce|]. split; [reflexivity|].
    cbn [vl_k vault_call]. lia. }
  unfold vault_ops. rewrite !Forall_cons, Forall_nil. split; [apply H|]. split; [apply vault_env_nonce|].
  split; [apply H|]. split; [apply H|exact I].
Qed.

(** One call of the sample wallet against one call of the sample signer. *)
Lemma sample_vault_sign m s i msg disk sg s' :
  vault_at sample_vault alice_x m disk -> vault_sim s alice_x m ->
  (forall q, quota_of m sample_issue = Some q -> q = 2) -> Z.of_nat (size m) < 10000 ->
  sample_sign s i 2 msg = (Ok sg, s') ->
  exists disk', vault_step (OpSign (vault_call None i msg)) disk = (Some sg, disk') /\
    vault_at sample_vault alice_x (advance m sample_issue 2) disk' /\ vault_sim s' alice_x (advance m sample_issue 2).
Proof.
  intros HI Hsim HQ Hsz HS.
  destruct (vault_admits m (Some sample_prover) (sample_snapshot sample_ring) i sample_issue 2) eqn:Had.
  2: { destruct (VaultSign_refused (vault_env None) sample_vault alice_x m s (Some sample_prover) (sample_snapshot sample_ring)
         i sample_issue 2 msg 1700000000 disk HI Hsim vault_env_working eq_refl ltac:(lia) Had) as [_ H].
       unfold sample_sign in HS. change (ve_prove (vault_env None)) with 0 in H. rewrite HS in H.
       destruct (H eq_refl) as [(q & Hq & Hne)|[_ Hs]]; [by destruct (Hne (HQ q Hq))|lia]. }
  destruct (VaultSign_admitted (vault_env None) sample_vault alice_x m s (Some sample_prover) (sample_snapshot sample_ring)
    i sample_issue 2 msg 1700000000 disk HI Hsim vault_env_working eq_refl ltac:(lia) Had) as (disk' & E & HI' & Hsim').
  unfold sample_sign in HS. change (ve_prove (vault_env None)) with 0 in E. rewrite HS in E.
  assert (s' = burn s sample_issue) as ->.
  { unfold Sign in HS. destruct (sign_result _ _ _ _ _ _ _ _ _); [by injection HS|discriminate HS]. }
  exists disk'. split; [|exact (conj HI' Hsim')].
  unfold vault_step, vault_call. cbn [vl_env vl_handle vl_prover vl_ring vl_account vl_issue vl_k vl_message vl_ts].
  by rewrite E.
Qed.

(** A failed write before the rename leaves the file. *)
Lemma fault_step e i msg disk : (exists x m, vault_at sample_vault x m disk) ->
  vault_step (OpSign (vault_call (Some (BeforeRename e)) i msg)) disk = (None, disk).
Proof.
  intros (x & m & [Hv (s & Hs & Hst)]). unfold vault_step, vault_call.
  cbn [vl_env vl_handle vl_prover vl_ring vl_account vl_issue vl_k vl_message vl_ts]. unfold VaultSign.
  destruct (if i <? 0 then None else _) as [a|]; [|done]. destruct (a_D a) as [d|]; [|done]. unfold reserveAndProve.
  destruct (_ ← lock _ _; _) as [[[x' count] s']|e']; [|done]. unfold write.
  destruct (_ ← fail_if _ _; _) as [raw|e']; done.
Qed.

Lemma vault_history_facts :
  vault_history.1 !! 0%nat = Some (Some honest_1) /\ vault_history.1 !! 3%nat = Some (Some honest_2).
Proof.
  pose proof sample_run_facts as ((H1 & H2) & _). unfold sample_run, sample_calls in H1, H2. cbn [run] in H1, H2.
  change (sign_call ?s (sample_call ?i ?m)) with (sample_sign s i 2 m) in H1, H2.
  destruct (sample_sign alice_signer 1 2 message_1) as [r1 s1] eqn:E1.
  destruct (sample_sign s1 0 2 message_2) as [r2 s2] eqn:E2.
  cbn [fst lookup list_lookup] in H1, H2. injection H1 as ->. injection H2 as ->.
  assert (vault_sim alice_signer alice_x ∅) as Hsim.
  { split; [apply alice_ok|]. intros issue _. apply (NewSigner_ok _ _ alice_signer_eq). }
  destruct (sample_vault_sign ∅ alice_signer 1 message_1 sample_disk honest_1 s1) as (disk1 & D1 & HI1 & Hsim1);
    [exact sample_vault_at|exact Hsim|done|done|exact E1|].
  destruct (sample_vault_sign (advance ∅ sample_issue 2) s1 0 message_2 disk1 honest_2 s2) as (disk2 & D2 & _);
    [exact HI1|exact Hsim1| |by vm_compute|exact E2|].
  { intros q. rewrite quota_of_advance, decide_True by done. by intros [= <-]. }
  unfold vault_history, vault_ops. cbn [vault_run]. rewrite D1.
  assert (vault_step (OpCreate (vault_env None) "wallet" vault_key vault_ident (Some bob_x)) disk1 = (None, disk1)) as ->.
  { unfold vault_step. f_equal. destruct HI1 as [_ (s & _ & (nonce & _ & _ & ->))]. apply create_keeps, vault_env_nonce. }
  rewrite (fault_step "disk full" 0 message_2 disk1) by eauto. rewrite D2.
  cbn [fst lookup list_lookup]. exact (conj eq_refl eq_refl).
Qed.

Lemma vault_linked_and_legal_witness :
  2 = 2 /\ Link (Some sample_verifier) (sample_ctx 2) message_1 honest_1 (sample_ctx 2) message_2 honest_2 = Ok true /\
  Trace (Some sample_verifier) (sample_ctx 2) message_1 honest_1 (sample_ctx 2) message_2 honest_2 sample_registry
    = (trace_status TraceLegal, None).
Proof.
  exact (vault_linked_and_legal (vault_env None) "wallet" vault_key vault_ident alice_x sample_vault sample_disk vault_ops
    vault_history.1 vault_history.2 0 3 (vault_call None 1 message_1) (vault_call None 0 message_2) honest_1 honest_2
    sample_verifier (sample_ctx 2) message_1 (sample_ctx 2) message_2 sample_registry (vault_env_nonce None) eq_refl
    sample_created_eq vault_ops_wf (surjective_pairing _) ltac:(lia) eq_refl eq_refl (proj1 vault_history_facts)
    (proj2 vault_history_facts) eq_refl (proj1 (proj2 sample_run_facts)) (proj2 (proj2 sample_run_facts))).
Defined.

Lemma vault_counter_bounds_witness :
  exists n, VaultNextCounter (vault_env None) sample_vault sample_issue vault_history.2 = Ok n /\
    vault_signed sample_issue (zip vault_ops vault_history.1) <= n /\
    forall j c sg, vault_ops !! j = Some (OpSign c) -> vault_history.1 !! j = Some (Some sg) -> vl_issue c = sample_issue ->
      n <= vl_k c /\ exists cnt, 0 <= cnt < n /\ signature_of alice_x cnt (vl_k c) sample_issue sg.
Proof.
  exact (vault_counter_bounds (vault_env None) "wallet" vault_key vault_ident alice_x sample_vault sample_disk vault_ops
    vault_history.1 vault_history.2 (vault_env None) sample_issue (vault_env_nonce None) eq_refl sample_created_eq
    vault_ops_wf (surjective_pairing _) (conj eq_refl eq_refl) eq_refl).
Defined.

Definition sample_state : vaultState :=
  mkVaultState (scalarHex alice_x) (Some {[hexDigest sample_issue := mkVaultCounter 1 2]}).

Lemma vault_roundtrip_witness :
  read (vault_env None) sample_vault (write (vault_env None) sample_vault sample_state false None).2 = Ok sample_state.
Proof.
  refine (vault_roundtrip (vault_env None) (vault_env None) sample_vault sample_state false None _
    (conj eq_refl eq_refl) _ _ (vault_env_nonce None) (conj eq_refl eq_refl) _).
  - vm_compute. reflexivity.
  - unfold in_range_state, sample_state. cbn [vs_Counters from_option id]. apply map_Forall_singleton.
    unfold in_uint32. cbn [vc_Next vc_K]. lia.
  - assert ((write (vault_env None) sample_vault sample_state false None).1 = Ok tt) as E by (vm_compute; reflexivity).
    rewrite <- E. apply surjective_pairing.
Defined.

Lemma vault_read_safe_witness : exists x m, wf_vault sample_state x m.
Proof.
  apply (vault_read_safe (vault_env None) sample_vault (write (vault_env None) sample_vault sample_state false None).2).
  vm_compute. reflexivity.
Defined.

(** One reserving call, and one with a quota of zero. *)
Lemma vault_refines_signer_witness :
  (let '(r, sgn') := Sign alice_signer (Some sample_prover) 0 (sample_snapshot sample_ring) 1 sample_issue 2 message_1 1700000000 in
   exists disk',
      VaultSign (vault_env None) sample_vault (Some sample_prover) (sample_snapshot sample_ring) 1 sample_issue 2 message_1
        1700000000 sample_disk = (r, disk') /\
      vault_at sample_vault alice_x (advance ∅ sample_issue 2) disk' /\
      vault_sim (burn alice_signer sample_issue) alice_x (advance ∅ sample_issue 2) /\
      sgn' = (if is_ok r then burn alice_signer sample_issue else alice_signer)) /\
  exists e, VaultSign (vault_env None) sample_vault (Some sample_prover) (sample_snapshot sample_ring) 1 sample_issue 0 message_1
        1700000000 sample_disk = (Err e, sample_disk).
Proof.
  assert (vault_sim alice_signer alice_x ∅) as Hsim.
  { split; [apply alice_ok|]. intros issue _. apply (NewSigner_ok _ _ alice_signer_eq). }
  pose proof (vault_refines_signer (vault_env None) sample_vault alice_x ∅ alice_signer (Some sample_prover)
    (sample_snapshot sample_ring) 1 sample_issue 2 message_1 1700000000 sample_disk sample_vault_at Hsim vault_env_working
    eq_refl ltac:(lia)) as H1.
  pose proof (vault_refines_signer (vault_env None) sample_vault alice_x ∅ alice_signer (Some sample_prover)
    (sample_snapshot sample_ring) 1 sample_issue 0 message_1 1700000000 sample_disk sample_vault_at Hsim vault_env_working
    eq_refl ltac:(lia)) as H2.
  assert (vault_admits ∅ (Some sample_prover) (sample_snapshot sample_ring) 1 sample_issue 2 = true) as E1 by (vm_compute; reflexivity).
  assert (vault_admits ∅ (Some sample_prover) (sample_snapshot sample_ring) 1 sample_issue 0 = false) as E2 by (vm_compute; reflexivity).
  rewrite E1 in H1. rewrite E2 in H2. split; [exact H1|]. destruct (Sign _ _ _ _ _ _ _ _ _) in H2. exact (proj1 H2).
Defined.
