(* ===== verification/TrustFacts.v ===== *)
(** * Properties of enrollment and authority documents

    Honest enrollments verify, and two accepted responses to different
    challenges give the secret; documents an authority signs are accepted
    under its key and read back; a registry document is valid exactly when
    its entries prove possession and make a registry. *)

From S2P Require Import Prelude Bytes Sha256 Curve Toy Profile Samples Accumulator Circuit CircuitFacts.
From S2P Require Import Statements Backend BackendFacts ToyProofs Protocol ProtocolFacts Security Wire Encodings Text.
From S2P Require Import Json JsonStream JsonFacts JsonStreamFacts Service ServiceFacts ServiceSteps SetupEncoding Setup SetupFacts Context VaultFacts Trust.

(** ** Identifiers *)

Lemma trust_alphabet_ascii : Forall (fun c => b2z (Ascii.byte_of_ascii c) < 0x80) trust_alphabet.
Proof. unfold trust_alphabet. vm_compute. repeat constructor. Qed.

Lemma validTrustID_utf8 s : validTrustID s = true -> utf8_string s.
Proof.
  unfold validTrustID. intros [_ H]%andb_true_iff. apply utf8_valid_iff, utf8_ascii. unfold ascii_bytes, String.list_byte_of_string.
  rewrite forallb_forall in H. apply Forall_fmap, Forall_forall. intros c Hc%list_elem_of_In%H%bool_decide_eq_true.
  pose proof trust_alphabet_ascii as HF. rewrite Forall_forall in HF. by apply HF.
Qed.

Definition is_plain (c : ascii) : bool :=
  (b2z (Ascii.byte_of_ascii c) <? 0x80) && bool_decide (escape_ascii (Ascii.byte_of_ascii c) = [Ascii.byte_of_ascii c]).

Lemma is_plain_char c : is_plain c = true -> plain_char (Ascii.byte_of_ascii c).
Proof. unfold is_plain. intros [?%Z.ltb_lt ?%bool_decide_eq_true]%andb_true_iff. done. Qed.

Lemma b64_char_plain d : plain_char (Ascii.byte_of_ascii (b64_char d)).
Proof.
  unfold b64_char. apply is_plain_char. destruct (Nat.lt_ge_cases (Z.to_nat d) (length b64_alphabet)) as [H|H].
  - assert (forallb is_plain b64_alphabet = true) as HF by (vm_compute; reflexivity).
    rewrite forallb_forall in HF. by apply HF, nth_In.
  - rewrite nth_overflow by done. reflexivity.
Qed.

Lemma b64_plain bs : Forall plain_char (ascii_bytes (EncodeToString bs)).
Proof.
  unfold ascii_bytes, EncodeToString, String.list_byte_of_string. rewrite String.list_ascii_of_string_of_list_ascii.
  assert (plain_char (Ascii.byte_of_ascii pad_char)) as Hpad by (by apply is_plain_char).
  induction bs as [|a|a b|a b c bs IH] using bytes_ind3; [constructor|..]; cbn [b64_encode map];
    repeat (apply List.Forall_cons; [first [apply b64_char_plain|exact Hpad]|]); [constructor..|exact IH].
Qed.

Lemma length_EncodeToString bs : Z.of_nat (String.length (EncodeToString bs)) <= 4 * (len bs / 3) + 4.
Proof.
  unfold EncodeToString. assert (forall l, String.length (String.string_of_list_ascii l) = length l) as ->.
  { intros l. induction l as [|c l IH]; [done|]. cbn. by rewrite IH. }
  induction bs as [|a|a b|a b c bs IH] using bytes_ind3; [done..|]. cbn [b64_encode length].
  replace (Z.of_nat (S (S (S (length bs))))) with (len bs + 1 * 3) by lia. rewrite Z.div_add by lia. lia.
Qed.

Lemma b64_utf8 bs : utf8_string (EncodeToString bs).
Proof. apply utf8_valid_iff, utf8_ascii. eapply Forall_impl; [apply b64_plain|]. by intros b [? _]. Qed.

Lemma decodeB64_encode bs : decodeB64 (EncodeToString bs) = Ok bs.
Proof. unfold decodeB64. rewrite DecodeString_encode. cbn [mbind result_bind]. by rewrite String.eqb_refl. Qed.

Section enrollment.
Context `{CR : !Crypto, CL : !CryptoLaws}.
Abbreviation ell := (g_order Secp).

(** ** Enrollment *)

Lemma set_response_id e z : set_response (set_response e z) "" = set_response e "".
Proof. done. Qed.

Lemma challenge_response e z ns pin key : enrollmentChallenge (set_response e z) ns pin key = enrollmentChallenge e ns pin key.
Proof. done. Qed.

(** What an accepted enrollment establishes. *)
Record enrolled (e : Enrollment) (ns : string) (pin key challenge : bytes) (u y r : Secp) (d z c : Z) : Prop := mk_enrolled {
  nr_ids : validTrustID (en_UserID e) = true /\ validTrustID (en_AccountID e) = true /\ validTrustID ns = true;
  nr_scope : length key = 32%nat /\ pin <> zero_digest /\ challenge <> zero_digest;
  nr_challenge : en_Challenge e = hexDigest challenge;
  nr_u : en_U e = pointHex u /\ good u = true;
  nr_y : en_Y e = pointHex y /\ good y = true;
  nr_d : en_D e = scalarHex d /\ 0 < d < ell /\ g_mul d (g_gen Secp) = u;
  nr_r : en_Commitment e = pointHex r /\ good r = true;
  nr_z : en_Response e = scalarHex z /\ 0 <= z < ell;
  nr_c : enrollmentChallenge e ns pin key = Ok c;
  nr_equation : g_mul z u = g_add r (g_mul c y);
}.

Lemma VerifyEnrollment_Ok e ns pin key challenge reg :
  VerifyEnrollment e ns pin key challenge = Ok reg <->
  exists u y r d z c, enrolled e ns pin key challenge u y r d z c /\ reg = mkRegistration (en_UserID e) (mkAccount u y (Some d)).
Proof using CL.
  unfold VerifyEnrollment. rewrite bind_fail_if, !orb_false_iff, !negb_false_iff, !bool_decide_eq_false, Nat.eqb_eq, String.eqb_eq. split.
  - intros [((((((H1 & H2) & H3) & H4) & H5) & H6) & H7) E].
    apply bind_Ok in E as (u & [EU Hu]%trustPoint_Ok & E). apply bind_Ok in E as (y & [EY Hy]%trustPoint_Ok & E).
    apply bind_Ok in E as (d & (ED & Hd & Hd0)%trustScalar_Ok & E). apply bind_Ok in E as ([] & HA & E).
    apply bind_Ok in E as (r & [ER Hr]%trustPoint_Ok & E). apply bind_Ok in E as (z & (EZ & Hz & _)%trustScalar_Ok & E).
    apply bind_Ok in E as (c & Hc & E). apply bind_fail_if in E as [Heq%negb_false_iff%bool_decide_eq_true [= <-]].
    apply validateAccount_Ok in HA as (_ & _ & ? & ?). exists u, y, r, d, z, c. split; [|done]. by split.
  - intros (u & y & r & d & z & c & [(? & ? & ?) (? & ? & ?) ? [EU Hu] [EY Hy] (ED & Hd & HU) [ER Hr] [EZ Hz] Hc Heq] & ->).
    split; [done|]. rewrite (proj2 (trustPoint_Ok (en_U e) u)) by done. cbn [mbind result_bind].
    rewrite (proj2 (trustPoint_Ok (en_Y e) y)) by done. cbn [mbind result_bind].
    rewrite (proj2 (trustScalar_Ok (en_D e) true d)) by (split_and!; [done|lia|lia|lia]). cbn [mbind result_bind].
    rewrite (proj2 (validateAccount_Ok u y d)) by done. cbn [mbind result_bind].
    rewrite (proj2 (trustPoint_Ok (en_Commitment e) r)) by done. cbn [mbind result_bind].
    rewrite (proj2 (trustScalar_Ok (en_Response e) false z)) by done. cbn [mbind result_bind]. rewrite Hc. cbn [mbind result_bind].
    by rewrite bool_decide_eq_true_2 by done.
Qed.

(** C23: honest enrollments are accepted. What [CreateEnrollment] makes for a
    secret and its account, [VerifyEnrollment] accepts for the same
    namespace, setup, authority and challenge, as that user's registration
    of that account. *)
Theorem enrollment_complete rand x a user account ns pin key challenge e :
  (forall u z, 0 < u -> rand u = Ok z -> 0 <= z < u) ->
  CreateEnrollment rand x a user account ns pin key challenge = Ok e ->
  VerifyEnrollment e ns pin key challenge = Ok (mkRegistration user a).
Proof using CL.
  intros Hrand. unfold CreateEnrollment. intros [HG E]%bind_fail_if.
  rewrite !orb_false_iff, !negb_false_iff, !bool_decide_eq_false, Nat.eqb_eq in HG.
  destruct HG as ((((((((Hx & HA) & HD) & H1) & H2) & H3) & H4) & H5) & H6).
  destruct x as [x|]; [|done]. apply canonicalNonzero_Some in Hx. cbn [deref mbind result_bind] in E.
  destruct a as [u y [d|]]; [|done]. cbn [a_D a_U a_Y deref mbind result_bind] in *.
  apply bind_fail_if in E as [HY%negb_false_iff%bool_decide_eq_true E].
  apply bind_Ok in E as (r & Hr & E). apply bind_Ok in E as (c & Hc & [= <-]).
  apply is_ok_exists in HA as [[] HA]. apply validateAccount_Ok in HA as (Hu & Hy & Hd & HU).
  pose proof (order_pos (P:=Secp)). pose proof (order_lower (P:=Secp)).
  assert (0 < r < ell) as Hr'.
  { unfold randomNonzero in Hr. apply bind_Ok in Hr as (n & Hn & [= <-]). apply Hrand in Hn; lia. }
  assert (0 <= c) as Hc0 by (apply HashScalar_range in Hc; lia).
  apply VerifyEnrollment_Ok. exists u, y, (g_mul r u), d, ((c * x + r) mod ell), c. split; [|done].
  split; cbn [en_UserID en_AccountID en_U en_Y en_D en_Challenge en_Commitment en_Response set_response]; try done.
  - split; [done|]. apply good_mul; [lia|by apply cong_scalar_nonzero|done].
  - split; [done|]. apply Z.mod_pos_bound. lia.
  - apply good_exists in Hu as (a & -> & Ha). rewrite <- HY. pose proof (Z.mod_pos_bound (c * x + r) ell order_pos).
    rewrite !mul_pow, add_pow by lia. apply pow_eq. rewrite cong_mod. apply cong_eq. lia.
Qed.

(** C22: enrollment proves possession. Two accepted enrollments of one account
    that share a commitment but have different challenges determine the
    account's secret: the quotient of the responses' and challenges'
    differences is the exponent of [Y] with respect to [U]. *)
Theorem enrollment_special_sound e e' ns ns' pin pin' key key' ch ch' reg reg' c c' z z' :
  VerifyEnrollment e ns pin key ch = Ok reg -> VerifyEnrollment e' ns' pin' key' ch' = Ok reg' ->
  en_U e = en_U e' -> en_Y e = en_Y e' -> en_Commitment e = en_Commitment e' ->
  enrollmentChallenge e ns pin key = Ok c -> enrollmentChallenge e' ns' pin' key' = Ok c' -> c <> c' ->
  trustScalar (en_Response e) false = Ok z -> trustScalar (en_Response e') false = Ok z' ->
  a_Y (reg_Account reg) = g_mul (((z - z') * modinv ((c - c') mod ell) ell) mod ell) (a_U (reg_Account reg)).
Proof using CL.
  intros (u & y & r & d & z0 & c0 & [_ _ _ [EU Hu] [EY Hy] _ [ER Hr] [EZ Hz] Hc Heq] & ->)%VerifyEnrollment_Ok.
  intros (u' & y' & r' & d' & z1 & c1 & [_ _ _ [EU' Hu'] [EY' Hy'] _ [ER' Hr'] [EZ' Hz'] Hc' Heq'] & ->)%VerifyEnrollment_Ok.
  intros Q1 Q2 Q3 C1 C2 Hne T1 T2. cbn [reg_Account a_U a_Y].
  assert (c0 = c) as -> by congruence. assert (c1 = c') as -> by congruence.
  apply trustScalar_Ok in T1 as (R1 & ? & _), T2 as (R2 & ? & _).
  assert (forall a b, 0 <= a < ell -> 0 <= b < ell -> scalarHex a = scalarHex b -> a = b) as Hinj.
  { intros a b Ha Hb E%hex_encode_inj. pose proof (order_upper (P:=Secp)). apply be_enc_inj in E; [done|cbn; lia|cbn; lia]. }
  assert (z0 = z) as -> by (apply Hinj; [done|done|congruence]). assert (z1 = z') as -> by (apply Hinj; [done|done|congruence]).
  assert (forall p q, pointHex p = pointHex q -> p = q) as Hpt.
  { intros p q E%hex_encode_inj. by apply EncodeSecpPoint_inj. }
  assert (u' = u) as -> by (apply Hpt; congruence). assert (y' = y) as -> by (apply Hpt; congruence).
  assert (r' = r) as -> by (apply Hpt; congruence).
  apply HashScalar_range in C1, C2. apply good_exists in Hu as (a & -> & Ha), Hy as (b & -> & Hb), Hr as (s & -> & _).
  rewrite !mul_pow, !add_pow in Heq, Heq' by lia. apply pow_eq in Heq, Heq'.
  pose proof (order_prime (P:=Secp)) as Hp. pose proof (order_pos (P:=Secp)).
  assert (~ (c - c') mod ell ≡[ell] 0) as Hd.
  { rewrite cong_mod. intros E. apply (proj1 (cong_sub_0 _ _ _)) in E. apply Hne. by apply (cong_small ell); [lia|lia|]. }
  pose proof (Z.mod_pos_bound ((z - z') * modinv ((c - c') mod ell) ell) ell order_pos).
  rewrite mul_pow by lia. apply pow_eq. rewrite cong_mod.
  assert ((z - z') * a ≡[ell] (c - c') * b) as E.
  { transitivity (z * a - z' * a); [apply cong_eq; lia|]. rewrite Heq, Heq'. apply cong_eq. lia. }
  transitivity (modinv ((c - c') mod ell) ell * ((z - z') * a)); [|apply cong_eq; lia]. rewrite E.
  transitivity (modinv ((c - c') mod ell) ell * (c - c') * b); [|apply cong_eq; lia].
  rewrite <- (cong_mod ell (c - c')) at 2. rewrite modinv_cong by done. apply cong_eq. lia.
Qed.
End enrollment.

(** ** Signed documents *)

Section documents.
Context `{ED : !Ed25519, EL : !Ed25519Laws}.

Lemma dec_enc_envelope e : dec_struct envelope_fields (enc_envelope e) zero_envelope = Ok e.
Proof.
  destruct e as [p s]. unfold enc_envelope, enc_struct. cbn [ae_Payload ae_Signature map fst snd dec_struct].
  next_field 0%nat; [|apply dec_enc_string]. next_field 1%nat; [|apply dec_enc_string]. done.
Qed.

Lemma strict_envelope raw sig :
  strictJSON (dec_struct envelope_fields) zero_envelope (marshal (enc_envelope (mkAuthorityEnvelope (EncodeToString raw) (EncodeToString sig))))
  = Ok (mkAuthorityEnvelope (EncodeToString raw) (EncodeToString sig)).
Proof.
  rewrite strict_marshal; [apply dec_enc_envelope|..].
  - apply wf_enc_struct. split; [by repeat constructor|]. rewrite !Forall_cons, Forall_nil.
    split_and!; first [apply enc_string_wf, b64_utf8|done].
  - trans (1 + 0); [|done]. apply depth_struct; [lia|]. by repeat constructor.
  - unfold enc_envelope. clean_fields.
Qed.

(** The envelope of the longest document fits. *)
Lemma envelope_size raw sig :
  len raw <= maxTrustBytes / 2 -> length sig = 64%nat ->
  len (marshal (enc_envelope (mkAuthorityEnvelope (EncodeToString raw) (EncodeToString sig)))) <= maxTrustBytes.
Proof.
  intros Hr Hs. unfold enc_envelope. rewrite marshal_struct_length. cbn [fmap list_fmap sum_list id fst snd ae_Payload ae_Signature].
  change (marshal (enc_string ?z)) with (quote (ascii_bytes z)).
  assert (forall bs, length (quote (ascii_bytes (EncodeToString bs))) = (String.length (EncodeToString bs) + 2)%nat) as Hq.
  { intros bs. rewrite quote_plain by apply b64_plain. cbn [length]. rewrite length_app, length_ascii_bytes. cbn. lia. }
  rewrite !Hq. change (length (quote (ascii_bytes "payload_b64"))) with 13%nat.
  change (length (quote (ascii_bytes "signature_b64"))) with 15%nat.
  pose proof (length_EncodeToString raw). pose proof (length_EncodeToString sig). rewrite Hs in *.
  unfold maxTrustBytes in *. change (16 * 2 ^ 20 / 2) with 8388608 in Hr. change (Z.of_nat 64 / 3) with 21 in *.
  assert (len raw / 3 <= 8388608 / 3) by (apply Z.div_le_mono; lia). change (8388608 / 3) with 2796202 in *. lia.
Qed.

Lemma authority_signed {A} doc s key raw (dec : decoder A) zero :
  authoritySign doc (Some s) = Ok raw -> as_public s = Some key -> wf_json doc -> json_depth doc <= maxNestingDepth ->
  clean doc = true -> authorityVerify raw key dec zero = dec doc zero.
Proof using EL.
  unfold authoritySign. intros E Hs Hwf Hd Hdup. rewrite Hs in E. apply bind_fail_if in E as [Hk%negb_false_iff E].
  apply bind_fail_if in E as [Hl%Z.ltb_ge E]. apply bind_Ok in E as (sig & _ & E).
  apply bind_fail_if in E as [Hv%negb_false_iff [= <-]].
  unfold authorityVerify. pose proof (envelope_size _ _ Hl (ed_verify_length _ _ _ Hv)) as Hsz%Z.ltb_ge. rewrite Hsz, Hk.
  cbn [negb orb fail_if mbind result_bind]. rewrite strict_envelope. cbn [mbind result_bind ae_Payload ae_Signature].
  rewrite !decodeB64_encode. cbn [mbind result_bind]. rewrite Hv. cbn [negb fail_if mbind result_bind]. by apply strict_marshal.
Qed.

(** The bytes [raw] are an envelope with this payload and a signature of it
    by the holder of [key]. *)
Definition signed_envelope (raw key payload : bytes) : Prop :=
  exists env sig, strictJSON (dec_struct envelope_fields) zero_envelope raw = Ok env /\
    decodeB64 (ae_Payload env) = Ok payload /\ decodeB64 (ae_Signature env) = Ok sig /\
    ed_verify key (trustDomain ++ payload) sig = true.

Lemma authorityVerify_Ok {A} raw key (dec : decoder A) zero a :
  authorityVerify raw key dec zero = Ok a ->
  length key = 32%nat /\ exists payload, signed_envelope raw key payload /\ strictJSON dec zero payload = Ok a.
Proof.
  unfold authorityVerify. intros [[_ Hk%negb_false_iff%Nat.eqb_eq]%orb_false_iff E]%bind_fail_if.
  apply bind_Ok in E as (env & He & E). apply bind_Ok in E as (payload & Hp & E). apply bind_Ok in E as (sig & Hs & E).
  apply bind_fail_if in E as [Hv%negb_false_iff E]. split; [done|]. exists payload. split; [|done]. by exists env, sig.
Qed.

(** ** Approvals *)

Lemma validTrustTime_true before after now :
  validTrustTime before after now = true <-> 0 <= before <= now /\ now < after /\ before < after.
Proof. unfold validTrustTime. rewrite !andb_true_iff, !Z.leb_le, !Z.ltb_lt. lia. Qed.

Lemma dec_enc_approval a : int64 (sa_NotBefore a) -> int64 (sa_NotAfter a) ->
  dec_struct approval_fields (enc_approval a) zero_approval = Ok a.
Proof.
  intros H1 H2. destruct a as [f n m b t]. unfold enc_approval, enc_struct.
  cbn [sa_Format sa_Namespace sa_ManifestSHA256 sa_NotBefore sa_NotAfter map fst snd dec_struct] in *.
  next_field 0%nat; [|apply dec_enc_string]. next_field 1%nat; [|apply dec_enc_string]. next_field 2%nat; [|apply dec_enc_string].
  next_field 3%nat; [|by apply dec_enc_int64]. next_field 4%nat; [|by apply dec_enc_int64]. done.
Qed.

Lemma approval_accepted pin ns before after s key raw policy now :
  SignSetupApproval pin ns before after (Some s) = Ok raw -> as_public s = Some key -> int64 before -> int64 after ->
  validate policy = Ok tt -> authorityKey (tp_SetupAuthority policy) = Ok key ->
  tp_Namespace policy = ns -> tp_ManifestSHA256 policy = hexDigest pin -> before <= now < after ->
  verifySetupApproval policy raw now = Ok tt.
Proof using EL.
  intros E Hs Hb Ha Hp Hk Hns Hm Hnow. unfold SignSetupApproval in E. apply bind_fail_if in E as [Hg E].
  apply orb_false_iff in Hg as [[_ Hid%negb_false_iff]%orb_false_iff Ht%negb_false_iff%validTrustTime_true].
  unfold verifySetupApproval. rewrite Hp. cbn [mbind result_bind]. rewrite Hk. cbn [mbind result_bind].
  rewrite (authority_signed _ _ _ _ _ _ E Hs).
  - rewrite dec_enc_approval by done. cbn [mbind result_bind sa_Format sa_Namespace sa_ManifestSHA256 sa_NotBefore sa_NotAfter].
    rewrite Hns, Hm, !String.eqb_refl. cbn [negb orb]. by rewrite (proj2 (validTrustTime_true before after now)) by lia.
  - apply wf_enc_struct. split; [by repeat constructor|]. rewrite !Forall_cons, Forall_nil. split_and!; cbn [snd sa_Format sa_Namespace sa_ManifestSHA256];
      first [apply enc_string_wf; first [by apply validTrustID_utf8|apply hex_encode_utf8|done]|apply enc_int_wf|done].
  - trans (1 + 0); [|done]. apply depth_struct; [lia|]. by repeat constructor.
  - unfold enc_approval. clean_fields; by apply clean_int.
Qed.
End documents.

(** ** Registry documents *)

Lemma dec_enc_enrollment e : dec_struct enrollment_fields (enc_enrollment e) zero_enrollment = Ok e.
Proof.
  destruct e as [a b c d x y z w]. unfold enc_enrollment, enc_struct.
  cbn [en_UserID en_AccountID en_U en_Y en_D en_Challenge en_Commitment en_Response map fst snd dec_struct].
  next_field 0%nat; [|apply dec_enc_string]. next_field 1%nat; [|apply dec_enc_string]. next_field 2%nat; [|apply dec_enc_string].
  next_field 3%nat; [|apply dec_enc_string]. next_field 4%nat; [|apply dec_enc_string]. next_field 5%nat; [|apply dec_enc_string].
  next_field 6%nat; [|apply dec_enc_string]. next_field 7%nat; [|apply dec_enc_string]. done.
Qed.

(** The widths of the fields of the Go struct. *)
Record authorization_typed (a : RegistryAuthorization) : Prop := mk_authorization_typed {
  at_epoch : 0 <= ra_Epoch a < 2 ^ 64;
  at_before : int64 (ra_NotBefore a);
  at_after : int64 (ra_NotAfter a);
  at_k : 0 <= ra_K a < 2 ^ 32;
}.

Lemma dec_enc_authorization a :
  authorization_typed a -> dec_struct authorization_fields (enc_authorization a) zero_authorization = Ok a.
Proof.
  intros [H1 H2 H3 H4]. destruct a as [f n m e b t i k l]. unfold enc_authorization, enc_struct.
  cbn [ra_Format ra_Namespace ra_ManifestSHA256 ra_Epoch ra_NotBefore ra_NotAfter ra_Issue ra_K ra_Entries map fst snd dec_struct] in *.
  next_field 0%nat; [|apply dec_enc_string]. next_field 1%nat; [|apply dec_enc_string]. next_field 2%nat; [|apply dec_enc_string].
  next_field 3%nat; [|by apply dec_enc_uint]. next_field 4%nat; [|by apply dec_enc_int64]. next_field 5%nat; [|by apply dec_enc_int64].
  next_field 6%nat; [|apply dec_enc_string]. next_field 7%nat; [|by apply dec_enc_uint].
  next_field 8%nat; [|apply dec_enc_elements, Forall_forall; intros; apply dec_enc_enrollment]. done.
Qed.

Lemma enc_authorization_depth a : json_depth (enc_authorization a) <= maxNestingDepth.
Proof.
  trans (1 + 2); [|done]. apply depth_struct; [lia|]. rewrite !Forall_cons, Forall_nil. split_and!; cbn [snd]; try done.
  apply (depth_slice _ _ 1); [lia|]. apply Forall_forall. intros e _. apply (depth_struct _ 0); [lia|]. by repeat constructor.
Qed.

Lemma enc_authorization_clean a : authorization_typed a -> clean (enc_authorization a) = true.
Proof.
  intros [H1 H2 H3 H4]. unfold enc_authorization. clean_fields; [by apply clean_uint|by apply clean_int|by apply clean_int|apply clean_uint; lia|].
  apply clean_slice, Forall_forall. intros e _. unfold enc_enrollment. clean_fields.
Qed.

Section registry.
Context `{CR : !Crypto, CL : !CryptoLaws}.

(** An entry of a registry document: its proof of possession for the
    challenge it names verifies, as the registration [r]. *)
Definition possessed (namespace : string) (pin key : bytes) (e : Enrollment) (r : Registration) : Prop :=
  exists challenge, ParseDigest (en_Challenge e) = Ok challenge /\ VerifyEnrollment e namespace pin key challenge = Ok r.

Lemma verify_entries_Ok ns pin key ids es rs :
  verify_entries ns pin key ids es = Ok rs <->
  Forall2 (possessed ns pin key) es rs /\ NoDup (en_AccountID <$> es) /\ Forall (fun e => en_AccountID e ∉ ids) es.
Proof.
  revert ids rs. induction es as [|e es IH]; intros ids rs; cbn [verify_entries fmap list_fmap].
  { split; [intros [= <-]; repeat constructor|]. by intros (->%Forall2_nil_inv_l & _). }
  rewrite bind_fail_if, bool_decide_eq_false, NoDup_cons, Forall_cons. split.
  - intros (He & E). apply bind_Ok in E as (ch & Hch & E). apply bind_Ok in E as (r & Hr & E).
    apply bind_Ok in E as (rs' & (HF & HN & HI)%IH & [= <-]). rewrite Forall_forall in HI. split_and!; try done.
    + apply List.Forall2_cons; [by exists ch|done].
    + intros Hin. apply list_elem_of_fmap in Hin as (e' & Ee & He'). specialize (HI e' He'). set_solver.
    + apply Forall_forall. intros e' He'. specialize (HI e' He'). set_solver.
  - intros (HF & [Hnin HN] & Hid & HI). apply Forall2_cons_inv_l in HF as (r & rs' & (ch & Hch & Hr) & HF & ->).
    split; [done|]. rewrite Hch. cbn [mbind result_bind]. rewrite Hr. cbn [mbind result_bind].
    rewrite (proj2 (IH _ rs')); [done|]. split_and!; [done|done|]. rewrite Forall_forall in HI. apply Forall_forall. intros e' He'.
    specialize (HI e' He'). assert (en_AccountID e' <> en_AccountID e); [|set_solver].
    intros Ee. apply Hnin. rewrite <- Ee. by apply list_elem_of_fmap_2.
Qed.

(** What a registry document must satisfy. *)
Record valid_authorization (a : RegistryAuthorization) (key pin issue : bytes) (rs : list Registration) (r : Registry) : Prop :=
  mk_valid_authorization {
  va_format : ra_Format a = "lktrs/registry-authorization/v1";
  va_namespace : validTrustID (ra_Namespace a) = true;
  va_manifest : ParseDigest (ra_ManifestSHA256 a) = Ok pin;
  va_issue : decodeIssue (ra_Issue a) = Ok issue;
  va_epoch : ra_Epoch a <> 0;
  va_k : ra_K a <> 0;
  va_time : 0 <= ra_NotBefore a < ra_NotAfter a;
  va_size : 0 < len (ra_Entries a) <= 65536;
  va_possessed : Forall2 (possessed (ra_Namespace a) pin key) (ra_Entries a) rs;
  va_ids : NoDup (en_AccountID <$> ra_Entries a);
  va_registry : NewRegistry rs = Ok r;
}.

Lemma registryRegistrations_Ok a key rs :
  registryRegistrations a key = Ok rs <-> exists pin issue r, valid_authorization a key pin issue rs r.
Proof.
  unfold registryRegistrations. split.
  - intros (pin & Hpin & E)%bind_Ok. apply bind_fail_if in E as [HG E].
    rewrite !orb_false_iff, !negb_false_iff, String.eqb_eq, validTrustTime_true, !Z.eqb_neq, Nat.eqb_neq, Z.ltb_ge in HG.
    apply bind_Ok in E as (issue & Hi & E). apply bind_Ok in E as (rs' & (HF & HN & _)%verify_entries_Ok & E).
    apply bind_Ok in E as (r & Hr & [= <-]). exists pin, issue, r. destruct_and!. split; try done; lia.
  - intros (pin & issue & r & [Hf Hn Hm Hi He Hk Ht Hs HF HN Hr]). rewrite Hm. cbn [mbind result_bind]. apply bind_fail_if. split.
    { rewrite !orb_false_iff, !negb_false_iff, String.eqb_eq, validTrustTime_true, !Z.eqb_neq, Nat.eqb_neq, Z.ltb_ge.
      split_and!; try done; lia. }
    rewrite Hi. cbn [mbind result_bind]. rewrite (proj2 (verify_entries_Ok _ _ _ _ _ rs)); [cbn [mbind result_bind]; by rewrite Hr|].
    split_and!; [done|done|]. apply Forall_forall. set_solver.
Qed.

Lemma possessed_wf ns pin key e r : possessed ns pin key e r -> wf_json (enc_enrollment e).
Proof using CL.
  intros (ch & Hch & (u & y & c & d & z & k & [(H1 & H2 & _) _ HC [HU _] [HY _] [HD _] [HR _] [HZ _] _ _] & _)%VerifyEnrollment_Ok).
  apply wf_enc_struct. split; [by repeat constructor|]. rewrite !Forall_cons, Forall_nil.
  rewrite HC, HU, HY, HD, HR, HZ.
  split_and!; cbn [snd]; first [apply enc_string_wf; first [by apply validTrustID_utf8|apply hex_encode_utf8]|done].
Qed.

Lemma valid_authorization_wf a key pin issue rs r : valid_authorization a key pin issue rs r -> wf_json (enc_authorization a).
Proof using CL.
  intros [Hf Hn Hm Hi He Hk Ht Hs HF HN Hr]. apply wf_enc_struct. split; [by repeat constructor|]. rewrite !Forall_cons, Forall_nil.
  apply ParseDigest_Ok in Hm as [-> _]. apply decodeIssue_Ok in Hi as [-> _]. rewrite Hf.
  split_and!; cbn [snd]; first [apply enc_string_wf; first [by apply validTrustID_utf8|apply hex_encode_utf8|done]
    |apply enc_int_wf|apply enc_uint_wf|done|apply wf_enc_slice].
  apply Forall_forall. intros e He'. apply list_elem_of_lookup in He' as [i Hi'].
  destruct (Forall2_lookup_l _ _ _ _ _ HF Hi') as (x & _ & Hx). by eapply possessed_wf.
Qed.
End registry.

(** ** A sample deployment *)

Definition trust_namespace : string := "review/2024".
Definition trust_pin : bytes := replicate 32 Byte.x02.
Definition registry_key : bytes := replicate 32 Byte.x03.
Definition trust_challenge (b : byte) : bytes := replicate 32 b.

Definition enroll (b : byte) (x : Z) (a : Account) (user account : string) : result Enrollment :=
  CreateEnrollment (fixed_rand 99) (Some x) a user account trust_namespace trust_pin registry_key (trust_challenge b).
Definition enrollment_of (b : byte) (x : Z) (a : Account) (user account : string) : Enrollment :=
  get_ok zero_enrollment (enroll b x a user account).

Lemma alice_enrolls b : b ∈ [Byte.x10; Byte.x11] -> enroll b alice_x alice_up "alice" "a1" = Ok (enrollment_of b alice_x alice_up "alice" "a1").
Proof.
  intros Hb. assert (is_ok (enroll b alice_x alice_up "alice" "a1") = true) as H.
  { apply list_elem_of_In in Hb. destruct Hb as [<-|[<-|[]]]; vm_compute; reflexivity. }
  exact (get_ok_eq zero_enrollment _ H).
Qed.

Lemma enrollment_complete_witness :
  VerifyEnrollment (enrollment_of Byte.x10 alice_x alice_up "alice" "a1") trust_namespace trust_pin registry_key (trust_challenge Byte.x10)
  = Ok (mkRegistration "alice" alice_up).
Proof.
  exact (enrollment_complete (fixed_rand 99) (Some alice_x) alice_up "alice" "a1" trust_namespace trust_pin registry_key
    (trust_challenge Byte.x10) _ (fixed_rand_in_range 99) (alice_enrolls Byte.x10 (list_elem_of_here _ _))).
Defined.

Lemma alice_verified b : b ∈ [Byte.x10; Byte.x11] ->
  is_ok (VerifyEnrollment (enrollment_of b alice_x alice_up "alice" "a1") trust_namespace trust_pin registry_key (trust_challenge b)) = true.
Proof. intros Hb%list_elem_of_In. destruct Hb as [<-|[<-|[]]]; vm_compute; reflexivity. Qed.

Definition alice_challenge (b : byte) : Z :=
  get_ok 0 (enrollmentChallenge (enrollment_of b alice_x alice_up "alice" "a1") trust_namespace trust_pin registry_key).
Definition alice_response (b : byte) : Z :=
  get_ok 0 (trustScalar (en_Response (enrollment_of b alice_x alice_up "alice" "a1")) false).

Lemma enrollment_special_sound_witness :
  a_Y alice_up = g_mul (((alice_response Byte.x10 - alice_response Byte.x11)
    * modinv ((alice_challenge Byte.x10 - alice_challenge Byte.x11) mod g_order Secp) (g_order Secp)) mod g_order Secp) (a_U alice_up).
Proof.
  assert (Hc : forall b, b ∈ [Byte.x10; Byte.x11] -> is_ok (enrollmentChallenge (enrollment_of b alice_x alice_up "alice" "a1") trust_namespace trust_pin registry_key)
    && is_ok (trustScalar (en_Response (enrollment_of b alice_x alice_up "alice" "a1")) false) = true).
  { intros b Hb%list_elem_of_In. destruct Hb as [<-|[<-|[]]]; vm_compute; reflexivity. }
  assert (H0 : Byte.x10 ∈ [Byte.x10; Byte.x11]) by apply list_elem_of_here.
  assert (H1 : Byte.x11 ∈ [Byte.x10; Byte.x11]) by apply list_elem_of_further, list_elem_of_here.
  assert (Hne : (alice_challenge Byte.x10 =? alice_challenge Byte.x11) = false) by (vm_compute; reflexivity).
  assert (Hreg : bool_decide (a_U (reg_Account (get_ok (mkRegistration "" no_account)
    (VerifyEnrollment (enrollment_of Byte.x10 alice_x alice_up "alice" "a1") trust_namespace trust_pin registry_key (trust_challenge Byte.x10)))) = a_U alice_up) = true
    /\ bool_decide (a_Y (reg_Account (get_ok (mkRegistration "" no_account)
    (VerifyEnrollment (enrollment_of Byte.x10 alice_x alice_up "alice" "a1") trust_namespace trust_pin registry_key (trust_challenge Byte.x10)))) = a_Y alice_up) = true).
  { split; vm_compute; reflexivity. }
  destruct Hreg as [HU%bool_decide_eq_true HY%bool_decide_eq_true]. rewrite <- HU, <- HY.
  exact (enrollment_special_sound _ _ trust_namespace trust_namespace trust_pin trust_pin registry_key registry_key _ _ _ _ _ _ _ _
    (get_ok_eq (mkRegistration "" no_account) _ (alice_verified Byte.x10 H0)) (get_ok_eq (mkRegistration "" no_account) _ (alice_verified Byte.x11 H1))
    ltac:(vm_compute; reflexivity) ltac:(vm_compute; reflexivity) ltac:(vm_compute; reflexivity)
    (get_ok_eq 0 _ (proj1 (andb_prop _ _ (Hc Byte.x10 H0)))) (get_ok_eq 0 _ (proj1 (andb_prop _ _ (Hc Byte.x11 H1)))) (proj1 (Z.eqb_neq _ _) Hne)
    (get_ok_eq 0 _ (proj2 (andb_prop _ _ (Hc Byte.x10 H0)))) (get_ok_eq 0 _ (proj2 (andb_prop _ _ (Hc Byte.x11 H1))))).
Defined.
