(* ===== verification/TrustClaims.v ===== *)
(** * Authorized verification

    Once the authorities have signed, an enrolled user's signatures are
    accepted; what an authorized verifier accepts was made under documents
    the authorities of its policy signed, for the ring of the accounts
    enrolled there; repeated counters are traced to the enrolled user. *)

From S2P Require Import Prelude Bytes Sha256 Curve Toy Profile Samples Accumulator Circuit CircuitFacts.
From S2P Require Import Statements Backend BackendFacts ToyProofs Protocol ProtocolFacts Security Wire Encodings Text.
From S2P Require Import Json JsonStream JsonFacts JsonStreamFacts Service ServiceFacts ServiceSteps SetupEncoding Setup SetupFacts Context VaultFacts Trust TrustFacts.

(** ** Authorized verification *)

(** The registry document answers to the policy at the given time. *)
Record in_scope (policy : TrustPolicy) (a : RegistryAuthorization) (now : Z) : Prop := mk_in_scope {
  is_namespace : ra_Namespace a = tp_Namespace policy;
  is_manifest : ra_ManifestSHA256 a = tp_ManifestSHA256 policy;
  is_epoch : ra_Epoch a = tp_RegistryEpoch policy;
  is_issue : ra_Issue a = tp_Issue policy;
  is_k : ra_K a = tp_K policy;
  is_time : ra_NotBefore a <= now < ra_NotAfter a;
}.

Section authorized.
Context `{CR : !Crypto, CL : !CryptoLaws, GR : !Groth16, SB : !SetupBackend, ED : !Ed25519, EL : !Ed25519Laws}.

(** The bytes [raw] are the document [a], signed by the registry authority; it is valid, in scope
    and gives the verification context and the registry. *)
Record authorized (params : Params) (policy : TrustPolicy) (raw : bytes) (now : Z) (a : RegistryAuthorization) (key pin issue : bytes)
    (rs : list Registration) (ctx : VerificationContext) (r : Registry) : Prop := mk_authorized {
  au_policy : validate policy = Ok tt;
  au_key : authorityKey (tp_RegistryAuthority policy) = Ok key;
  au_signed : exists payload, signed_envelope raw key payload /\
    strictJSON (dec_struct authorization_fields) zero_authorization payload = Ok a;
  au_scope : in_scope policy a now;
  au_valid : valid_authorization a key pin issue rs r;
  au_capacity : len rs < len (p_Powers params);
  au_context : NewVerificationContext params (forget_d <$> rs) issue (tp_K policy) = Ok ctx;
}.

Lemma in_scope_guard policy a now :
  0 <= ra_NotBefore a < ra_NotAfter a ->
  negb (String.eqb (ra_Namespace a) (tp_Namespace policy)) || negb (String.eqb (ra_ManifestSHA256 a) (tp_ManifestSHA256 policy))
  || negb (ra_Epoch a =? tp_RegistryEpoch policy) || negb (String.eqb (ra_Issue a) (tp_Issue policy))
  || negb (ra_K a =? tp_K policy) || negb (validTrustTime (ra_NotBefore a) (ra_NotAfter a) now) = false
  <-> in_scope policy a now.
Proof.
  intros Ht. rewrite !orb_false_iff, !negb_false_iff, !String.eqb_eq, !Z.eqb_eq, validTrustTime_true. split.
  - intros H. destruct_and!. split; try done; lia.
  - intros [? ? ? ? ? ?]. split_and!; try done; lia.
Qed.

Lemma authorizedContext_Ok params policy raw now ctx r :
  authorizedContext params policy raw now = Ok (ctx, r) -> exists a key pin issue rs, authorized params policy raw now a key pin issue rs ctx r.
Proof.
  unfold authorizedContext. intros ([] & HP & E)%bind_Ok. apply bind_Ok in E as (key & Hk & E).
  apply bind_Ok in E as (a & (_ & payload & Hv & Hj)%authorityVerify_Ok & E). apply bind_fail_if in E as [HS E].
  apply bind_fail_if in E as [Hc%Z.ltb_ge E]. apply bind_Ok in E as (rs & (pin & issue & r' & HV)%registryRegistrations_Ok & E).
  apply bind_Ok in E as (r'' & Hr & E). apply bind_Ok in E as (issue' & Hi & E). apply bind_Ok in E as (ctx' & HN & [= <- <-]).
  apply in_scope_guard in HS; [|apply HV]. pose proof (Forall2_length _ _ _ (va_possessed _ _ _ _ _ _ HV)).
  assert (r' = r'') as -> by (pose proof (va_registry _ _ _ _ _ _ HV); congruence).
  assert (issue' = issue) as -> by (pose proof (va_issue _ _ _ _ _ _ HV); congruence).
  exists a, key, pin, issue, rs. split; try done; [eauto|lia|]. by rewrite <- (is_k _ _ _ HS).
Qed.

Lemma authorization_accepted params policy now a s key raw rs :
  SignRegistryAuthorization a (Some s) = Ok raw -> as_public s = Some key -> authorization_typed a ->
  validate policy = Ok tt -> authorityKey (tp_RegistryAuthority policy) = Ok key -> in_scope policy a now ->
  registryRegistrations a key = Ok rs -> len rs < len (p_Powers params) ->
  exists pin issue r, valid_authorization a key pin issue rs r /\
    authorizedContext params policy raw now =
      (ctx ← NewVerificationContext params (forget_d <$> rs) issue (tp_K policy); Ok (ctx, r)).
Proof using CL EL.
  intros E Hs Hty HP Hk HS HR Hcap. unfold SignRegistryAuthorization in E. rewrite Hs, HR in E. cbn [mbind result_bind] in E.
  pose proof HR as (pin & issue & r & HV)%registryRegistrations_Ok. exists pin, issue, r. split; [done|].
  unfold authorizedContext. rewrite HP. cbn [mbind result_bind]. rewrite Hk. cbn [mbind result_bind].
  rewrite (authority_signed _ _ _ _ _ _ E Hs); [|by eapply valid_authorization_wf|apply enc_authorization_depth|by apply enc_authorization_clean].
  rewrite dec_enc_authorization by done. cbn [mbind result_bind].
  rewrite (proj2 (in_scope_guard policy a now (va_time _ _ _ _ _ _ HV)) HS). cbn [fail_if mbind result_bind].
  pose proof (Forall2_length _ _ _ (va_possessed _ _ _ _ _ _ HV)).
  rewrite (proj2 (Z.ltb_ge _ _)) by lia. cbn [fail_if mbind result_bind]. rewrite HR. cbn [mbind result_bind].
  rewrite (va_registry _ _ _ _ _ _ HV). cbn [mbind result_bind]. rewrite (va_issue _ _ _ _ _ _ HV). cbn [mbind result_bind].
  by rewrite (is_k _ _ _ HS).
Qed.

(** The documents of a deployment: a policy for the keys [skey] and [rkey],
    an approval of the setup and a registry signed with them. *)
Record issued (policy : TrustPolicy) (pin approval : bytes) (a : RegistryAuthorization) (raw : bytes) (rs : list Registration)
    (now : Z) : Prop := mk_issued {
  iss_policy : validate policy = Ok tt;
  iss_pin : tp_ManifestSHA256 policy = hexDigest pin;
  iss_approval : exists s key before after, SignSetupApproval pin (tp_Namespace policy) before after (Some s) = Ok approval /\
    as_public s = Some key /\ authorityKey (tp_SetupAuthority policy) = Ok key /\ int64 before /\ int64 after /\ before <= now < after;
  iss_registry : exists s key, SignRegistryAuthorization a (Some s) = Ok raw /\ as_public s = Some key /\
    authorityKey (tp_RegistryAuthority policy) = Ok key /\ registryRegistrations a key = Ok rs;
  iss_typed : authorization_typed a;
  iss_scope : in_scope policy a now;
}.

Lemma issued_approval policy pin approval a raw rs now :
  issued policy pin approval a raw rs now -> verifySetupApproval policy approval now = Ok tt.
Proof using EL. intros [HP Hpin (s & key & b & t & HS & Hs & Hk & Hb & Ht & Hnow) _ _ _]. by eapply approval_accepted. Qed.

Lemma issued_context policy pin approval a raw rs now params :
  issued policy pin approval a raw rs now -> len rs < len (p_Powers params) ->
  exists issue r, decodeIssue (tp_Issue policy) = Ok issue /\ NewRegistry rs = Ok r /\
    authorizedContext params policy raw now = (ctx ← NewVerificationContext params (forget_d <$> rs) issue (tp_K policy); Ok (ctx, r)).
Proof using CL EL.
  intros [HP _ _ (s & key & HS & Hs & Hk & HR) Hty Hsc] Hcap.
  destruct (authorization_accepted params policy now a s key raw rs) as (pin' & issue & r & HV & HE); [done..|].
  exists issue, r. rewrite <- (is_issue _ _ _ Hsc). split_and!; [apply HV|apply HV|done].
Qed.

(** Under issued documents the authorized verifier is [Verify] over the ring
    of the registry. *)
Lemma issued_verify policy pin approval a raw rs now loaded issue ctx :
  issued policy pin approval a raw rs now -> len rs < len (p_Powers (ls_Parameters loaded)) ->
  tp_Issue policy = hexDigest issue ->
  NewVerificationContext (ls_Parameters loaded) (reg_Account <$> rs) issue (tp_K policy) = Ok ctx ->
  exists r, NewRegistry rs = Ok r /\ authorizedContext (ls_Parameters loaded) policy raw now = Ok (public_context ctx, r) /\
    forall m sg, AuthorizedVerify (Some (mkAuthorizedVerifier (Some loaded) policy approval)) raw m sg now
                 = Verify (Some (ls_Verifier loaded)) ctx m sg.
Proof using CL EL.
  intros HI Hcap Hiss Hctx.
  destruct (issued_context _ _ _ _ _ _ _ _ HI Hcap) as (issue' & r & [Hi' _]%decodeIssue_Ok & HR & HE).
  rewrite Hiss in Hi'. apply hex_encode_inj in Hi' as <-.
  assert (forget_d <$> rs = public_account <$> (reg_Account <$> rs)) as Er by (by rewrite <- list_fmap_compose).
  rewrite Er, (NewVerificationContext_public _ _ _ _ _ Hctx) in HE. cbn [mbind result_bind] in HE.
  exists r. split; [done|]. split; [done|]. intros m sg. unfold AuthorizedVerify. cbn [av_loaded av_policy av_approval].
  rewrite (issued_approval _ _ _ _ _ _ _ HI). cbn [mbind result_bind]. rewrite HE. cbn [mbind result_bind].
  by rewrite (Verify_public _ _ _ _ _ _ _ _ Hctx).
Qed.

(** C21: enrolled users can sign. Once the authorities have signed an
    approval of the setup and a registry within the scope and time of the
    policy, what an enrolled user signs over the ring of the registry's
    accounts for the policy's issue and quota, the authorized verifier
    accepts. *)
Theorem authorized_complete `{GL : !Groth16Laws GR} rand pr policy pin approval a raw rs now loaded s x ring i e d issue m ts rand' :
  issued policy pin approval a raw rs now -> len rs < len (p_Powers (ls_Parameters loaded)) ->
  NewBackend rand = Ok (pr, ls_Verifier loaded) -> signer_ok s x -> tp_K policy < 2 ^ 32 -> 0 <= ts < 2 ^ 64 -> ts < g_order BN ->
  NewSnapshot (ls_Parameters loaded) (reg_Account <$> rs) = Ok ring -> rs !! Z.to_nat i = Some e -> a_D (reg_Account e) = Some d ->
  tp_Issue policy = hexDigest issue ->
  is_ok (MakeStatement (ls_Parameters loaded) (reg_Account <$> rs) i (Some x) (Some d) issue (sha256 m) ts (tp_K policy) (counter_of s issue)) = true ->
  exists sg s', Sign s (Some pr) rand' ring i issue (tp_K policy) m ts = (Ok sg, s') /\
    AuthorizedVerify (Some (mkAuthorizedVerifier (Some loaded) policy approval)) raw m sg now = Ok tt.
Proof using CL EL.
  intros HI Hcap HB Hok Hk Hts HtsF HR He Hd Hiss HM.
  assert (exists ctx, NewVerificationContext (ls_Parameters loaded) (reg_Account <$> rs) issue (tp_K policy) = Ok ctx) as [ctx Hctx].
  { apply NewSnapshot_Ok in HR as (v & HA & _). assert (exists ms, membersOf (reg_Account <$> rs) = Ok ms) as [ms Hms].
    { destruct rs as [|e0 rs']; [by rewrite lookup_nil in He|]. unfold Accumulate in HA.
      cbn [fmap list_fmap length Nat.eqb] in HA. go_inv HA. eauto. }
    eexists. apply NewVerificationContext_Ok. split; [|split; [by rewrite HA|]].
    - apply is_ok_exists in HM as [[st w] HM]. apply MakeStatement_inv in HM as (x' & d' & bases & sd & t & q & ut & a' & _ & _ & M).
      destruct (made_counter _ _ _ _ _ _ _ _ _ _ _ _ _ _ _ _ _ _ M). lia.
    - unfold RingDigest. rewrite Hms. eauto. }
  assert ((reg_Account <$> rs) !! Z.to_nat i = Some (reg_Account e)) as He' by (by rewrite list_lookup_fmap, He).
  destruct (Sign_honest rand pr (ls_Verifier loaded) s x _ _ ring i _ d issue (tp_K policy) m ts rand' ctx HB Hok HR He' Hd HM Hctx Hk Hts HtsF)
    as (sg & s' & HSg & HV & _).
  exists sg, s'. split; [done|]. destruct (issued_verify _ _ _ _ _ _ _ _ _ _ HI Hcap Hiss Hctx) as (r & _ & _ & ->). done.
Qed.

Lemma AuthorizedVerify_Ok v raw m sg now :
  AuthorizedVerify (Some v) raw m sg now = Ok tt <->
  exists loaded ctx r, av_loaded v = Some loaded /\ verifySetupApproval (av_policy v) (av_approval v) now = Ok tt /\
    authorizedContext (ls_Parameters loaded) (av_policy v) raw now = Ok (ctx, r) /\ Verify (Some (ls_Verifier loaded)) ctx m sg = Ok tt.
Proof.
  unfold AuthorizedVerify. split.
  - destruct (av_loaded v) as [loaded|]; [|done]. intros ([] & HA & E)%bind_Ok. apply bind_Ok in E as ([ctx r] & HC & HV).
    by exists loaded, ctx, r.
  - intros (loaded & ctx & r & -> & HA & HC & HV). rewrite HA. cbn [mbind result_bind]. rewrite HC. exact HV.
Qed.

(** The bytes [raw] are an approval of the policy's setup for its namespace,
    signed by the policy's setup authority and valid now. *)
Definition approved (policy : TrustPolicy) (raw : bytes) (now : Z) : Prop :=
  exists key payload a, authorityKey (tp_SetupAuthority policy) = Ok key /\ signed_envelope raw key payload /\
    strictJSON (dec_struct approval_fields) zero_approval payload = Ok a /\
    sa_Format a = "lktrs/setup-approval/v1" /\ sa_Namespace a = tp_Namespace policy /\ sa_ManifestSHA256 a = tp_ManifestSHA256 policy /\
    0 <= sa_NotBefore a <= now /\ now < sa_NotAfter a.

Lemma verifySetupApproval_Ok policy raw now : verifySetupApproval policy raw now = Ok tt -> approved policy raw now.
Proof.
  unfold verifySetupApproval. intros ([] & HP & E)%bind_Ok. apply bind_Ok in E as (key & Hk & E).
  apply bind_Ok in E as (a & (_ & payload & Hv & Hj)%authorityVerify_Ok & E). apply fail_if_Ok in E.
  rewrite !orb_false_iff, !negb_false_iff, !String.eqb_eq, validTrustTime_true in E.
  exists key, payload, a. destruct_and!. split_and!; try done; lia.
Qed.

(** C6: what an authorized verifier accepts. An accepted signature verifies
    under the context of the registry document given, which the policy's
    registry authority signed for the policy's namespace, setup, epoch, issue and
    quota and that is valid now; the ring is the accounts of its entries,
    each with a verified proof of possession, distinct account ids and one
    key per user; and the approval the verifier holds is the setup authority's
    approval of that setup, of the expected format and valid now. *)
Theorem authorized_sound v raw m sg now :
  AuthorizedVerify (Some v) raw m sg now = Ok tt ->
  approved (av_policy v) (av_approval v) now /\
  exists loaded ctx a key pin issue rs r, av_loaded v = Some loaded /\
    authorized (ls_Parameters loaded) (av_policy v) raw now a key pin issue rs ctx r /\
    Verify (Some (ls_Verifier loaded)) ctx m sg = Ok tt.
Proof.
  intros (loaded & ctx & r & HL & HA%verifySetupApproval_Ok & (a & key & pin & issue & rs & HC)%authorizedContext_Ok & HV)%AuthorizedVerify_Ok.
  split; [done|]. by exists loaded, ctx, a, key, pin, issue, rs, r.
Qed.

(** C20: enrolled users who repeat a counter are identified. Two signatures
    accepted under one registry document that spend the same counter of the
    secret of an enrolled account are traced to the enrolled user, or
    reported as a replay when their challenges are equal. *)
Theorem authorized_trace `{KS : !KnowledgeSound GR} vk v raw ma sa mb sb now loaded ctx r bases user x cnt :
  AuthorizedVerify (Some v) raw ma sa now = Ok tt -> AuthorizedVerify (Some v) raw mb sb now = Ok tt ->
  av_loaded v = Some loaded -> trusted (ls_Verifier loaded) vk ->
  authorizedContext (ls_Parameters loaded) (av_policy v) raw now = Ok (ctx, r) ->
  native_statement (sg_Statement sa) -> native_statement (sg_Statement sb) -> Bases = Ok bases ->
  signed_with vk ctx sa x cnt -> signed_with vk ctx sb x cnt -> registered (ry_entries r) user x ->
  AuthorizedTrace (Some v) raw ma sa mb sb now =
    if same_challenge sa sb then (trace_status TraceReplay, None)
    else (mkTraceResult TraceTraced user (g_mul x (g_gen Secp)), None).
Proof using CL.
  intros (l1 & c1 & r1 & L1 & HA & C1 & HVa)%AuthorizedVerify_Ok (l2 & c2 & r2 & L2 & _ & C2 & HVb)%AuthorizedVerify_Ok.
  intros HL Htr HC Na Nb HB Sa Sb Hreg.
  assert (l1 = loaded) as -> by congruence. assert (l2 = loaded) as -> by congruence.
  assert (c1 = ctx) as -> by congruence. assert (c2 = ctx) as -> by congruence. clear C1 C2 L1 L2.
  unfold AuthorizedTrace. rewrite HL, HA. cbn [mbind result_bind]. rewrite HC.
  apply authorizedContext_Ok in HC as (a & key & pin & issue & rs & HC). pose proof (va_registry _ _ _ _ _ _ (au_valid _ _ _ _ _ _ _ _ _ _ _ HC)) as HR.
  assert (ry_entries r = rs) as Er by (by apply NewRegistry_Ok in HR as (_ & _ & ->)).
  destruct (signed_with_tagged _ _ _ _ _ _ _ _ Htr HVa Na HB Sa) as (s & t & q & ut & Ta).
  destruct (signed_with_tagged _ _ _ _ _ _ _ _ Htr HVb Nb HB Sb) as (s' & t' & q' & ut' & Tb).
  rewrite Er in Hreg. by eapply trace_double_use.
Qed.
End authorized.

(** ** The sample deployment *)

(** A keyed hash in place of Ed25519. *)
Definition toy_authority_sign (key message : bytes) : bytes := sha256 (key ++ message) ++ sha256 (message ++ key).

#[export] Instance toy_ed25519 : Ed25519 := {|
  ed_verify key message sig := bool_decide (sig = toy_authority_sign key message);
|}.

#[export] Instance toy_ed25519_laws : Ed25519Laws.
Proof.
  split. intros key message sig ->%bool_decide_eq_true. unfold toy_authority_sign. rewrite length_app, !Sha256.length_Sum256. reflexivity.
Qed.

Definition authority_of (key : bytes) : AuthoritySigner := mkAuthoritySigner (Some key) (fun message => Ok (toy_authority_sign key message)).
Definition setup_key : bytes := replicate 32 Byte.x04.

Definition sample_policy : TrustPolicy :=
  mkTrustPolicy "lktrs/trust-policy/v1" trust_namespace (hexDigest trust_pin) (EncodeToString setup_key) (EncodeToString registry_key)
    3 (hexDigest sample_issue) 1.

Definition sample_authorization : RegistryAuthorization :=
  mkRegistryAuthorization "lktrs/registry-authorization/v1" trust_namespace (hexDigest trust_pin) 3 100 200 (hexDigest sample_issue) 1
    [enrollment_of Byte.x10 alice_x alice_up "alice" "a1"; enrollment_of Byte.x12 alice_x alice_est "alice" "a2";
     enrollment_of Byte.x13 bob_x bob_trib "bob" "b1"].

Definition sample_registrations : list Registration :=
  [mkRegistration "alice" alice_up; mkRegistration "alice" alice_est; mkRegistration "bob" bob_trib].

Definition sample_approval_text : bytes :=
  get_ok [] (SignSetupApproval trust_pin trust_namespace 50 500 (Some (authority_of setup_key))).
Definition sample_registry_text : bytes :=
  get_ok [] (SignRegistryAuthorization sample_authorization (Some (authority_of registry_key))).

Lemma sample_approval_eq :
  SignSetupApproval trust_pin trust_namespace 50 500 (Some (authority_of setup_key)) = Ok sample_approval_text.
Proof.
  assert (is_ok (SignSetupApproval trust_pin trust_namespace 50 500 (Some (authority_of setup_key))) = true) as H by (vm_compute; reflexivity).
  exact (get_ok_eq [] _ H).
Qed.

Lemma sample_registry_text_eq :
  SignRegistryAuthorization sample_authorization (Some (authority_of registry_key)) = Ok sample_registry_text.
Proof.
  assert (is_ok (SignRegistryAuthorization sample_authorization (Some (authority_of registry_key))) = true) as H by (vm_compute; reflexivity).
  exact (get_ok_eq [] _ H).
Qed.

#[export] Instance Registration_eq_dec `{!Crypto} : EqDecision Registration.
Proof. intros [u [x y d]] [u' [x' y' d']]. unfold Decision. repeat decide equality; apply (decide (_ = _)). Defined.

Lemma sample_registrations_eq : registryRegistrations sample_authorization registry_key = Ok sample_registrations.
Proof.
  assert (match registryRegistrations sample_authorization registry_key with
          | Ok rs => bool_decide (rs = sample_registrations)
          | Err _ => false end = true) as H by (vm_compute; reflexivity).
  destruct (registryRegistrations sample_authorization registry_key) as [rs|]; [|done]. by apply bool_decide_eq_true in H as ->.
Qed.

Lemma sample_policy_valid : validate sample_policy = Ok tt.
Proof. vm_compute. reflexivity. Qed.

Lemma sample_issued : issued sample_policy trust_pin sample_approval_text sample_authorization sample_registry_text sample_registrations 150.
Proof.
  split.
  - exact sample_policy_valid.
  - reflexivity.
  - exists (authority_of setup_key), setup_key, 50, 500. split; [exact sample_approval_eq|]. split; [reflexivity|].
    split; [vm_compute; reflexivity|]. unfold int64. lia.
  - exists (authority_of registry_key), registry_key. split; [exact sample_registry_text_eq|]. split; [reflexivity|].
    split; [vm_compute; reflexivity|exact sample_registrations_eq].
  - split; cbn [ra_Epoch ra_NotBefore ra_NotAfter ra_K sample_authorization]; unfold int64; lia.
  - split; try reflexivity. cbn [ra_NotBefore ra_NotAfter sample_authorization]. lia.
Qed.

Definition sample_authorized : AuthorizedVerifier := mkAuthorizedVerifier (Some no_setup) sample_policy sample_approval_text.

Lemma authorized_complete_witness :
  exists sg s', Sign alice_signer (Some sample_prover) 0 (sample_snapshot sample_ring) 0 sample_issue (tp_K sample_policy) message_1 1700000000
      = (Ok sg, s') /\ AuthorizedVerify (Some sample_authorized) sample_registry_text message_1 sg 150 = Ok tt.
Proof.
  exact (authorized_complete 0 sample_prover sample_policy trust_pin sample_approval_text sample_authorization sample_registry_text
    sample_registrations 150 no_setup alice_signer alice_x (sample_snapshot sample_ring) 0 (mkRegistration "alice" alice_up) 889 sample_issue
    message_1 1700000000 0 sample_issued ltac:(vm_compute; reflexivity) sample_backend_eq alice_ok ltac:(reflexivity) ltac:(lia) ltac:(reflexivity)
    sample_snapshot_eq eq_refl eq_refl eq_refl statement_1).
Defined.

Lemma sample_issued_verify :
  exists r, NewRegistry sample_registrations = Ok r /\
    authorizedContext sample_params sample_policy sample_registry_text 150 = Ok (public_context (sample_ctx 1), r) /\
    forall m sg, AuthorizedVerify (Some sample_authorized) sample_registry_text m sg 150 = Verify (Some sample_verifier) (sample_ctx 1) m sg.
Proof.
  apply (issued_verify sample_policy trust_pin sample_approval_text sample_authorization sample_registry_text sample_registrations 150 no_setup
    sample_issue (sample_ctx 1) sample_issued); [vm_compute; reflexivity|reflexivity|]. exact (sample_ctx_eq 1 ltac:(lia)).
Qed.

Lemma authorized_sound_witness :
  approved sample_policy sample_approval_text 150 /\
  exists loaded ctx a key pin issue rs r, av_loaded sample_authorized = Some loaded /\
    authorized (ls_Parameters loaded) sample_policy sample_registry_text 150 a key pin issue rs ctx r /\
    Verify (Some (ls_Verifier loaded)) ctx message_1 double_1 = Ok tt.
Proof.
  apply (authorized_sound sample_authorized sample_registry_text message_1 double_1 150).
  destruct sample_issued_verify as (r & _ & _ & HV). rewrite HV. exact (proj1 double_1_facts).
Defined.

(** The extractor sees the parameters of the context only. *)
Lemma signed_with_public vk ctx sg x cnt : signed_with vk ctx sg x cnt -> signed_with vk (public_context ctx) sg x cnt.
Proof. done. Qed.

Lemma authorized_trace_witness :
  AuthorizedTrace (Some sample_authorized) sample_registry_text message_1 double_1 message_2 double_2 150 =
  if same_challenge double_1 double_2 then (trace_status TraceReplay, None)
  else (mkTraceResult TraceTraced "alice" (g_mul alice_x (g_gen Secp)), None).
Proof.
  destruct sample_issued_verify as (r & HR & HC & HV).
  assert (H1 : AuthorizedVerify (Some sample_authorized) sample_registry_text message_1 double_1 150 = Ok tt)
    by (rewrite HV; exact (proj1 double_1_facts)).
  assert (H2 : AuthorizedVerify (Some sample_authorized) sample_registry_text message_2 double_2 150 = Ok tt)
    by (rewrite HV; exact (proj1 double_2_facts)).
  apply (authorized_trace (tt : @VK toy_crypto toy_groth16) sample_authorized sample_registry_text message_1 double_1 message_2 double_2 150 no_setup
    (public_context (sample_ctx 1)) r sample_bases "alice" alice_x 0 H1 H2 eq_refl sample_trusted HC
    (proj1 (proj2 double_1_facts)) (proj1 (proj2 double_2_facts)) sample_bases_eq
    (signed_with_public _ _ _ _ _ (proj2 (proj2 double_1_facts))) (signed_with_public _ _ _ _ _ (proj2 (proj2 double_2_facts)))).
  apply NewRegistry_Ok in HR as (_ & _ & ->). exists (mkRegistration "alice" alice_up).
  split; [apply list_elem_of_here|]. split; [reflexivity|]. vm_compute. reflexivity.
Defined.
