(* ===== verification/Ceremony.v ===== *)
(** * The q-SDH parameter ceremony ([nativeproof/ceremony.go])

    Contributors extend a chain of gnark Phase1 states; every link is decoded
    from its canonical compressed encoding and verified against its
    predecessor; the last state, sealed with a beacon, gives the public
    parameters. gnark's [mpcsetup.Phase1] is the interface [Phase1Backend]. *)

From S2P Require Import Prelude Bytes Sha256 Curve Toy Profile Samples Accumulator Circuit CircuitFacts.
From S2P Require Import Statements Backend BackendFacts ToyProofs Encodings SetupEncoding Setup SetupFacts.
From Stdlib Require Import Strings.Byte.

Definition maxQSDHContributions : Z := 64.
Definition maxQSDHTranscriptBytes : Z := 64 * 2 ^ 20.

(** ** gnark's Phase1 *)

Class Phase1Backend `{CR : !Crypto} := {
  Phase1 : Type;
  NewPhase1 : Z -> Phase1;
  ph_write : Phase1 -> result bytes;                (* WriteTo *)
  ph_read : bytes -> result (Phase1 * bytes);       (* ReadFrom, and the unread rest *)
  ph_verify : Phase1 -> Phase1 -> result Phase1;    (* previous.Verify(next), and next after it *)
  ph_contribute : Z -> Phase1 -> Phase1;            (* Contribute, with its randomness *)
  ph_seal : Phase1 -> bytes -> list BN * list BN2;  (* the G1 and G2 powers of Seal *)
}.

(** ** The domain *)

(** The loop doubles at most 16 times; [None] when it needs more. *)
Fixpoint domain_loop (fuel : nat) (n capacity : Z) : option Z :=
  match fuel with
  | O => None
  | S fuel => if 2 * n - 1 <? capacity + 1 then domain_loop fuel (n * 2) capacity else Some n
  end.

Definition ceremonyDomain (capacity : Z) : result Z :=
  _ ← fail_if ((capacity <? 1) || (65536 <? capacity)) "ceremony capacity must be in [1,65536]";
  match domain_loop 17 2 capacity with
  | Some n => Ok n
  | None => Err "ceremony domain out of fuel"
  end.

(** ** Contributions *)

(** The size of a compressed state of domain [n]. *)
Definition contribution_size (n : Z) : Z := 192 * n + 265.

(** The closure [point]; the cursor is the unread rest. *)
Definition ph_point (size : nat) (r : bytes) : result bytes :=
  _ ← fail_if (match r with
               | c :: _ => (length r <? size)%nat || negb (compressed_flag c)
               | [] => true
               end) "contribution requires compressed points";
  Ok (drop size r).

Fixpoint ph_points (count size : nat) (r : bytes) : result bytes :=
  match count with
  | O => Ok r
  | S count => r ← ph_point size r; ph_points count size r
  end.

(** The loop over the three proofs of knowledge. *)
Fixpoint ph_proofs (count : nat) (r : bytes) : result bytes :=
  match count with
  | O => Ok r
  | S count =>
      r ← ph_point 32 r;
      r ← ph_point 64 r;
      ph_proofs count r
  end.

(** The checks before the decoder allocates. *)
Definition preflightContribution (raw : bytes) (n : Z) : result unit :=
  _ ← fail_if (negb (Z.of_nat (length raw) =? contribution_size n)) "invalid compressed contribution length";
  r ← ph_proofs 3 raw;
  '(b, r) ← match pk_take 8 r with Ok br => Ok br | Err _ => Err "slice bounds out of range" end;
  _ ← fail_if (negb (be_dec b =? n)) "contribution domain differs from trusted capacity";
  r ← ph_point 64 r;
  r ← ph_points (Z.to_nat (2 * n - 2)) 32 r;
  r ← ph_points (Z.to_nat (n - 1)) 64 r;
  r ← ph_points (Z.to_nat (2 * n)) 32 r;
  fail_if (match r with
           | c :: _ => negb (length r =? 33)%nat || negb (b2z c =? 32)
           | [] => true
           end) "contribution must contain a complete predecessor challenge".

Section defs.
Context `{CR : !Crypto, GR : !Groth16, SB : !SetupBackend, PB : !Phase1Backend}.

Definition decodeQSDHContribution (raw : bytes) (n : Z) : result Phase1 :=
  _ ← preflightContribution raw n;
  '(p, rest) ← ph_read raw;
  _ ← fail_if (negb (length rest =? 0)%nat) "trailing contribution";
  canonical ← ph_write p;
  _ ← fail_if (negb (bool_decide (raw = canonical))) "noncanonical contribution";
  Ok p.

(** ** The chain *)

Definition with_index {A} (i : Z) (r : result A) : result A :=
  match r with Ok a => Ok a | Err e => Err ("contribution " +:+ pretty i +:+ ": " +:+ e) end.

Fixpoint chain_loop (i n : Z) (previous : Phase1) (contributions : list bytes) : result Phase1 :=
  match contributions with
  | [] => Ok previous
  | raw :: contributions =>
      next ← with_index i (decodeQSDHContribution raw n);
      next ← with_index i (ph_verify previous next);
      chain_loop (i + 1) n next contributions
  end.

Definition transcript_bytes (contributions : list bytes) : Z :=
  foldr Z.add 0 ((fun raw => Z.of_nat (length raw)) <$> contributions).

Definition checkedQSDHChain (capacity : Z) (contributions : list bytes) : result (Phase1 * Z) :=
  n ← ceremonyDomain capacity;
  _ ← fail_if (maxQSDHContributions <? Z.of_nat (length contributions)) "too many contributions";
  _ ← fail_if (maxQSDHTranscriptBytes <? transcript_bytes contributions) "oversized ceremony transcript";
  previous ← chain_loop 0 n (NewPhase1 n) contributions;
  Ok (previous, n).

(** The randomness of [Contribute] is the argument [rand]. *)
Definition ContributeQSDH (rand capacity : Z) (previous : list bytes) : result bytes :=
  _ ← fail_if (maxQSDHContributions <=? Z.of_nat (length previous)) "contribution limit reached";
  n ← ceremonyDomain capacity;
  _ ← fail_if (maxQSDHTranscriptBytes <? (Z.of_nat (length previous) + 1) * contribution_size n)
        "next contribution would exceed transcript budget";
  '(state, _) ← checkedQSDHChain capacity previous;
  ph_write (ph_contribute rand state).

Record QSDHCeremonyReceipt := mkReceipt {
  rc_Format : string;
  rc_Gnark : string;
  rc_GnarkCrypto : string;
  rc_Capacity : Z;
  rc_Domain : Z;
  rc_ContributionSHA256 : list string;
  rc_Beacon : string;
  rc_ParametersSHA256 : string;
}.

(** Indexing and slicing the sealed powers panic out of range. *)
Definition FinalizeQSDHCeremony (capacity : Z) (contributions : list bytes) (beacon : bytes)
    : result (Params * QSDHCeremonyReceipt) :=
  _ ← fail_if ((length contributions <? 2)%nat || bool_decide (beacon = zero_digest))
        "need at least two contributions and an externally authenticated beacon";
  '(state, n) ← checkedQSDHChain capacity contributions;
  let '(g1, g2) := ph_seal state beacon in
  htau ← match g2 !! 1%nat with Some q => Ok q | None => Err "index out of range" end;
  _ ← fail_if (Z.of_nat (length g1) <? capacity + 1) "slice bounds out of range";
  let params := mkParams (g_gen BN) (g_gen BN2) htau (take (Z.to_nat (capacity + 1)) g1) in
  _ ← ValidateParams params;
  raw ← MarshalParams params;
  Ok (params, mkReceipt "lktrs/qsdh-ceremony-receipt/v1" gnarkVersion cryptoVersion capacity n
                ((fun b => hexDigest (sha256 b)) <$> contributions) (hexDigest beacon) (hexDigest (sha256 raw))).
End defs.
