(* ===== verification/CeremonyFacts.v ===== *)
(** * Properties of the parameter ceremony

    The domain is the least that holds the capacity; a contribution is
    decoded exactly when it has the compressed layout of that domain and is
    the canonical encoding of its state; honest ceremonies always finish with
    valid parameters; a receipt determines its transcript and parameters. *)

From S2P Require Import Prelude Bytes Sha256 Curve Toy Profile Samples Accumulator Circuit CircuitFacts.
From S2P Require Import Statements Backend BackendFacts ToyProofs Encodings SetupEncoding Setup SetupFacts Ceremony.
From Stdlib Require Import Strings.Byte.

(** ** The domain *)

Lemma domain_loop_spec fuel n capacity :
  0 < n -> capacity + 1 <= 2 ^ Z.of_nat (S fuel) * n - 1 ->
  exists j, 0 <= j /\ domain_loop (S fuel) n capacity = Some (n * 2 ^ j) /\ capacity + 1 <= 2 * (n * 2 ^ j) - 1 /\
    (j = 0 \/ n * 2 ^ j - 1 < capacity + 1).
Proof.
  revert n. induction fuel as [|fuel IH]; intros n Hn Hc; cbn [domain_loop];
    destruct (Z.ltb_spec (2 * n - 1) (capacity + 1)) as [H|H]; try (exists 0; change (2 ^ 0) with 1; rewrite Z.mul_1_r; split_and!; [lia|done|lia|lia]).
  - change (2 ^ Z.of_nat 1) with 2 in Hc. lia.
  - rewrite Nat2Z.inj_succ, Z.pow_succ_r in Hc by lia.
    destruct (IH (n * 2)) as (j & Hj & E & H1 & H2); [lia|lia|].
    exists (j + 1). rewrite Z.pow_add_r, Z.pow_1_r by lia. cbn [domain_loop] in E. rewrite E.
    split_and!; [lia|f_equal; lia|lia|]. right. destruct H2 as [->|H2]; [change (2 ^ 0) with 1; lia|lia].
Qed.

Lemma ceremonyDomain_Ok capacity n :
  ceremonyDomain capacity = Ok n ->
  1 <= capacity <= 65536 /\ exists j, 1 <= j <= 16 /\ n = 2 ^ j /\ capacity + 1 <= 2 * n - 1 /\ (n = 2 \/ 2 * (n / 2) - 1 < capacity + 1).
Proof.
  unfold ceremonyDomain. intros [[H1%Z.ltb_ge H2%Z.ltb_ge]%orb_false_iff E]%bind_fail_if. split; [lia|].
  destruct (domain_loop_spec 16 2 capacity) as (j & Hj & EL & H3 & H4); [lia|change (2 ^ Z.of_nat 17) with 131072; lia|].
  rewrite EL in E. injection E as <-. exists (j + 1). rewrite Z.pow_add_r, Z.pow_1_r by lia.
  assert (2 * 2 ^ j / 2 = 2 ^ j) as -> by (rewrite Z.mul_comm; apply Z.div_mul; lia).
  assert (j < 16).
  { apply Z.nle_gt. intros Hge. assert (2 ^ 16 <= 2 ^ j) by (apply Z.pow_le_mono_r; lia). change (2 ^ 16) with 65536 in *. lia. }
  split_and!; [lia|lia|lia|lia|]. destruct H4 as [->|H4]; [left; reflexivity|right; lia].
Qed.

Lemma ceremonyDomain_total capacity : 1 <= capacity <= 65536 -> exists n, ceremonyDomain capacity = Ok n.
Proof.
  intros Hc. unfold ceremonyDomain. rewrite (proj2 (Z.ltb_ge _ _)), (proj2 (Z.ltb_ge _ _)) by lia. cbn [orb fail_if mbind result_bind].
  destruct (domain_loop_spec 16 2 capacity) as (j & _ & -> & _); [lia|change (2 ^ Z.of_nat 17) with 131072; lia|]. eauto.
Qed.

(** The loop of [ceremonyDomain] ends. For every capacity in [1, 65536]
    it returns the least power of two [n >= 2] with [2n - 1 >= capacity + 1],
    at most [2^16], and for every other capacity an error. *)
Theorem ceremony_domain_exact capacity :
  match ceremonyDomain capacity with
  | Ok n => 1 <= capacity <= 65536 /\ exists j, 1 <= j <= 16 /\ n = 2 ^ j /\ capacity + 1 <= 2 * n - 1 /\
              (n = 2 \/ 2 * (n / 2) - 1 < capacity + 1)
  | Err _ => ~ 1 <= capacity <= 65536
  end.
Proof.
  destruct (ceremonyDomain capacity) as [n|e] eqn:E; [by apply ceremonyDomain_Ok|].
  intros Hc. destruct (ceremonyDomain_total capacity Hc) as [n Hn]. congruence.
Qed.

(** ** The layout of a contribution *)

Lemma ph_point_Ok size r r' : (0 < size)%nat -> ph_point size r = Ok r' <-> exists s, r = s ++ r' /\ compressed_seg size s.
Proof.
  intros Hs. unfold ph_point. rewrite bind_fail_if. split.
  - intros [H [= <-]]. destruct r as [|c r]; [done|]. apply orb_false_iff in H as [Hl%Nat.ltb_ge Hc%negb_false_iff].
    exists (take size (c :: r)). rewrite take_drop. split; [done|]. split; [rewrite length_take; cbn in *; lia|].
    destruct size; [lia|]. cbn [take]. eauto.
  - intros (s & -> & Hl & b & tl & -> & Hb). cbn [app]. rewrite orb_false_iff, Nat.ltb_ge, negb_false_iff.
    cbn [length] in *. rewrite length_app. split; [split; [lia|done]|]. subst size. cbn [drop]. by rewrite drop_app_length.
Qed.

Lemma ph_points_Ok count size r r' :
  (0 < size)%nat -> ph_points count size r = Ok r' <-> exists l, r = concat l ++ r' /\ length l = count /\ Forall (compressed_seg size) l.
Proof.
  intros Hs. revert r. induction count as [|count IH]; intros r; cbn [ph_points].
  - split; [intros [= <-]; exists []; done|]. intros ([|? ?] & -> & ? & _); done.
  - rewrite bind_Ok. setoid_rewrite (ph_point_Ok size r _ Hs). setoid_rewrite IH. split.
    + intros (r1 & (s & -> & Hc) & l & -> & Hl & HF). exists (s :: l). cbn [concat length]. rewrite <- app_assoc, Hl. auto.
    + intros ([|s l] & -> & Hl & HF); [done|]. apply Forall_cons in HF as [Hc HF]. injection Hl as Hl.
      exists (concat l ++ r'). split; [exists s; cbn [concat]; by rewrite <- app_assoc|]. by exists l.
Qed.

(** A proof of knowledge: a G1 and a G2 point. *)
Definition proof_seg (s : bytes) : Prop := exists a b, s = a ++ b /\ compressed_seg 32 a /\ compressed_seg 64 b.

Lemma ph_proofs_Ok count r r' :
  ph_proofs count r = Ok r' <-> exists l, r = concat l ++ r' /\ length l = count /\ Forall proof_seg l.
Proof.
  revert r. induction count as [|count IH]; intros r; cbn [ph_proofs].
  - split; [intros [= <-]; exists []; done|]. intros ([|? ?] & -> & ? & _); done.
  - rewrite bind_Ok. split.
    + intros (r1 & (a & -> & Ha)%ph_point_Ok & E); [|lia]. apply bind_Ok in E as (r2 & (b & -> & Hb)%ph_point_Ok & E); [|lia].
      apply IH in E as (l & -> & Hl & HF). exists ((a ++ b) :: l). cbn [concat length]. rewrite <- !app_assoc, Hl.
      split_and!; [done|done|]. constructor; [by exists a, b|done].
    + intros ([|s l] & -> & Hl & HF); [done|]. apply Forall_cons in HF as [(a & b & -> & Ha & Hb) HF]. injection Hl as Hl.
      exists (b ++ concat l ++ r'). split; [apply ph_point_Ok; [lia|]; exists a; cbn [concat]; by rewrite <- !app_assoc|].
      rewrite bind_Ok. exists (concat l ++ r'). split; [apply ph_point_Ok; [lia|]; by exists b|]. apply IH. by exists l.
Qed.

Record contribution_layout (raw : bytes) (n : Z) (pok : list bytes) (beta : bytes) (tau1 tau2 ab : list bytes) (challenge : bytes)
  : Prop := mk_contribution_layout {
  cl_pok : length pok = 3%nat /\ Forall proof_seg pok;
  cl_beta : compressed_seg 64 beta;
  cl_tau1 : len tau1 = 2 * n - 2 /\ Forall (compressed_seg 32) tau1;
  cl_tau2 : len tau2 = n - 1 /\ Forall (compressed_seg 64) tau2;
  cl_ab : len ab = 2 * n /\ Forall (compressed_seg 32) ab;
  cl_challenge : length challenge = 32%nat;
  cl_raw : raw = concat pok ++ be_enc 8 n ++ beta ++ concat tau1 ++ concat tau2 ++ concat ab ++ x20 :: challenge;
}.

Lemma length_proofs l : Forall proof_seg l -> length (concat l) = (length l * 96)%nat.
Proof.
  induction 1 as [|s l (a & b & -> & [Ha _] & [Hb _]) _ IH]; [done|]. cbn [concat length]. rewrite !length_app, Ha, Hb, IH. lia.
Qed.

Lemma contribution_layout_size raw n pok beta tau1 tau2 ab challenge :
  contribution_layout raw n pok beta tau1 tau2 ab challenge -> len raw = contribution_size n.
Proof.
  intros [[Hp Fp] [Hb _] [H1 F1] [H2 F2] [H3 F3] Hc ->]. unfold contribution_size. rewrite !length_app. cbn [length].
  rewrite (length_proofs _ Fp), (length_concat_points _ _ F1), (length_concat_points _ _ F2), (length_concat_points _ _ F3),
    length_be_enc, Hb, Hc, Hp. lia.
Qed.

Lemma preflightContribution_Ok raw n :
  1 <= n < 2 ^ 64 ->
  preflightContribution raw n = Ok tt <-> exists pok beta tau1 tau2 ab challenge, contribution_layout raw n pok beta tau1 tau2 ab challenge.
Proof.
  intros Hn. unfold preflightContribution. rewrite bind_fail_if, negb_false_iff, Z.eqb_eq. split.
  - intros [Hl E]. apply bind_Ok in E as (r1 & (pok & -> & Hp & Fp)%ph_proofs_Ok & E).
    apply bind_Ok in E as ([b r2] & Eb & E). destruct (pk_take 8 r1) as [[b' r']|] eqn:Et; [|done]. injection Eb as -> ->.
    apply pk_take_Ok in Et as [-> Hb]. apply bind_fail_if in E as [Hd%negb_false_iff%Z.eqb_eq E].
    apply bind_Ok in E as (r3 & (beta & -> & Hbeta)%ph_point_Ok & E); [|lia].
    apply bind_Ok in E as (r4 & (tau1 & -> & H1 & F1)%ph_points_Ok & E); [|lia].
    apply bind_Ok in E as (r5 & (tau2 & -> & H2 & F2)%ph_points_Ok & E); [|lia].
    apply bind_Ok in E as (r6 & (ab & -> & H3 & F3)%ph_points_Ok & E); [|lia]. apply fail_if_Ok in E.
    destruct r6 as [|c ch]; [done|]. apply orb_false_iff in E as [Hc%negb_false_iff%Nat.eqb_eq Hx%negb_false_iff%Z.eqb_eq].
    exists pok, beta, tau1, tau2, ab, ch. split; [done|done|split; [lia|done]|split; [lia|done]|split; [lia|done]|cbn in Hc; lia|].
    assert (c = x20) as -> by (apply b2z_inj; exact Hx).
    rewrite <- Hd, be_enc_dec by lia. done.
  - intros (pok & beta & tau1 & tau2 & ab & ch & HL). split; [by eapply contribution_layout_size|].
    destruct HL as [[Hp Fp] Hb [H1 F1] [H2 F2] [H3 F3] Hc ->].
    rewrite (proj2 (ph_proofs_Ok 3 _ (be_enc 8 n ++ beta ++ concat tau1 ++ concat tau2 ++ concat ab ++ x20 :: ch))) by eauto.
    cbn [mbind result_bind]. rewrite (proj2 (pk_take_Ok 8 _ (be_enc 8 n) (beta ++ concat tau1 ++ concat tau2 ++ concat ab ++ x20 :: ch)))
      by (by rewrite length_be_enc). cbn [mbind result_bind].
    rewrite be_dec_enc_small by (cbn; lia). rewrite Z.eqb_refl. cbn [negb fail_if mbind result_bind].
    rewrite (proj2 (ph_point_Ok 64 _ (concat tau1 ++ concat tau2 ++ concat ab ++ x20 :: ch) ltac:(lia))) by eauto. cbn [mbind result_bind].
    rewrite (proj2 (ph_points_Ok _ 32 _ (concat tau2 ++ concat ab ++ x20 :: ch) ltac:(lia))) by (exists tau1; split_and!; [done|lia|done]).
    cbn [mbind result_bind].
    rewrite (proj2 (ph_points_Ok _ 64 _ (concat ab ++ x20 :: ch) ltac:(lia))) by (exists tau2; split_and!; [done|lia|done]).
    cbn [mbind result_bind].
    rewrite (proj2 (ph_points_Ok _ 32 _ (x20 :: ch) ltac:(lia))) by (exists ab; split_and!; [done|lia|done]). cbn [mbind result_bind].
    cbn [length]. rewrite Hc. reflexivity.
Qed.

Section facts.
Context `{CR : !Crypto, CL : !CryptoLaws, GR : !Groth16, SB : !SetupBackend, PB : !Phase1Backend}.

(** What a contribution must be. [decodeQSDHContribution] accepts exactly
    the byte strings with the compressed layout of the domain - every point
    compressed, the counts those of the domain, a full predecessor challenge,
    nothing after it - that gnark reads to the end as a state whose canonical
    encoding they are; so a state has one accepted encoding. *)
Theorem contribution_exact raw n p :
  1 <= n < 2 ^ 64 ->
  decodeQSDHContribution raw n = Ok p <->
  (exists pok beta tau1 tau2 ab challenge, contribution_layout raw n pok beta tau1 tau2 ab challenge) /\
  ph_read raw = Ok (p, []) /\ ph_write p = Ok raw.
Proof.
  intros Hn. unfold decodeQSDHContribution. rewrite <- preflightContribution_Ok by done. split.
  - intros ([] & HP & E)%bind_Ok. apply bind_Ok in E as ([q rest] & HR & E). apply bind_fail_if in E as [Hl%negb_false_iff%Nat.eqb_eq E].
    apply bind_Ok in E as (canonical & HW & E). apply bind_fail_if in E as [Hc%negb_false_iff%bool_decide_eq_true [= <-]].
    destruct rest; [|done]. by subst.
  - intros (HP & HR & HW). rewrite HP. cbn [mbind result_bind]. rewrite HR. cbn [mbind result_bind length Nat.eqb negb fail_if].
    rewrite HW. cbn [mbind result_bind]. by rewrite bool_decide_eq_true_2.
Qed.

(** ** Chains *)

(** Each contribution is decoded and verified against the state before it. *)
Inductive chain (n : Z) : Phase1 -> list bytes -> Phase1 -> Prop :=
  | chain_nil p : chain n p [] p
  | chain_cons p raw next next' raws q :
      decodeQSDHContribution raw n = Ok next -> ph_verify p next = Ok next' -> chain n next' raws q -> chain n p (raw :: raws) q.

Lemma chain_loop_Ok i n p raws q : chain_loop i n p raws = Ok q <-> chain n p raws q.
Proof.
  split.
  - revert i p. induction raws as [|raw raws IH]; intros i p; cbn [chain_loop]; [intros [= <-]; constructor|].
    intros (next & HD & E)%bind_Ok. apply bind_Ok in E as (next' & HV & E%IH).
    destruct (decodeQSDHContribution raw n) eqn:ED; [|done]. destruct (ph_verify p next) eqn:EV; [|done].
    injection HD as ->. injection HV as ->. by econstructor.
  - intros HC. revert i. induction HC as [p|p raw next next' raws q HD HV _ IH]; intros i; cbn [chain_loop]; [done|].
    rewrite HD. cbn [with_index mbind result_bind]. rewrite HV. cbn [with_index mbind result_bind]. apply IH.
Qed.

Lemma chain_snoc n p raws q raw next next' :
  chain n p raws q -> decodeQSDHContribution raw n = Ok next -> ph_verify q next = Ok next' -> chain n p (raws ++ [raw]) next'.
Proof. intros HC HD HV. induction HC as [p|p raw0 m m' raws q HD0 HV0 _ IH]; cbn [app]; econstructor; eauto using chain_nil. Qed.

Lemma checkedQSDHChain_Ok capacity raws q n :
  checkedQSDHChain capacity raws = Ok (q, n) <->
  ceremonyDomain capacity = Ok n /\ len raws <= maxQSDHContributions /\ transcript_bytes raws <= maxQSDHTranscriptBytes /\
  chain n (NewPhase1 n) raws q.
Proof.
  unfold checkedQSDHChain. split.
  - intros (m & HD & E)%bind_Ok. apply bind_fail_if in E as [H1%Z.ltb_ge E]. apply bind_fail_if in E as [H2%Z.ltb_ge E].
    apply bind_Ok in E as (p & HC%chain_loop_Ok & [= <- <-]). done.
  - intros (HD & H1%Z.ltb_ge & H2%Z.ltb_ge & HC). rewrite HD. cbn [mbind result_bind]. rewrite H1, H2. cbn [fail_if mbind result_bind].
    by rewrite (proj2 (chain_loop_Ok 0 _ _ _ q)).
Qed.

(** ** Receipts *)

Record finalized (capacity : Z) (raws : list bytes) (beacon : bytes) (params : Params) (rc : QSDHCeremonyReceipt) : Prop := mk_finalized {
  fz_count : 2 <= len raws <= maxQSDHContributions;
  fz_size : transcript_bytes raws <= maxQSDHTranscriptBytes;
  fz_beacon : beacon <> zero_digest;
  (* the parameters are the sealed powers of the last state of the chain *)
  fz_chain : ceremonyDomain capacity = Ok (rc_Domain rc) /\
    exists q g1 g2 htau, chain (rc_Domain rc) (NewPhase1 (rc_Domain rc)) raws q /\ ph_seal q beacon = (g1, g2) /\
      g2 !! 1%nat = Some htau /\ params = mkParams (g_gen BN) (g_gen BN2) htau (take (Z.to_nat (capacity + 1)) g1);
  fz_valid : ValidateParams params = Ok tt;
  fz_capacity : len (p_Powers params) = capacity + 1;
  fz_receipt : rc_Format rc = "lktrs/qsdh-ceremony-receipt/v1" /\ rc_Gnark rc = gnarkVersion /\ rc_GnarkCrypto rc = cryptoVersion /\
    rc_Capacity rc = capacity /\ rc_Beacon rc = hexDigest beacon /\
    rc_ContributionSHA256 rc = (fun b => hexDigest (sha256 b)) <$> raws /\
    exists raw, MarshalParams params = Ok raw /\ rc_ParametersSHA256 rc = hexDigest (sha256 raw);
}.

Lemma Finalize_finalized capacity raws beacon params rc :
  FinalizeQSDHCeremony capacity raws beacon = Ok (params, rc) -> finalized capacity raws beacon params rc.
Proof.
  unfold FinalizeQSDHCeremony. intros [[Hl%Nat.ltb_ge Hb%bool_decide_eq_false]%orb_false_iff E]%bind_fail_if.
  apply bind_Ok in E as ([q n] & (HD & Hc & Hs & HC)%checkedQSDHChain_Ok & E). destruct (ph_seal q beacon) as [g1 g2] eqn:Eseal.
  apply bind_Ok in E as (htau & Ht & E). apply bind_fail_if in E as [Hg%Z.ltb_ge E]. apply bind_Ok in E as ([] & HV & E).
  apply bind_Ok in E as (raw & HM & [= <- <-]). apply ceremonyDomain_Ok in HD as Hcap.
  split; cbn [rc_Format rc_Gnark rc_GnarkCrypto rc_Domain rc_Capacity rc_Beacon rc_ContributionSHA256 rc_ParametersSHA256].
  - lia.
  - done.
  - done.
  - split; [done|]. exists q, g1, g2, htau. split_and!; try done. destruct (g2 !! 1%nat); congruence.
  - done.
  - cbn [p_Powers]. rewrite length_take. lia.
  - split_and!; [done..|by exists raw].
Qed.

(** C27: finalized parameters are valid and receipted. When
    [FinalizeQSDHCeremony] returns, between two and 64 contributions form a
    verified chain from the initial state, the parameters are the first powers
    and the [G2] power of the last state of that chain sealed with the beacon,
    they pass [ValidateParams] with exactly the capacity asked for, and the
    receipt names the format, the library versions, the capacity, the domain,
    the beacon and the digests of every contribution and of the parameters. *)
Theorem ceremony_sound capacity raws beacon params rc :
  FinalizeQSDHCeremony capacity raws beacon = Ok (params, rc) -> finalized capacity raws beacon params rc.
Proof. apply Finalize_finalized. Qed.

(** Two transcripts collide at a position: different contributions there
    have one digest. *)
Definition colliding_contributions (raws raws' : list bytes) : Prop :=
  exists i a b, raws !! i = Some a /\ raws' !! i = Some b /\ a <> b /\ sha256 a = sha256 b.

Lemma digests_determine (raws raws' : list bytes) :
  (fun b => hexDigest (sha256 b)) <$> raws = (fun b => hexDigest (sha256 b)) <$> raws' -> raws = raws' \/ colliding_contributions raws raws'.
Proof.
  revert raws'. induction raws as [|a raws IH]; intros [|b raws']; try done; [by left|].
  cbn [fmap list_fmap]. intros E. injection E as E1%hex_encode_inj E2. destruct (decide (a = b)) as [->|Hne].
  - destruct (IH _ E2) as [->|(i & x & y & H)]; [by left|right]. by exists (S i), x, y.
  - right. by exists 0%nat, a, b.
Qed.

(** A receipt determines the ceremony. Two ceremonies finalized with the
    same receipt have the same transcript and the same parameters, unless two
    different contributions at one position of the transcripts have one
    digest. *)
Theorem receipt_binding capacity capacity' raws raws' beacon beacon' params params' rc :
  FinalizeQSDHCeremony capacity raws beacon = Ok (params, rc) -> FinalizeQSDHCeremony capacity' raws' beacon' = Ok (params', rc) ->
  (raws = raws' /\ params = params') \/ colliding_contributions raws raws'.
Proof.
  intros H1 H2. destruct (Finalize_finalized _ _ _ _ _ H1) as [_ _ _ _ _ _ (_ & _ & _ & C1 & B1 & D1 & _)].
  destruct (Finalize_finalized _ _ _ _ _ H2) as [_ _ _ _ _ _ (_ & _ & _ & C2 & B2 & D2 & _)].
  destruct (digests_determine raws raws') as [Er|]; [congruence| |by right]. left.
  assert (beacon = beacon') as Eb by (apply hex_encode_inj; unfold hexDigest in *; congruence).
  assert (capacity = capacity') as Ec by congruence. subst. split; [done|]. congruence.
Qed.

(** ** Honest ceremonies *)

(** What [mpcsetup] documents: states are powers of a secret in the given
    domain; a state that verifies against such a state is one; a contribution
    verifies and its encoding is read back; sealing gives the powers. *)
Class Phase1Laws := {
  phase_ok : Phase1 -> Z -> Prop;
  new_phase_ok n : 2 <= n <= 2 ^ 16 -> phase_ok (NewPhase1 n) n;
  verify_phase_ok p next next' n : phase_ok p n -> ph_verify p next = Ok next' -> phase_ok next' n;
  contribute_encoded rand p n : phase_ok p n -> exists raw, ph_write (ph_contribute rand p) = Ok raw /\
    ph_read raw = Ok (ph_contribute rand p, []) /\
    exists pok beta tau1 tau2 ab challenge, contribution_layout raw n pok beta tau1 tau2 ab challenge;
  contribute_verifies rand p n : phase_ok p n -> exists next, ph_verify p (ph_contribute rand p) = Ok next;
  seal_powers p n beacon : phase_ok p n -> exists tau g2, 0 < tau < g_order BN /\
    ph_seal p beacon = (powers_from (Z.to_nat (2 * n - 1)) tau 1, g2) /\ g2 !! 1%nat = Some (g_pow BN2 tau);
}.

(** A ceremony: each participant contributes to the transcript so far. *)
Fixpoint ceremony_run (capacity : Z) (transcript : list bytes) (rands : list Z) : result (list bytes) :=
  match rands with
  | [] => Ok transcript
  | rand :: rands =>
      raw ← ContributeQSDH rand capacity transcript;
      ceremony_run capacity (transcript ++ [raw]) rands
  end.

Context (PL : Phase1Laws).

Lemma chain_ok n p raws q : chain n p raws q -> phase_ok p n -> phase_ok q n.
Proof using Type. induction 1; eauto using verify_phase_ok. Qed.

Lemma transcript_app raws raw : transcript_bytes (raws ++ [raw]) = transcript_bytes raws + len raw.
Proof using Type. unfold transcript_bytes. induction raws as [|a raws IH]; cbn [app fmap list_fmap foldr] in *; lia. Qed.

Lemma ContributeQSDH_spec rand capacity raws n q :
  ceremonyDomain capacity = Ok n -> chain n (NewPhase1 n) raws q -> transcript_bytes raws = len raws * contribution_size n ->
  (len raws + 1) * contribution_size n <= maxQSDHTranscriptBytes -> len raws + 1 <= maxQSDHContributions ->
  exists raw q', ContributeQSDH rand capacity raws = Ok raw /\ chain n (NewPhase1 n) (raws ++ [raw]) q' /\
    len raw = contribution_size n.
Proof.
  intros HD HC Ht Hs Hc. apply ceremonyDomain_Ok in HD as Hn. destruct Hn as (_ & j & Hj & En & _).
  assert (2 ^ 1 <= 2 ^ j <= 2 ^ 16) as Hn by (split; apply Z.pow_le_mono_r; lia). rewrite <- En in Hn. clear En.
  assert (phase_ok q n) as Hq by (eapply chain_ok; [done|apply new_phase_ok; lia]).
  destruct (contribute_encoded rand q n Hq) as (raw & HW & HR & HL). destruct (contribute_verifies rand q n Hq) as [next HV].
  exists raw, next. split_and!.
  - unfold ContributeQSDH. rewrite (proj2 (Z.leb_gt _ _)) by lia. cbn [fail_if mbind result_bind]. rewrite HD. cbn [mbind result_bind].
    rewrite (proj2 (Z.ltb_ge _ _)) by lia. cbn [fail_if mbind result_bind].
    rewrite (proj2 (checkedQSDHChain_Ok capacity raws q n)); [exact HW|]. split_and!; [done|lia| |done].
    rewrite Ht. unfold contribution_size in *. nia.
  - eapply chain_snoc; [done| |done]. unfold decodeQSDHContribution. rewrite (proj2 (preflightContribution_Ok raw n ltac:(lia)) HL).
    cbn [mbind result_bind]. rewrite HR. cbn [mbind result_bind length Nat.eqb negb fail_if]. rewrite HW. cbn [mbind result_bind].
    by rewrite bool_decide_eq_true_2.
  - destruct HL as (pok & beta & tau1 & tau2 & ab & ch & HL). by eapply contribution_layout_size.
Qed.

Lemma ceremony_run_spec rands capacity raws n q :
  ceremonyDomain capacity = Ok n -> chain n (NewPhase1 n) raws q -> transcript_bytes raws = len raws * contribution_size n ->
  (len raws + len rands) * contribution_size n <= maxQSDHTranscriptBytes -> len raws + len rands <= maxQSDHContributions ->
  exists raws' q', ceremony_run capacity raws rands = Ok raws' /\ chain n (NewPhase1 n) raws' q' /\
    len raws' = len raws + len rands /\ transcript_bytes raws' = len raws' * contribution_size n.
Proof.
  revert raws q. induction rands as [|rand rands IH]; intros raws q HD HC Ht Hs Hc; cbn [ceremony_run length] in *.
  { exists raws, q. split_and!; [done|done|lia|done]. }
  apply ceremonyDomain_Ok in HD as Hn. destruct Hn as (_ & j & Hj & En & _).
  assert (0 < 2 ^ j) by (apply Z.pow_pos_nonneg; lia).
  destruct (ContributeQSDH_spec rand capacity raws n q) as (raw & q' & -> & HC' & Hl); [done|done|done|unfold contribution_size in *; nia|lia|].
  cbn [mbind result_bind]. destruct (IH (raws ++ [raw]) q') as (raws' & q'' & ? & ? & Hl' & ?);
    rewrite ?length_app; cbn [length]; [done|done|rewrite transcript_app; lia|unfold contribution_size in *; nia|lia|].
  exists raws', q''. rewrite length_app in Hl'. cbn [length] in Hl'. split_and!; [done|done|lia|done].
Qed.

(** C26: honest ceremonies finish. With at least two and at most 64
    participants whose contributions fit the transcript budget, every
    participant's contribution is accepted by the next, and for every nonzero
    beacon the ceremony ends with valid parameters of the capacity asked
    for. *)
Theorem ceremony_completes capacity n rands beacon :
  ceremonyDomain capacity = Ok n -> 2 <= len rands <= maxQSDHContributions ->
  len rands * contribution_size n <= maxQSDHTranscriptBytes -> beacon <> zero_digest ->
  exists raws params rc, ceremony_run capacity [] rands = Ok raws /\ len raws = len rands /\
    FinalizeQSDHCeremony capacity raws beacon = Ok (params, rc) /\ ValidateParams params = Ok tt /\
    len (p_Powers params) = capacity + 1.
Proof using CL PL.
  intros HD Hc Hs Hb. destruct (ceremony_run_spec rands capacity [] n (NewPhase1 n)) as (raws & q & HR & HC & Hl & Ht);
    [done|constructor|reflexivity|cbn [length]; lia|cbn [length]; lia|]. cbn [length] in Hl.
  apply ceremonyDomain_Ok in HD as Hn. destruct Hn as (Hcap & j & Hj & En & Hfit & _).
  assert (2 ^ 1 <= 2 ^ j <= 2 ^ 16) as Hn by (split; apply Z.pow_le_mono_r; lia). rewrite <- En in Hn. clear En.
  destruct (seal_powers q n beacon) as (tau & g2 & Htau & HS & H2); [by eapply chain_ok; [|apply new_phase_ok; lia]|].
  set (params := mkParams (g_gen BN) (g_gen BN2) (g_pow BN2 tau) (take (Z.to_nat (capacity + 1)) (powers_from (Z.to_nat (2 * n - 1)) tau 1))).
  assert (length (p_Powers params) = Z.to_nat (capacity + 1)) as Hlen by (cbn [p_Powers params]; rewrite length_take, length_powers_from; lia).
  assert (ValidateParams params = Ok tt) as HV.
  { apply ValidateParams_srs. exists tau. split; try done; [|rewrite Hlen; lia]. rewrite Hlen. cbn [p_Powers params].
    apply list_eq. intros i. destruct (Nat.lt_ge_cases i (Z.to_nat (capacity + 1))).
    - rewrite lookup_take_lt by lia. rewrite !lookup_powers_from by lia. done.
    - rewrite !lookup_ge_None_2; [done|rewrite length_powers_from; lia|rewrite length_take, length_powers_from; lia]. }
  eexists raws, params, _. split; [exact HR|]. split; [lia|]. split; [|split; [exact HV|rewrite Hlen; lia]].
  unfold FinalizeQSDHCeremony. rewrite (proj2 (Nat.ltb_ge _ _)), bool_decide_eq_false_2 by (done || lia). cbn [orb fail_if mbind result_bind].
  rewrite (proj2 (checkedQSDHChain_Ok capacity raws q n)) by (split_and!; [done|lia|lia|done]). cbn [mbind result_bind].
  rewrite HS, H2. cbn [mbind result_bind]. rewrite length_powers_from, (proj2 (Z.ltb_ge _ _)) by lia. cbn [fail_if mbind result_bind].
  fold params. rewrite HV. cbn [mbind result_bind]. unfold MarshalParams. rewrite HV. reflexivity.
Qed.
End facts.

(** ** A concrete ceremony *)

(** States that carry the secret in the clear. *)
Record toy_phase := mkToyPhase {
  tph_n : Z;
  tph_tau : Z;
  tph_challenge : bytes;
}.

Definition toy_phase_write (p : toy_phase) : bytes :=
  concat (replicate 3 (slot 32 (tph_tau p) ++ slot 64 0)) ++ be_enc 8 (tph_n p) ++ slot 64 0
  ++ concat (replicate (Z.to_nat (2 * tph_n p - 2)) (slot 32 0)) ++ concat (replicate (Z.to_nat (tph_n p - 1)) (slot 64 0))
  ++ concat (replicate (Z.to_nat (2 * tph_n p)) (slot 32 0)) ++ x20 :: tph_challenge p.

Definition toy_phase_read (raw : bytes) : result (toy_phase * bytes) :=
  let n := be_dec (take 8 (drop 288 raw)) in
  let size := Z.to_nat (contribution_size n) in
  let p := mkToyPhase n (be_dec (take 31 (drop 1 raw))) (take 32 (drop (size - 32) raw)) in
  _ ← fail_if (negb (bool_decide (take size raw = toy_phase_write p))) "malformed contribution";
  Ok (p, drop size raw).

Definition toy_blind (tau s : Z) : Z := (tau * (1 + s mod (g_order BN - 1))) mod g_order BN.

Definition toy_verify (p next : toy_phase) : result toy_phase :=
  _ ← fail_if (negb ((tph_n next =? tph_n p) && (0 <? tph_tau next) && (tph_tau next <? g_order BN)
                     && bool_decide (tph_challenge next = sha256 (toy_phase_write p)))) "contribution does not follow";
  Ok next.

#[export] Instance toy_phase1 : Phase1Backend := {|
  Phase1 := toy_phase;
  NewPhase1 n := mkToyPhase n 1 (replicate 32 x00);
  ph_write p := Ok (toy_phase_write p);
  ph_read := toy_phase_read;
  ph_verify := toy_verify;
  ph_contribute rand p := mkToyPhase (tph_n p) (toy_blind (tph_tau p) rand) (sha256 (toy_phase_write p));
  ph_seal p beacon :=
    let tau := toy_blind (tph_tau p) (be_dec beacon) in
    (powers_from (Z.to_nat (2 * tph_n p - 1)) tau 1, [g_gen BN2; g_pow BN2 tau]);
|}.

Record toy_phase_ok (p : toy_phase) (n : Z) : Prop := mk_toy_phase_ok {
  tpo_n : tph_n p = n /\ 2 <= n <= 2 ^ 16;
  tpo_tau : 0 < tph_tau p < g_order BN;
  tpo_challenge : length (tph_challenge p) = 32%nat;
}.

Lemma toy_blind_range tau s : 0 < tau < g_order BN -> 0 < toy_blind tau s < g_order BN.
Proof.
  intros Ht. unfold toy_blind. pose proof (order_prime (P:=BN)) as Hp. assert (2 < g_order BN) as Hr by reflexivity.
  assert (0 <= s mod (g_order BN - 1) < g_order BN - 1) by (apply Z.mod_pos_bound; lia).
  assert (0 <= (tau * (1 + s mod (g_order BN - 1))) mod g_order BN < g_order BN) by (apply Z.mod_pos_bound; lia).
  assert ((tau * (1 + s mod (g_order BN - 1))) mod g_order BN <> 0); [|lia].
  rewrite <- cong_0_mod, cong_mul_0 by done. intros [H1|H1]; revert H1; apply cong_scalar_nonzero; lia.
Qed.

Lemma toy_phase_layout p n :
  toy_phase_ok p n -> exists pok beta tau1 tau2 ab challenge, contribution_layout (toy_phase_write p) n pok beta tau1 tau2 ab challenge.
Proof.
  intros [[<- Hn] Ht Hc]. unfold toy_phase_write. do 6 eexists. split; [..|reflexivity].
  - split; [by rewrite length_replicate|]. apply Forall_replicate. eexists _, _. split; [reflexivity|]. split; apply slot_seg.
  - apply slot_seg.
  - split; [rewrite length_replicate; lia|]. apply Forall_replicate, slot_seg.
  - split; [rewrite length_replicate; lia|]. apply Forall_replicate, slot_seg.
  - split; [rewrite length_replicate; lia|]. apply Forall_replicate, slot_seg.
  - done.
Qed.

Lemma toy_phase_read_write p n : toy_phase_ok p n -> toy_phase_read (toy_phase_write p) = Ok (p, []).
Proof.
  intros Hok. destruct (toy_phase_layout p n Hok) as (pok & beta & tau1 & tau2 & ab & ch & HL).
  pose proof (contribution_layout_size _ _ _ _ _ _ _ _ HL) as Hs. destruct Hok as [[<- Hn] Ht Hc].
  assert (be_dec (take 31 (drop 1 (toy_phase_write p))) = tph_tau p) as E1.
  { assert (exists post, toy_phase_write p = xc0 :: be_enc 31 (tph_tau p) ++ post) as [post ->].
    { eexists. unfold toy_phase_write. cbn [replicate concat]. unfold slot at 1. cbn [app Nat.sub]. rewrite <- !app_assoc. reflexivity. }
    rewrite skipn_cons, drop_0, take_app_length' by (by rewrite length_be_enc).
    apply be_dec_enc_small. assert (g_order BN < 2 ^ 248) by reflexivity. cbn [Nat.mul Nat.add Z.of_nat]. lia. }
  assert (be_dec (take 8 (drop 288 (toy_phase_write p))) = tph_n p) as E2.
  { unfold toy_phase_write. rewrite drop_app_length' by (cbn [replicate concat]; rewrite !length_app; unfold slot; cbn [length]; rewrite !length_be_enc; reflexivity).
    rewrite take_app_length' by (by rewrite length_be_enc). apply be_dec_enc_small. cbn. lia. }
  assert (take 32 (drop (Z.to_nat (contribution_size (tph_n p)) - 32) (toy_phase_write p)) = tph_challenge p) as E3.
  { rewrite <- Hs, Nat2Z.id. replace (length (toy_phase_write p) - 32)%nat with (length (take (length (toy_phase_write p) - 32) (toy_phase_write p)))
      by (rewrite length_take; lia).
    assert (exists pre, toy_phase_write p = pre ++ tph_challenge p) as [pre E].
    { eexists. unfold toy_phase_write. rewrite (cons_middle x20 (concat _)), !app_assoc. reflexivity. }
    rewrite E, length_app, Hc, Nat.add_sub, take_app_length, drop_app_length. apply firstn_all2. lia. }
  unfold toy_phase_read. rewrite E1, E2, E3. replace (mkToyPhase (tph_n p) (tph_tau p) (tph_challenge p)) with p by (by destruct p).
  rewrite <- Hs, Nat2Z.id, firstn_all, drop_all, bool_decide_eq_true_2 by done. done.
Qed.

Lemma toy_verify_Ok p next next' :
  toy_verify p next = Ok next' <-> next' = next /\ tph_n next = tph_n p /\ 0 < tph_tau next < g_order BN /\
    tph_challenge next = sha256 (toy_phase_write p).
Proof.
  unfold toy_verify. rewrite bind_fail_if, negb_false_iff, !andb_true_iff, Z.eqb_eq, !Z.ltb_lt, bool_decide_eq_true.
  split; [intros [? [= <-]]|intros (-> & ?)]; naive_solver.
Qed.

Lemma toy_contribute_ok rand p n : toy_phase_ok p n -> toy_phase_ok (ph_contribute rand p) n.
Proof.
  intros [Hn Ht Hc]. split; cbn [ph_contribute toy_phase1 tph_n tph_tau tph_challenge]; [done|by apply toy_blind_range|apply Sha256.length_Sum256].
Qed.

#[export] Instance toy_phase1_laws : Phase1Laws.
Proof.
  refine {| phase_ok := toy_phase_ok |}.
  - intros n Hn. split; [done|by vm_compute|done].
  - intros p next next' n [[<- Hn] Ht Hc] (-> & E & Hr & Hch)%toy_verify_Ok. split; [by rewrite E|done|]. rewrite Hch. apply Sha256.length_Sum256.
  - intros rand p n Hok%(toy_contribute_ok rand). eexists. split; [reflexivity|]. split; [by eapply toy_phase_read_write|by apply toy_phase_layout].
  - intros rand p n [[<- Hn] Ht Hc]. eexists. apply toy_verify_Ok. split; [reflexivity|]. cbn [ph_contribute toy_phase1 tph_n tph_tau tph_challenge].
    split; [done|]. split; [by apply toy_blind_range|done].
  - intros p n beacon [[<- Hn] Ht Hc]. eexists _, _. split; [|split; reflexivity]. by apply toy_blind_range.
Defined.

Definition sample_beacon : bytes := replicate 32 x2a.

Lemma ceremony_completes_witness :
  exists raws params rc, ceremony_run 4 [] [5; 7] = Ok raws /\ len raws = len [5; 7] /\
    FinalizeQSDHCeremony 4 raws sample_beacon = Ok (params, rc) /\ ValidateParams params = Ok tt /\ len (p_Powers params) = 4 + 1.
Proof.
  apply (ceremony_completes toy_phase1_laws 4 4 [5; 7] sample_beacon); [reflexivity|done|by vm_compute|].
  apply (bool_decide_unpack _). vm_compute. exact I.
Defined.

Definition sample_transcript : list bytes := get_ok [] (ceremony_run 4 [] [5; 7]).
Definition no_receipt : QSDHCeremonyReceipt := mkReceipt "" "" "" 0 0 [] "" "".
Definition sample_final : Params * QSDHCeremonyReceipt :=
  get_ok (no_params, no_receipt) (FinalizeQSDHCeremony 4 sample_transcript sample_beacon).

Lemma sample_final_eq : FinalizeQSDHCeremony 4 sample_transcript sample_beacon = Ok (sample_final.1, sample_final.2).
Proof.
  assert (is_ok (FinalizeQSDHCeremony 4 sample_transcript sample_beacon) = true) as H by (vm_compute; reflexivity).
  rewrite <- surjective_pairing. exact (get_ok_eq (no_params, no_receipt) _ H).
Qed.

Lemma ceremony_sound_witness : finalized 4 sample_transcript sample_beacon sample_final.1 sample_final.2.
Proof. exact (ceremony_sound 4 sample_transcript sample_beacon _ _ sample_final_eq). Defined.

Definition sample_contribution : bytes := default [] (sample_transcript !! 0%nat).

Definition sample_state : toy_phase := get_ok (mkToyPhase 0 0 []) (decodeQSDHContribution sample_contribution 4).

Lemma contribution_exact_witness :
  (exists pok beta tau1 tau2 ab challenge, contribution_layout sample_contribution 4 pok beta tau1 tau2 ab challenge) /\
  toy_phase_read sample_contribution = Ok (sample_state, []) /\ Ok (toy_phase_write sample_state) = Ok sample_contribution.
Proof.
  assert (H : is_ok (decodeQSDHContribution sample_contribution 4) = true) by (vm_compute; reflexivity).
  exact (proj1 (contribution_exact (PB:=toy_phase1) sample_contribution 4 sample_state ltac:(lia)) (get_ok_eq (mkToyPhase 0 0 []) _ H)).
Defined.
