(* ===== verification/Stdio.v ===== *)
(** * The stdio server ([cmd/lktrs-native/main.go])

    [serve] starts a service, perhaps from a ledger file and a saved setup,
    and answers length-prefixed requests until the input ends. Standard input
    is a byte string, standard output the bytes written. A session handles
    exactly the frames of its input, in order, and every state it reaches is
    one the service's step relation reaches. *)

From S2P Require Import Prelude Bytes Sha256 Curve Toy Profile Samples Accumulator Circuit CircuitFacts.
From S2P Require Import Statements Backend BackendFacts ToyProofs Protocol ProtocolFacts Security Wire Encodings Text.
From S2P Require Import Json JsonStream JsonFacts JsonStreamFacts Service ServiceFacts ServiceSteps ServiceClaims SetupEncoding Setup SetupFacts.

(** The [limit] of a frame. *)
Definition frame_limit : Z := 16 * 2 ^ 20.

Definition frame (b : bytes) : bytes := be_enc 4 (Z.of_nat (length b)) ++ b.

(** [binary.Read] of the size: [None] at the end of the input. *)
Definition read_size (input : bytes) : result (option (Z * bytes)) :=
  match input with
  | [] => Ok None
  | _ =>
      _ ← fail_if (length input <? 4)%nat "unexpected EOF";
      Ok (Some (be_dec (take 4 input), drop 4 input))
  end.

(** [io.ReadFull] into a slice of the given size. *)
Definition read_frame (size : nat) (input : bytes) : result (bytes * bytes) :=
  if (size <=? length input)%nat then Ok (take size input, drop size input)
  else match input with [] => Err "EOF" | _ => Err "unexpected EOF" end.

Section defs.
Context `{CR : !Crypto, GR : !Groth16, SB : !SetupBackend}.

(** The environment of one request, and a failure to write its response:
    before the header, or between header and body. *)
Inductive write_fault :=
  | HeaderFault (e : error)
  | BodyFault (e : error).

Record FrameEnv := mkFrameEnv {
  fe_env : Env;
  fe_write : option write_fault;
}.

Definition write_frame (f : option write_fault) (response out : bytes) : result unit * bytes :=
  match f with
  | Some (HeaderFault e) => (Err e, out)
  | Some (BodyFault e) => (Err e, out ++ be_enc 4 (Z.of_nat (length response)))
  | None => (Ok tt, out ++ frame response)
  end.

(** The loop of [serve]; [i] counts the requests. *)
Fixpoint serve_loop (fuel : nat) (envs : nat -> FrameEnv) (i : nat) (input : bytes) (w : World) (out : bytes)
    : result unit * World * bytes :=
  match fuel with
  | O => (Err "out of fuel", w, out)
  | S fuel =>
      match (s ← read_size input;
             match s with
             | None => Ok None
             | Some (size, rest) =>
                 _ ← fail_if (frame_limit <? size) "frame exceeds 16777216 bytes";
                 '(raw, rest) ← read_frame (Z.to_nat size) rest;
                 Ok (Some (raw, rest))
             end) with
      | Err e => (Err e, w, out)
      | Ok None => (Ok tt, w, out)
      | Ok (Some (raw, rest)) =>
          let '(response, w) := Handle (fe_env (envs i)) raw w in
          if frame_limit <? Z.of_nat (length response) then (Err "response too large", w, out)
          else
            match write_frame (fe_write (envs i)) response out with
            | (Err e, out) => (Err e, w, out)
            | (Ok _, out) => serve_loop fuel envs (S i) rest w out
            end
      end
  end.

(** What [serve] finds: resource limits, [LKTRS_STATE_PATH] (empty when not
    set) and the ledger file there, directories and their read failures. *)
Record ServeEnv := mkServeEnv {
  se_limits : option error;
  se_statePath : string;
  se_ledger : option bytes;
  se_dir : string -> option bundle;
  se_io : read_io;
}.

Definition start_service (se : ServeEnv) (setupDir pinText : string) : result World :=
  _ ← match se_limits se with Some e => Err e | None => Ok tt end;
  service ← (if String.eqb (se_statePath se) "" then Ok NewService
             else NewPersistentService (se_statePath se) (se_ledger se));
  service ← (if negb (String.eqb setupDir "") || negb (String.eqb pinText "") then
               _ ← fail_if (String.eqb setupDir "" || String.eqb pinText "")
                     "--setup and --manifest-sha256 must be supplied together";
               pin ← ParseDigest pinText;
               match ServiceLoadSetup (se_io se) (se_dir se setupDir) pin service with
               | (Ok _, s) => Ok s
               | (Err e, _) => Err e
               end
             else Ok service);
  Ok (mkWorld service (se_ledger se)).

Definition serve (se : ServeEnv) (envs : nat -> FrameEnv) (setupDir pinText : string) (input : bytes)
    : result unit * option World * bytes :=
  match start_service se setupDir pinText with
  | Err e => (Err e, None, [])
  | Ok w =>
      let '(r, w, out) := serve_loop (S (length input)) envs 0 input w [] in (r, Some w, out)
  end.

(** ** Sessions *)

(** The requests of a session, handled in order. *)
Fixpoint handle_all (envs : nat -> FrameEnv) (i : nat) (reqs : list bytes) (w : World) : list bytes * World :=
  match reqs with
  | [] => ([], w)
  | raw :: reqs =>
      let '(response, w) := Handle (fe_env (envs i)) raw w in
      let '(responses, w) := handle_all envs (S i) reqs w in
      (response :: responses, w)
  end.
End defs.

(** Input that neither is empty nor starts with a frame within the limit. *)
Definition bad_input (rest : bytes) : Prop :=
  rest <> [] /\ forall raw tl, len raw <= frame_limit -> rest <> frame raw ++ tl.

Lemma read_size_Ok input r :
  read_size input = Ok r <->
  match r with
  | None => input = []
  | Some (size, rest) => 0 <= size < 2 ^ 32 /\ input = be_enc 4 size ++ rest
  end.
Proof.
  unfold read_size. destruct input as [|b input].
  - destruct r as [[size rest]|]; split; [done| |done|done]. intros [_ E]. by apply (f_equal length) in E.
  - assert (b :: input <> []) as Hne by done. revert Hne. generalize (b :: input). clear b input. intros input Hne.
    rewrite bind_fail_if, Nat.ltb_ge. destruct r as [[size rest]|].
    + split.
      * intros [Hl [= <- <-]]. pose proof (be_dec_range (take 4 input)) as Hr.
        assert (length (take 4 input) = 4%nat) as Ht by (rewrite length_take; lia). rewrite Ht in Hr.
        split; [exact Hr|]. by rewrite be_enc_dec, take_drop.
      * intros [Hr E]. rewrite E, length_app, length_be_enc. split; [lia|].
        rewrite take_app_length', drop_app_length' by (by rewrite length_be_enc). by rewrite be_dec_enc_small by (cbn; lia).
    + split; [by intros [_ ?]|done].
Qed.

Lemma read_frame_Ok size input raw rest : read_frame size input = Ok (raw, rest) <-> input = raw ++ rest /\ length raw = size.
Proof.
  unfold read_frame. destruct (Nat.leb_spec size (length input)) as [H|H].
  - split; [intros [= <- <-]; rewrite take_drop, length_take; split; [done|lia]|].
    intros [-> <-]. by rewrite take_app_length, drop_app_length.
  - split; [by destruct input|]. intros [-> <-]. rewrite length_app in H. lia.
Qed.

Section facts.
Context `{CR : !Crypto, CL : !CryptoLaws, GR : !Groth16}.

(** The head of the loop: the next frame, the end, or input that is bad. *)
Lemma next_frame (input : bytes) :
  match (s ← read_size input;
         match s with
         | None => Ok None
         | Some (size, rest) =>
             _ ← fail_if (frame_limit <? size) "frame exceeds 16777216 bytes";
             '(raw, rest) ← read_frame (Z.to_nat size) rest;
             Ok (Some (raw, rest))
         end) with
  | Err _ => bad_input input
  | Ok None => input = []
  | Ok (Some (raw, rest)) => input = frame raw ++ rest /\ len raw <= frame_limit
  end.
Proof.
  destruct (read_size input) as [s|] eqn:ES.
  - apply read_size_Ok in ES. cbn [mbind result_bind]. destruct s as [[size rest]|]; [|done]. destruct ES as [Hs ->].
    destruct (Z.ltb_spec frame_limit size) as [Hb|Hb]; cbn [fail_if mbind result_bind].
    + split; [by destruct (be_enc 4 size) eqn:E; [apply (f_equal length) in E; rewrite length_be_enc in E|]|].
      intros raw tl Hl. unfold frame. rewrite <- app_assoc. intros [E _]%app_inj_1; [|by rewrite !length_be_enc]. apply be_enc_inj in E; [lia|cbn; lia|].
      unfold frame_limit in Hl. cbn. lia.
    + destruct (read_frame (Z.to_nat size) rest) as [[raw tl]|] eqn:ER; cbn [mbind result_bind].
      * apply read_frame_Ok in ER as [-> Hl]. unfold frame. rewrite Hl, Z2Nat.id, <- app_assoc by lia. split; [done|lia].
      * split; [by destruct (be_enc 4 size) eqn:E; [apply (f_equal length) in E; rewrite length_be_enc in E|]|].
        intros raw tl Hl. unfold frame. rewrite <- app_assoc. intros [E Er]%app_inj_1; [|by rewrite !length_be_enc].
        apply be_enc_inj in E; [|cbn; lia|unfold frame_limit in Hl; cbn; lia].
        assert (read_frame (Z.to_nat size) rest = Ok (raw, tl)) by (apply read_frame_Ok; split; [done|lia]). congruence.
  - split; [by intros ->|]. intros raw tl Hl ->. unfold frame_limit in Hl.
    assert (read_size (frame raw ++ tl) = Ok (Some (len raw, raw ++ tl))); [|congruence].
    apply read_size_Ok. unfold frame. rewrite <- app_assoc. split; [lia|done].
Qed.

Lemma Handle_step env raw w response w' : wf_env env -> Handle env raw w = (response, w') -> w' = w \/ step w w'.
Proof.
  intros Henv. unfold Handle, respond. destruct (decodeRequest raw) as [q|e] eqn:ED; [|intros [= <- <-]; by left].
  apply decodeRequest_wf in ED as Hq. destruct (run_service env q w) as [[out oe] w1] eqn:ER.
  intros E. right. assert (w1 = w') as ->; [|by eapply step_request]. by destruct oe; injection E.
Qed.

(** What a session without failed writes amounts to. *)
Record session (envs : nat -> FrameEnv) (i : nat) (input : bytes) (w : World) (r : result unit) (w' : World) (out : bytes)
    (reqs responses : list bytes) (rest : bytes) : Prop := mk_session {
  ss_input : input = concat (frame <$> reqs) ++ rest;
  ss_limit : Forall (fun raw => len raw <= frame_limit) reqs;
  ss_handled : handle_all envs i reqs w = (responses, w');
  ss_end : (r = Ok tt /\ rest = [] /\ out = concat (frame <$> responses))
    \/ (r <> Ok tt /\ bad_input rest /\ out = concat (frame <$> responses))
    \/ (r <> Ok tt /\ exists answered large, responses = answered ++ [large] /\ frame_limit < len large /\ out = concat (frame <$> answered));
}.

Lemma serve_loop_session fuel envs i input w out0 r w' out :
  (length input < fuel)%nat -> (forall j, fe_write (envs j) = None) ->
  serve_loop fuel envs i input w out0 = (r, w', out) ->
  exists out1 reqs responses rest, out = out0 ++ out1 /\ session envs i input w r w' out1 reqs responses rest.
Proof.
  intros Hf Hw. revert i input w out0 Hf. induction fuel as [|fuel IH]; intros i input w out0 Hf; [lia|]. cbn [serve_loop].
  pose proof (next_frame input) as HN. destruct (mbind _ (read_size input)) as [[[raw rest]|]|e].
  - destruct HN as [-> Hl]. destruct (Handle (fe_env (envs i)) raw w) as [response w1] eqn:EH.
    destruct (Z.ltb_spec frame_limit (len response)) as [Hb|Hb].
    + intros [= <- <- <-]. exists [], [raw], [response], rest. split; [by rewrite app_nil_r|]. split; [cbn [fmap list_fmap concat]; by rewrite app_nil_r|by constructor| |].
      * cbn [handle_all]. by rewrite EH.
      * right. right. split; [done|]. by exists [], response.
    + rewrite Hw. cbn [write_frame]. intros E. apply IH in E as (out1 & reqs & responses & rest' & -> & [-> HF HH HE]).
      2: { unfold frame in Hf. rewrite !length_app, length_be_enc in Hf. lia. }
      exists (frame response ++ out1), (raw :: reqs), (response :: responses), rest'. split; [by rewrite app_assoc|].
      split; [cbn [fmap list_fmap concat]; by rewrite app_assoc|by constructor|cbn [handle_all]; by rewrite EH, HH|].
      destruct HE as [(-> & -> & ->)|[(Hr & Hbad & ->)|(Hr & answered & large & -> & Hlg & ->)]]; [by left|right; by left|].
      right. right. split; [done|]. by exists (response :: answered), large.
  - subst input. intros [= <- <- <-]. exists [], [], [], []. split; [by rewrite app_nil_r|]. split; [done|constructor|done|by left].
  - intros [= <- <- <-]. exists [], [], [], input. split; [by rewrite app_nil_r|]. split; [done|constructor|done|]. right. by left.
Qed.

Lemma reachable_trans w1 w2 w3 : reachable w1 w2 -> reachable w2 w3 -> reachable w1 w3.
Proof. intros H1 H2. induction H2; [done|]. by eapply reach_step. Qed.

Lemma handle_all_reachable envs i reqs w responses w' :
  (forall j, wf_env (fe_env (envs j))) -> handle_all envs i reqs w = (responses, w') -> reachable w w'.
Proof.
  intros Henv. revert i w responses. induction reqs as [|raw reqs IH]; intros i w responses; cbn [handle_all]; [intros [= <- <-]; constructor|].
  destruct (Handle (fe_env (envs i)) raw w) as [response w1] eqn:EH. destruct (handle_all envs (S i) reqs w1) as [rs w2] eqn:EA.
  intros [= <- <-]. apply IH in EA. apply Handle_step in EH as [->|HS]; [done| |done].
  eapply reachable_trans; [|exact EA]. eapply reach_step; [constructor|done].
Qed.

(** C28: sessions. For every input the loop of [serve] ends; what it handled
    is exactly the frames at the start of the input, in order, each answered
    by one frame of output; it returns without an error exactly when the
    whole input was such frames, and otherwise stops at input that is not a
    frame within the limit or at a response over it. The service goes through
    states of its step relation only, so what holds of reachable states holds
    for the process. *)
Theorem stdio_session envs input w r w' out :
  (forall j, fe_write (envs j) = None) -> (forall j, wf_env (fe_env (envs j))) ->
  serve_loop (S (length input)) envs 0 input w [] = (r, w', out) ->
  (exists reqs responses rest, session envs 0 input w r w' out reqs responses rest) /\ reachable w w'.
Proof.
  intros Hw Henv (out1 & reqs & responses & rest & -> & HS)%serve_loop_session; [|lia|done].
  split; [by exists reqs, responses, rest|]. eapply handle_all_reachable; [done|apply HS].
Qed.

(** More fuel changes nothing: the loop has ended by itself. *)
Lemma serve_loop_fuel fuel envs i input w out :
  (length input < fuel)%nat -> serve_loop fuel envs i input w out = serve_loop (S (length input)) envs i input w out.
Proof.
  intros Hf. remember (S (length input)) as fuel' eqn:Ef. assert (length input < fuel')%nat as Hf' by lia. clear Ef.
  revert fuel' i input w out Hf Hf'. induction fuel as [|fuel IH]; intros fuel' i input w out Hf Hf'; [lia|].
  destruct fuel' as [|fuel']; [lia|]. cbn [serve_loop]. pose proof (next_frame input) as HN.
  destruct (mbind _ (read_size input)) as [[[raw rest]|]|e]; [|done|done]. destruct HN as [-> _].
  unfold frame in Hf, Hf'. rewrite !length_app, length_be_enc in Hf, Hf'.
  destruct (Handle _ _ _) as [response w1]. destruct (frame_limit <? len response); [done|].
  destruct (write_frame _ _ _) as [[[]|] out']; [|done]. apply IH; lia.
Qed.
End facts.

(** A session of two requests and half a frame. *)
Definition session_input : bytes :=
  frame (marshal (enc_struct [("op", enc_string "info")])) ++ frame (marshal (enc_struct [])) ++ [Byte.x00; Byte.x00].
Definition session_envs (i : nat) : FrameEnv := mkFrameEnv (svc_env 1 1) None.
Definition session_result : result unit * World * bytes :=
  serve_loop (S (length session_input)) session_envs 0 session_input (mkWorld NewService None) [].

Lemma stdio_session_witness :
  (exists reqs responses rest, session session_envs 0 session_input (mkWorld NewService None) session_result.1.1 session_result.1.2
     session_result.2 reqs responses rest) /\ reachable (mkWorld NewService None) session_result.1.2.
Proof.
  apply (stdio_session session_envs session_input (mkWorld NewService None) session_result.1.1 session_result.1.2 session_result.2).
  - reflexivity.
  - intros j. exact (fixed_rand_in_range 12345).
  - change (session_result = (session_result.1.1, session_result.1.2, session_result.2)). by destruct session_result as [[? ?] ?].
Defined.

Example session_stops : bool_decide (session_result.1.1 = Err "unexpected EOF") = true.
Proof. vm_compute. reflexivity. Qed.
