(* ===== verification/Native.v ===== *)
(** * The command line tool ([cmd/lktrs-native/artifact.go], [trust.go])

    The commands [setup], [export-public], [sample], [verify] and
    [verify-authorized], from their parsed flags to the text they print. The
    file system is a map from directories to the files in them; a path names
    a directory, or a file in the directory before its last slash. *)

From S2P Require Import Prelude Bytes Sha256 Curve Toy Profile Samples Accumulator Circuit CircuitFacts.
From S2P Require Import Statements Backend BackendFacts ToyProofs Protocol ProtocolFacts Security Wire Encodings Text.
From S2P Require Import Json JsonStream JsonFacts JsonStreamFacts Service ServiceFacts SetupEncoding Setup SetupFacts Context Trust Stdio.

(** ** Paths *)

Abbreviation filesystem := (gmap string bundle).

Definition slash : ascii := "/".

(** [filepath.Join] of a directory and a name in it. *)
Definition join (dir name : string) : string := dir +:+ String slash name.

(** The directory and the name: what is before and after the last slash. *)
Fixpoint split_path (s : string) : option (string * string) :=
  match s with
  | EmptyString => None
  | String c s =>
      match split_path s with
      | Some (dir, name) => Some (String c dir, name)
      | None => if Ascii.eqb c slash then Some (EmptyString, s) else None
      end
  end.

Definition file_at (fs : filesystem) (path : string) : option file :=
  match split_path path with
  | Some (dir, name) => fs !! dir ≫= fun b => b !! name
  | None => None
  end.

(** [os.Lstat] finds something. *)
Definition present (fs : filesystem) (path : string) : bool := bool_decide (is_Some (fs !! path)) || bool_decide (is_Some (file_at fs path)).

Definition put_dir (fs : filesystem) (dir : string) (b : option bundle) : filesystem :=
  match b with Some b => <[dir := b]> fs | None => fs end.

(** ** Flags *)

Record Flags := mkFlags {
  fl_setup : string;
  fl_pin : string;
  fl_out : string;
  fl_capacity : Z;
  fl_context : string;
  fl_message : string;
  fl_signature : string;
  fl_visited : list string;   (* the flags that were set, in order of name *)
  fl_nargs : nat;             (* positional arguments *)
}.

Definition allowed (op : string) : list string :=
  if String.eqb op "setup" then ["out"; "capacity"]
  else if String.eqb op "export-public" || String.eqb op "sample" then ["setup"; "manifest-sha256"; "out"]
  else if String.eqb op "verify" then ["setup"; "manifest-sha256"; "context"; "message"; "signature"]
  else [].

(** [fs.Visit] keeps the last flag that is not allowed. *)
Definition flag_error (op : string) (visited : list string) : option error :=
  match rev (List.filter (fun f => negb (bool_decide (f ∈ allowed op))) visited) with
  | f :: _ => Some ("flag --" +:+ f +:+ " is not supported by " +:+ op)
  | [] => None
  end.

(** [json.NewEncoder(w).Encode]; the keys of the map in order. *)
Definition emitJSON (fields : list (string * json)) : bytes := marshal (enc_struct fields) ++ [z2b 10].

(** Randomness, failures of the system calls, and the clock. *)
Record CliEnv := mkCliEnv {
  ce_setup : Z -> result Z;             (* Setup's trapdoor *)
  ce_backend : Z;                       (* groth16.Setup *)
  ce_keys : nat -> Z -> result Z;       (* the draws of KeyGen *)
  ce_prove : Z;                         (* groth16.Prove *)
  ce_io : string -> option error;       (* reading the file at a path *)
  ce_fault : option fault;              (* publishing a bundle *)
  ce_write : option error;              (* writing the sample *)
  ce_now : Z;                           (* loading the verifier *)
  ce_later : Z;                         (* verifying *)
}.

(** Reading the files of a directory. *)
Definition dir_io (ce : CliEnv) (dir : string) : read_io := fun name => ce_io ce (join dir name).

Definition read_file (ce : CliEnv) (fs : filesystem) (path : string) (max : Z) : result bytes :=
  ReadBoundedFile (ce_io ce path) (file_at fs path) max.

Section defs.
Context `{CR : !Crypto, GR : !Groth16, SB : !SetupBackend, ED : !Ed25519}.

Definition sample_message : bytes := ascii_bytes "Lk-TRS setup export/load reproduction" ++ [z2b 10].
Definition reproduction_issue : bytes := sha256 (ascii_bytes "lktrs/reproduction/issue").

(** What [writeSample] computes: the files it writes. *)
Definition make_sample (ce : CliEnv) (setup : LoadedSetup) : result (list (string * bytes)) :=
  _ ← fail_if (m_Capacity (ls_Manifest setup) <? 3) "sample requires setup capacity >= 3";
  '(a, x) ← KeyGen (ce_keys ce 0) (ce_keys ce 1) None;
  '(b, _) ← KeyGen (ce_keys ce 2) (ce_keys ce 3) (Some x);
  '(c, _) ← KeyGen (ce_keys ce 4) (ce_keys ce 5) None;
  let accounts := [a; b; c] in
  ring ← NewSnapshot (ls_Parameters setup) accounts;
  signer ← NewSigner (Some x);
  sig ← fst (Sign signer (ls_Prover setup) (ce_prove ce) ring 0 reproduction_issue 3 sample_message 1);
  ctx ← NewVerificationContext (ls_Parameters setup) accounts reproduction_issue 3;
  _ ← Verify (Some (ls_Verifier setup)) ctx sample_message sig;
  public ← MarshalVerificationContext ctx;
  enc ← MarshalSigned sig;
  Ok [("context.json", public); ("message.bin", sample_message); ("signature.bin", enc)].

(** [os.Mkdir] fails on an existing directory; a failed write removes it. *)
Definition writeSample (ce : CliEnv) (dir : string) (setup : LoadedSetup) (fs : filesystem) : result unit * filesystem :=
  match make_sample ce setup with
  | Err e => (Err e, fs)
  | Ok files =>
      if present fs dir then (Err "file exists", fs)
      else
        match ce_write ce with
        | Some e => (Err e, fs)
        | None => (Ok tt, <[dir := list_to_map ((fun kv => (kv.1, private_file kv.2)) <$> files)]> fs)
        end
  end.

Definition setup_command (ce : CliEnv) (fl : Flags) (fs : filesystem) : result bytes * filesystem :=
  match (_ ← fail_if (String.eqb (fl_out fl) "") "--out required";
         _ ← fail_if (present fs (fl_out fl)) "output already exists or cannot be inspected";
         params ← Setup (ce_setup ce) (fl_capacity fl);
         '(prover, verifier) ← NewBackend (ce_backend ce);
         Ok (params, prover, verifier)) with
  | Err e => (Err e, fs)
  | Ok (params, prover, verifier) =>
      let '(pin, dst) := ExportSetup (ce_fault ce) (fs !! fl_out fl) params (Some prover) (Some verifier) in
      (pin ← pin;
       Ok (emitJSON [("manifest_sha256", enc_string (hex_encode pin)); ("setup", enc_string (fl_out fl));
                     ("setup_kind", enc_string "local-single-party")]),
       put_dir fs (fl_out fl) dst)
  end.

Definition export_command (ce : CliEnv) (fl : Flags) (pin : bytes) (fs : filesystem) : result bytes * filesystem :=
  if String.eqb (fl_out fl) "" then (Err "--out required", fs)
  else
    let '(r, dst) := ExportPublicSetup (dir_io ce (fl_setup fl)) (ce_fault ce) (fs !! fl_setup fl) (fs !! fl_out fl) pin in
    (_ ← r; Ok (emitJSON [("manifest_sha256", enc_string (fl_pin fl)); ("public_setup", enc_string (fl_out fl))]),
     put_dir fs (fl_out fl) dst).

Definition sample_command (ce : CliEnv) (fl : Flags) (pin : bytes) (fs : filesystem) : result bytes * filesystem :=
  match (_ ← fail_if (String.eqb (fl_out fl) "") "--out required";
         _ ← fail_if (present fs (fl_out fl)) "sample output exists or cannot be inspected";
         LoadSetup (dir_io ce (fl_setup fl)) (fs !! fl_setup fl) pin) with
  | Err e => (Err e, fs)
  | Ok loaded =>
      let '(r, fs) := writeSample ce (fl_out fl) loaded fs in
      (_ ← r;
       Ok (emitJSON [("manifest_sha256", enc_string (fl_pin fl)); ("sample", enc_string (fl_out fl));
                     ("vk_sha256", enc_string (ad_SHA256 (m_VerifyingKey (ls_Manifest loaded))))]),
       fs)
  end.

Definition verify_command (ce : CliEnv) (fl : Flags) (pin : bytes) (fs : filesystem) : result bytes :=
  _ ← fail_if (String.eqb (fl_context fl) "" || String.eqb (fl_message fl) "" || String.eqb (fl_signature fl) "")
        "--context, --message and --signature required";
  loaded ← LoadPublicSetup (dir_io ce (fl_setup fl)) (fs !! fl_setup fl) pin;
  raw ← read_file ce fs (fl_context fl) MaxPublicContextBytes;
  ctx ← UnmarshalVerificationContext (ls_Parameters loaded) raw;
  msg ← read_file ce fs (fl_message fl) frame_limit;
  enc ← read_file ce fs (fl_signature fl) (2 * 2 ^ 20);
  sig ← UnmarshalSigned enc;
  _ ← Verify (Some (ls_Verifier loaded)) ctx msg sig;
  Ok (emitJSON [("manifest_sha256", enc_string (fl_pin fl)); ("verified", JBool true);
                ("vk_sha256", enc_string (ad_SHA256 (m_VerifyingKey (ls_Manifest loaded))))]).

(** [artifactCommand] once the flags are parsed; the name of an unknown
    command is left out of its error. *)
Definition artifactCommand (ce : CliEnv) (op : string) (fl : Flags) (fs : filesystem) : result bytes * filesystem :=
  if negb (fl_nargs fl =? 0)%nat then (Err "unexpected positional arguments", fs)
  else
    match flag_error op (fl_visited fl) with
    | Some e => (Err e, fs)
    | None =>
        if negb (bool_decide (op ∈ ["setup"; "export-public"; "sample"; "verify"])) then (Err "unknown command", fs)
        else if String.eqb op "setup" then setup_command ce fl fs
        else
          match (_ ← fail_if (String.eqb (fl_setup fl) "" || String.eqb (fl_pin fl) "") "--setup and --manifest-sha256 required";
                 ParseDigest (fl_pin fl)) with
          | Err e => (Err e, fs)
          | Ok pin =>
              if String.eqb op "export-public" then export_command ce fl pin fs
              else if String.eqb op "sample" then sample_command ce fl pin fs
              else (verify_command ce fl pin fs, fs)
          end
    end.

(** ** [verify-authorized] *)

Record AuthFlags := mkAuthFlags {
  afl_setup : string;
  afl_policy : string;
  afl_approval : string;
  afl_registry : string;
  afl_message : string;
  afl_signature : string;
  afl_nargs : nat;
}.

Definition authorizedVerifyCommand (ce : CliEnv) (fl : AuthFlags) (fs : filesystem) : result bytes :=
  _ ← fail_if (negb (afl_nargs fl =? 0)%nat || String.eqb (afl_setup fl) "" || String.eqb (afl_policy fl) ""
               || String.eqb (afl_approval fl) "" || String.eqb (afl_registry fl) "" || String.eqb (afl_message fl) ""
               || String.eqb (afl_signature fl) "")
        "setup, policy, setup-approval, registry, message and signature required";
  raw ← read_file ce fs (afl_policy fl) 8192;
  policy ← ParseTrustPolicy raw;
  approval ← read_file ce fs (afl_approval fl) (16 * 2 ^ 20);
  verifier ← LoadAuthorizedVerifier (dir_io ce (afl_setup fl)) (fs !! afl_setup fl) policy approval (ce_now ce);
  registry ← read_file ce fs (afl_registry fl) (16 * 2 ^ 20);
  msg ← read_file ce fs (afl_message fl) frame_limit;
  encoded ← read_file ce fs (afl_signature fl) (2 * 2 ^ 20);
  sig ← UnmarshalSigned encoded;
  _ ← AuthorizedVerify (Some verifier) registry msg sig (ce_later ce);
  Ok (emitJSON [("authorization", enc_string "setup-and-registry"); ("manifest_sha256", enc_string (tp_ManifestSHA256 policy));
                ("registry_epoch", enc_uint (tp_RegistryEpoch policy)); ("verified", JBool true)]).

(** ** The dispatch *)

(** [artifactCommand] on the arguments of the process. What the flag package
    makes of the arguments after the command's name is given by
    [parse_flags] and [parse_auth], a failed [Parse] being an error. *)
Definition artifact_dispatch (ce : CliEnv) (parse_flags : string -> list string -> result Flags)
    (parse_auth : list string -> result AuthFlags) (args : list string) (fs : filesystem) : result bytes * filesystem :=
  match args with
  | [] => (Err "expected setup, export-public, sample, verify, or --stdio", fs)
  | op :: args =>
      if String.eqb op "verify-authorized" then (fl ← parse_auth args; authorizedVerifyCommand ce fl fs, fs)
      else
        match parse_flags op args with
        | Err e => (Err e, fs)
        | Ok fl => artifactCommand ce op fl fs
        end
  end.
End defs.
