(* ===== verification/NativeFacts.v ===== *)
(** * Properties of the command line tool

    What [sample] writes, [verify] accepts against any setup directory that
    loads under the same pin (unless files of the two directories collide); [verify-authorized] prints success only for
    signatures the authorized verifier accepts. *)

From S2P Require Import Prelude Bytes Sha256 Curve Toy Profile Samples Accumulator Circuit CircuitFacts.
From S2P Require Import Statements Backend BackendFacts ToyProofs Protocol ProtocolFacts Security Wire Encodings Text.
From S2P Require Import Json JsonStream JsonFacts JsonStreamFacts Service ServiceFacts SetupEncoding Setup SetupFacts Context Trust Stdio Native.

(** ** Paths *)

Lemma split_path_join dir name : split_path name = None -> split_path (join dir name) = Some (dir, name).
Proof.
  intros Hn. unfold join. induction dir as [|c dir IH].
  { change ("" +:+ String slash name) with (String slash name). cbn [split_path]. by rewrite Hn. }
  change (String c dir +:+ String slash name) with (String c (dir +:+ String slash name)). cbn [split_path]. by rewrite IH.
Qed.

Lemma join_nonempty dir name : String.eqb (join dir name) "" = false.
Proof. by destruct dir. Qed.

Section facts.
Context `{CR : !Crypto, CL : !CryptoLaws, GR : !Groth16, SB : !SetupBackend, PL : !PointLaws, SL : !SetupLaws SB}.

Lemma read_sample ce fs dir files name data max :
  (forall p, ce_io ce p = None) -> fs !! dir = Some (list_to_map ((fun kv => (kv.1, private_file kv.2)) <$> files)) ->
  split_path name = None -> NoDup files.*1 -> (name, data) ∈ files -> len data <= max ->
  read_file ce fs (join dir name) max = Ok data.
Proof.
  intros Hio Hd Hn Hnd Hin Hl. unfold read_file. rewrite Hio. apply ReadBoundedFile_Ok. split; [done|].
  exists 384. split; [|done]. unfold file_at. rewrite split_path_join by done. rewrite Hd. cbn [mbind option_bind].
  change (mkFile true 384 data) with (private_file data). apply elem_of_list_to_map_1.
  - rewrite <- list_fmap_compose. exact Hnd.
  - apply list_elem_of_fmap. by exists (name, data).
Qed.

(** The loaded prover's digests are digests. *)
Lemma loaded_prover io dir pin l p :
  loadSetup io dir pin true = Ok l -> ls_Prover l = Some p -> length (pr_circuitHash p) = 32%nat /\ length (pr_keyID p) = 32%nat.
Proof.
  intros (text & pp & key & cs & H)%loadSetup_Ok HP. destruct (lf_verifier _ _ _ _ _ _ _ _ _ H) as (ch & kid & Hch & Hkid & _ & Hpr). rewrite HP in Hpr.
  apply ParseDigest_Ok in Hch as [_ ?], Hkid as [_ ?]. destruct Hpr as (rk & pk & _ & _ & _ & ->). done.
Qed.

(** What a sample holds. *)
Lemma make_sample_Ok ce io dir pin l files :
  LoadSetup io dir pin = Ok l -> make_sample ce l = Ok files ->
  exists accounts ctx sig public enc, files = [("context.json", public); ("message.bin", sample_message); ("signature.bin", enc)] /\
    NewVerificationContext (ls_Parameters l) accounts reproduction_issue 3 = Ok ctx /\
    Verify (Some (ls_Verifier l)) ctx sample_message sig = Ok tt /\ MarshalVerificationContext ctx = Ok public /\
    MarshalSigned sig = Ok enc /\ UnmarshalSigned enc = Ok sig.
Proof using CL.
  intros HL. unfold make_sample. intros [_ E]%bind_fail_if. apply bind_Ok in E as ([a x] & _ & E). apply bind_Ok in E as ([b x'] & _ & E).
  apply bind_Ok in E as ([c x''] & _ & E). apply bind_Ok in E as (ring & _ & E). apply bind_Ok in E as (signer & _ & E).
  apply bind_Ok in E as (sig & HS & E). apply bind_Ok in E as (ctx & HC & E). apply bind_Ok in E as ([] & HV & E).
  apply bind_Ok in E as (public & HM & E). apply bind_Ok in E as (enc & HE & [= <-]).
  exists [a; b; c], ctx, sig, public, enc. split_and!; try done. apply UnmarshalSigned_Ok. split; [|done].
  assert (sign_result signer (ls_Prover l) (ce_prove ce) ring 0 reproduction_issue 3 sample_message 1 = Ok sig) as HR.
  { unfold Sign in HS. by destruct (sign_result _ _ _ _ _ _ _ _ _). }
  destruct (ls_Prover l) as [p|] eqn:EP; [|done]. destruct (loaded_prover _ _ _ _ _ HL EP) as [H1 H2].
  eapply signed_wf; [exact H1|exact H2|exact HR|apply Sha256.length_Sum256|lia|lia].
Qed.

Lemma sample_command_Ok ce fl pin fs text fs' :
  sample_command ce fl pin fs = (Ok text, fs') ->
  exists l files, LoadSetup (dir_io ce (fl_setup fl)) (fs !! fl_setup fl) pin = Ok l /\ make_sample ce l = Ok files /\
    fs !! fl_out fl = None /\ fs' = <[fl_out fl := list_to_map ((fun kv => (kv.1, private_file kv.2)) <$> files)]> fs.
Proof.
  unfold sample_command, writeSample. destruct (String.eqb (fl_out fl) ""); [done|]. destruct (present fs (fl_out fl)) eqn:Ep; [done|].
  cbn [fail_if mbind result_bind]. destruct (LoadSetup _ _ _) as [l|]; [|done]. destruct (make_sample ce l) as [files|] eqn:EM; [|done].
  destruct (ce_write ce); [done|]. intros [= _ <-]. exists l, files. split_and!; try done.
  unfold present in Ep. apply orb_false_iff in Ep as [Ep%bool_decide_eq_false _]. by apply eq_None_not_Some.
Qed.

Lemma artifact_sample_Ok ce fl fs text fs' pin :
  artifactCommand ce "sample" fl fs = (Ok text, fs') -> ParseDigest (fl_pin fl) = Ok pin ->
  sample_command ce fl pin fs = (Ok text, fs').
Proof.
  unfold artifactCommand. intros HA HP. destruct (negb (fl_nargs fl =? 0)%nat); [done|].
  destruct (flag_error "sample" _); [done|]. change (negb (bool_decide ("sample" ∈ _))) with false in HA. cbv iota in HA.
  change (String.eqb "sample" "setup") with false in HA. cbv iota in HA. destruct (_ || _) in HA; [done|].
  cbn [fail_if mbind result_bind] in HA. rewrite HP in HA. change (String.eqb "sample" "export-public") with false in HA.
  change (String.eqb "sample" "sample") with true in HA. cbv iota in HA. exact HA.
Qed.

(** The sample is a new directory: the setup it was made from is kept. *)
Lemma sample_keeps_setup ce fl fs text fs' pin :
  artifactCommand ce "sample" fl fs = (Ok text, fs') -> ParseDigest (fl_pin fl) = Ok pin ->
  fs' !! fl_setup fl = fs !! fl_setup fl.
Proof.
  intros HA HP. pose proof (artifact_sample_Ok _ _ _ _ _ _ HA HP) as (l & files & HL & _ & Hn & ->)%sample_command_Ok.
  apply loadSetup_Ok in HL as (text' & pp & key & cs & H). pose proof (lf_text _ _ _ _ _ _ _ _ _ H) as Ht.
  rewrite lookup_insert_ne; [done|]. intros E. rewrite <- E, Hn in Ht. discriminate Ht.
Qed.

Lemma verify_sample ce fl pin fs dir accounts l ctx sig public enc :
  (forall p, ce_io ce p = None) ->
  fs !! dir = Some (list_to_map ((fun kv => (kv.1, private_file kv.2)) <$>
    [("context.json", public); ("message.bin", sample_message); ("signature.bin", enc)])) ->
  fl_context fl = join dir "context.json" -> fl_message fl = join dir "message.bin" -> fl_signature fl = join dir "signature.bin" ->
  LoadPublicSetup (dir_io ce (fl_setup fl)) (fs !! fl_setup fl) pin = Ok l ->
  NewVerificationContext (ls_Parameters l) accounts reproduction_issue 3 = Ok ctx ->
  Verify (Some (ls_Verifier l)) ctx sample_message sig = Ok tt -> MarshalVerificationContext ctx = Ok public ->
  UnmarshalSigned enc = Ok sig -> is_ok (verify_command ce fl pin fs) = true.
Proof using CL.
  intros Hio Hd E1 E2 E3 HL HC HV HM HU. unfold verify_command. rewrite E1, E2, E3, !join_nonempty. cbn [orb fail_if mbind result_bind].
  rewrite HL. cbn [mbind result_bind].
  assert (NoDup ([("context.json", public); ("message.bin", sample_message); ("signature.bin", enc)].*1)) as Hnd.
  { apply (bool_decide_unpack _). vm_compute. exact I. }
  rewrite (read_sample ce fs dir _ "context.json" public _ Hio Hd eq_refl Hnd); [|apply list_elem_of_here|].
  2: { unfold MarshalVerificationContext in HM. apply bind_fail_if in HM as [Hl%Z.ltb_ge HM].
    assert (public = marshal_indent (enc_public_context (encode_context ctx)) ++ [z2b 10]) as -> by congruence.
    rewrite length_app. change (length [z2b 10]) with 1%nat. lia. }
  cbn [mbind result_bind].
  destruct (context_read (ls_Parameters l) accounts reproduction_issue 3 ctx public HC) as [HR HVp]; [apply Sha256.length_Sum256|lia|done|].
  rewrite HR. cbn [mbind result_bind].
  rewrite (read_sample ce fs dir _ "message.bin" sample_message _ Hio Hd eq_refl Hnd);
    [|apply list_elem_of_further, list_elem_of_here|by vm_compute]. cbn [mbind result_bind].
  rewrite (read_sample ce fs dir _ "signature.bin" enc _ Hio Hd eq_refl Hnd); [|do 2 apply list_elem_of_further; apply list_elem_of_here|].
  2: { unfold UnmarshalSigned in HU. apply bind_fail_if in HU as [[_ Hl%Z.ltb_ge]%orb_false_iff _].
    trans (signaturePrefixBytes + maxProofBytes); [exact Hl|by vm_compute]. }
  cbn [mbind result_bind]. rewrite HU. cbn [mbind result_bind]. by rewrite HVp, HV.
Qed.

(** C33: samples verify. After [sample] wrote a directory, [verify] of its
    three files succeeds against every setup directory that loads under the
    same pin - the full bundle, or the public copy made by [export-public] -
    unless the two setup directories hold different files of one name and one
    SHA-256 digest. Against the directory [sample] itself read there is no
    exception. *)
Theorem sample_verifies ce fl fs text fs' ce' fl' pin l' :
  artifactCommand ce "sample" fl fs = (Ok text, fs') ->
  (forall p, ce_io ce' p = None) -> fl_nargs fl' = 0%nat -> flag_error "verify" (fl_visited fl') = None ->
  fl_setup fl' <> "" -> fl_pin fl' = fl_pin fl -> fl_context fl' = join (fl_out fl) "context.json" ->
  fl_message fl' = join (fl_out fl) "message.bin" -> fl_signature fl' = join (fl_out fl) "signature.bin" ->
  ParseDigest (fl_pin fl) = Ok pin -> LoadPublicSetup (dir_io ce' (fl_setup fl')) (fs' !! fl_setup fl') pin = Ok l' ->
  (is_ok (artifactCommand ce' "verify" fl' fs').1 = true \/ colliding_bundles (fs !! fl_setup fl) (fs' !! fl_setup fl')) /\
  (fl_setup fl' = fl_setup fl -> is_ok (artifactCommand ce' "verify" fl' fs').1 = true).
Proof using CL SL.
  intros HA Hio Hn Hf Hs Hpin E1 E2 E3 HP HL'. pose proof (sample_keeps_setup _ _ _ _ _ _ HA HP) as Hsame.
  enough (is_ok (artifactCommand ce' "verify" fl' fs').1 = true \/ colliding_bundles (fs !! fl_setup fl) (fs' !! fl_setup fl')) as H.
  { split; [done|]. intros Es. destruct H as [|Hc]; [done|]. rewrite Es, Hsame in Hc. destruct (no_self_collision _ Hc). }
  apply (artifact_sample_Ok _ _ _ _ _ pin) in HA; [|done]. apply sample_command_Ok in HA as (l & files & HL & HM & _ & ->).
  destruct (make_sample_Ok _ _ _ _ _ _ HL HM) as (accounts & ctx & sig & public & enc & -> & HC & HV & HMC & HMS & HU).
  destruct (loads_agree (dir_io ce (fl_setup fl)) (dir_io ce' (fl_setup fl')) _ _ pin true false l l' HL HL') as [_ [(EP & EV & _)|Hcol]]; [left|by right].
  rewrite EP in HC. rewrite EV in HV.
  unfold artifactCommand. rewrite Hn, Hf, Hpin. change (negb (bool_decide ("verify" ∈ _))) with false. cbn [Nat.eqb negb]. cbv iota.
  change (String.eqb "verify" "setup") with false. change (String.eqb "verify" "export-public") with false.
  change (String.eqb "verify" "sample") with false. cbv iota.
  assert (String.eqb (fl_setup fl') "" = false) as -> by (by apply String.eqb_neq).
  assert (String.eqb (fl_pin fl) "" = false) as ->.
  { apply String.eqb_neq. intros E. rewrite E in HP. by vm_compute in HP. }
  cbn [orb fail_if mbind result_bind]. rewrite HP. cbn [fst].
  eapply (verify_sample ce' fl' pin _ (fl_out fl) accounts l' ctx sig public enc); try done. by rewrite lookup_insert_eq.
Qed.

(** The two verification commands change no file, whatever the arguments. *)
Lemma verification_keeps_files `{ED : !Ed25519} ce parse_flags parse_auth op args fs :
  op = "verify" \/ op = "verify-authorized" -> (artifact_dispatch ce parse_flags parse_auth (op :: args) fs).2 = fs.
Proof.
  intros [-> | ->]; cbn [artifact_dispatch]; [|done]. change (String.eqb "verify" "verify-authorized") with false. cbv iota.
  destruct (parse_flags "verify" args) as [fl|]; [|done]. unfold artifactCommand. destruct (negb _); [done|].
  destruct (flag_error _ _); [done|]. destruct (negb _); [done|]. change (String.eqb "verify" "setup") with false. cbv iota.
  destruct (_ ← fail_if _ _; _); [|done]. done.
Qed.

(** Success of [verify-authorized] is acceptance by the authorized verifier
    of the policy, approval and registry in the files. *)
Lemma authorized_command_Ok `{ED : !Ed25519} ce fl fs text :
  authorizedVerifyCommand ce fl fs = Ok text ->
  exists policy approval verifier registry msg sig,
    (raw ← read_file ce fs (afl_policy fl) 8192; ParseTrustPolicy raw) = Ok policy /\
    LoadAuthorizedVerifier (dir_io ce (afl_setup fl)) (fs !! afl_setup fl) policy approval (ce_now ce) = Ok verifier /\
    (enc ← read_file ce fs (afl_signature fl) (2 * 2 ^ 20); UnmarshalSigned enc) = Ok sig /\
    AuthorizedVerify (Some verifier) registry msg sig (ce_later ce) = Ok tt.
Proof.
  unfold authorizedVerifyCommand. intros [_ E]%bind_fail_if. apply bind_Ok in E as (raw & Hraw & E). apply bind_Ok in E as (policy & HP & E).
  apply bind_Ok in E as (approval & _ & E). apply bind_Ok in E as (verifier & HV & E). apply bind_Ok in E as (registry & _ & E).
  apply bind_Ok in E as (msg & _ & E). apply bind_Ok in E as (enc & Henc & E). apply bind_Ok in E as (sig & HS & E).
  apply bind_Ok in E as ([] & HA & _). exists policy, approval, verifier, registry, msg, sig.
  rewrite Hraw, Henc. cbn [mbind result_bind]. done.
Qed.
End facts.

(** ** A run of the tool *)

Definition cli_env : CliEnv :=
  mkCliEnv (fixed_rand 12345) 0 (fun i => fixed_rand (777 + 111 * Z.of_nat i)) 0 (fun _ => None) None None 150 150.
Definition cli_fs : filesystem := {["setup" := sample_bundle]}.
Definition sample_flags : Flags :=
  mkFlags "setup" (hexDigest sample_pin) "sample" 4 "" "" "" ["manifest-sha256"; "out"; "setup"] 0.
Definition verify_flags : Flags :=
  mkFlags "setup" (hexDigest sample_pin) "" 4 (join "sample" "context.json") (join "sample" "message.bin") (join "sample" "signature.bin")
    ["context"; "manifest-sha256"; "message"; "setup"; "signature"] 0.
Definition sample_run : result bytes * filesystem := artifactCommand cli_env "sample" sample_flags cli_fs.

Definition sample_text : bytes := get_ok [] sample_run.1.
Definition cli_pin : bytes := get_ok [] (ParseDigest (fl_pin sample_flags)).
Definition cli_loaded : LoadedSetup :=
  get_ok no_setup (LoadPublicSetup (dir_io cli_env (fl_setup verify_flags)) (sample_run.2 !! fl_setup verify_flags) cli_pin).

Lemma sample_run_eq : artifactCommand cli_env "sample" sample_flags cli_fs = (Ok sample_text, sample_run.2).
Proof.
  assert (is_ok sample_run.1 = true) as H by (vm_compute; reflexivity). unfold sample_text. revert H. unfold sample_run.
  generalize (artifactCommand cli_env "sample" sample_flags cli_fs). intros [[t|e] fs] H; [reflexivity|discriminate].
Qed.

Lemma cli_pin_eq : ParseDigest (fl_pin sample_flags) = Ok cli_pin.
Proof.
  assert (is_ok (ParseDigest (fl_pin sample_flags)) = true) as H by (vm_compute; reflexivity). exact (get_ok_eq [] _ H).
Qed.

Lemma cli_loaded_eq :
  LoadPublicSetup (dir_io cli_env (fl_setup verify_flags)) (sample_run.2 !! fl_setup verify_flags) cli_pin = Ok cli_loaded.
Proof.
  assert (is_ok (LoadPublicSetup (dir_io cli_env (fl_setup verify_flags)) (sample_run.2 !! fl_setup verify_flags) cli_pin) = true) as H
    by (vm_compute; reflexivity).
  exact (get_ok_eq no_setup _ H).
Qed.

Lemma sample_verifies_witness : is_ok (artifactCommand cli_env "verify" verify_flags sample_run.2).1 = true.
Proof.
  refine (proj2 (sample_verifies cli_env sample_flags cli_fs sample_text sample_run.2 cli_env verify_flags cli_pin cli_loaded sample_run_eq
    (fun _ => eq_refl) _ _ _ _ _ _ _ cli_pin_eq cli_loaded_eq) _); [reflexivity|vm_compute; reflexivity|discriminate|reflexivity..].
Defined.
