(* ===== verification/DemoEngine.v ===== *)
(** * The demonstration's engine ([cmd/lktrs-demo/engine.go])

    The scenario of the demo: enrolling members, honest reports through
    wallets, a repeated counter and its trace, revocation. The engine's state
    is a record with the fields of the Go struct; its methods run in a state
    and error monad over that record and the file system. Randomness, clocks
    and failures of system calls are arguments. *)

From S2P Require Import Prelude Bytes Sha256 Curve Profile Accumulator Circuit CircuitFacts.
From S2P Require Import Statements Backend BackendFacts Protocol Wire Encodings Text.
From S2P Require Import Json JsonStream Service SetupEncoding Setup Context Vault Trust Stdio Native.

(** ** Views *)

Record demoCheck := mkCheck {
  ck_Label : string;
  ck_Result : string;
  ck_Detail : string;
  ck_MS : Z;
}.

Record reportView := mkReportView {
  rv_ID : Z;
  rv_Message : bytes;
  rv_Nym : string;
  rv_Serial : string;
  rv_Epoch : Z;
  rv_ProofBytes : Z;
  rv_ProveMS : Z;
  rv_VerifyMS : Z;
  rv_Decision : string;
  rv_TraceUser : string;
}.

Record config := mkConfig {
  cf_root : string;
  cf_setup : string;
  cf_pin : string;
  cf_cli : string;
}.

(** [fmt.Sprintf] of an integer: with "%d" and, up to 99, with "%02d". *)
Definition dec_text (n : Z) : string := String.string_of_list_byte (print_int n).
Definition two_digits (n : Z) : string := if (0 <=? n) && (n <? 10) then "0" +:+ dec_text n else dec_text n.

(** [strings.TrimSpace] *)
Definition codes (s : list ascii) : list Z := (fun c => Z.of_N (N_of_ascii c)) <$> s.

Fixpoint trim_right (s : list ascii) : list ascii :=
  match s with
  | [] => []
  | c :: r => if all_space (codes s) then [] else c :: trim_right r
  end.

(** The number of bytes of the space the text starts with, or none. *)
Definition leading_space (s : list Z) : nat :=
  match s with
  | a :: _ => if ascii_space a then 1 else
      match s with
      | a :: b :: r => if (a =? 0xC2) && ((b =? 0x85) || (b =? 0xA0)) then 2 else
          match r with c :: _ => if wide_space a b c then 3 else 0 | [] => 0 end
      | _ => 0
      end
  | [] => 0
  end.

Fixpoint trim_left (fuel : nat) (s : list ascii) : list ascii :=
  match fuel with
  | O => s
  | S fuel => match leading_space (codes s) with O => s | n => trim_left fuel (drop n s) end
  end.

Definition TrimSpace (s : string) : string :=
  let cs := String.list_ascii_of_string s in String.string_of_list_ascii (trim_right (trim_left (length cs) cs)).

(** A byte string as a Go string. *)
Definition text_of (b : bytes) : string := String.string_of_list_byte b.

Section defs.
Context `{CR : !Crypto, GR : !Groth16, SB : !SetupBackend, AE : !AEAD, ED : !Ed25519}.

(** ** State *)

Record member := mkMember {
  mb_user : string;
  mb_device : string;
  mb_account : Account;
  mb_x : option Z;
  mb_key : bytes;
  mb_id : bytes;
  mb_wallet : string;
}.

Record signedReport := mkSignedReport {
  sr_view : reportView;
  sr_signed : Signed;
  sr_context : VerificationContext;
  sr_policy : TrustPolicy;
  sr_registry : bytes;
}.

Record engine := mkEngine {
  eg_config : config;
  eg_loaded : option LoadedSetup;
  eg_runDir : string;
  eg_publicDir : string;
  eg_pin : bytes;
  eg_issue : bytes;
  eg_members : list member;
  eg_ring : Snapshot;
  eg_registry : Registry;
  eg_policy : TrustPolicy;
  eg_authorization : RegistryAuthorization;
  eg_authority : option AuthoritySigner;
  eg_approval : bytes;
  eg_registryBytes : bytes;
  eg_authorized : option AuthorizedVerifier;
  eg_reports : list signedReport;
  eg_checks : list demoCheck;
  eg_aliceUsed : Z;
  eg_bobUsed : Z;
  eg_revoked : bool;
  eg_bundle : bytes;
}.

Definition eset_loaded (x : option LoadedSetup) (e : engine) : engine :=
  mkEngine (eg_config e) x (eg_runDir e) (eg_publicDir e) (eg_pin e) (eg_issue e) (eg_members e) (eg_ring e)
    (eg_registry e) (eg_policy e) (eg_authorization e) (eg_authority e) (eg_approval e) (eg_registryBytes e)
    (eg_authorized e) (eg_reports e) (eg_checks e) (eg_aliceUsed e) (eg_bobUsed e) (eg_revoked e) (eg_bundle e).
Definition eset_runDir (x : string) (e : engine) : engine :=
  mkEngine (eg_config e) (eg_loaded e) x (eg_publicDir e) (eg_pin e) (eg_issue e) (eg_members e) (eg_ring e)
    (eg_registry e) (eg_policy e) (eg_authorization e) (eg_authority e) (eg_approval e) (eg_registryBytes e)
    (eg_authorized e) (eg_reports e) (eg_checks e) (eg_aliceUsed e) (eg_bobUsed e) (eg_revoked e) (eg_bundle e).
Definition eset_publicDir (x : string) (e : engine) : engine :=
  mkEngine (eg_config e) (eg_loaded e) (eg_runDir e) x (eg_pin e) (eg_issue e) (eg_members e) (eg_ring e)
    (eg_registry e) (eg_policy e) (eg_authorization e) (eg_authority e) (eg_approval e) (eg_registryBytes e)
    (eg_authorized e) (eg_reports e) (eg_checks e) (eg_aliceUsed e) (eg_bobUsed e) (eg_revoked e) (eg_bundle e).
Definition eset_pin (x : bytes) (e : engine) : engine :=
  mkEngine (eg_config e) (eg_loaded e) (eg_runDir e) (eg_publicDir e) x (eg_issue e) (eg_members e) (eg_ring e)
    (eg_registry e) (eg_policy e) (eg_authorization e) (eg_authority e) (eg_approval e) (eg_registryBytes e)
    (eg_authorized e) (eg_reports e) (eg_checks e) (eg_aliceUsed e) (eg_bobUsed e) (eg_revoked e) (eg_bundle e).
Definition eset_issue (x : bytes) (e : engine) : engine :=
  mkEngine (eg_config e) (eg_loaded e) (eg_runDir e) (eg_publicDir e) (eg_pin e) x (eg_members e) (eg_ring e)
    (eg_registry e) (eg_policy e) (eg_authorization e) (eg_authority e) (eg_approval e) (eg_registryBytes e)
    (eg_authorized e) (eg_reports e) (eg_checks e) (eg_aliceUsed e) (eg_bobUsed e) (eg_revoked e) (eg_bundle e).
Definition eset_members (x : list member) (e : engine) : engine :=
  mkEngine (eg_config e) (eg_loaded e) (eg_runDir e) (eg_publicDir e) (eg_pin e) (eg_issue e) x (eg_ring e)
    (eg_registry e) (eg_policy e) (eg_authorization e) (eg_authority e) (eg_approval e) (eg_registryBytes e)
    (eg_authorized e) (eg_reports e) (eg_checks e) (eg_aliceUsed e) (eg_bobUsed e) (eg_revoked e) (eg_bundle e).
Definition eset_ring (x : Snapshot) (e : engine) : engine :=
  mkEngine (eg_config e) (eg_loaded e) (eg_runDir e) (eg_publicDir e) (eg_pin e) (eg_issue e) (eg_members e) x
    (eg_registry e) (eg_policy e) (eg_authorization e) (eg_authority e) (eg_approval e) (eg_registryBytes e)
    (eg_authorized e) (eg_reports e) (eg_checks e) (eg_aliceUsed e) (eg_bobUsed e) (eg_revoked e) (eg_bundle e).
Definition eset_registry (x : Registry) (e : engine) : engine :=
  mkEngine (eg_config e) (eg_loaded e) (eg_runDir e) (eg_publicDir e) (eg_pin e) (eg_issue e) (eg_members e)
    (eg_ring e) x (eg_policy e) (eg_authorization e) (eg_authority e) (eg_approval e) (eg_registryBytes e)
    (eg_authorized e) (eg_reports e) (eg_checks e) (eg_aliceUsed e) (eg_bobUsed e) (eg_revoked e) (eg_bundle e).
Definition eset_policy (x : TrustPolicy) (e : engine) : engine :=
  mkEngine (eg_config e) (eg_loaded e) (eg_runDir e) (eg_publicDir e) (eg_pin e) (eg_issue e) (eg_members e)
    (eg_ring e) (eg_registry e) x (eg_authorization e) (eg_authority e) (eg_approval e) (eg_registryBytes e)
    (eg_authorized e) (eg_reports e) (eg_checks e) (eg_aliceUsed e) (eg_bobUsed e) (eg_revoked e) (eg_bundle e).
Definition eset_authorization (x : RegistryAuthorization) (e : engine) : engine :=
  mkEngine (eg_config e) (eg_loaded e) (eg_runDir e) (eg_publicDir e) (eg_pin e) (eg_issue e) (eg_members e)
    (eg_ring e) (eg_registry e) (eg_policy e) x (eg_authority e) (eg_approval e) (eg_registryBytes e)
    (eg_authorized e) (eg_reports e) (eg_checks e) (eg_aliceUsed e) (eg_bobUsed e) (eg_revoked e) (eg_bundle e).
Definition eset_authority (x : option AuthoritySigner) (e : engine) : engine :=
  mkEngine (eg_config e) (eg_loaded e) (eg_runDir e) (eg_publicDir e) (eg_pin e) (eg_issue e) (eg_members e)
    (eg_ring e) (eg_registry e) (eg_policy e) (eg_authorization e) x (eg_approval e) (eg_registryBytes e)
    (eg_authorized e) (eg_reports e) (eg_checks e) (eg_aliceUsed e) (eg_bobUsed e) (eg_revoked e) (eg_bundle e).
Definition eset_approval (x : bytes) (e : engine) : engine :=
  mkEngine (eg_config e) (eg_loaded e) (eg_runDir e) (eg_publicDir e) (eg_pin e) (eg_issue e) (eg_members e)
    (eg_ring e) (eg_registry e) (eg_policy e) (eg_authorization e) (eg_authority e) x (eg_registryBytes e)
    (eg_authorized e) (eg_reports e) (eg_checks e) (eg_aliceUsed e) (eg_bobUsed e) (eg_revoked e) (eg_bundle e).
Definition eset_registryBytes (x : bytes) (e : engine) : engine :=
  mkEngine (eg_config e) (eg_loaded e) (eg_runDir e) (eg_publicDir e) (eg_pin e) (eg_issue e) (eg_members e)
    (eg_ring e) (eg_registry e) (eg_policy e) (eg_authorization e) (eg_authority e) (eg_approval e) x
    (eg_authorized e) (eg_reports e) (eg_checks e) (eg_aliceUsed e) (eg_bobUsed e) (eg_revoked e) (eg_bundle e).
Definition eset_authorized (x : option AuthorizedVerifier) (e : engine) : engine :=
  mkEngine (eg_config e) (eg_loaded e) (eg_runDir e) (eg_publicDir e) (eg_pin e) (eg_issue e) (eg_members e)
    (eg_ring e) (eg_registry e) (eg_policy e) (eg_authorization e) (eg_authority e) (eg_approval e)
    (eg_registryBytes e) x (eg_reports e) (eg_checks e) (eg_aliceUsed e) (eg_bobUsed e) (eg_revoked e)
    (eg_bundle e).
Definition eset_reports (x : list signedReport) (e : engine) : engine :=
  mkEngine (eg_config e) (eg_loaded e) (eg_runDir e) (eg_publicDir e) (eg_pin e) (eg_issue e) (eg_members e)
    (eg_ring e) (eg_registry e) (eg_policy e) (eg_authorization e) (eg_authority e) (eg_approval e)
    (eg_registryBytes e) (eg_authorized e) x (eg_checks e) (eg_aliceUsed e) (eg_bobUsed e) (eg_revoked e)
    (eg_bundle e).
Definition eset_checks (x : list demoCheck) (e : engine) : engine :=
  mkEngine (eg_config e) (eg_loaded e) (eg_runDir e) (eg_publicDir e) (eg_pin e) (eg_issue e) (eg_members e)
    (eg_ring e) (eg_registry e) (eg_policy e) (eg_authorization e) (eg_authority e) (eg_approval e)
    (eg_registryBytes e) (eg_authorized e) (eg_reports e) x (eg_aliceUsed e) (eg_bobUsed e) (eg_revoked e)
    (eg_bundle e).
Definition eset_aliceUsed (x : Z) (e : engine) : engine :=
  mkEngine (eg_config e) (eg_loaded e) (eg_runDir e) (eg_publicDir e) (eg_pin e) (eg_issue e) (eg_members e)
    (eg_ring e) (eg_registry e) (eg_policy e) (eg_authorization e) (eg_authority e) (eg_approval e)
    (eg_registryBytes e) (eg_authorized e) (eg_reports e) (eg_checks e) x (eg_bobUsed e) (eg_revoked e)
    (eg_bundle e).
Definition eset_bobUsed (x : Z) (e : engine) : engine :=
  mkEngine (eg_config e) (eg_loaded e) (eg_runDir e) (eg_publicDir e) (eg_pin e) (eg_issue e) (eg_members e)
    (eg_ring e) (eg_registry e) (eg_policy e) (eg_authorization e) (eg_authority e) (eg_approval e)
    (eg_registryBytes e) (eg_authorized e) (eg_reports e) (eg_checks e) (eg_aliceUsed e) x (eg_revoked e)
    (eg_bundle e).
Definition eset_revoked (x : bool) (e : engine) : engine :=
  mkEngine (eg_config e) (eg_loaded e) (eg_runDir e) (eg_publicDir e) (eg_pin e) (eg_issue e) (eg_members e)
    (eg_ring e) (eg_registry e) (eg_policy e) (eg_authorization e) (eg_authority e) (eg_approval e)
    (eg_registryBytes e) (eg_authorized e) (eg_reports e) (eg_checks e) (eg_aliceUsed e) (eg_bobUsed e) x
    (eg_bundle e).
Definition eset_bundle (x : bytes) (e : engine) : engine :=
  mkEngine (eg_config e) (eg_loaded e) (eg_runDir e) (eg_publicDir e) (eg_pin e) (eg_issue e) (eg_members e)
    (eg_ring e) (eg_registry e) (eg_policy e) (eg_authorization e) (eg_authority e) (eg_approval e)
    (eg_registryBytes e) (eg_authorized e) (eg_reports e) (eg_checks e) (eg_aliceUsed e) (eg_bobUsed e)
    (eg_revoked e) x.

Definition zero_snapshot : Snapshot := mkSnapshot zero_params [] (g_inf BN).

(** [&engine{config: c, loaded: l}] *)
Definition new_engine (c : config) (l : option LoadedSetup) : engine :=
  mkEngine c l "" "" zero_digest zero_digest [] zero_snapshot (mkRegistry []) zero_policy zero_authorization None [] [] None [] []
    0 0 false [].

(** The zeroed secrets; a zeroed authority key signs nothing any more. *)
Definition clear_member (m : member) : member :=
  mkMember (mb_user m) (mb_device m) (mb_account m) (match mb_x m with Some _ => Some 0 | None => None end)
    (replicate (length (mb_key m)) Byte.x00) (mb_id m) (mb_wallet m).

Definition clearSecrets (e : engine) : engine := eset_authority None (eset_members (clear_member <$> eg_members e) e).

(** ** The monad *)

Record EWorld := mkEWorld {
  ew_engine : engine;
  ew_fs : filesystem;
}.

Definition EM (A : Type) : Type := EWorld -> result A * EWorld.

#[global] Instance EM_ret : MRet EM := fun A a w => (Ok a, w).
#[global] Instance EM_bind : MBind EM := fun A B f m w =>
  match m w with
  | (Ok a, w) => f a w
  | (Err e, w) => (Err e, w)
  end.

Definition lift {A} (r : result A) : EM A := fun w => (r, w).
Definition get : EM engine := fun w => (Ok (ew_engine w), w).
Definition get_fs : EM filesystem := fun w => (Ok (ew_fs w), w).
Definition modify (f : engine -> engine) : EM unit := fun w => (Ok tt, mkEWorld (f (ew_engine w)) (ew_fs w)).
Definition put_fs (fs : filesystem) : EM unit := fun w => (Ok tt, mkEWorld (ew_engine w) fs).
Definition failing (e : option error) : EM unit := lift (match e with Some e => Err e | None => Ok tt end).

(** A file in its directory, which is made if need be; a file that a wallet
    did not create stays absent. *)
Definition put_file (path : string) (f : option file) (fs : filesystem) : filesystem :=
  match split_path path, f with
  | Some (dir, name), Some f => <[dir := <[name := f]> (default ∅ (fs !! dir))]> fs
  | _, _ => fs
  end.

Definition record (label result detail : string) (ms : Z) : EM unit :=
  modify (fun e => eset_checks (eg_checks e ++ [mkCheck label result detail ms]) e).

(** ** Loading the setup *)

Record LoadEnv := mkLoadEnv {
  le_lstat : option error;            (* os.Lstat, other than a missing file *)
  le_setup : Z -> result Z;           (* Setup *)
  le_backend : Z;                     (* NewBackend *)
  le_fault : option fault;            (* ExportSetup *)
  le_pin : option error;              (* writing the pin *)
  le_io : string -> option error;     (* reading the file at a path *)
}.

Definition io_in (io : string -> option error) (dir : string) : read_io := fun name => io (join dir name).

(** The setup generated on the first run. *)
Definition generate (env : LoadEnv) (dir pinPath : string) : EM unit :=
  fs ← get_fs;
  params ← lift (Setup (le_setup env) 4);
  '(p, v) ← lift (NewBackend (le_backend env));
  let '(r, dst) := ExportSetup (le_fault env) (fs !! dir) params (Some p) (Some v) in
  _ ← put_fs (put_dir fs dir dst);
  digest ← lift r;
  _ ← failing (le_pin env);
  fs ← get_fs;
  _ ← put_fs (put_file pinPath (Some (private_file (ascii_bytes (hexDigest digest) ++ [z2b 10]))) fs);
  modify (fun e => eset_pin digest (eset_loaded (Some (mkLoadedSetup params (Some p) v zero_manifest)) e)).

(** The pin recorded beside the setup. *)
Definition recorded_pin (io : string -> option error) (root : string) (fs : filesystem) : result string :=
  raw ← ReadBoundedFile (io (join root "setup-pin.txt")) (file_at fs (join root "setup-pin.txt")) 128;
  Ok (TrimSpace (text_of raw)).

Definition load_existing (env : LoadEnv) (dir pin : string) : EM unit :=
  fs ← get_fs;
  digest ← lift (ParseDigest pin);
  loaded ← lift (LoadSetup (io_in (le_io env) dir) (fs !! dir) digest);
  _ ← lift (fail_if (Z.of_nat (length (p_Powers (ls_Parameters loaded))) <? 5) "demo needs setup capacity >= 4");
  modify (fun e => eset_pin digest (eset_loaded (Some loaded) e)).

Definition load (env : LoadEnv) : EM unit :=
  e ← get;
  match eg_loaded e with
  | Some _ => mret tt
  | None =>
      let c := eg_config e in
      if String.eqb (cf_setup c) "" then
        let dir := join (cf_root c) "setup" in
        fs ← get_fs;
        match le_lstat env with
        | Some err => lift (Err err)
        | None =>
            if negb (present fs dir) then generate env dir (join (cf_root c) "setup-pin.txt")
            else
              pin ← lift (match recorded_pin (le_io env) (cf_root c) fs with
                          | Ok pin => Ok pin
                          | Err err => Err ("read recorded local setup pin (do not silently regenerate): " +:+ err)
                          end);
              load_existing env dir pin
        end
      else load_existing env (cf_setup c) (cf_pin c)
  end.

(** ** Preparing a run *)

Record MemberEnv := mkMemberEnv {
  me_x : Z -> result Z;
  me_d : Z -> result Z;
  me_key : result bytes;
  me_id : result bytes;
  me_vault : VaultEnv;
  me_challenge : result bytes;
  me_r : Z -> result Z;
}.

Record PrepareEnv := mkPrepareEnv {
  pe_load : LoadEnv;
  pe_io : string -> option error;
  pe_run : result string;                         (* os.MkdirTemp: what follows "run-" *)
  pe_export : option fault;                       (* ExportPublicSetup *)
  pe_issue : result bytes;
  pe_authority : result (bytes * AuthoritySigner);  (* ed25519.GenerateKey *)
  pe_now : Z;
  pe_member : nat -> MemberEnv;
  pe_later : Z;                                   (* the clock of authorize *)
  pe_ms : Z;
}.

Definition identities : list (string * string) :=
  [("alice", "upstream"); ("alice", "estuary"); ("bob", "tributary"); ("carol", "reservoir")].

(** The wallet of a member: the second shares the first one's. *)
Definition member_wallet (env : MemberEnv) (i : nat) (user device : string) (account : Account) (x : Z) : EM member :=
  e ← get;
  if (i =? 1)%nat then
    match eg_members e with
    | m :: _ => mret (mkMember user device account (Some x) (mb_key m) (mb_id m) (mb_wallet m))
    | [] => lift (Err "index out of range")
    end
  else
    key ← lift (me_key env);
    id ← lift (me_id env);
    let wallet := join (eg_runDir e) (user +:+ ".vault") in
    fs ← get_fs;
    let '(r, disk) := CreateSignerVault (me_vault env) wallet key id (Some x) (file_at fs wallet) in
    _ ← put_fs (put_file wallet disk fs);
    _ ← lift r;
    mret (mkMember user device account (Some x) key id wallet).

Definition add_entry (a : RegistryAuthorization) (entry : Enrollment) : RegistryAuthorization :=
  mkRegistryAuthorization (ra_Format a) (ra_Namespace a) (ra_ManifestSHA256 a) (ra_Epoch a) (ra_NotBefore a) (ra_NotAfter a)
    (ra_Issue a) (ra_K a) (ra_Entries a ++ [entry]).

(** One member: keys, wallet, enrollment and registration. *)
Definition prepare_member (env : MemberEnv) (pub : bytes) (i : nat) (identity : string * string) : EM (Account * Registration) :=
  e ← get;
  let shared := if (i =? 1)%nat then eg_members e !! 0%nat ≫= mb_x else None in
  '(account, x) ← lift (KeyGen (me_x env) (me_d env) shared);
  m ← member_wallet env i identity.1 identity.2 account x;
  _ ← modify (fun e => eset_members (eg_members e ++ [m]) e);
  challenge ← lift (me_challenge env);
  enrollment ← lift (CreateEnrollment (me_r env) (Some x) account identity.1 identity.2 (tp_Namespace (eg_policy e)) (eg_pin e) pub challenge);
  registration ← lift (VerifyEnrollment enrollment (tp_Namespace (eg_policy e)) (eg_pin e) pub challenge);
  _ ← modify (fun e => eset_authorization (add_entry (eg_authorization e) enrollment) e);
  mret (account, registration).

Fixpoint prepare_members (env : nat -> MemberEnv) (pub : bytes) (i : nat) (ids : list (string * string))
    : EM (list Account * list Registration) :=
  match ids with
  | [] => mret ([], [])
  | identity :: ids =>
      '(a, r) ← prepare_member (env i) pub i identity;
      '(accounts, registrations) ← prepare_members env pub (S i) ids;
      mret (a :: accounts, r :: registrations)
  end.

Definition authorize (io : string -> option error) (now : Z) : EM unit :=
  e ← get;
  raw ← lift (SignRegistryAuthorization (eg_authorization e) (eg_authority e));
  _ ← modify (eset_registryBytes raw);
  fs ← get_fs;
  v ← lift (LoadAuthorizedVerifier (io_in io (eg_publicDir e)) (fs !! eg_publicDir e) (eg_policy e) (eg_approval e) now);
  modify (eset_authorized (Some v)).

(** The pin is read again when the setup was kept from an earlier run. *)
Definition restore_pin (io : string -> option error) : EM unit :=
  e ← get;
  if bool_decide (eg_pin e = zero_digest) then
    fs ← get_fs;
    pin ← lift (if String.eqb (cf_pin (eg_config e)) "" then recorded_pin io (cf_root (eg_config e)) fs else Ok (cf_pin (eg_config e)));
    digest ← lift (ParseDigest pin);
    modify (eset_pin digest)
  else mret tt.

Definition demo_policy (pin issue pub : bytes) : TrustPolicy :=
  mkTrustPolicy "lktrs/trust-policy/v1" "sensor-cooperative" (hexDigest pin) (EncodeToString pub) (EncodeToString pub) 1 (hexDigest issue) 3.

Definition demo_authorization (pin issue : bytes) (now : Z) : RegistryAuthorization :=
  mkRegistryAuthorization "lktrs/registry-authorization/v1" "sensor-cooperative" (hexDigest pin) 1 (now - 30) (now + 86400) (hexDigest issue) 3 [].

Definition prepare (env : PrepareEnv) : EM unit :=
  _ ← load (pe_load env);
  e ← get;
  let c := eg_config e in
  let dir := if String.eqb (cf_setup c) "" then join (cf_root c) "setup" else cf_setup c in
  _ ← restore_pin (pe_io env);
  run ← lift (pe_run env);
  let runDir := join (cf_root c) ("run-" +:+ run) in
  fs ← get_fs;
  _ ← put_fs (<[runDir := ∅]> fs);
  let publicDir := join runDir "public-setup" in
  _ ← modify (fun e => eset_publicDir publicDir (eset_runDir runDir e));
  e ← get;
  fs ← get_fs;
  let '(r, dst) := ExportPublicSetup (io_in (pe_io env) dir) (pe_export env) (fs !! dir) (fs !! publicDir) (eg_pin e) in
  _ ← put_fs (put_dir fs publicDir dst);
  _ ← lift r;
  issue ← lift (pe_issue env);
  _ ← modify (eset_issue issue);
  '(pub, key) ← lift (pe_authority env);
  _ ← modify (fun e => eset_policy (demo_policy (eg_pin e) issue pub) (eset_authority (Some key) e));
  e ← get;
  approval ← lift (SignSetupApproval (eg_pin e) (tp_Namespace (eg_policy e)) (pe_now env - 30) (pe_now env + 86400) (Some key));
  _ ← modify (fun e => eset_authorization (demo_authorization (eg_pin e) issue (pe_now env)) (eset_approval approval e));
  '(accounts, registrations) ← prepare_members (pe_member env) pub 0 identities;
  e ← get;
  match eg_loaded e with
  | None => lift (Err "nil pointer dereference")
  | Some loaded =>
      ring ← lift (NewSnapshot (ls_Parameters loaded) accounts);
      _ ← modify (eset_ring ring);
      registry ← lift (NewRegistry registrations);
      _ ← modify (eset_registry registry);
      _ ← authorize (pe_io env) (pe_later env);
      record "成员准入" "pass" "3 位演示成员 / 4 个账号；Alice 的两台设备共用一个钱包。身份标签由本地演示指定。" (pe_ms env)
  end.

(** ** Reports *)

Record SubmitEnv := mkSubmitEnv {
  sb_prove : Z;                     (* Prove, when the wallet is bypassed *)
  sb_open : VaultEnv;
  sb_sign : VaultEnv;
  sb_next : VaultEnv;
  sb_ts : Z;                        (* the clock when signing *)
  sb_now : Z;                       (* the clock when verifying *)
  sb_prove_ms : Z;
  sb_verify_ms : Z;
  sb_ms : Z;
}.

(** The account of the ring with the member's points. *)
Fixpoint select_account (a : Account) (i : Z) (accounts : list Account) : option Z :=
  match accounts with
  | [] => None
  | b :: accounts =>
      if bool_decide (a_U b = a_U a) && bool_decide (a_Y b = a_Y a) then Some i else select_account a (i + 1) accounts
  end.

(** The report; [temperature] is the JSON text of the reading. *)
Definition report_message (id : Z) (temperature : string) : bytes :=
  marshal (enc_struct [("schema", enc_string "watershed-reading/v1"); ("report", enc_int id);
                       ("project", enc_string "watershed-cooperative"); ("synthetic", JBool true);
                       ("water_temperature_c", JNum (ascii_bytes temperature))]).

Definition need_loaded (e : engine) : result LoadedSetup :=
  match eg_loaded e with Some l => Ok l | None => Err "nil pointer dereference" end.

(** Bypassing the wallet: counter 0 again. *)
Definition sign_malicious (env : SubmitEnv) (e : engine) (m : member) (selected : Z) (message : bytes) : result Signed :=
  loaded ← need_loaded e;
  '(st, w) ← MakeStatement (ls_Parameters loaded) (sn_accounts (eg_ring e)) selected (mb_x m) (a_D (mb_account m)) (eg_issue e)
               (sha256 message) (sb_ts env mod 2 ^ 64) 3 0;
  match ls_Prover loaded with
  | None => Err "nil pointer dereference"
  | Some p => Prove (sb_prove env) p (ls_Parameters loaded) st w
  end.

Definition count_used (user : string) (next : Z) (e : engine) : engine :=
  if String.eqb user "alice" then eset_aliceUsed next e
  else if String.eqb user "bob" then eset_bobUsed next e
  else e.

Definition sign_with_wallet (env : SubmitEnv) (m : member) (selected : Z) (message : bytes) : EM Signed :=
  e ← get;
  loaded ← lift (need_loaded e);
  fs ← get_fs;
  vault ← lift (OpenSignerVault (sb_open env) (mb_wallet m) (mb_key m) (mb_id m) (file_at fs (mb_wallet m)));
  let '(r, disk) := VaultSign (sb_sign env) vault (ls_Prover loaded) (eg_ring e) selected (eg_issue e) 3 message (sb_ts env mod 2 ^ 64)
                      (file_at fs (mb_wallet m)) in
  _ ← put_fs (put_file (mb_wallet m) disk fs);
  sig ← lift r;
  fs ← get_fs;
  next ← lift (VaultNextCounter (sb_next env) vault (eg_issue e) (file_at fs (mb_wallet m)));
  _ ← modify (count_used (mb_user m) next);
  mret sig.

Definition report_of (env : SubmitEnv) (e : engine) (malicious : bool) (message encoded : bytes) (sig : Signed)
    (ctx : VerificationContext) : signedReport :=
  mkSignedReport
    (mkReportView (Z.of_nat (length (eg_reports e)) + 1) message (hex_encode (EncodeBNPoint (st_Nym (sg_Statement sig))))
       (hex_encode (EncodeSecpPoint (st_S (sg_Statement sig)))) (tp_RegistryEpoch (eg_policy e)) (Z.of_nat (length encoded))
       (sb_prove_ms env) (sb_verify_ms env) (if malicious then "pending_trace" else "accepted") "")
    sig ctx (eg_policy e) (eg_registryBytes e).

Definition authorized_error {A} (r : result A) : result A :=
  match r with Ok a => Ok a | Err e => Err ("authorized report verification: " +:+ e) end.

Definition submit (env : SubmitEnv) (memberIndex : nat) (temperature : string) (malicious : bool) : EM unit :=
  e ← get;
  m ← lift (match eg_members e !! memberIndex with Some m => Ok m | None => Err "index out of range" end);
  match select_account (mb_account m) 0 (sn_accounts (eg_ring e)) with
  | None => lift (Err "device is no longer enrolled")
  | Some selected =>
      let message := report_message (Z.of_nat (length (eg_reports e)) + 1) temperature in
      sig ← (if malicious then lift (sign_malicious env e m selected message) else sign_with_wallet env m selected message);
      e ← get;
      loaded ← lift (need_loaded e);
      _ ← lift (authorized_error (AuthorizedVerify (eg_authorized e) (eg_registryBytes e) message sig (sb_now env)));
      encoded ← lift (MarshalSigned sig);
      ctx ← lift (NewVerificationContext (ls_Parameters loaded) (sn_accounts (eg_ring e)) (eg_issue e) 3);
      let r := report_of env e malicious message encoded sig ctx in
      _ ← modify (fun e => eset_reports (eg_reports e ++ [r]) e);
      record ("报告 " +:+ two_digits (rv_ID (sr_view r)) +:+ " · 真实证明") "pass"
        ("授权验签通过，成员版本 " +:+ dec_text (rv_Epoch (sr_view r)) +:+ "；" +:+ dec_text (Z.of_nat (length encoded))
         +:+ " 字节为完整签名信封大小。") (sb_ms env)
  end.

Definition report_at (e : engine) (i : nat) : result signedReport :=
  match eg_reports e !! i with Some r => Ok r | None => Err "index out of range" end.

Definition compare (now ms : Z) (a b : nat) (want : bool) : EM unit :=
  e ← get;
  x ← lift (report_at e a);
  y ← lift (report_at e b);
  loaded ← lift (need_loaded e);
  linked ← lift (Link (Some (ls_Verifier loaded)) (sr_context x) (rv_Message (sr_view x)) (sr_signed x)
                   (sr_context y) (rv_Message (sr_view y)) (sr_signed y));
  _ ← lift (fail_if (negb (Bool.eqb linked want)) "unexpected issue-scoped link result");
  if want then
    match AuthorizedTrace (eg_authorized e) (eg_registryBytes e) (rv_Message (sr_view x)) (sr_signed x)
            (rv_Message (sr_view y)) (sr_signed y) now with
    | (_, Some err) => lift (Err err)
    | (traced, None) =>
        _ ← lift (fail_if (match tr_Status traced with TraceLegal => false | _ => true end)
                    "distinct wallet counters did not classify as legal");
        record "跨设备关联" "linked" "报告 01 / 02 的 nym 相同，S 不同；重开钱包后计数继续累加，未触发追责。" ms
    end
  else record "不同成员对照" "unlinked" "报告 01 / 03 的 nym 不同，本次样本未关联；这不是匿名性证明。" ms.

(** ** The fourth submission *)

Record ExhaustEnv := mkExhaustEnv {
  xh_submit : SubmitEnv;
  xh_open : VaultEnv;
  xh_next : VaultEnv;
  xh_sign : VaultEnv;
  xh_after : VaultEnv;
  xh_ts : Z;
  xh_ms : Z;
}.

Definition exhaust (env : ExhaustEnv) : EM unit :=
  _ ← submit (xh_submit env) 0 "23.1" false;
  e ← get;
  m ← lift (match eg_members e !! 1%nat with Some m => Ok m | None => Err "index out of range" end);
  loaded ← lift (need_loaded e);
  fs ← get_fs;
  let disk := file_at fs (mb_wallet m) in
  vault ← lift (OpenSignerVault (xh_open env) (mb_wallet m) (mb_key m) (mb_id m) disk);
  next ← lift (VaultNextCounter (xh_next env) vault (eg_issue e) disk);
  _ ← lift (fail_if (negb (next =? 3)) "expected three reserved Alice counters");
  let '(r, disk) := VaultSign (xh_sign env) vault (ls_Prover loaded) (eg_ring e) 1 (eg_issue e) 3
                      (ascii_bytes "fourth honest submission") (xh_ts env mod 2 ^ 64) disk in
  _ ← put_fs (put_file (mb_wallet m) disk fs);
  _ ← lift (match r with
            | Ok _ => Err "expected wallet quota rejection, got <nil>"
            | Err err => fail_if (negb (String.eqb err "wallet quota exhausted or policy changed"))
                           ("expected wallet quota rejection, got " +:+ err)
            end);
  after ← lift (VaultNextCounter (xh_after env) vault (eg_issue e) disk);
  _ ← lift (fail_if (negb (after =? next)) "rejected request changed quota");
  record "第四次正常提交" "rejected" "钱包拒绝生成证明；三个槽已用尽，换设备不能获得新额度。" (xh_ms env).

(** ** Tracing and revocation *)

(** [reports[i].view.Decision] and [TraceUser] of the last report. *)
Definition reject_report (user : string) (r : signedReport) : signedReport :=
  let v := sr_view r in
  mkSignedReport (mkReportView (rv_ID v) (rv_Message v) (rv_Nym v) (rv_Serial v) (rv_Epoch v) (rv_ProofBytes v) (rv_ProveMS v)
                    (rv_VerifyMS v) "rejected_reuse" user) (sr_signed r) (sr_context r) (sr_policy r) (sr_registry r).

Definition traceReuse (now ms : Z) : EM unit :=
  e ← get;
  x ← lift (report_at e 0);
  let i := (length (eg_reports e) - 1)%nat in
  y ← lift (report_at e i);
  match AuthorizedTrace (eg_authorized e) (eg_registryBytes e) (rv_Message (sr_view x)) (sr_signed x)
          (rv_Message (sr_view y)) (sr_signed y) now with
  | (_, Some err) => lift (Err err)
  | (traced, None) =>
      _ ← lift (fail_if (negb (match tr_Status traced with TraceTraced => true | _ => false end)
                         || negb (String.eqb (tr_UserID traced) "alice"))
                  "duplicate-counter attack did not trace to enrolled Alice");
      _ ← modify (fun e => eset_reports (alter (reject_report (tr_UserID traced)) i (eg_reports e)) e);
      record "重复额度追责" "traced" "报告 01 / 05：S 相同、R 不同，恢复公开追责密钥并由授权注册表解析到 alice。业务拒收报告 05。" ms
  end.

Record RevokeEnv := mkRevokeEnv {
  rk_io : string -> option error;
  rk_load : Z;       (* the clock of authorize *)
  rk_now1 : Z;
  rk_now2 : Z;
  rk_now3 : Z;
  rk_ms1 : Z;
  rk_submit : SubmitEnv;
  rk_ms2 : Z;
}.

Definition set_policy_epoch (n : Z) (p : TrustPolicy) : TrustPolicy :=
  mkTrustPolicy (tp_Format p) (tp_Namespace p) (tp_ManifestSHA256 p) (tp_SetupAuthority p) (tp_RegistryAuthority p) n (tp_Issue p) (tp_K p).

(** The next epoch, without the entries of a user. *)
Definition next_authorization (n : Z) (user : string) (a : RegistryAuthorization) : RegistryAuthorization :=
  mkRegistryAuthorization (ra_Format a) (ra_Namespace a) (ra_ManifestSHA256 a) n (ra_NotBefore a) (ra_NotAfter a) (ra_Issue a) (ra_K a)
    (List.filter (fun entry => negb (String.eqb (en_UserID entry) user)) (ra_Entries a)).

Definition expect_rejected {A} (r : result A) (e : error) : result unit := match r with Ok _ => Err e | Err _ => Ok tt end.

Definition revoke (env : RevokeEnv) : EM unit :=
  e ← get;
  let oldVerifier := eg_authorized e in
  first ← lift (report_at e 0);
  newRing ← lift (RevokeUser (eg_registry e) (eg_ring e) "alice");
  _ ← lift (fail_if (negb (length (sn_accounts newRing) =? 2)%nat) "revocation did not remove both Alice accounts");
  _ ← modify (fun e => eset_authorization (next_authorization 2 "alice" (eg_authorization e))
                         (eset_policy (set_policy_epoch 2 (eg_policy e)) (eset_ring newRing e)));
  _ ← authorize (rk_io env) (rk_load env);
  _ ← modify (eset_revoked true);
  e ← get;
  let message := rv_Message (sr_view first) in
  _ ← lift (expect_rejected (AuthorizedVerify (eg_authorized e) (sr_registry first) message (sr_signed first) (rk_now1 env))
              "old registry authorized by current policy");
  _ ← lift (expect_rejected (AuthorizedVerify (eg_authorized e) (eg_registryBytes e) message (sr_signed first) (rk_now2 env))
              "old-ring proof accepted in new ring");
  _ ← lift (match AuthorizedVerify oldVerifier (sr_registry first) message (sr_signed first) (rk_now3 env) with
            | Ok _ => Ok tt
            | Err err => Err ("historical verification failed: " +:+ err)
            end);
  _ ← record "用户级撤销" "rejected"
        "Alice 的两个账号均被移除。旧成员版本不符合当前策略，旧环证明也不能用于新环；原证明仍可作为历史证据验证。" (rk_ms1 env);
  let accounts := sn_accounts (eg_ring e) in
  loaded ← lift (need_loaded e);
  x ← lift (match eg_members e with m :: _ => Ok (mb_x m) | [] => Err "index out of range" end);
  d ← lift (match accounts with a :: _ => Ok (a_D a) | [] => Err "index out of range" end);
  _ ← lift (expect_rejected (MakeStatement (ls_Parameters loaded) accounts 0 x d (eg_issue e) (sha256 (ascii_bytes "revoked signer")) 1 3 0)
              "Alice could construct an honest witness for Bob's account");
  _ ← submit (rk_submit env) 2 "21.9" false;
  record "撤销后的正常成员" "pass" "Bob 用剩余额度在成员版本 2 中重新签名并通过授权验签。旧环变化同样要求其他成员重新签名。" (rk_ms2 env).
End defs.
