(* ===== verification/DemoExport.v ===== *)
(** * The demonstration's public evidence ([cmd/lktrs-demo/export.go]) and steps

    The export: an explicit list of public files, written to a directory,
    checked by runs of the command line verifier on it, and archived. Then
    the eight steps of the scenario and the view of the engine's state. The
    verifier process runs [authorizedVerifyCommand] on the exported files;
    [archive/zip] and the embedded script are parameters. *)

From stdpp Require Import sorting.
From S2P Require Import Prelude Bytes Sha256 Curve Profile Accumulator Circuit CircuitFacts.
From S2P Require Import Statements Backend BackendFacts Protocol Wire Encodings Text.
From S2P Require Import Json JsonStream Service SetupEncoding Setup Context Vault Trust Stdio Native DemoEngine.

(** ** Views as JSON *)

(** [json.Marshal] of a policy. *)
Definition enc_policy (p : TrustPolicy) : json :=
  enc_struct [("format", enc_string (tp_Format p)); ("namespace", enc_string (tp_Namespace p));
              ("manifest_sha256", enc_string (tp_ManifestSHA256 p)); ("setup_authority", enc_string (tp_SetupAuthority p));
              ("registry_authority", enc_string (tp_RegistryAuthority p)); ("registry_epoch", enc_uint (tp_RegistryEpoch p));
              ("issue", enc_string (tp_Issue p)); ("k", enc_uint (tp_K p))].

Definition enc_check (c : demoCheck) : json :=
  enc_struct [("label", enc_string (ck_Label c)); ("result", enc_string (ck_Result c)); ("detail", enc_string (ck_Detail c));
              ("ms", enc_int (ck_MS c))].

Definition enc_report (r : reportView) : json :=
  enc_struct ([("id", enc_int (rv_ID r)); ("message", JStr (rv_Message r)); ("nym", enc_string (rv_Nym r));
               ("serial", enc_string (rv_Serial r)); ("epoch", enc_uint (rv_Epoch r)); ("proof_bytes", enc_int (rv_ProofBytes r));
               ("prove_ms", enc_int (rv_ProveMS r)); ("verify_ms", enc_int (rv_VerifyMS r)); ("decision", enc_string (rv_Decision r))]
              ++ omit_string "trace_user" (rv_TraceUser r)).

(** A nil slice is written as [null]. *)
Definition enc_nil_slice {A} (enc : A -> json) (l : list A) : json := match l with [] => JNull | _ => enc_slice enc l end.

(** The text of README.txt. *)
Definition readme_text : string := "Lk-TRS sensor cooperative: public research evidence

Synthetic sensor readings; actual native Groth16 proofs. This bundle contains
public setup (no proving key), messages, signatures, expected ring contexts,
local authority endorsements and demo policies. No wallet, wrapping key, user
scalar, authority private key or circuit witness is exported.

From this extracted directory, run:
  python3 verify.py --verifier /absolute/path/to/lktrs-native

This checks all six signatures in separate processes, plus tampered-message
and wrong-current-policy rejection. Report 05 is a cryptographically valid
duplicate-counter signature that the application rejected after tracing.
A successful signature check alone does not mean business acceptance.

Policies, authority labels and setup pins in this bundle are demo fixtures.
Authenticate them independently before making any real trust decision. The
signed setup approval and registry expire 24 hours after the run was created;
verification uses the system clock. After expiry, plain stateless verification
of the historical context remains possible using the verify CLI, but does not
establish current authority or freshness. Do not change the clock to pass.

Example (historical public proof verification only):
  lktrs-native verify --setup public-setup --manifest-sha256 PIN \
    --context reports/01/context.json --message reports/01/message.json \
    --signature reports/01/signature.bin

PIN is the manifest_sha256 field in reports/01/policy.json, recorded by this
local rehearsal. Computing a hash of an arbitrary download is not authentication.
Setup is local single-party, enrollment labels are simulated, and the same
issue pseudonym remains linkable across accounts/rings. No production security,
complete anonymity, live IoT deployment or MPC ceremony is claimed.
".

(** ** Paths *)

(** [filepath.IsLocal]: not empty, not rooted, and never above the start. *)
Fixpoint path_elements (cur : list ascii) (s : list ascii) : list (list ascii) :=
  match s with
  | [] => [rev cur]
  | c :: s => if Ascii.eqb c slash then rev cur :: path_elements [] s else path_elements (c :: cur) s
  end.

(** The depth below the start after each element; [None] when it leaves. *)
Fixpoint path_depth (depth : nat) (elements : list (list ascii)) : option nat :=
  match elements with
  | [] => Some depth
  | e :: elements =>
      if bool_decide (e = []) || bool_decide (e = ["."%char]) then path_depth depth elements
      else if bool_decide (e = ["."%char; "."%char]) then match depth with O => None | S depth => path_depth depth elements end
      else path_depth (S depth) elements
  end.

Definition IsLocal (name : string) : bool :=
  match String.list_ascii_of_string name with
  | [] => false
  | c :: _ => negb (Ascii.eqb c slash)
              && match path_depth 0 (path_elements [] (String.list_ascii_of_string name)) with Some _ => true | None => false end
  end.

Section defs.
Context `{CR : !Crypto, GR : !Groth16, SB : !SetupBackend, AE : !AEAD, ED : !Ed25519}.
Context (exportVerifier : bytes) (zip_archive : list (string * bytes) -> result bytes).

(** ** The files *)

Definition export_limit : Z := 32 * 2 ^ 20.

(** The explicit list of public setup files. *)
Definition public_names : list string := ["manifest.json"; "parameters.bin"; "vk.bin"].

Fixpoint public_files (io : string -> option error) (e : engine) (fs : filesystem) (names : list string) : result (list (string * bytes)) :=
  match names with
  | [] => Ok []
  | name :: names =>
      b ← ReadBoundedFile (io (join (eg_publicDir e) name)) (file_at fs (join (eg_publicDir e) name)) export_limit;
      files ← public_files io e fs names;
      Ok (("public-setup/" +:+ name, b) :: files)
  end.

Definition report_prefix (id : Z) : string := "reports/" +:+ two_digits id +:+ "/".

Definition report_files (r : signedReport) : result (list (string * bytes)) :=
  sig ← MarshalSigned (sr_signed r);
  ctx ← MarshalVerificationContext (sr_context r);
  let prefix := report_prefix (rv_ID (sr_view r)) in
  Ok [(prefix +:+ "message.json", rv_Message (sr_view r)); (prefix +:+ "signature.bin", sig); (prefix +:+ "context.json", ctx);
      (prefix +:+ "policy.json", marshal_indent (enc_policy (sr_policy r))); (prefix +:+ "registry.json", sr_registry r)].

Fixpoint all_report_files (rs : list signedReport) : result (list (string * bytes)) :=
  match rs with
  | [] => Ok []
  | r :: rs => files ← report_files r; rest ← all_report_files rs; Ok (files ++ rest)
  end.

Definition tampered_message : bytes :=
  marshal (enc_struct [("synthetic", JBool true); ("water_temperature_c", JNum (ascii_bytes "999"))]).

(** A later assignment to a name replaces an earlier one. *)
Definition exportFiles (io : string -> option error) (e : engine) (fs : filesystem) : result (gmap string bytes) :=
  setup ← public_files io e fs public_names;
  reports ← all_report_files (eg_reports e);
  Ok (list_to_map (rev ([("verify.py", exportVerifier); ("setup-approval.json", eg_approval e)] ++ setup ++ reports
        ++ [("current-policy.json", marshal_indent (enc_policy (eg_policy e))); ("current-registry.json", eg_registryBytes e);
            ("tampered-message.json", tampered_message); ("README.txt", ascii_bytes readme_text)]))).

(** ** Writing and archiving *)

(** The files are written in some order; a failure leaves the first [k]. *)
Fixpoint write_files (root : string) (files : list (string * bytes)) (fs : filesystem) : result unit * filesystem :=
  match files with
  | [] => (Ok tt, fs)
  | (name, data) :: files =>
      if negb (IsLocal name) then (Err "non-local export path", fs)
      else write_files root files (put_file (join root name) (Some (private_file data)) fs)
  end.

Definition writeExport (order : list (string * bytes) -> list (string * bytes)) (failure : option (nat * error)) (root : string)
    (files : gmap string bytes) (fs : filesystem) : result unit * filesystem :=
  if present fs root then (Err "file exists", fs)
  else
    let l := order (map_to_list files) in
    let fs := <[root := ∅]> fs in
    match failure with
    | Some (k, e) => (Err e, (write_files root (take k l) fs).2)
    | None => write_files root l fs
    end.

(** The entries in the order of their names. *)
Definition sorted_files (files : gmap string bytes) : list (string * bytes) := merge_sort key_le (map_to_list files).

Definition zipExport (files : gmap string bytes) : result bytes :=
  _ ← fail_if (negb (forallb (fun kv => IsLocal kv.1) (sorted_files files))) "non-local archive path";
  zip_archive (sorted_files files).

(** ** The independent verifier *)

Definition verifierArgs (root : string) (id : Z) : list string :=
  let dir := join (join root "reports") (two_digits id) in
  ["verify-authorized"; "--setup"; join root "public-setup"; "--policy"; join dir "policy.json";
   "--setup-approval"; join root "setup-approval.json"; "--registry"; join dir "registry.json";
   "--message"; join dir "message.json"; "--signature"; join dir "signature.bin"].

(** The value after the first occurrence of the flag; [None] panics. *)
Fixpoint replaceArg (args : list string) (flag value : string) : option (list string) :=
  match args with
  | a :: ((_ :: rest) as tl) =>
      if String.eqb a flag then Some (a :: value :: rest) else match replaceArg tl flag value with Some l => Some (a :: l) | None => None end
  | _ => None
  end.

Definition messageRejection : string := "message mismatch".
Definition policyRejection : string := "registry authority scope, epoch, policy or validity mismatch".

(** The flags of [verify-authorized], written as "--name value". *)
Fixpoint flag_value (args : list string) (name : string) : string :=
  match args with
  | a :: ((b :: _) as tl) => if String.eqb a ("--" +:+ name) then b else flag_value tl name
  | _ => ""
  end.

Definition auth_flags (args : list string) : AuthFlags :=
  mkAuthFlags (flag_value args "setup") (flag_value args "policy") (flag_value args "setup-approval") (flag_value args "registry")
    (flag_value args "message") (flag_value args "signature") 0.

(** One run of the verifier: whether the process ran within the time limit,
    and the environment it saw. *)
Record ProcessEnv := mkProcessEnv {
  pr_start : option error;
  pr_cli : CliEnv;
}.

(** [main] prints the error and exits with code 1; on success the output is
    the JSON that [authorizedVerifyCommand] prints, with "verified" true. In
    the last error the texts are not quoted. *)
Definition runVerifier (env : ProcessEnv) (fs : filesystem) (args : list string) (expectedRejection : string) : result unit :=
  match pr_start env with
  | Some e => Err e
  | None =>
      match authorizedVerifyCommand (pr_cli env) (auth_flags (tail args)) fs with
      | Ok _ => fail_if (negb (String.eqb expectedRejection "")) "expected independent verifier rejection, got <nil>"
      | Err e =>
          if String.eqb expectedRejection "" then Err ("independent verifier: exit status 1: " +:+ e)
          else fail_if (negb (String.eqb (TrimSpace e) expectedRejection))
                 ("expected verifier rejection " +:+ expectedRejection +:+ ", got " +:+ TrimSpace e)
      end
  end.

(** ** Export and verification *)

Record ExportEnv := mkExportEnv {
  xe_io : string -> option error;
  xe_order : list (string * bytes) -> list (string * bytes);
  xe_write : option (nat * error);
  xe_process : nat -> ProcessEnv;
  xe_ms : nat -> Z;
  xe_results : option error;     (* writing results.json *)
  xe_zip : option error;         (* writing the archive *)
}.

Fixpoint verify_reports (env : ExportEnv) (root : string) (i : nat) (rs : list signedReport) : EM unit :=
  match rs with
  | [] => mret tt
  | r :: rs =>
      fs ← get_fs;
      _ ← lift (runVerifier (xe_process env i) fs (verifierArgs root (rv_ID (sr_view r))) "");
      _ ← record ("独立 CLI · 报告 " +:+ two_digits (rv_ID (sr_view r))) "pass"
            "独立进程仅加载公开 setup、策略、授权成员表、消息和签名。" (xe_ms env i);
      verify_reports env root (S i) rs
  end.

(** The last element of a path. *)
Definition Base (path : string) : string := match split_path path with Some (_, name) => name | None => path end.

Definition results_text (e : engine) : bytes :=
  let run := if String.eqb (eg_runDir e) "" then "" else Base (eg_runDir e) in
  marshal_indent (enc_struct
    [("format", enc_string "lktrs/demo-evidence/v1"); ("run", enc_string run);
     ("issue", enc_string (if String.eqb (eg_runDir e) "" then "" else hexDigest (eg_issue e)));
     ("manifest_sha256", enc_string (if String.eqb (eg_runDir e) "" then "" else hexDigest (eg_pin e)));
     ("quota", enc_uint 3); ("current_epoch", enc_uint (tp_RegistryEpoch (eg_policy e)));
     ("reports", enc_nil_slice enc_report (sr_view <$> eg_reports e)); ("checks", enc_slice enc_check (eg_checks e))]).

Definition replaced (args : list string) (flag value : string) : result (list string) :=
  match replaceArg args flag value with Some l => Ok l | None => Err "missing internal verifier flag" end.

Definition exportAndVerify (env : ExportEnv) : EM unit :=
  e ← get;
  fs ← get_fs;
  files ← lift (exportFiles (xe_io env) e fs);
  let root := join (eg_runDir e) "export" in
  let '(r, fs) := writeExport (xe_order env) (xe_write env) root files fs in
  _ ← put_fs fs;
  _ ← lift r;
  _ ← verify_reports env root 0 (eg_reports e);
  let n := length (eg_reports e) in
  fs ← get_fs;
  args ← lift (replaced (verifierArgs root 1) "--message" (join root "tampered-message.json"));
  _ ← lift (runVerifier (xe_process env n) fs args messageRejection);
  _ ← record "篡改报告温度" "rejected" "独立验签拒绝被修改的消息。" (xe_ms env n);
  args ← lift (replaced (verifierArgs root 1) "--policy" (join root "current-policy.json"));
  _ ← lift (runVerifier (xe_process env (S n)) fs args policyRejection);
  _ ← record "旧成员版本冒充当前版本" "rejected" "独立验签拒绝以版本 2 策略接受版本 1 授权。" (xe_ms env (S n));
  e ← get;
  let summary := results_text e in
  let files := <["results.json" := summary]> files in
  _ ← failing (xe_results env);
  _ ← put_fs (put_file (join root "results.json") (Some (private_file summary)) fs);
  bundle ← lift (zipExport files);
  _ ← failing (xe_zip env);
  fs ← get_fs;
  _ ← put_fs (put_file (join (eg_runDir e) "public-evidence.zip") (Some (private_file bundle)) fs);
  modify (eset_bundle bundle).

(** ** The scenario *)

Record StepEnv := mkStepEnv {
  ev_prepare : PrepareEnv;
  ev_submit : SubmitEnv;
  ev_compare : Z * Z;
  ev_exhaust : ExhaustEnv;
  ev_trace : Z * Z;
  ev_revoke : RevokeEnv;
  ev_export : ExportEnv;
}.

Definition scenario_step (env : StepEnv) (n : Z) : EM unit :=
  if n =? 0 then prepare (ev_prepare env)
  else if n =? 1 then submit (ev_submit env) 0 "22.4" false
  else if n =? 2 then
    _ ← submit (ev_submit env) 1 "22.8" false;
    compare (ev_compare env).1 (ev_compare env).2 0 1 true
  else if n =? 3 then
    _ ← submit (ev_submit env) 2 "21.6" false;
    compare (ev_compare env).1 (ev_compare env).2 0 2 false
  else if n =? 4 then exhaust (ev_exhaust env)
  else if n =? 5 then
    _ ← submit (ev_submit env) 1 "29.7" true;
    traceReuse (ev_trace env).1 (ev_trace env).2
  else if n =? 6 then revoke (ev_revoke env)
  else if n =? 7 then exportAndVerify (ev_export env)
  else lift (Err "unknown scenario step").
End defs.
