(* ===== verification/DemoServer.v ===== *)
(** * The demonstration's HTTP server ([cmd/lktrs-demo/server.go], [main.go])

    The handler of one request, the decoder of its action, the worker that
    runs a step of the scenario, and the system they form: requests, progress
    messages and finishing workers interleave. The embedded web files are a
    parameter. *)

From S2P Require Import Prelude Bytes Sha256 Curve Profile Accumulator Circuit CircuitFacts.
From S2P Require Import Statements Backend BackendFacts Protocol Wire Encodings Text.
From S2P Require Import Json JsonStream Service SetupEncoding Setup Context Vault Trust Stdio Native DemoEngine DemoExport.

(** ** Views *)

Record stepInfo := mkStepInfo {
  si_Title : string;
  si_Detail : string;
}.

Definition steps : list stepInfo :=
  [mkStepInfo "建立协作组" "注册三位参与者、四台设备，签发成员快照。首次生成证明参数可能需要数分钟。";
   mkStepInfo "提交第一份报告" "Alice 的上游传感器提交一份模拟水质报告，生成真实证明并独立校验。";
   mkStepInfo "切换设备" "重新打开 Alice 的钱包，从另一台设备提交；检查共享计数和同一期关联。";
   mkStepInfo "另一位参与者" "Bob 提交报告，验证其成员资格并比较两个用户的公开化名。";
   mkStepInfo "用完三个额度" "Alice 提交第三份报告，再尝试第四次；检查正常钱包的额度限制。";
   mkStepInfo "模拟恶意重用" "明确绕过钱包，重用第一个计数槽签署不同报告，再用两份有效证明追责。";
   mkStepInfo "撤销全部设备" "撤销 Alice 的两个账号、更新成员快照，检查旧证明与新提交的不同结果。";
   mkStepInfo "独立进程复核" "导出公开材料，用独立命令验签，并检查篡改消息和错误成员版本会被拒绝。"].

Definition step_count : Z := 8.

(** A nil slice is [None]; an empty list of reports is always nil. *)
Record view := mkView {
  v_Steps : list stepInfo;
  v_Next : Z;
  v_Busy : bool;
  v_Started : Z;
  v_Phase : string;
  v_Error : string;
  v_Token : string;
  v_Run : string;
  v_Issue : string;
  v_Pin : string;
  v_Epoch : Z;
  v_AliceUsed : Z;
  v_BobUsed : Z;
  v_Revoked : bool;
  v_Reports : list reportView;
  v_Checks : option (list demoCheck);
  v_Export : bool;
}.

Definition enc_view (v : view) : json :=
  enc_struct
    [("steps", enc_slice (fun s => enc_struct [("title", enc_string (si_Title s)); ("detail", enc_string (si_Detail s))]) (v_Steps v));
     ("next", enc_int (v_Next v)); ("busy", JBool (v_Busy v)); ("started", enc_int (v_Started v)); ("phase", enc_string (v_Phase v));
     ("error", enc_string (v_Error v)); ("token", enc_string (v_Token v)); ("run", enc_string (v_Run v));
     ("issue", enc_string (v_Issue v)); ("pin", enc_string (v_Pin v)); ("epoch", enc_uint (v_Epoch v));
     ("alice_used", enc_uint (v_AliceUsed v)); ("bob_used", enc_uint (v_BobUsed v)); ("revoked", JBool (v_Revoked v));
     ("reports", enc_nil_slice enc_report (v_Reports v));
     ("checks", match v_Checks v with None => JNull | Some l => enc_slice enc_check l end); ("export", JBool (v_Export v))].

(** [view{Steps: steps, Token: token, Phase: ...}] *)
Definition start_view (token : string) : view :=
  mkView steps 0 false 0 "等待建立协作组" "" token "" "" "" 0 0 0 false [] None false.

Definition set_phase (phase : string) (v : view) : view :=
  mkView (v_Steps v) (v_Next v) (v_Busy v) (v_Started v) phase (v_Error v) (v_Token v) (v_Run v) (v_Issue v) (v_Pin v) (v_Epoch v)
    (v_AliceUsed v) (v_BobUsed v) (v_Revoked v) (v_Reports v) (v_Checks v) (v_Export v).

Definition set_running (started : Z) (phase : string) (v : view) : view :=
  mkView (v_Steps v) (v_Next v) true started phase (v_Error v) (v_Token v) (v_Run v) (v_Issue v) (v_Pin v) (v_Epoch v)
    (v_AliceUsed v) (v_BobUsed v) (v_Revoked v) (v_Reports v) (v_Checks v) (v_Export v).

(** ** Actions

    [decodeAction] reads tokens from a stream: the state of the decoder is
    the text left and whether a comma must come before the next key. *)

(** [Decode] into a [*int]. *)
Definition dec_step (j : json) : result (option Z) :=
  match j with
  | JNull => Ok None
  | JNum lit => n ← parse_int 64 lit; Ok (Some n)
  | _ => Err "json: cannot unmarshal value into Go value of type int"
  end.

(** The token of a key: a string, after a comma unless it is the first. *)
Definition key_token (first : bool) (r : bytes) : result (bytes * bytes) :=
  let string_token r :=
    match skip_ws r with
    | b :: r => if bool_decide (b = dquote) then unquote (length r) r else Err "invalid token"
    | [] => Err "EOF"
    end in
  if first then string_token r
  else
    match skip_ws r with
    | b :: r => if bool_decide (b = comma) then string_token r else Err "invalid token"
    | [] => Err "EOF"
    end.

Definition colon_value (r : bytes) : result (json * bytes) :=
  match skip_ws r with
  | b :: r => if bool_decide (b = colon) then json_value (2 * length r + 2) maxNestingDepth r else Err "expected colon after object key"
  | [] => Err "EOF"
  end.

(** The loop over the fields: the second one ends it, so two rounds of fuel
    are enough ([action_fields_fuel]). *)
Fixpoint action_fields (fuel : nat) (seen : bool) (step : option Z) (r : bytes) : result (option Z * bytes) :=
  match skip_ws r with
  | [] => Err "unterminated action"
  | b :: r1 =>
      if bool_decide (b = rbrace) then Ok (step, r1)
      else if bool_decide (b = rbracket) then Err "unterminated action"
      else
        match fuel with
        | O => Err out_of_fuel
        | S fuel =>
            match key_token (negb seen) r with
            | Err _ => Err "unknown or duplicate action field"
            | Ok (key, r2) =>
                if negb (bool_decide (key = ascii_bytes "step")) || seen then Err "unknown or duplicate action field"
                else
                  '(v, r3) ← colon_value r2;
                  step ← dec_step v;
                  action_fields fuel true step r3
            end
        end
  end.

Definition decodeAction (r : bytes) : result (option Z * bytes) :=
  match skip_ws r with
  | b :: r => if bool_decide (b = lbrace) then action_fields 2 false None r else Err "expected action object"
  | [] => Err "expected action object"
  end.

Definition body_limit : nat := 1024.

(** The action of a body, read through [http.MaxBytesReader]: after the
    limit the reader reports an error instead of the end. *)
Definition read_action (body : bytes) : result (option Z) :=
  match decodeAction (take body_limit body) with
  | Err _ => Err "invalid request"
  | Ok (step, rest) =>
      _ ← fail_if ((body_limit <? length body)%nat || match skip_ws rest with [] => false | _ => true end) "trailing request data";
      Ok step
  end.

(** ** Requests *)

(** Headers are the values of [Header.Get]: empty when absent. *)
Record HttpRequest := mkHttpRequest {
  hr_Method : string;
  hr_Host : string;
  hr_Path : string;
  hr_Origin : string;
  hr_FetchSite : string;
  hr_DemoToken : string;
  hr_ContentType : string;
  hr_Body : bytes;
}.

Record HttpResponse := mkHttpResponse {
  hp_Status : Z;
  hp_Headers : list (string * string);
  hp_Body : bytes;
}.

Definition common_headers : list (string * string) :=
  [("Cache-Control", "no-store"); ("X-Content-Type-Options", "nosniff"); ("Referrer-Policy", "no-referrer");
   ("Content-Security-Policy", "default-src 'self'; script-src 'self'; style-src 'self'; img-src 'self'; connect-src 'self'; frame-ancestors 'none'; base-uri 'none'; form-action 'none'")].

Definition content (status : Z) (headers : list (string * string)) (body : bytes) : HttpResponse :=
  mkHttpResponse status (common_headers ++ headers) body.

Definition quoted (s : string) : string := String.string_of_list_byte (dquote :: ascii_bytes s ++ [dquote]).

(** [http.Error] *)
Definition http_error (status : Z) (message : string) : HttpResponse :=
  content status [("Content-Type", "text/plain; charset=utf-8")] (ascii_bytes message ++ [z2b 10]).

Section defs.
Context `{CR : !Crypto, GR : !Groth16, SB : !SetupBackend, AE : !AEAD, ED : !Ed25519}.
Context (asset : string -> option bytes) (exportVerifier : bytes) (zip_archive : list (string * bytes) -> result bytes).

Record app := mkApp {
  ap_engine : engine;
  ap_state : view;
  ap_host : string;
  ap_token : string;
  ap_bundle : bytes;
}.

(** The session token is the hex text of 32 random bytes. *)
Definition newApp (random : result bytes) (c : config) (host : string) : result app :=
  token ← random;
  let token := hex_encode token in
  Ok (mkApp (new_engine c None) (start_view token) host token []).

Definition snapshot (e : engine) : view :=
  let running := negb (String.eqb (eg_runDir e) "") in
  mkView [] 0 false 0 "" "" ""
    (if running then Base (eg_runDir e) else "") (if running then hexDigest (eg_issue e) else "")
    (if running then hexDigest (eg_pin e) else "") (tp_RegistryEpoch (eg_policy e)) (eg_aliceUsed e) (eg_bobUsed e) (eg_revoked e)
    (sr_view <$> eg_reports e) (Some (eg_checks e)) (negb (length (eg_bundle e) =? 0)%nat).

Definition serve_get (r : HttpRequest) (a : app) : HttpResponse :=
  if String.eqb (hr_Path r) "/api/state" then
    content 200 [("Content-Type", "application/json")] (marshal (enc_view (ap_state a)) ++ [z2b 10])
  else if String.eqb (hr_Path r) "/api/export" then
    match ap_bundle a with
    | [] => http_error 409 "complete independent verification first"
    | bundle => content 200 [("Content-Type", "application/zip");
                             ("Content-Disposition", "attachment; filename=" +:+ quoted "lktrs-public-evidence.zip")] bundle
    end
  else if bool_decide (hr_Path r ∈ ["/"; "/app.js"; "/style.css"]) then
    let '(name, mime) :=
      if String.eqb (hr_Path r) "/" then ("index.html", "text/html; charset=utf-8")
      else if String.eqb (hr_Path r) "/app.js" then ("app.js", "text/javascript; charset=utf-8")
      else ("style.css", "text/css; charset=utf-8") in
    match asset ("web/" +:+ name) with
    | None => http_error 500 "asset unavailable"
    | Some data => content 200 [("Content-Type", mime)] data
    end
  else http_error 404 "404 page not found".

(** [/api/reset]: the loaded setup is kept, the rest starts anew. *)
Definition reset (a : app) : app :=
  let e := clearSecrets (ap_engine a) in
  mkApp (new_engine (eg_config e) (eg_loaded e)) (start_view (ap_token a)) (ap_host a) (ap_token a) [].

Definition set_state (v : view) (a : app) : app := mkApp (ap_engine a) v (ap_host a) (ap_token a) (ap_bundle a).

(** What is done once the action is read, under the lock. *)
Definition serve_action (now : Z) (path : string) (stepInput : option Z) (a : app) : HttpResponse * app * option Z :=
  if v_Busy (ap_state a) then (http_error 409 "a step is already running", a, None)
  else if String.eqb path "/api/reset" then
    match stepInput with
    | Some _ => (http_error 400 "reset takes no step", a, None)
    | None => (content 204 [] [], reset a, None)
    end
  else
    let next := v_Next (ap_state a) in
    match stepInput, (steps !! Z.to_nat next) with
    | Some n, Some info =>
        if negb (n =? next) || negb (String.eqb (v_Error (ap_state a)) "")
        then (http_error 409 "unexpected step; reset after a failed run", a, None)
        else (content 202 [] [], set_state (set_running now (si_Title info) (ap_state a)) a, Some next)
    | _, _ => (http_error 409 "unexpected step; reset after a failed run", a, None)
    end.

(** The response, the new state, and the step whose worker was started. *)
Definition ServeHTTP (now : Z) (r : HttpRequest) (a : app) : HttpResponse * app * option Z :=
  let refuse status message := (http_error status message, a, None) in
  if negb (String.eqb (hr_Host r) (ap_host a)) then refuse 403 "unexpected Host"
  else if negb (String.eqb (hr_Origin r) "") && negb (String.eqb (hr_Origin r) ("http://" +:+ ap_host a)) then refuse 403 "foreign origin"
  else if String.eqb (hr_FetchSite r) "cross-site" then refuse 403 "cross-site request"
  else if String.eqb (hr_Method r) "GET" then (serve_get r a, a, None)
  else if negb (String.eqb (hr_Method r) "POST") || (negb (String.eqb (hr_Path r) "/api/advance") && negb (String.eqb (hr_Path r) "/api/reset"))
  then refuse 405 "method or route not allowed"
  else if negb (String.eqb (hr_DemoToken r) (ap_token a)) then refuse 403 "missing session token"
  else if negb (String.eqb (hr_ContentType r) "application/json") then refuse 415 "expected application/json"
  else
    match read_action (hr_Body r) with
    | Err e => refuse 400 e
    | Ok step => serve_action now (hr_Path r) step a
    end.

(** ** The worker *)

(** The end of [advance]: the step's outcome is published. *)
Definition finish (step : Z) (r : result unit) (e : engine) (a : app) : app :=
  let v := snapshot e in
  let publish next phase err :=
    mkView steps next (v_Busy v) (v_Started v) phase err (ap_token a) (v_Run v) (v_Issue v) (v_Pin v) (v_Epoch v) (v_AliceUsed v)
      (v_BobUsed v) (v_Revoked v) (v_Reports v) (v_Checks v) (v_Export v) in
  match r with
  | Err err => mkApp e (publish step "运行中止，请重新开始" err) (ap_host a) (ap_token a) (ap_bundle a)
  | Ok _ =>
      if step + 1 =? step_count
      then mkApp e (publish (step + 1) "演示完成" "") (ap_host a) (ap_token a) (eg_bundle e)
      else mkApp e (publish (step + 1) "步骤完成" "") (ap_host a) (ap_token a) (ap_bundle a)
  end.

(** ** The system *)

(** The server, the files, and the steps of the workers that run. *)
Record system := mkSystem {
  sy_app : app;
  sy_fs : filesystem;
  sy_workers : list Z;
}.

(** An error has a message. *)
Definition has_message (r : result unit) : Prop := match r with Ok _ => True | Err e => e <> "" end.

(** Requests are handled at any time. A worker reports its phase under the
    lock; a step works on the engine outside it and is published at its
    end. Other programs may change the files. *)
Inductive demo_step : system -> system -> Prop :=
  | request_step now r resp a a' fs ws started :
      ServeHTTP now r a = (resp, a', started) ->
      demo_step (mkSystem a fs ws) (mkSystem a' fs (match started with Some n => n :: ws | None => ws end))
  | progress_step phase a fs ws n :
      n ∈ ws -> demo_step (mkSystem a fs ws) (mkSystem (set_state (set_phase phase (ap_state a)) a) fs ws)
  | finish_step env a fs ws ws' n r w :
      ws ≡ₚ n :: ws' -> scenario_step exportVerifier zip_archive env n (mkEWorld (ap_engine a) fs) = (r, w) -> has_message r ->
      demo_step (mkSystem a fs ws) (mkSystem (finish n r (ew_engine w) a) (ew_fs w) ws')
  | files_step a fs fs' ws : demo_step (mkSystem a fs ws) (mkSystem a fs' ws).

Inductive demo_reachable (random : result bytes) (c : config) (host : string) : system -> Prop :=
  | demo_start a fs : newApp random c host = Ok a -> demo_reachable random c host (mkSystem a fs [])
  | demo_next s s' : demo_reachable random c host s -> demo_step s s' -> demo_reachable random c host s'.

(** ** Starting ([main.go]) *)

(** The arguments, and what the system calls return. *)
Record RunEnv := mkRunEnv {
  rn_data : string;
  rn_port : Z;
  rn_setup : string;
  rn_pin : string;
  rn_cli : string;
  rn_nargs : nat;
  rn_abs : string -> result string;                       (* filepath.Abs *)
  rn_mkdir : option error;
  rn_root : result (bool * Z);                            (* Lstat of the root: a directory, permissions *)
  rn_lock : option error;                                 (* opening the lock file *)
  rn_flock : bool;                                        (* the lock was free *)
  rn_verifier : result (bool * Z);                        (* Stat of the verifier: regular, permissions *)
  rn_listen : result string;                              (* the listener's address *)
  rn_token : result bytes;
}.

Definition run (env : RunEnv) : result app :=
  _ ← fail_if (negb (rn_nargs env =? 0)%nat || (65535 <? rn_port env)
               || negb (Bool.eqb (String.eqb (rn_setup env) "") (String.eqb (rn_pin env) "")))
        "invalid arguments; --setup and --manifest-sha256 must be supplied together";
  root ← rn_abs env (rn_data env);
  _ ← match rn_mkdir env with Some e => Err e | None => Ok tt end;
  '(dir, perm) ← rn_root env;
  _ ← fail_if (negb dir || negb (Z.land perm 63 =? 0)) "demo data directory must be a private directory (mode 0700)";
  _ ← match rn_lock env with Some e => Err e | None => Ok tt end;
  _ ← fail_if (negb (rn_flock env)) "another demo owns this data directory";
  verifier ← rn_abs env (rn_cli env);
  _ ← match rn_verifier env with
      | Ok (regular, perm) => fail_if (negb regular || (Z.land perm 73 =? 0)) "build the independent verifier first, or use scripts/run-demo.sh"
      | Err _ => Err "build the independent verifier first, or use scripts/run-demo.sh"
      end;
  host ← rn_listen env;
  newApp (rn_token env) (mkConfig root (rn_setup env) (rn_pin env) verifier) host.
End defs.
