(* ===== verification/DemoFacts.v ===== *)
(** * The demonstration's engine keeps evidence

    Every report of an engine was accepted by an authorized verifier under
    the policy and registry it is exported with, at every point of a run.
    The exported files are exactly an explicit list of public ones, and are
    found where they were written. *)

From S2P Require Import Prelude Bytes Sha256 Curve Profile Accumulator Circuit CircuitFacts.
From S2P Require Import Statements Backend BackendFacts Protocol Wire Encodings Text.
From S2P Require Import Json JsonStream Service SetupEncoding Setup Context Vault Trust Stdio Native NativeFacts DemoEngine DemoExport.

Section monad.
Context `{CR : !Crypto, GR : !Groth16, SB : !SetupBackend, AE : !AEAD, ED : !Ed25519}.

(** ** Reasoning about the monad *)

(** What an operation establishes when it succeeds, and when it fails. *)
Definition triple {A} (P : engine -> Prop) (m : EM A) (Q : A -> engine -> Prop) (E : engine -> Prop) : Prop :=
  forall w, P (ew_engine w) -> match m w with (Ok a, w') => Q a (ew_engine w') | (Err _, w') => E (ew_engine w') end.

Lemma triple_ret {A} (P E : engine -> Prop) (a : A) : triple P (mret a) (fun _ => P) E.
Proof. intros w H. done. Qed.
Lemma triple_bind {A B} P (m : EM A) Q (f : A -> EM B) R E :
  triple P m Q E -> (forall a, triple (Q a) (f a) R E) -> triple P (m ≫= f) R E.
Proof.
  intros Hm Hf w HP. specialize (Hm w HP). unfold mbind, EM_bind. destruct (m w) as [[a|e] w']; [by apply Hf|done].
Qed.
Lemma triple_weaken {A} (P P' : engine -> Prop) (m : EM A) (Q Q' : A -> engine -> Prop) (E : engine -> Prop) :
  triple P' m Q E -> (forall e, P e -> P' e) -> (forall a e, Q a e -> Q' a e) -> triple P m Q' E.
Proof. intros Hm HP HQ w H. specialize (Hm w (HP _ H)). destruct (m w) as [[a|e] w']; [by apply HQ|done]. Qed.

Lemma triple_lift {A} (P E : engine -> Prop) (r : result A) :
  (forall e, P e -> E e) -> triple P (lift r) (fun a e => r = Ok a /\ P e) E.
Proof. intros HE w H. cbn. destruct r as [a|e]; [done|by apply HE]. Qed.
Lemma triple_get (P E : engine -> Prop) : triple P get (fun a e => a = e /\ P e) E.
Proof. intros w H. done. Qed.
Lemma triple_modify (P : engine -> Prop) f E (Q : engine -> Prop) : (forall e, P e -> Q (f e)) -> triple P (modify f) (fun _ => Q) E.
Proof. intros HQ w H. cbn. by apply HQ. Qed.

(** An operation that leaves the engine's [f] alone, whatever happens. *)
Definition keeps {A X} (f : engine -> X) (m : EM A) : Prop := forall w, f (ew_engine (m w).2) = f (ew_engine w).

Section keeping.
Context {X : Type} (f : engine -> X).

Lemma keeps_bind {A B} (m : EM A) (g : A -> EM B) : keeps f m -> (forall a, keeps f (g a)) -> keeps f (m ≫= g).
Proof.
  intros Hm Hg w. unfold mbind, EM_bind. specialize (Hm w). destruct (m w) as [[a|e] w']; cbn in Hm; [|done]. by rewrite Hg.
Qed.
Lemma keeps_lift {A} (r : result A) : keeps f (lift r).
Proof. done. Qed.
Lemma keeps_ret {A} (a : A) : keeps f (mret a).
Proof. done. Qed.
Lemma keeps_get : keeps f get.
Proof. done. Qed.
Lemma keeps_get_fs : keeps f get_fs.
Proof. done. Qed.
Lemma keeps_put_fs fs : keeps f (put_fs fs).
Proof. done. Qed.
Lemma keeps_failing e : keeps f (failing e).
Proof. done. Qed.
Lemma keeps_modify g : (forall e, f (g e) = f e) -> keeps f (modify g).
Proof. intros H w. apply H. Qed.

Lemma keeps_triple {A} (m : EM A) (P E : X -> Prop) :
  keeps f m -> (forall x, P x -> E x) -> triple (fun e => P (f e)) m (fun _ e => P (f e)) (fun e => E (f e)).
Proof.
  intros Hm HE w HP. specialize (Hm w). destruct (m w) as [[a|e] w']; cbn in Hm; rewrite Hm; [done|by apply HE].
Qed.
End keeping.
End monad.

Create HintDb keeps discriminated.
#[export] Hint Resolve keeps_lift keeps_ret keeps_get keeps_get_fs keeps_put_fs keeps_failing : keeps.

(** Walks through a body: binds, cases and pairs. *)
Ltac keep :=
  repeat first
    [ solve [auto with keeps nocore]
    | apply keeps_bind; [|intros ?]
    | apply keeps_modify; intros ?; reflexivity
    | match goal with |- context [match ?x with _ => _ end] => destruct x end ].

Section facts.
Context `{CR : !Crypto, GR : !Groth16, SB : !SetupBackend, AE : !AEAD, ED : !Ed25519}.
Context (exportVerifier : bytes) (zip_archive : list (string * bytes) -> result bytes).

(** The parts of the engine evidence rests on. *)
Definition evidence_parts (e : engine) : list signedReport * TrustPolicy * option AuthorizedVerifier :=
  (eg_reports e, eg_policy e, eg_authorized e).

Lemma record_keeps label result detail ms : keeps evidence_parts (record label result detail ms).
Proof. unfold record. keep. Qed.
Hint Resolve record_keeps : keeps.

Lemma load_keeps env : keeps evidence_parts (load env).
Proof. unfold load, generate, load_existing. keep. Qed.

Lemma restore_pin_keeps io : keeps evidence_parts (restore_pin io).
Proof. unfold restore_pin. keep. Qed.

Lemma prepare_members_keeps env pub i ids : keeps evidence_parts (prepare_members env pub i ids).
Proof.
  revert i. induction ids as [|identity ids IH]; intros i; cbn [prepare_members]; [keep|].
  unfold prepare_member, member_wallet. keep; try apply IH.
Qed.

(** ** Evidence *)

(** The public fields of a report's view come from its signature. *)
Record described (r : signedReport) : Prop := mk_described {
  ds_nym : rv_Nym (sr_view r) = hex_encode (EncodeBNPoint (st_Nym (sg_Statement (sr_signed r))));
  ds_serial : rv_Serial (sr_view r) = hex_encode (EncodeSecpPoint (st_S (sg_Statement (sr_signed r))));
  ds_epoch : rv_Epoch (sr_view r) = tp_RegistryEpoch (sr_policy r);
  ds_size : exists encoded, MarshalSigned (sr_signed r) = Ok encoded /\ rv_ProofBytes (sr_view r) = Z.of_nat (length encoded);
}.

(** A verifier of the report's policy accepted it at some time. *)
Definition verified_report (r : signedReport) : Prop :=
  exists v now, av_policy v = sr_policy r /\
    AuthorizedVerify (Some v) (sr_registry r) (rv_Message (sr_view r)) (sr_signed r) now = Ok tt.

Definition evidence (reports : list signedReport) : Prop :=
  forall i r, reports !! i = Some r -> rv_ID (sr_view r) = Z.of_nat i + 1 /\ described r /\ verified_report r.

Definition sound (e : engine) : Prop := evidence (eg_reports e).

(** The verifier in use is for the policy in force. *)
Definition in_force (e : engine) : Prop := sound e /\ forall v, eg_authorized e = Some v -> av_policy v = eg_policy e.

Lemma in_force_sound e : in_force e -> sound e.
Proof. by intros [? _]. Qed.

Lemma keeps_in_force {A} (m : EM A) : keeps evidence_parts m -> triple in_force m (fun _ => in_force) sound.
Proof.
  intros Hm w [H1 H2]. specialize (Hm w). unfold evidence_parts in Hm. destruct (m w) as [[a|e] w']; cbn in Hm; injection Hm as Hr Hp Ha.
  - split; [by unfold sound; rewrite Hr|]. by rewrite Ha, Hp.
  - by unfold sound; rewrite Hr.
Qed.

Lemma keeps_sound {A} (m : EM A) : keeps eg_reports m -> triple sound m (fun _ => sound) sound.
Proof. intros Hm. apply (keeps_triple eg_reports m evidence evidence Hm). done. Qed.

Lemma authorize_in_force io now : triple sound (authorize io now) (fun _ => in_force) sound.
Proof.
  intros w Hs. unfold authorize, mbind, EM_bind, get, get_fs, lift, modify. cbn beta iota.
  destruct (SignRegistryAuthorization _ _) as [raw|]; cbn beta iota; [|done].
  destruct (LoadAuthorizedVerifier _ _ _ _ _) as [v|] eqn:EL; cbn beta iota; [|done]. split; [done|]. intros ? [= <-].
  unfold LoadAuthorizedVerifier in EL. go_inv EL. by subst v.
Qed.

Lemma evidence_snoc rs r :
  evidence rs -> rv_ID (sr_view r) = Z.of_nat (length rs) + 1 -> described r -> verified_report r -> evidence (rs ++ [r]).
Proof.
  intros H Hi Hd Hv i x [Hx|[Hl Hx]]%lookup_app_Some; [by apply H|].
  apply list_lookup_singleton_Some in Hx as [Hz <-]. replace i with (length rs) by lia. done.
Qed.

Lemma sign_with_wallet_keeps env m selected message : keeps evidence_parts (sign_with_wallet env m selected message).
Proof.
  unfold sign_with_wallet. keep. apply keeps_modify. intros e. unfold count_used. by repeat case_match.
Qed.

(** What [submit] does once the report is signed; [k] is what follows. *)
Lemma submit_signed env malicious message sig (k : signedReport -> bytes -> EM unit) :
  (forall r encoded, keeps evidence_parts (k r encoded)) ->
  triple in_force
    (e ← get;
     loaded ← lift (need_loaded e);
     _ ← lift (authorized_error (AuthorizedVerify (eg_authorized e) (eg_registryBytes e) message sig (sb_now env)));
     encoded ← lift (MarshalSigned sig);
     ctx ← lift (NewVerificationContext (ls_Parameters loaded) (sn_accounts (eg_ring e)) (eg_issue e) 3);
     _ ← modify (fun e' => eset_reports (eg_reports e' ++ [report_of env e malicious message encoded sig ctx]) e');
     k (report_of env e malicious message encoded sig ctx) encoded)
    (fun _ => in_force) sound.
Proof.
  intros Hk w [Hs Hf]. unfold mbind, EM_bind, get, lift, modify. cbn beta iota.
  destruct (need_loaded _) as [loaded|]; cbn beta iota; [|done].
  destruct (authorized_error _) as [[]|] eqn:EV; cbn beta iota; [|done].
  destruct (MarshalSigned sig) as [encoded|] eqn:EM; cbn beta iota; [|done].
  destruct (NewVerificationContext _ _ _ _) as [ctx|]; cbn beta iota; [|done].
  apply (keeps_in_force _ (Hk _ encoded)).
  split; [|exact Hf]. apply evidence_snoc; [done|done|by split; [..|exists encoded]|].
  destruct (AuthorizedVerify _ _ _ _ _) as [[]|] eqn:EV'; [|done]. destruct (eg_authorized (ew_engine w)) as [v|]; [|done].
  exists v, (sb_now env). split; [by apply Hf|exact EV'].
Qed.

Lemma submit_in_force env i temperature malicious : triple in_force (submit env i temperature malicious) (fun _ => in_force) sound.
Proof.
  unfold submit. eapply triple_bind; [apply keeps_in_force; keep|]. intros e.
  eapply triple_bind; [apply keeps_in_force; keep|]. intros m.
  destruct (select_account _ _ _) as [selected|]; [|apply keeps_in_force; keep].
  eapply triple_bind; [apply keeps_in_force; destruct malicious; [keep|apply sign_with_wallet_keeps]|]. intros sig.
  apply (submit_signed env malicious (report_message (Z.of_nat (length (eg_reports e)) + 1) temperature) sig
    (fun r encoded =>
      record ("报告 " +:+ two_digits (rv_ID (sr_view r)) +:+ " · 真实证明") "pass"
        ("授权验签通过，成员版本 " +:+ dec_text (rv_Epoch (sr_view r)) +:+ "；" +:+ dec_text (Z.of_nat (length encoded))
         +:+ " 字节为完整签名信封大小。") (sb_ms env))).
  intros r encoded. apply record_keeps.
Qed.

Lemma compare_keeps now ms a b want : keeps evidence_parts (compare now ms a b want).
Proof. unfold compare. keep. Qed.

Lemma exhaust_in_force env : triple in_force (exhaust env) (fun _ => in_force) sound.
Proof.
  unfold exhaust. eapply triple_bind; [apply submit_in_force|]. intros ?. apply keeps_in_force. keep.
Qed.

(** Rejecting a report changes its decision only. *)
Lemma evidence_reject user i rs : evidence rs -> evidence (alter (reject_report user) i rs).
Proof.
  intros H j r Hj. rewrite list_lookup_alter in Hj. case_decide; [subst j|by apply H].
  apply fmap_Some in Hj as (r0 & Hr & ->). destruct (H _ _ Hr) as (HI & HD & HV).
  split; [done|]. split; [|done]. by destruct HD.
Qed.

Lemma traceReuse_in_force now ms : triple in_force (traceReuse now ms) (fun _ => in_force) sound.
Proof.
  unfold traceReuse. do 3 (eapply triple_bind; [apply keeps_in_force; keep|]; intros ?).
  destruct (AuthorizedTrace _ _ _ _ _ _ _) as [traced [err|]]; [apply keeps_in_force; keep|].
  eapply triple_bind; [apply keeps_in_force; keep|]. intros ?.
  eapply triple_bind; [|intros ?; apply keeps_in_force, record_keeps].
  apply triple_modify. intros e [Hs Hf]. split; [by apply evidence_reject|exact Hf].
Qed.

Lemma revoke_in_force env : triple in_force (revoke env) (fun _ => in_force) sound.
Proof.
  unfold revoke. do 4 (eapply triple_bind; [apply keeps_in_force; keep|]; intros ?).
  eapply (triple_bind _ _ (fun _ => sound)); [apply triple_modify; intros e [Hs _]; exact Hs|]. intros ?.
  eapply triple_bind; [apply authorize_in_force|]. intros ?.
  repeat first [apply submit_in_force | eapply triple_bind; [solve [apply submit_in_force | apply keeps_in_force; keep]|]; intros ?].
  apply keeps_in_force. keep.
Qed.

Lemma prepare_in_force env : triple in_force (prepare env) (fun _ => in_force) sound.
Proof.
  assert (forall io now (k : EM unit), keeps evidence_parts k -> triple sound (authorize io now ≫= fun _ => k) (fun _ => in_force) sound) as HA.
  { intros io now k Hk. eapply triple_bind; [apply authorize_in_force|]. intros ?. by apply keeps_in_force. }
  unfold prepare. eapply triple_bind; [apply keeps_in_force, load_keeps|]. intros ?.
  eapply triple_bind; [apply keeps_in_force; keep|]. intros e.
  eapply triple_bind; [apply keeps_in_force, restore_pin_keeps|]. intros ?.
  apply (triple_weaken _ sound _ (fun _ => in_force)); [|apply in_force_sound|done].
  assert (forall A (m : EM A), keeps evidence_parts m -> keeps eg_reports m) as HK.
  { intros A m Hm w. specialize (Hm w). unfold evidence_parts in Hm. by injection Hm. }
  assert (forall env pub i ids, keeps eg_reports (prepare_members env pub i ids)) as HM by (intros; apply HK, prepare_members_keeps).
  repeat match goal with
  | |- triple _ (authorize _ _ ≫= _) _ _ => apply HA, record_keeps
  | |- triple _ (let '(_, _) := ?x in _) _ _ => destruct x
  | |- triple _ (match ?x with Some _ => _ | None => _ end) _ _ => destruct x
  | |- triple _ (_ ≫= _) _ _ => eapply triple_bind; [apply keeps_sound; solve [apply HM | keep]|intros ?]
  | |- triple _ (lift (Err _)) _ _ => intros w Hw; exact Hw
  end.
Qed.

Lemma verify_reports_keeps env root i rs : keeps evidence_parts (verify_reports env root i rs).
Proof. revert i. induction rs as [|r rs IH]; intros i; cbn [verify_reports]; keep. Qed.
Hint Resolve verify_reports_keeps : keeps.

Lemma exportAndVerify_keeps env : keeps evidence_parts (exportAndVerify exportVerifier zip_archive env).
Proof. unfold exportAndVerify. keep. Qed.

Lemma scenario_in_force env n : triple in_force (scenario_step exportVerifier zip_archive env n) (fun _ => in_force) sound.
Proof.
  unfold scenario_step. destruct (n =? 0); [apply prepare_in_force|]. destruct (n =? 1); [apply submit_in_force|].
  destruct (n =? 2); [eapply triple_bind; [apply submit_in_force|]; intros ?; apply keeps_in_force, compare_keeps|].
  destruct (n =? 3); [eapply triple_bind; [apply submit_in_force|]; intros ?; apply keeps_in_force, compare_keeps|].
  destruct (n =? 4); [apply exhaust_in_force|].
  destruct (n =? 5); [eapply triple_bind; [apply submit_in_force|]; intros ?; apply traceReuse_in_force|].
  destruct (n =? 6); [apply revoke_in_force|]. destruct (n =? 7); [apply keeps_in_force, exportAndVerify_keeps|].
  apply keeps_in_force. keep.
Qed.

(** ** The configuration and the archive *)

Definition fixed_parts (e : engine) : config * bytes := (eg_config e, eg_bundle e).

Lemma load_fixed env : keeps fixed_parts (load env).
Proof. unfold load, generate, load_existing. keep. Qed.
Lemma restore_pin_fixed io : keeps fixed_parts (restore_pin io).
Proof. unfold restore_pin. keep. Qed.
Lemma prepare_members_fixed env pub i ids : keeps fixed_parts (prepare_members env pub i ids).
Proof.
  revert i. induction ids as [|identity ids IH]; intros i; cbn [prepare_members]; [keep|].
  unfold prepare_member, member_wallet. keep; try apply IH.
Qed.
Lemma authorize_fixed io now : keeps fixed_parts (authorize io now).
Proof. unfold authorize. keep. Qed.
Lemma record_fixed label result detail ms : keeps fixed_parts (record label result detail ms).
Proof. unfold record. keep. Qed.
Hint Resolve load_fixed restore_pin_fixed prepare_members_fixed authorize_fixed record_fixed : keeps.

Lemma submit_fixed env i temperature malicious : keeps fixed_parts (submit env i temperature malicious).
Proof.
  unfold submit, sign_with_wallet. keep. apply keeps_modify. intros e. unfold count_used. by repeat case_match.
Qed.
Hint Resolve submit_fixed : keeps.

(** The archive is made in the last step only, and no step changes the
    configuration. *)
Lemma scenario_fixed env n : n <> 7 -> keeps fixed_parts (scenario_step exportVerifier zip_archive env n).
Proof.
  intros Hn. unfold scenario_step, prepare, compare, exhaust, traceReuse, revoke. rewrite (proj2 (Z.eqb_neq n 7) Hn).
  destruct (n =? 0); [keep|]. destruct (n =? 1); [keep|]. destruct (n =? 2); [keep|]. destruct (n =? 3); [keep|].
  destruct (n =? 4); [keep|]. destruct (n =? 5); [keep|]. destruct (n =? 6); keep.
Qed.

Lemma fixed_config {A} (m : EM A) : keeps fixed_parts m -> keeps eg_config m.
Proof. intros Hm w. specialize (Hm w). unfold fixed_parts in Hm. by injection Hm. Qed.

Lemma scenario_config env n : keeps eg_config (scenario_step exportVerifier zip_archive env n).
Proof.
  destruct (decide (n = 7)) as [->|Hn]; [|by apply fixed_config, scenario_fixed].
  assert (forall e root i rs, keeps eg_config (verify_reports e root i rs)) as HV.
  { intros e root i rs. revert i. induction rs as [|r rs IH]; intros i; cbn [verify_reports]; keep. }
  change (keeps eg_config (exportAndVerify exportVerifier zip_archive (ev_export env))). unfold exportAndVerify.
  keep; apply HV.
Qed.
End facts.
