(* ===== verification/DemoFiles.v ===== *)
(** * The exported evidence

    The names of the exported files are an explicit list of public ones, they
    stay below the directory they are written to, and each file is found
    there with its contents. *)

From S2P Require Import Prelude Bytes Sha256 Curve Toy Profile Samples Accumulator Circuit CircuitFacts.
From S2P Require Import Statements Backend BackendFacts ToyProofs Protocol Security Wire Encodings Text.
From S2P Require Import Json JsonStream JsonFacts JsonStreamFacts Service SetupEncoding Setup SetupFacts Context Vault VaultClaims Trust TrustFacts TrustClaims Stdio.
From S2P Require Import Native NativeFacts DemoEngine DemoExport DemoFacts.

(** ** Paths *)

Lemma append_assoc (a b c : string) : (a +:+ b) +:+ c = a +:+ (b +:+ c).
Proof. induction a as [|x a IH]; [done|]. change (String x ((a +:+ b) +:+ c) = String x (a +:+ (b +:+ c))). by rewrite IH. Qed.

Lemma split_path_Some p d n : split_path p = Some (d, n) -> p = join d n.
Proof.
  revert d. induction p as [|c p IH]; intros d; cbn [split_path]; [done|]. destruct (split_path p) as [[d' n']|].
  - intros [= <- <-]. by rewrite (IH d' eq_refl).
  - destruct (Ascii.eqb_spec c slash) as [->|]; [|done]. by intros [= <- <-].
Qed.

Lemma split_join_Some dir name : is_Some (split_path (join dir name)).
Proof.
  unfold join. induction dir as [|c dir [[d n] IH]].
  - change (is_Some (split_path (String slash name))). cbn [split_path]. destruct (split_path name) as [[]|]; by eauto.
  - change (is_Some (split_path (String c (dir +:+ String slash name)))). cbn [split_path]. rewrite IH. by eauto.
Qed.

Lemma join_inj dir n n' : join dir n = join dir n' -> n = n'.
Proof.
  unfold join. induction dir as [|c dir IH]; [by intros [= ->]|].
  change (String c (dir +:+ String slash n) = String c (dir +:+ String slash n') -> n = n'). by intros [= ?%IH].
Qed.

Lemma file_put fs p f q : is_Some (split_path p) -> file_at (put_file p (Some f) fs) q = if decide (q = p) then Some f else file_at fs q.
Proof.
  intros [[d n] Hp]. unfold put_file, file_at. rewrite Hp. destruct (split_path q) as [[d' n']|] eqn:Hq.
  - destruct (decide (d' = d)) as [->|Hd].
    + rewrite lookup_insert_eq. cbn [mbind option_bind]. destruct (decide (n' = n)) as [->|Hn].
      * rewrite lookup_insert_eq, decide_True; [done|]. by rewrite (split_path_Some _ _ _ Hp), (split_path_Some _ _ _ Hq).
      * rewrite lookup_insert_ne, decide_False by congruence. by destruct (fs !! d).
    + rewrite lookup_insert_ne, decide_False by congruence. done.
  - by rewrite decide_False by congruence.
Qed.

(** ** Local names *)

Lemma list_ascii_app a b : String.list_ascii_of_string (a +:+ b) = String.list_ascii_of_string a ++ String.list_ascii_of_string b.
Proof.
  induction a as [|x a IH]; [done|].
  change (x :: String.list_ascii_of_string (a +:+ b) = x :: String.list_ascii_of_string a ++ String.list_ascii_of_string b). by rewrite IH.
Qed.

Definition no_slash (l : list ascii) : Prop := Forall (fun c => Ascii.eqb c slash = false) l.

Lemma path_elements_app cur a s : no_slash a -> path_elements cur (a ++ s) = path_elements (rev a ++ cur) s.
Proof.
  intros Ha. revert cur. induction Ha as [|c a Hc _ IH]; intros cur; [done|]. cbn [app path_elements rev]. rewrite Hc, IH.
  by rewrite <- app_assoc.
Qed.

Lemma path_depth_local d es : Forall (fun e => e <> ["."%char; "."%char]) es -> is_Some (path_depth d es).
Proof.
  intros H. revert d. induction H as [|e es He _ IH]; intros d; cbn [path_depth]; [by eauto|].
  rewrite (bool_decide_false (e = ["."%char; "."%char])) by done. by destruct (_ || _).
Qed.

(** ** Numbers in names *)

Definition digit_text (s : string) : Prop := Forall (fun b => is_digit b = true) (ascii_bytes s).

Lemma ascii_bytes_text b : ascii_bytes (String.string_of_list_byte b) = b.
Proof. apply String.list_byte_of_string_of_list_byte. Qed.

Lemma dec_text_bytes n : 0 <= n -> ascii_bytes (dec_text n) = uint_bytes (N.to_uint (Z.to_N n)).
Proof. intros Hn. unfold dec_text. rewrite ascii_bytes_text. unfold print_int. by destruct (Z.ltb_spec n 0); [lia|]. Qed.

Lemma two_digits_bytes n : 0 <= n ->
  ascii_bytes (two_digits n) = (if n <? 10 then [z2b 48] else []) ++ uint_bytes (N.to_uint (Z.to_N n)).
Proof.
  intros Hn. unfold two_digits. rewrite (proj2 (Z.leb_le 0 n) Hn). cbn [andb]. destruct (n <? 10); [|by apply dec_text_bytes].
  change (ascii_bytes ("0" +:+ dec_text n)) with (z2b 48 :: ascii_bytes (dec_text n)). by rewrite dec_text_bytes.
Qed.

Lemma two_digits_text n : 0 <= n -> digit_text (two_digits n).
Proof.
  intros Hn. unfold digit_text. rewrite two_digits_bytes by done. apply Forall_app. split; [|apply uint_bytes_digits].
  destruct (n <? 10); [|done]. by repeat constructor.
Qed.

(** The number a text of digits stands for. *)
Definition text_value (s : string) : option N := N.of_uint <$> bytes_uint (ascii_bytes s).

Lemma two_digits_value n : 0 <= n -> text_value (two_digits n) = Some (Z.to_N n).
Proof.
  intros Hn. unfold text_value. rewrite two_digits_bytes by done. destruct (n <? 10); cbn [app].
  - change (bytes_uint (z2b 48 :: uint_bytes (N.to_uint (Z.to_N n)))) with (Decimal.D0 <$> bytes_uint (uint_bytes (N.to_uint (Z.to_N n)))).
    rewrite bytes_uint_bytes. cbn [fmap option_fmap option_map]. f_equal. exact (DecimalN.Unsigned.of_to (Z.to_N n)).
  - rewrite bytes_uint_bytes. cbn [fmap option_fmap option_map]. f_equal. apply DecimalN.Unsigned.of_to.
Qed.

Lemma two_digits_inj n m : 0 <= n -> 0 <= m -> two_digits n = two_digits m -> n = m.
Proof. intros Hn Hm H. pose proof (two_digits_value n Hn) as E. rewrite H, two_digits_value in E by done. injection E. lia. Qed.

Lemma digit_text_chars s : digit_text s -> Forall (fun c => is_digit (Ascii.byte_of_ascii c) = true) (String.list_ascii_of_string s).
Proof. unfold digit_text, ascii_bytes, String.list_byte_of_string. by rewrite Forall_map. Qed.

Lemma digit_text_slash s : digit_text s -> no_slash (String.list_ascii_of_string s).
Proof. intros H%digit_text_chars. eapply Forall_impl; [exact H|]. intros c Hc. by destruct (Ascii.eqb_spec c slash) as [->|]. Qed.

Lemma digit_text_parent s : digit_text s -> String.list_ascii_of_string s <> ["."%char; "."%char].
Proof. intros H%digit_text_chars E. rewrite E in H. by inversion H. Qed.

(** ** The names *)

Definition report_parts : list string := ["message.json"; "signature.bin"; "context.json"; "policy.json"; "registry.json"].

Definition report_names (id : Z) : list string := (fun part => report_prefix id +:+ part) <$> report_parts.

(** The names exported for [n] reports. *)
Definition export_names (n : nat) : list string :=
  ["verify.py"; "setup-approval.json"] ++ ((fun name => "public-setup/" +:+ name) <$> public_names)
  ++ concat (report_names <$> seqZ 1 (Z.of_nat n)) ++ ["current-policy.json"; "current-registry.json"; "tampered-message.json"; "README.txt"].

Lemma split_report id part : split_path part = None -> split_path (report_prefix id +:+ part) = Some ("reports/" +:+ two_digits id, part).
Proof.
  intros Hp. unfold report_prefix. rewrite append_assoc, append_assoc. change ("/" +:+ part) with (String slash part).
  rewrite <- append_assoc. by apply split_path_join.
Qed.

Lemma report_parts_flat : Forall (fun p => split_path p = None /\ no_slash (String.list_ascii_of_string p) /\
  String.list_ascii_of_string p <> ["."%char; "."%char]) report_parts.
Proof. repeat (constructor; [split; [done|]; split; [by repeat constructor|done]|]). constructor. Qed.

Lemma report_name_local id part : 0 <= id -> part ∈ report_parts -> IsLocal (report_prefix id +:+ part) = true.
Proof.
  intros Hid Hp. pose proof (proj1 (Forall_forall _ _) report_parts_flat _ Hp) as (_ & Hs & Hd).
  unfold IsLocal, report_prefix. rewrite append_assoc, append_assoc, list_ascii_app.
  change (String.list_ascii_of_string "reports/") with (String.list_ascii_of_string "reports" ++ [slash]). rewrite <- app_assoc.
  set (l := [slash] ++ _). change (String.list_ascii_of_string "reports" ++ l) with ("r"%char :: String.list_ascii_of_string "eports" ++ l) at 1.
  cbv iota. change (negb (Ascii.eqb "r" slash)) with true. cbn [andb].
  rewrite path_elements_app by (by repeat constructor). unfold l. cbn [app path_elements]. rewrite Ascii.eqb_refl.
  rewrite list_ascii_app, path_elements_app by (by apply digit_text_slash, two_digits_text).
  change (String.list_ascii_of_string ("/" +:+ part)) with (slash :: String.list_ascii_of_string part). cbn [path_elements].
  rewrite Ascii.eqb_refl, <- (app_nil_r (String.list_ascii_of_string part)), path_elements_app by done. cbn [path_elements].
  rewrite !app_nil_r, !rev_involutive. edestruct path_depth_local as [x Hx]; [|by rewrite Hx].
  repeat constructor; [done| |done]. by apply digit_text_parent, two_digits_text.
Qed.

Lemma elem_report_names id name : name ∈ report_names id <-> exists part, name = report_prefix id +:+ part /\ part ∈ report_parts.
Proof. apply list_elem_of_fmap. Qed.

Lemma report_name_split id name : name ∈ report_names id -> exists part, part ∈ report_parts /\ split_path name = Some ("reports/" +:+ two_digits id, part).
Proof.
  intros (part & -> & Hp)%elem_report_names. exists part. split; [done|]. apply split_report.
  by apply (proj1 (Forall_forall _ _) report_parts_flat).
Qed.

Lemma report_names_nodup id : NoDup (report_names id).
Proof.
  apply (NoDup_fmap_1 split_path). unfold report_names. rewrite <- list_fmap_compose.
  rewrite (list_fmap_ext _ (fun part => Some ("reports/" +:+ two_digits id, part)) report_parts).
  - apply NoDup_fmap_2; [by intros ?? [= ->]|]. by apply (bool_decide_unpack _).
  - intros i part Hp. apply split_report. by apply (proj1 (Forall_lookup _ _) report_parts_flat i).
Qed.

Lemma report_names_disjoint id id' name : 0 <= id -> 0 <= id' -> name ∈ report_names id -> name ∈ report_names id' -> id = id'.
Proof.
  intros Hi Hi' (p & _ & H)%report_name_split (p' & _ & H')%report_name_split. rewrite H in H'.
  assert ("reports/" +:+ two_digits id = "reports/" +:+ two_digits id') as E by congruence.
  apply two_digits_inj; [done..|]. by injection E.
Qed.

Lemma elem_all_names ids name : name ∈ concat (report_names <$> ids) <-> exists id, id ∈ ids /\ name ∈ report_names id.
Proof.
  induction ids as [|id ids IH]; cbn [fmap list_fmap concat].
  - split; [by intros ?%not_elem_of_nil|]. by intros (? & ?%not_elem_of_nil & _).
  - rewrite elem_of_app, IH. setoid_rewrite elem_of_cons. naive_solver.
Qed.

Lemma all_names_nodup ids : NoDup ids -> Forall (fun id => 0 <= id) ids -> NoDup (concat (report_names <$> ids)).
Proof.
  intros Hn Hp. induction Hn as [|id ids Hid _ IH]; [constructor|]. apply Forall_cons in Hp as [H0 Hp]. cbn [fmap list_fmap concat].
  apply NoDup_app. split; [apply report_names_nodup|]. split; [|by apply IH]. intros name Hname (id' & Hid' & Hname')%elem_all_names.
  destruct Hid. rewrite (report_names_disjoint id id' name); [done..| |done|done]. by apply (proj1 (Forall_forall _ _) Hp).
Qed.

Lemma seqZ_positive n : Forall (fun id => 0 <= id) (seqZ 1 n).
Proof. apply Forall_forall. intros id Hid%elem_of_seqZ. lia. Qed.

(** The names that do not depend on the reports. *)
Definition plain_names : list string :=
  ["verify.py"; "setup-approval.json"] ++ ((fun name => "public-setup/" +:+ name) <$> public_names)
  ++ ["current-policy.json"; "current-registry.json"; "tampered-message.json"; "README.txt"].

Lemma export_names_perm n : export_names n ≡ₚ plain_names ++ concat (report_names <$> seqZ 1 (Z.of_nat n)).
Proof. unfold export_names, plain_names. rewrite <- !app_assoc. do 2 apply Permutation_app_head. apply Permutation_app_comm. Qed.

Lemma plain_names_other : Forall (fun name => IsLocal name = true /\
  match split_path name with Some (d, _) => String.eqb d "public-setup" | None => true end = true) plain_names.
Proof. by apply (bool_decide_unpack _); vm_compute. Qed.

Lemma export_names_nodup n : NoDup (export_names n).
Proof.
  rewrite export_names_perm. apply NoDup_app. split; [by apply (bool_decide_unpack _)|].
  split; [|apply all_names_nodup; [apply NoDup_seqZ|apply seqZ_positive]].
  intros name Hp (id & _ & (part & _ & H)%report_name_split)%elem_all_names.
  apply (proj1 (Forall_forall _ _) plain_names_other) in Hp as [_ Hp]. rewrite H in Hp. done.
Qed.

Lemma export_names_local n : Forall (fun name => IsLocal name = true) (export_names n).
Proof.
  rewrite export_names_perm. apply Forall_app. split; [eapply Forall_impl; [apply plain_names_other|]; by intros ? [? _]|].
  apply Forall_forall. intros name (id & Hid & Hn)%elem_all_names. apply elem_report_names in Hn as (part & -> & Hp).
  apply report_name_local; [|done]. by apply (proj1 (Forall_forall _ _) (seqZ_positive _)) in Hid.
Qed.

Section facts.
Context `{CR : !Crypto, GR : !Groth16, SB : !SetupBackend, AE : !AEAD, ED : !Ed25519}.
Context (exportVerifier : bytes).

(** ** The files *)

Lemma public_files_names io e fs names files :
  public_files io e fs names = Ok files -> files.*1 = (fun name => "public-setup/" +:+ name) <$> names.
Proof.
  revert files. induction names as [|name names IH]; cbn [public_files]; intros files; [by intros [= <-]|].
  intros (b & _ & (rest & Hr & [= <-])%bind_Ok)%bind_Ok. cbn [fmap list_fmap]. by rewrite (IH _ Hr).
Qed.

(** Each file of the public setup is copied as it is read. *)
Lemma public_files_contents io e fs names files :
  public_files io e fs names = Ok files ->
  forall name, name ∈ names -> exists perm b, file_at fs (join (eg_publicDir e) name) = Some (mkFile true perm b) /\
    ("public-setup/" +:+ name, b) ∈ files.
Proof.
  revert files. induction names as [|name names IH]; cbn [public_files]; intros files; [by intros _ ? ?%not_elem_of_nil|].
  intros (b & [_ (perm & Hf & _)]%ReadBoundedFile_Ok & (rest & Hr & [= <-])%bind_Ok)%bind_Ok.
  intros n [->|Hn]%elem_of_cons; [exists perm, b; split; [done|left]|].
  destruct (IH _ Hr n Hn) as (perm' & b' & ? & ?). exists perm', b'. split; [done|by right].
Qed.

(** The files of one report: the message, the encoded signature, the encoded
    context, the policy and the registry. *)
Definition report_entries (r : signedReport) (sig ctx : bytes) : list (string * bytes) :=
  let prefix := report_prefix (rv_ID (sr_view r)) in
  [(prefix +:+ "message.json", rv_Message (sr_view r)); (prefix +:+ "signature.bin", sig); (prefix +:+ "context.json", ctx);
   (prefix +:+ "policy.json", marshal_indent (enc_policy (sr_policy r))); (prefix +:+ "registry.json", sr_registry r)].

Lemma report_files_contents r files : report_files r = Ok files ->
  exists sig ctx, MarshalSigned (sr_signed r) = Ok sig /\ MarshalVerificationContext (sr_context r) = Ok ctx /\
    files = report_entries r sig ctx.
Proof.
  unfold report_files. intros (sig & Hs & (ctx & Hc & E)%bind_Ok)%bind_Ok. exists sig, ctx. split_and!; [done..|].
  unfold report_entries. congruence.
Qed.

Lemma all_report_files_contents rs k files :
  (forall i r, rs !! i = Some r -> rv_ID (sr_view r) = k + Z.of_nat i) -> all_report_files rs = Ok files ->
  files.*1 = concat (report_names <$> seqZ k (Z.of_nat (length rs))) /\
  forall r, r ∈ rs -> exists sig ctx, MarshalSigned (sr_signed r) = Ok sig /\ MarshalVerificationContext (sr_context r) = Ok ctx /\
    report_entries r sig ctx ⊆ files.
Proof.
  revert k files. induction rs as [|r rs IH]; intros k files Hid; cbn [all_report_files].
  { intros [= <-]. split; [done|]. by intros r ?%not_elem_of_nil. }
  intros (part & (sig & ctx & Hs & Hc & ->)%report_files_contents & (rest & Hr & HF)%bind_Ok)%bind_Ok.
  assert (files = report_entries r sig ctx ++ rest) as -> by congruence. clear HF. destruct (IH (k + 1) rest) as [IH1 IH2]; [|done|].
  { intros i x Hx. rewrite (Hid (S i) x Hx). lia. }
  split.
  - rewrite fmap_app, IH1. cbn [length]. rewrite (seqZ_cons k) by lia. cbn [fmap list_fmap concat]. f_equal.
    + change ((report_entries r sig ctx).*1) with (report_names (rv_ID (sr_view r))). rewrite (Hid 0%nat r eq_refl). f_equal. lia.
    + replace (Z.succ k) with (k + 1) by lia. by replace (Z.pred (Z.of_nat (S (length rs)))) with (Z.of_nat (length rs)) by lia.
  - intros x [->|Hx]%elem_of_cons; [exists sig, ctx; split_and!; [done..|]; intros kv Hkv; apply elem_of_app; by left|].
    destruct (IH2 x Hx) as (sig' & ctx' & ? & ? & Hsub). exists sig', ctx'. split_and!; [done..|].
    intros kv Hkv%Hsub. apply elem_of_app. by right.
Qed.

(** The contents of every exported file. *)
Record export_contents (e : engine) (fs : filesystem) (files : gmap string bytes) : Prop := mk_export_contents {
  xc_names : dom files = list_to_set (export_names (length (eg_reports e)));
  xc_verifier : files !! "verify.py" = Some exportVerifier;
  xc_approval : files !! "setup-approval.json" = Some (eg_approval e);
  xc_setup : forall name, name ∈ public_names -> exists perm b,
    file_at fs (join (eg_publicDir e) name) = Some (mkFile true perm b) /\ files !! ("public-setup/" +:+ name) = Some b;
  xc_reports : forall r, r ∈ eg_reports e -> exists sig ctx,
    MarshalSigned (sr_signed r) = Ok sig /\ MarshalVerificationContext (sr_context r) = Ok ctx /\
    forall name data, (name, data) ∈ report_entries r sig ctx -> files !! name = Some data;
  xc_policy : files !! "current-policy.json" = Some (marshal_indent (enc_policy (eg_policy e)));
  xc_registry : files !! "current-registry.json" = Some (eg_registryBytes e);
  xc_tampered : files !! "tampered-message.json" = Some tampered_message;
  xc_readme : files !! "README.txt" = Some (ascii_bytes readme_text);
}.

Lemma exportFiles_contents io e fs files :
  sound e -> exportFiles exportVerifier io e fs = Ok files -> export_contents e fs files.
Proof.
  intros HS. unfold exportFiles. intros (setup & Hs & (reports & Hr & HF)%bind_Ok)%bind_Ok.
  pose proof (public_files_names _ _ _ _ _ Hs) as Hsn. pose proof (public_files_contents _ _ _ _ _ Hs) as Hsc.
  destruct (all_report_files_contents _ 1 _ (fun i r Hi => eq_trans (proj1 (HS i r Hi)) (Z.add_comm _ _)) Hr) as [Hn Hc].
  set (head := [_; _]) in HF. set (closing := [_; _; _; _]) in HF. set (entries := head ++ setup ++ reports ++ closing) in HF.
  assert (files = list_to_map (rev entries)) as -> by congruence. clear HF.
  pose proof (rev_alt entries : rev entries = reverse entries) as Hrev.
  assert (entries.*1 = export_names (length (eg_reports e))) as HE.
  { unfold entries, export_names. by rewrite !fmap_app, Hsn, Hn. }
  assert (NoDup entries.*1) as HN by (rewrite HE; apply export_names_nodup).
  assert (forall name data, (name, data) ∈ entries -> (list_to_map (rev entries) : gmap string bytes) !! name = Some data) as HL.
  { intros name data Hin. apply elem_of_list_to_map_1; [|by rewrite Hrev, elem_of_reverse].
    rewrite Hrev, fmap_reverse. by rewrite reverse_Permutation. }
  assert (forall kv, kv ∈ head \/ kv ∈ setup \/ kv ∈ reports \/ kv ∈ closing -> kv ∈ entries) as HU.
  { intros kv. unfold entries. rewrite !elem_of_app. tauto. }
  split.
  - rewrite dom_list_to_map_L, <- HE. apply set_eq. intros name. rewrite !elem_of_list_to_set, Hrev, fmap_reverse.
    apply elem_of_reverse.
  - apply HL, HU. left. left.
  - apply HL, HU. left. right. left.
  - intros name (perm & b & Hf & Hin)%Hsc. exists perm, b. split; [done|]. apply HL, HU. by right; left.
  - intros r (sig & ctx & ? & ? & Hsub)%Hc. exists sig, ctx. split_and!; [done..|]. intros name data Hin%Hsub.
    apply HL, HU. by right; right; left.
  - apply HL, HU. do 3 right. left.
  - apply HL, HU. do 4 right. left.
  - apply HL, HU. do 5 right. left.
  - apply HL, HU. do 6 right. left.
Qed.

(** ** Writing *)

Lemma write_files_Ok root l fs : NoDup l.*1 -> Forall (fun kv => IsLocal kv.1 = true) l ->
  exists fs', write_files root l fs = (Ok tt, fs') /\
    (forall name data, (name, data) ∈ l -> file_at fs' (join root name) = Some (private_file data)) /\
    (forall q, (forall kv, kv ∈ l -> q <> join root kv.1) -> file_at fs' q = file_at fs q).
Proof.
  revert fs. induction l as [|[name data] l IH]; intros fs Hn Hl; cbn [write_files].
  { exists fs. split; [done|]. split; [by intros ?? ?%not_elem_of_nil|done]. }
  apply NoDup_cons in Hn as [Hi Hn]. apply Forall_cons in Hl as [Hloc Hl]. cbn [fst] in *. rewrite Hloc. cbn [negb].
  destruct (IH (put_file (join root name) (Some (private_file data)) fs) Hn Hl) as (fs' & -> & H1 & H2).
  exists fs'. split; [done|]. split.
  - intros n d [[= -> ->]|Hd]%elem_of_cons; [|by apply H1].
    rewrite H2, file_put, decide_True; [done..|apply split_join_Some|].
    intros [n d] Hkv Hq. apply join_inj in Hq. cbn [fst] in Hq. subst n. apply Hi, list_elem_of_fmap. by exists (name, d).
  - intros q Hq. rewrite H2 by (intros kv Hkv; apply Hq; by right). rewrite file_put by apply split_join_Some.
    rewrite decide_False; [done|]. apply (Hq (name, data)). left.
Qed.

(** C32: the public evidence. For an engine whose reports are in order, the
    exported files are exactly the listed public ones with their contents: the
    verifier script, the stored approval, the public setup files as they are
    in the public directory (the proving key is not among them), for each
    report its message, encoded signature, encoded context, policy and
    registry, then the current policy and registry, the tampered message and
    the README. Every name stays below the export directory, so writing to a
    fresh directory succeeds in whatever order the files are met, and every
    file is found there as it was exported. *)
Theorem export_faithful io e fs files order root :
  sound e -> exportFiles exportVerifier io e fs = Ok files -> (forall l, order l ≡ₚ l) -> present fs root = false ->
  export_contents e fs files /\
  exists fs', writeExport order None root files fs = (Ok tt, fs') /\
    forall name data, files !! name = Some data -> file_at fs' (join root name) = Some (private_file data).
Proof.
  intros HS HF Ho Hr. pose proof (exportFiles_contents io e fs files HS HF) as HC. split; [done|].
  pose proof (xc_names _ _ _ HC) as HD.
  unfold writeExport. rewrite Hr.
  destruct (write_files_Ok root (order (map_to_list files)) (<[root := ∅]> fs)) as (fs' & HW & H1 & _).
  - rewrite Ho. apply NoDup_fst_map_to_list.
  - rewrite Ho. apply Forall_forall. intros [name data] Hin%elem_of_map_to_list. cbn [fst].
    apply (proj1 (Forall_forall _ _) (export_names_local (length (eg_reports e)))).
    apply elem_of_dom_2 in Hin. rewrite HD in Hin. by apply elem_of_list_to_set in Hin.
  - exists fs'. split; [done|]. intros name data Hd. apply H1. rewrite Ho. by apply elem_of_map_to_list.
Qed.
End facts.

(** ** An instance: an engine with one report *)

Definition evidence_report : signedReport :=
  mkSignedReport
    (mkReportView 1 message_1 (hex_encode (EncodeBNPoint (st_Nym (sg_Statement double_1))))
       (hex_encode (EncodeSecpPoint (st_S (sg_Statement double_1)))) (tp_RegistryEpoch sample_policy)
       (Z.of_nat (length (get_ok [] (MarshalSigned double_1)))) 1 1 "accepted" "")
    double_1 (sample_ctx 1) sample_policy sample_registry_text.

Definition evidence_engine : engine :=
  eset_publicDir "public" (eset_reports [evidence_report] (new_engine (mkConfig "demo" "" "" "lktrs-native") None)).

Definition evidence_disk : filesystem :=
  {["public" := {["manifest.json" := private_file []; "parameters.bin" := private_file [Byte.x01]; "vk.bin" := private_file [Byte.x02]]}]}.

Lemma double_1_marshals : is_ok (MarshalSigned double_1) = true.
Proof. vm_compute. reflexivity. Qed.

Lemma evidence_engine_sound : sound evidence_engine.
Proof.
  intros [|i] r Hi; [|by destruct i]. injection Hi as <-. split; [done|]. split.
  - split; [done..|]. exists (get_ok [] (MarshalSigned double_1)). split; [|done]. apply get_ok_eq, double_1_marshals.
  - exists sample_authorized, 150. split; [done|]. destruct sample_issued_verify as (r & _ & _ & HV).
    exact (eq_trans (HV message_1 double_1) (proj1 double_1_facts)).
Qed.

Lemma evidence_exports : is_ok (exportFiles [] (fun _ => None) evidence_engine evidence_disk) = true.
Proof. vm_compute. reflexivity. Qed.

Definition evidence_files : gmap string bytes := get_ok ∅ (exportFiles [] (fun _ => None) evidence_engine evidence_disk).

Lemma export_faithful_witness :
  export_contents [] evidence_engine evidence_disk evidence_files /\
  exists fs', writeExport (@rev _) None "export" evidence_files evidence_disk = (Ok tt, fs') /\
    forall name data, evidence_files !! name = Some data -> file_at fs' (join "export" name) = Some (private_file data).
Proof.
  refine (export_faithful [] (fun _ => None) evidence_engine evidence_disk evidence_files (@rev _) "export" evidence_engine_sound _ _ _).
  - apply get_ok_eq, evidence_exports.
  - intros l. symmetry. apply Permutation_rev.
  - vm_compute. reflexivity.
Defined.
