(* ===== verification/DemoClaims.v ===== *)
(** * The demonstration server keeps its workflow

    Requests, progress messages and workers interleave; at most one worker
    runs, steps run in order from a fresh engine, every report shown was
    verified, and the archive is served only after all the steps. Only
    requests with the session's host, origin and token change anything. The
    streaming decoder of actions agrees with reading the whole text. *)

From S2P Require Import Prelude Bytes Sha256 Curve Toy Profile Samples Accumulator Circuit CircuitFacts.
From S2P Require Import Statements Backend BackendFacts ToyProofs Protocol Security Wire Encodings Text.
From S2P Require Import Json JsonStream JsonFacts JsonStreamFacts Service SetupEncoding Setup SetupFacts Context Vault VaultClaims Trust TrustClaims Stdio.
From S2P Require Import Native DemoEngine DemoExport DemoServer DemoFacts.

(** ** Actions *)

(** Two rounds are enough: the second field is refused. *)
Lemma action_fields_seen fuel step r : (0 < fuel)%nat -> action_fields fuel true step r <> Err out_of_fuel.
Proof.
  intros Hf. destruct fuel as [|fuel]; [lia|]. cbn [action_fields]. destruct (skip_ws r) as [|b r1]; [done|].
  case_bool_decide; [done|]. case_bool_decide; [done|]. destruct (key_token _ _) as [[key r2]|]; [|done]. by rewrite orb_true_r.
Qed.

Lemma action_fields_close fuel step r s rest : (0 < fuel)%nat ->
  action_fields fuel true step r = Ok (s, rest) <-> s = step /\ skip_ws r = rbrace :: rest.
Proof.
  intros Hf. destruct fuel as [|fuel]; [lia|]. cbn [action_fields]. destruct (skip_ws r) as [|b r1]; [naive_solver|].
  case_bool_decide as Hb; [subst b; naive_solver|]. split; [|naive_solver]. case_bool_decide; [done|].
  destruct (key_token _ _) as [[key r2]|]; [|done]. by rewrite orb_true_r.
Qed.

Lemma action_first r :
  action_fields 2 false None r =
    match skip_ws r with
    | [] => Err "unterminated action"
    | b :: r1 =>
        if bool_decide (b = rbrace) then Ok (None, r1)
        else if bool_decide (b = rbracket) then Err "unterminated action"
        else match (if bool_decide (b = dquote) then unquote (length r1) r1 else Err "invalid token") with
             | Err _ => Err "unknown or duplicate action field"
             | Ok (key, r2) =>
                 if bool_decide (key = ascii_bytes "step") then '(v, r3) ← colon_value r2; step ← dec_step v; action_fields 1 true step r3
                 else Err "unknown or duplicate action field"
             end
    end.
Proof.
  cbn [action_fields negb key_token]. destruct (skip_ws r) as [|b r1]; [done|]. case_bool_decide; [done|]. case_bool_decide; [done|].
  destruct (if bool_decide (b = dquote) then _ else _) as [[key r2]|]; [|done]. rewrite orb_false_r. by destruct (bool_decide (key = _)).
Qed.

Lemma dec_step_fuel v : dec_step v <> Err out_of_fuel.
Proof.
  destruct v; try done. pose proof (dec_int_fuel 64 (JNum lit) 0) as H. cbn [dec_int dec_step] in *.
  destruct (parse_int 64 lit) as [|e]; [done|]. by intros [= ->].
Qed.

Lemma action_fuel r : decodeAction r <> Err out_of_fuel.
Proof.
  unfold decodeAction. destruct (skip_ws r) as [|b r1]; [done|]. case_bool_decide; [|done]. rewrite action_first.
  destruct (skip_ws r1) as [|c r2]; [done|]. case_bool_decide; [done|]. case_bool_decide; [done|].
  destruct (if bool_decide (c = dquote) then _ else _) as [[key r3]|]; [|done]. case_bool_decide; [|done].
  unfold colon_value. destruct (skip_ws r3) as [|d r4]; [done|]. case_bool_decide; [|done].
  destruct (proj1 (reader_progress (2 * length r4 + 2)) maxNestingDepth r4 ltac:(lia)) as [HP _].
  destruct (json_value _ _ r4) as [[v r5]|e]; cbn [mbind result_bind]; [|by intros [= ->]].
  pose proof (dec_step_fuel v) as HD. destruct (dec_step v) as [step|e]; cbn [mbind result_bind]; [|by intros [= ->]].
  apply action_fields_seen. lia.
Qed.

(** A number or [null] is read alike with any fuel and any depth left. *)
Definition scalar (j : json) : Prop := match j with JNull | JNum _ => True | _ => False end.

Lemma scalar_value n n' d d' r j rest : scalar j -> json_value n d r = Ok (j, rest) -> (0 < n')%nat -> json_value n' d' r = Ok (j, rest).
Proof.
  intros Hj Hv Hn'. destruct n as [|n]; [done|]. destruct n' as [|n']; [lia|]. cbn [json_value] in *.
  destruct (skip_ws r) as [|b r1]; [done|].
  case_bool_decide. { exfalso. destruct (d <=? 0); [done|]. cbn [fail_if mbind result_bind] in Hv.
    destruct (skip_ws r1) as [|c r2]; [done|]. case_bool_decide; [by simplify_eq|].
    destruct (json_members _ _ _) as [[? ?]|]; cbn [mbind result_bind] in Hv; by simplify_eq. }
  case_bool_decide. { exfalso. destruct (d <=? 0); [done|]. cbn [fail_if mbind result_bind] in Hv.
    destruct (skip_ws r1) as [|c r2]; [done|]. case_bool_decide; [by simplify_eq|].
    destruct (json_elements _ _ _) as [[? ?]|]; cbn [mbind result_bind] in Hv; by simplify_eq. }
  exact Hv.
Qed.

(** The action a whole JSON text stands for. *)
Definition action_of (j : json) : result (option Z) :=
  match j with
  | JObj [] => Ok None
  | JObj [(key, v)] => if bool_decide (key = ascii_bytes "step") then dec_step v else Err "unknown action field"
  | _ => Err "expected an action"
  end.

Lemma dec_step_scalar j s : dec_step j = Ok s -> scalar j.
Proof. by destruct j. Qed.

(** The grammar of [decodeAction]: what it accepts. *)
Lemma decodeAction_Ok r s rest :
  decodeAction r = Ok (s, rest) <->
  exists r1, skip_ws r = lbrace :: r1 /\
    (s = None /\ skip_ws r1 = rbrace :: rest \/
     exists r2 r3 r4 r5 v n d, skip_ws r1 = dquote :: r2 /\ unquote (length r2) r2 = Ok (ascii_bytes "step", r3) /\
       skip_ws r3 = colon :: r4 /\ json_value n d r4 = Ok (v, r5) /\ dec_step v = Ok s /\ skip_ws r5 = rbrace :: rest).
Proof.
  unfold decodeAction. split.
  - destruct (skip_ws r) as [|b r1]; [done|]. case_bool_decide; [subst b|done]. intros H. exists r1. split; [done|].
    rewrite action_first in H. destruct (skip_ws r1) as [|c r2] eqn:E1; [done|]. case_bool_decide as Hc; [left; injection H as <- <-; split; congruence|].
    case_bool_decide; [done|]. right. case_bool_decide; [subst c|done]. destruct (unquote _ _) as [[key r3]|] eqn:EU; [|done].
    case_bool_decide; [subst key|done]. unfold colon_value in H.
    destruct (skip_ws r3) as [|e r4] eqn:E3; [done|]. case_bool_decide; [subst e|done].
    destruct (json_value _ _ r4) as [[v r5]|] eqn:EV; [|done]. cbn [mbind result_bind] in H.
    destruct (dec_step v) as [s'|] eqn:ED; [|done]. cbn [mbind result_bind] in H.
    apply (action_fields_close 1) in H as [-> HR]; [|lia]. by exists r2, r3, r4, r5, v, (2 * length r4 + 2)%nat, maxNestingDepth.
  - intros (r1 & -> & H). rewrite bool_decide_true by done. destruct H as [[-> H]|H].
    + rewrite action_first, H. by rewrite bool_decide_true.
    + destruct H as (r2 & r3 & r4 & r5 & v & n & d & E1 & EU & E3 & EV & ED & E5). rewrite action_first, E1.
      rewrite (bool_decide_false (dquote = rbrace)), (bool_decide_false (dquote = rbracket)) by done.
      rewrite (bool_decide_true (dquote = dquote)), EU by done.
      rewrite bool_decide_true by done. unfold colon_value. rewrite E3, bool_decide_true by done.
      rewrite (scalar_value _ (2 * length r4 + 2) _ maxNestingDepth _ _ _ (dec_step_scalar _ _ ED) EV) by lia.
      cbn [mbind result_bind]. rewrite ED. cbn [mbind result_bind]. apply (action_fields_close 1); [lia|done].
Qed.


Lemma value_brace n d r r1 : skip_ws r = lbrace :: r1 -> 0 < d ->
  json_value (S n) d r =
    match skip_ws r1 with
    | c :: r2 => if bool_decide (c = rbrace) then Ok (JObj [], r2) else '(kvs, rest) ← json_members n (d - 1) (c :: r2); Ok (JObj kvs, rest)
    | [] => Err "unexpected end of JSON input"
    end.
Proof. intros Hr Hd. cbn [json_value]. rewrite Hr, bool_decide_true by done. by destruct (Z.leb_spec d 0); [lia|]. Qed.

Lemma value_object_inv n d r kvs rest : json_value (S n) d r = Ok (JObj kvs, rest) -> 0 < d /\ exists r1, skip_ws r = lbrace :: r1.
Proof.
  cbn [json_value]. destruct (skip_ws r) as [|b r1]; [done|]. case_bool_decide as Hb.
  { subst b. destruct (Z.leb_spec d 0); [done|]. by eauto. }
  case_bool_decide. { destruct (d <=? 0); [done|]. cbn [fail_if mbind result_bind].
    destruct (skip_ws r1) as [|c r2]; [done|]. case_bool_decide; [done|]. by destruct (json_elements _ _ _) as [[? ?]|]. }
  case_bool_decide; [by destruct (unquote _ _) as [[? ?]|]|]. unfold expect_prefix.
  repeat (case_match; [by case_decide|]). case_match; [|done]. by destruct (number _) as [[? ?]|].
Qed.

Lemma members_nonempty n d r rest : json_members n d r <> Ok ([], rest).
Proof.
  destruct n as [|n]; [done|]. cbn [json_members]. destruct (skip_ws r) as [|b r1]; [done|]. case_bool_decide; [|done].
  destruct (unquote _ _) as [[k r2]|]; [|done]. cbn [mbind result_bind]. destruct (skip_ws r2) as [|c r3]; [done|].
  case_bool_decide; [|done]. destruct (json_value _ _ _) as [[v r4]|]; [|done]. cbn [mbind result_bind].
  destruct (skip_ws r4) as [|e r5]; [done|]. case_bool_decide; [by destruct (json_members _ _ _) as [[? ?]|]|]. by case_bool_decide.
Qed.

(** An object with one field. *)
Lemma members_one n d r k v rest : json_members (S n) d r = Ok ([(k, v)], rest) <->
  exists r1 r2 r3 r4, skip_ws r = dquote :: r1 /\ unquote (length r1) r1 = Ok (k, r2) /\ skip_ws r2 = colon :: r3 /\
    json_value n d r3 = Ok (v, r4) /\ skip_ws r4 = rbrace :: rest.
Proof.
  cbn [json_members]. split.
  - destruct (skip_ws r) as [|b r1]; [done|]. case_bool_decide; [subst b|done].
    destruct (unquote _ _) as [[k' r2]|] eqn:EU; [|done]. cbn [mbind result_bind]. destruct (skip_ws r2) as [|c r3] eqn:E2; [done|].
    case_bool_decide; [subst c|done]. destruct (json_value _ _ _) as [[v' r4]|] eqn:EV; [|done]. cbn [mbind result_bind].
    destruct (skip_ws r4) as [|e r5] eqn:E4; [done|]. case_bool_decide.
    + destruct (json_members _ _ _) as [[kvs' rest']|] eqn:EM; [|done]. cbn [mbind result_bind]. intros [= _ _ -> _].
      by apply members_nonempty in EM.
    + case_bool_decide; [subst e|done]. intros [= -> -> ->]. by exists r1, r2, r3, r4.
  - intros (r1 & r2 & r3 & r4 & -> & EU & E2 & EV & E4). rewrite bool_decide_true by done. rewrite EU. cbn [mbind result_bind].
    rewrite E2, bool_decide_true by done. rewrite EV. cbn [mbind result_bind]. rewrite E4.
    by rewrite bool_decide_false, bool_decide_true.
Qed.

(** Reading tokens and reading the whole value agree. *)
Lemma decodeAction_value r s rest :
  decodeAction r = Ok (s, rest) <->
  exists j, json_value (2 * length r + 2) maxNestingDepth r = Ok (j, rest) /\ action_of j = Ok s.
Proof.
  rewrite decodeAction_Ok. replace (2 * length r + 2)%nat with (S (S (2 * length r))) by lia. split.
  - intros (r1 & Hr & [[-> H1]|H]).
    + exists (JObj []). split; [|done]. rewrite (value_brace _ _ _ _ Hr) by done. by rewrite H1, bool_decide_true.
    + destruct H as (r2 & r3 & r4 & r5 & v & n & d & E1 & EU & E3 & EV & ED & E5).
      exists (JObj [(ascii_bytes "step", v)]). split; [|exact ED]. rewrite (value_brace _ _ _ _ Hr), E1 by done.
      rewrite bool_decide_false by done. assert (0 < 2 * length r)%nat as Hl.
      { pose proof (skip_ws_length r) as Hs. rewrite Hr in Hs. cbn [length] in Hs. lia. }
      rewrite (proj2 (members_one (2 * length r) (maxNestingDepth - 1) (dquote :: r2) (ascii_bytes "step") v rest)); [done|].
      exists r2, r3, r4, r5. split; [by apply skip_ws_idem in E1|]. split; [done|]. split; [done|]. split; [|done].
      by apply (scalar_value n _ d); [eapply dec_step_scalar| |].
  - intros (j & HV & HA). destruct j as [| | | | |kvs]; try done. destruct (value_object_inv _ _ _ _ _ HV) as [Hd [r1 Hr]].
    exists r1. split; [done|]. rewrite (value_brace _ _ _ _ Hr) in HV by done. destruct (skip_ws r1) as [|c r2] eqn:E1; [done|].
    case_bool_decide as Hc; [subst c; injection HV as <- <-; left; by injection HA as <-|].
    destruct (json_members _ _ _) as [[kvs' rest']|] eqn:EM; [|done]. injection HV as -> ->.
    destruct kvs as [|[k v] [|]]; [by apply members_nonempty in EM| |done]. cbn [action_of] in HA.
    case_bool_decide; [subst k|done]. apply members_one in EM as (r3 & r4 & r5 & r6 & E2 & EU & E3 & EV & E5).
    rewrite (skip_ws_idem _ _ _ E1) in E2. injection E2 as -> ->. right.
    by exists r3, r4, r5, r6, v, (2 * length r)%nat, (maxNestingDepth - 1).
Qed.

Lemma read_action_Ok body s :
  read_action body = Ok s <-> (length body <= body_limit)%nat /\ exists j, parse body = Ok j /\ action_of j = Ok s.
Proof.
  unfold read_action, parse. split.
  - destruct (decodeAction _) as [[s' rest]|] eqn:ED; [|done]. intros [Hg [= <-]]%bind_fail_if.
    apply orb_false_iff in Hg as [Hl Hr]. apply Nat.ltb_ge in Hl. split; [done|]. rewrite take_ge in ED by done.
    apply decodeAction_value in ED as (j & EV & EA). exists j. split; [|done]. rewrite EV. cbn [mbind result_bind]. by rewrite Hr.
  - intros [Hl (j & HP & HA)]. rewrite take_ge by done. apply bind_Ok in HP as ([j' rest] & EV & HP).
    apply bind_fail_if in HP as [Hr [= ->]]. rewrite (proj2 (decodeAction_value body s rest)) by eauto. rewrite Hr.
    by rewrite (proj2 (Nat.ltb_ge _ _) Hl).
Qed.

Section claims.
Context `{CR : !Crypto, GR : !Groth16, SB : !SetupBackend, AE : !AEAD, ED : !Ed25519}.
Context (asset : string -> option bytes) (exportVerifier : bytes) (zip_archive : list (string * bytes) -> result bytes).

Local Abbreviation run_step := (scenario_step exportVerifier zip_archive).

(** ** Requests *)

(** The request comes from the page: right host, no foreign origin, no other
    site, the session's token, and JSON. *)
Definition trusted_request (r : HttpRequest) (a : app) : Prop :=
  hr_Host r = ap_host a /\ (hr_Origin r = "" \/ hr_Origin r = "http://" +:+ ap_host a) /\ hr_FetchSite r <> "cross-site" /\
  hr_Method r = "POST" /\ hr_DemoToken r = ap_token a /\ hr_ContentType r = "application/json".

(** What a request with an effect did: a reset, or the start of the step that
    is due. *)
Definition effect (now : Z) (r : HttpRequest) (a a' : app) (started : option Z) : Prop :=
  v_Busy (ap_state a) = false /\
  ((hr_Path r = "/api/reset" /\ read_action (hr_Body r) = Ok None /\ a' = reset a /\ started = None) \/
   (hr_Path r = "/api/advance" /\ v_Error (ap_state a) = "" /\ exists info, read_action (hr_Body r) = Ok (Some (v_Next (ap_state a))) /\
     steps !! Z.to_nat (v_Next (ap_state a)) = Some info /\
     a' = set_state (set_running now (si_Title info) (ap_state a)) a /\ started = Some (v_Next (ap_state a)))).

Lemma serve_action_cases now path step a resp a' started :
  serve_action now path step a = (resp, a', started) ->
  (a' = a /\ started = None) \/
  v_Busy (ap_state a) = false /\
  ((path = "/api/reset" /\ step = None /\ a' = reset a /\ started = None) \/
   (path <> "/api/reset" /\ v_Error (ap_state a) = "" /\ exists info, step = Some (v_Next (ap_state a)) /\
     steps !! Z.to_nat (v_Next (ap_state a)) = Some info /\
     a' = set_state (set_running now (si_Title info) (ap_state a)) a /\ started = Some (v_Next (ap_state a)))).
Proof.
  unfold serve_action. destruct (v_Busy (ap_state a)); [intros [= _ <- <-]; by left|].
  destruct (String.eqb_spec path "/api/reset") as [|Hp].
  { destruct step; intros [= _ <- <-]; [by left|]. right. split; [done|]. by left. }
  destruct step as [n|]; [|intros [= _ <- <-]; by left].
  destruct (steps !! _) as [info|] eqn:ES; [|intros [= _ <- <-]; by left].
  destruct (negb (n =? _) || _) eqn:EG; [intros [= _ <- <-]; by left|]. apply orb_false_iff in EG as [E1 E2].
  apply negb_false_iff, Z.eqb_eq in E1. apply negb_false_iff, String.eqb_eq in E2. intros [= _ <- <-]. right. split; [done|].
  right. split; [done|]. split; [done|]. exists info. by subst n.
Qed.

Lemma serve_cases now r a resp a' started :
  ServeHTTP asset now r a = (resp, a', started) ->
  (a' = a /\ started = None) \/ (trusted_request r a /\ effect now r a a' started).
Proof.
  unfold ServeHTTP.
  destruct (String.eqb_spec (hr_Host r) (ap_host a)) as [Hh|]; cbn [negb]; [|intros [= _ <- <-]; by left].
  destruct (negb (String.eqb (hr_Origin r) "") && _) eqn:EO; [intros [= _ <- <-]; by left|].
  destruct (String.eqb_spec (hr_FetchSite r) "cross-site"); [intros [= _ <- <-]; by left|].
  destruct (String.eqb (hr_Method r) "GET"); [intros [= _ <- <-]; by left|].
  destruct (String.eqb_spec (hr_Method r) "POST"); cbn [negb orb]; [|intros [= _ <- <-]; by left].
  destruct (negb (String.eqb (hr_Path r) "/api/advance") && _) eqn:EP; [intros [= _ <- <-]; by left|].
  destruct (String.eqb_spec (hr_DemoToken r) (ap_token a)); cbn [negb]; [|intros [= _ <- <-]; by left].
  destruct (String.eqb_spec (hr_ContentType r) "application/json"); cbn [negb]; [|intros [= _ <- <-]; by left].
  destruct (read_action (hr_Body r)) as [step|] eqn:ER; [|intros [= _ <- <-]; by left].
  intros [H|[HB H]]%serve_action_cases; [by left|]. right. split.
  - split; [done|]. split; [|done]. apply andb_false_iff in EO as [EO|EO]; apply negb_false_iff, String.eqb_eq in EO; auto.
  - split; [done|]. unfold effect. rewrite ER. destruct H as [(-> & -> & -> & ->)|(Hp & He & info & -> & HI & -> & ->)]; [by left|].
    right. apply andb_false_iff in EP as [EP|EP]; apply negb_false_iff, String.eqb_eq in EP; [|done]. naive_solver.
Qed.

(** The request for the step that is due. *)
Lemma serve_advance now r a info :
  v_Busy (ap_state a) = false -> v_Error (ap_state a) = "" -> steps !! Z.to_nat (v_Next (ap_state a)) = Some info ->
  trusted_request r a -> hr_Path r = "/api/advance" -> read_action (hr_Body r) = Ok (Some (v_Next (ap_state a))) ->
  ServeHTTP asset now r a = (content 202 [] [], set_state (set_running now (si_Title info) (ap_state a)) a, Some (v_Next (ap_state a))).
Proof.
  intros HB HE HI (T1 & T2 & T3 & T4 & T5 & T6) HP HA.
  unfold ServeHTTP. rewrite T1, T4, T5, T6, HP, HA, !String.eqb_refl. apply String.eqb_neq in T3. rewrite T3.
  replace (negb (String.eqb (hr_Origin r) "") && negb (String.eqb (hr_Origin r) ("http://" +:+ ap_host a))) with false.
  2: { destruct T2 as [-> | ->]; rewrite String.eqb_refl; [done|by rewrite andb_false_r]. }
  cbn [negb orb andb String.eqb Ascii.eqb Bool.eqb]. unfold serve_action. rewrite HB. cbn [String.eqb Ascii.eqb Bool.eqb].
  cbv zeta. by rewrite HI, Z.eqb_refl, HE.
Qed.

(** ** Runs of the system *)

(** An engine that did the first [n] steps, each with success, from a fresh
    start. *)
Inductive progressed (c : config) : Z -> engine -> Prop :=
  | fresh_run loaded : progressed c 0 (new_engine c loaded)
  | next_run n e env fs w : progressed c n e -> run_step env n (mkEWorld e fs) = (Ok tt, w) -> progressed c (n + 1) (ew_engine w).

(** An engine whose step [n] failed after the first [n] steps. *)
Definition aborted (c : config) (n : Z) (e' : engine) : Prop :=
  exists e env fs err w, progressed c n e /\ run_step env n (mkEWorld e fs) = (Err err, w) /\ e' = ew_engine w.

Lemma step_config env n w r w' : run_step env n w = (r, w') -> eg_config (ew_engine w') = eg_config (ew_engine w).
Proof. intros E. pose proof (scenario_config exportVerifier zip_archive env n w) as H. by rewrite E in H. Qed.

Lemma step_in_force env n e fs r w : in_force e -> run_step env n (mkEWorld e fs) = (r, w) ->
  sound (ew_engine w) /\ (is_ok r = true -> in_force (ew_engine w)).
Proof.
  intros He E. pose proof (scenario_in_force exportVerifier zip_archive env n (mkEWorld e fs) He) as H. rewrite E in H.
  destruct r; [|done]. split; [by apply in_force_sound|done].
Qed.

Lemma new_engine_in_force c l : in_force (new_engine c l).
Proof. split; [|done]. intros i r Hi. by destruct i. Qed.

Lemma progressed_facts c n e : progressed c n e -> 0 <= n /\ eg_config e = c /\ in_force e.
Proof.
  induction 1 as [l|n e env fs w _ (IH1 & IH2 & IH3) E]; [by split; [lia|split; [done|apply new_engine_in_force]]|].
  split; [lia|]. split; [by rewrite (step_config _ _ _ _ _ E)|]. by apply (step_in_force _ _ _ _ _ _ IH3 E).
Qed.

Lemma aborted_facts c n e : aborted c n e -> eg_config e = c /\ sound e.
Proof.
  intros (e0 & env & fs & err & w & (_ & H2 & H3)%progressed_facts & E & ->).
  split; [by rewrite (step_config _ _ _ _ _ E)|]. exact (proj1 (step_in_force _ _ _ _ _ _ H3 E)).
Qed.

(** The state of the server at any time. *)
Record serialized (random : result bytes) (c : config) (host : string) (s : system) : Prop := mk_serialized {
  sz_host : ap_host (sy_app s) = host;
  sz_token : exists key, random = Ok key /\ ap_token (sy_app s) = hex_encode key;
  sz_workers : sy_workers s = if v_Busy (ap_state (sy_app s)) then [v_Next (ap_state (sy_app s))] else [];
  sz_busy : v_Busy (ap_state (sy_app s)) = true -> v_Next (ap_state (sy_app s)) < step_count /\ v_Error (ap_state (sy_app s)) = "";
  sz_next : 0 <= v_Next (ap_state (sy_app s)) <= step_count;
  sz_engine : if String.eqb (v_Error (ap_state (sy_app s))) ""
              then progressed c (v_Next (ap_state (sy_app s))) (ap_engine (sy_app s))
              else aborted c (v_Next (ap_state (sy_app s))) (ap_engine (sy_app s)) /\ v_Next (ap_state (sy_app s)) < step_count;
  sz_bundle : ap_bundle (sy_app s) = if v_Next (ap_state (sy_app s)) =? step_count then eg_bundle (ap_engine (sy_app s)) else [];
  sz_reports : v_Reports (ap_state (sy_app s)) = sr_view <$> eg_reports (ap_engine (sy_app s));
}.

Lemma serialized_engine random c host s : serialized random c host s -> eg_config (ap_engine (sy_app s)) = c /\ sound (ap_engine (sy_app s)).
Proof.
  intros H. pose proof (sz_engine _ _ _ _ H) as HE. destruct (String.eqb _ "").
  - apply progressed_facts in HE as (_ & ? & ?). split; [done|by apply in_force_sound].
  - by destruct HE as [?%aborted_facts _].
Qed.

Lemma steps_range n info : 0 <= n -> steps !! Z.to_nat n = Some info -> n < step_count.
Proof. intros Hn H%lookup_lt_Some. change (length steps) with 8%nat in H. unfold step_count. lia. Qed.

Lemma serialized_start random c host a fs : newApp random c host = Ok a -> serialized random c host (mkSystem a fs []).
Proof.
  unfold newApp. intros (key & -> & [= <-])%bind_Ok. split; try done.
  - by exists key.
  - apply fresh_run.
Qed.

Lemma serialized_request random c host s now r resp a' started :
  serialized random c host s -> ServeHTTP asset now r (sy_app s) = (resp, a', started) ->
  serialized random c host (mkSystem a' (sy_fs s) (match started with Some n => n :: sy_workers s | None => sy_workers s end)).
Proof.
  intros H [[-> ->]|[_ [HB HE]]]%serve_cases; [by destruct s|].
  destruct (serialized_engine _ _ _ _ H) as [HC _]. destruct H as [H1 H2 H3 H4 H5 H6 H7 H8]. rewrite HB in H3.
  destruct HE as [(_ & _ & -> & ->)|(_ & He & info & _ & HI & -> & ->)].
  - split; try done. cbn. rewrite HC. apply fresh_run.
  - split; try done; cbn [sy_app sy_workers set_state set_running ap_state v_Busy v_Next].
    + by rewrite H3.
    + intros _. split; [by eapply steps_range; [lia|]|exact He].
Qed.

Lemma serialized_finish random c host env a fs ws ws' n r w :
  serialized random c host (mkSystem a fs ws) -> ws ≡ₚ n :: ws' -> run_step env n (mkEWorld (ap_engine a) fs) = (r, w) -> has_message r ->
  serialized random c host (mkSystem (finish n r (ew_engine w) a) (ew_fs w) ws').
Proof.
  intros [H1 H2 H3 H4 H5 H6 H7 H8] HP E Hm. cbn [sy_app sy_workers sy_fs] in *. destruct (v_Busy (ap_state a)) eqn:HB.
  2: { rewrite H3 in HP. by apply Permutation_nil_cons in HP. }
  rewrite H3 in HP. apply Permutation_singleton_l in HP. injection HP as <- <-. destruct (H4 eq_refl) as [Hlt He].
  rewrite He in H6. cbn in H6. destruct (Z.eqb_spec (v_Next (ap_state a)) step_count); [lia|].
  destruct r as [[]|err]; cbn [finish].
  - assert (progressed c (v_Next (ap_state a) + 1) (ew_engine w)) as HN by (eapply next_run; done).
    destruct (v_Next (ap_state a) + 1 =? step_count) eqn:Hq; split; try done; cbn [sy_app ap_state v_Next ap_bundle ap_engine]; try lia.
    + by rewrite Hq.
    + by rewrite Hq.
  - split; try done; cbn [sy_app ap_state v_Next v_Error ap_bundle ap_engine]; try lia.
    + cbn in Hm. destruct (String.eqb_spec err ""); [done|]. split; [|lia]. by exists (ap_engine a), env, fs, err, w.
    + by destruct (Z.eqb_spec (v_Next (ap_state a)) step_count).
Qed.

Lemma demo_serialized_step random c host s s' :
  serialized random c host s -> demo_step asset exportVerifier zip_archive s s' -> serialized random c host s'.
Proof.
  intros H Hs. destruct Hs as [now r resp a a' fs ws started E|phase a fs ws n Hn|env a fs ws ws' n r w HP E Hm|a fs fs' ws].
  - by apply (serialized_request _ _ _ _ _ _ _ _ _ H E).
  - destruct H as [H1 H2 H3 H4 H5 H6 H7 H8]. by split.
  - by apply (serialized_finish _ _ _ _ _ _ _ _ _ _ _ H HP E Hm).
  - destruct H as [H1 H2 H3 H4 H5 H6 H7 H8]. by split.
Qed.

Lemma reachable_serialized random c host s : demo_reachable asset exportVerifier zip_archive random c host s -> serialized random c host s.
Proof. induction 1 as [a fs H|s s' _ IH Hs]; [by apply serialized_start|by eapply demo_serialized_step]. Qed.

(** C31: the reader of actions, which takes tokens from a limited stream,
    accepts exactly the bodies of at most 1024 bytes that are one JSON
    object with no field, or with the single field step holding null or an
    integer; so no body has two readings. *)
Theorem action_exact body step :
  read_action body = Ok step <-> (length body <= body_limit)%nat /\ exists j, parse body = Ok j /\ action_of j = Ok step.
Proof. apply read_action_Ok. Qed.

(** C29: a request that changes the server or starts a worker has the
    server's host, no foreign origin or site, the session's token and a JSON
    body, and finds the server idle; it is a reset without a step, or it
    starts the step that is due of a run without error. *)
Theorem demo_guarded now r a resp a' started :
  ServeHTTP asset now r a = (resp, a', started) -> ~ (a' = a /\ started = None) ->
  trusted_request r a /\ effect now r a a' started.
Proof. by intros [?|?]%serve_cases. Qed.

(** C14: however requests, progress messages, workers and changes of files
    interleave, at most one worker runs and it runs the step that is due;
    the engine is the outcome of the steps before it, in order, each
    successful, from a fresh engine, or the step due failed. *)
Theorem demo_serialized random c host s :
  demo_reachable asset exportVerifier zip_archive random c host s ->
  sy_workers s = (if v_Busy (ap_state (sy_app s)) then [v_Next (ap_state (sy_app s))] else []) /\
  0 <= v_Next (ap_state (sy_app s)) <= step_count /\
  (if String.eqb (v_Error (ap_state (sy_app s))) "" then progressed c (v_Next (ap_state (sy_app s))) (ap_engine (sy_app s))
   else aborted c (v_Next (ap_state (sy_app s))) (ap_engine (sy_app s))).
Proof.
  intros H%reachable_serialized. split; [exact (sz_workers _ _ _ _ H)|]. split; [exact (sz_next _ _ _ _ H)|].
  generalize (sz_engine _ _ _ _ H). destruct (String.eqb _ ""); [done|]. by intros [? _].
Qed.

(** C13: every report a reachable server shows has the next number, its public
    fields are those of its signature, and an authorized verifier of its
    policy accepted the message and signature; an archive is served only
    when all the steps of a run succeeded, and it is that run's. *)
Theorem demo_evidence random c host s :
  demo_reachable asset exportVerifier zip_archive random c host s ->
  (forall i v, v_Reports (ap_state (sy_app s)) !! i = Some v ->
     rv_ID v = Z.of_nat i + 1 /\ exists r, sr_view r = v /\ described r /\ verified_report r) /\
  (forall r, hr_Path r = "/api/export" -> hp_Status (serve_get asset r (sy_app s)) = 200 ->
     progressed c step_count (ap_engine (sy_app s)) /\ hp_Body (serve_get asset r (sy_app s)) = eg_bundle (ap_engine (sy_app s))).
Proof.
  intros H%reachable_serialized. destruct (serialized_engine _ _ _ _ H) as [_ HS].
  destruct H as [_ _ _ _ _ HE HB HR]. split.
  - intros i v Hv. rewrite HR, list_lookup_fmap, fmap_Some in Hv. destruct Hv as (r & Hr & ->).
    destruct (HS _ _ Hr) as (? & ? & ?). by eauto.
  - intros r Hp. unfold serve_get. rewrite Hp. cbn [String.eqb Ascii.eqb Bool.eqb]. destruct (ap_bundle (sy_app s)) as [|b l]; [done|].
    intros _. revert HB. destruct (Z.eqb_spec (v_Next (ap_state (sy_app s))) step_count) as [Hn|]; [|done]. intros HB.
    split; [|exact HB].
    revert HE. rewrite Hn. destruct (String.eqb _ ""); [done|]. intros [_ HE]. lia.
Qed.

(** C30: in an idle server without error, the page's request for the step that
    is due is answered with 202 and starts its worker; whatever that worker
    meets, the server is idle again when it ends, with the next step due if
    the step succeeded and the step's error otherwise. *)
Theorem demo_live random c host s now r info env res w :
  demo_reachable asset exportVerifier zip_archive random c host s ->
  v_Busy (ap_state (sy_app s)) = false -> v_Error (ap_state (sy_app s)) = "" ->
  steps !! Z.to_nat (v_Next (ap_state (sy_app s))) = Some info ->
  trusted_request r (sy_app s) -> hr_Path r = "/api/advance" -> read_action (hr_Body r) = Ok (Some (v_Next (ap_state (sy_app s)))) ->
  run_step env (v_Next (ap_state (sy_app s))) (mkEWorld (ap_engine (sy_app s)) (sy_fs s)) = (res, w) -> has_message res ->
  exists resp s1 s2, hp_Status resp = 202 /\ ServeHTTP asset now r (sy_app s) = (resp, sy_app s1, Some (v_Next (ap_state (sy_app s)))) /\
    demo_step asset exportVerifier zip_archive s s1 /\ sy_workers s1 = [v_Next (ap_state (sy_app s))] /\
    demo_step asset exportVerifier zip_archive s1 s2 /\ sy_workers s2 = [] /\ v_Busy (ap_state (sy_app s2)) = false /\
    ap_engine (sy_app s2) = ew_engine w /\
    match res with
    | Ok _ => v_Next (ap_state (sy_app s2)) = v_Next (ap_state (sy_app s)) + 1 /\ v_Error (ap_state (sy_app s2)) = ""
    | Err e => v_Next (ap_state (sy_app s2)) = v_Next (ap_state (sy_app s)) /\ v_Error (ap_state (sy_app s2)) = e
    end.
Proof.
  intros H%reachable_serialized HB HE HI (T1 & T2 & T3 & T4 & T5 & T6) HP HA HR HM.
  pose proof (sz_workers _ _ _ _ H) as HW. rewrite HB in HW. destruct s as [a fs ws]. cbn [sy_app sy_fs sy_workers] in *. subst ws.
  pose proof (serve_advance now r a info HB HE HI (conj T1 (conj T2 (conj T3 (conj T4 (conj T5 T6))))) HP HA) as HS.
  exists (content 202 [] []), (mkSystem (set_state (set_running now (si_Title info) (ap_state a)) a) fs [v_Next (ap_state a)]).
  exists (mkSystem (finish (v_Next (ap_state a)) res (ew_engine w) (set_state (set_running now (si_Title info) (ap_state a)) a)) (ew_fs w) []).
  split; [done|]. split; [exact HS|]. split; [exact (request_step _ _ _ now r _ a _ fs [] _ HS)|]. split; [done|].
  split; [by eapply finish_step|]. split; [done|]. destruct res as [[]|e]; cbn [finish]; [|done].
  by destruct (v_Next (ap_state a) + 1 =? step_count).
Qed.
End claims.

(** ** Instances *)

Definition demo_config : config := mkConfig "demo" "" "" "lktrs-native".
Definition demo_token : bytes := replicate 32 Byte.x07.
Definition demo_host : string := "127.0.0.1:8787".
Definition no_asset : string -> option bytes := fun _ => None.
Definition toy_zip : list (string * bytes) -> result bytes := fun l => Ok (concat (snd <$> l)).

Definition demo_app : app := mkApp (new_engine demo_config None) (start_view (hex_encode demo_token)) demo_host (hex_encode demo_token) [].

(** The page's request for a step. *)
Definition advance_request (n : Z) : HttpRequest :=
  mkHttpRequest "POST" demo_host "/api/advance" ("http://" +:+ demo_host) "same-origin" (hex_encode demo_token) "application/json"
    (marshal (enc_struct [("step", enc_int n)])).

Definition advanced_app : app := set_state (set_running 5 "建立协作组" (ap_state demo_app)) demo_app.

Lemma advance_action : read_action (hr_Body (advance_request 0)) = Ok (Some 0).
Proof. vm_compute. reflexivity. Qed.

Lemma advance_trusted : trusted_request (advance_request 0) demo_app.
Proof. split_and!; try done. by right. Qed.

Lemma advance_served : ServeHTTP no_asset 5 (advance_request 0) demo_app = (content 202 [] [], advanced_app, Some 0).
Proof.
  exact (serve_advance no_asset 5 (advance_request 0) demo_app _ eq_refl eq_refl eq_refl advance_trusted eq_refl advance_action).
Qed.

Definition demo_started : system := mkSystem advanced_app ∅ [0].

Lemma demo_initial : demo_reachable no_asset [] toy_zip (Ok demo_token) demo_config demo_host (mkSystem demo_app ∅ []).
Proof. by apply demo_start. Qed.

Lemma demo_started_reachable : demo_reachable no_asset [] toy_zip (Ok demo_token) demo_config demo_host demo_started.
Proof. eapply demo_next; [apply demo_initial|]. exact (request_step _ _ _ _ _ _ _ _ ∅ [] _ advance_served). Qed.

Lemma demo_guarded_witness :
  trusted_request (advance_request 0) demo_app /\ effect 5 (advance_request 0) demo_app advanced_app (Some 0).
Proof. apply (demo_guarded no_asset 5 (advance_request 0) demo_app _ _ _ advance_served). by intros [_ ?]. Defined.

Lemma demo_serialized_witness :
  sy_workers demo_started = [0] /\ 0 <= v_Next (ap_state (sy_app demo_started)) <= step_count /\
  progressed [] toy_zip demo_config 0 (ap_engine (sy_app demo_started)).
Proof. exact (demo_serialized no_asset [] toy_zip (Ok demo_token) demo_config demo_host demo_started demo_started_reachable). Defined.

(** A disk that refuses the first look at the setup; the other draws and
    clocks are not met. *)
Definition refusing_env : StepEnv :=
  let wallet := vault_env None in
  let sub := mkSubmitEnv 0 wallet wallet wallet 1002 1003 1 1 1 in
  let keys (i : nat) := mkMemberEnv (fixed_rand 7) (fixed_rand 9) (Ok demo_token) (Ok demo_token) wallet (Ok demo_token) (fixed_rand 99) in
  mkStepEnv
    (mkPrepareEnv (mkLoadEnv (Some "permission denied") (fixed_rand 12345) 0 None None (fun _ => None)) (fun _ => None) (Ok "7") None
       (Ok sample_issue) (Ok (setup_key, authority_of setup_key)) 1000 keys 1001 5)
    sub (1004, 1) (mkExhaustEnv sub wallet wallet wallet wallet 1005 1) (1006, 1)
    (mkRevokeEnv (fun _ => None) 1007 1007 1007 1007 1 sub 1)
    (mkExportEnv (fun _ => None) id None
       (fun _ => mkProcessEnv None (mkCliEnv (fixed_rand 1) 0 (fun _ => fixed_rand 1) 0 (fun _ => None) None None 1010 1011))
       (fun _ => 1) None None).

Lemma demo_live_witness :
  exists resp s1 s2, hp_Status resp = 202 /\ ServeHTTP no_asset 5 (advance_request 0) demo_app = (resp, sy_app s1, Some 0) /\
    demo_step no_asset [] toy_zip (mkSystem demo_app ∅ []) s1 /\ sy_workers s1 = [0] /\
    demo_step no_asset [] toy_zip s1 s2 /\ sy_workers s2 = [] /\ v_Busy (ap_state (sy_app s2)) = false /\
    ap_engine (sy_app s2) = new_engine demo_config None /\
    v_Next (ap_state (sy_app s2)) = 0 /\ v_Error (ap_state (sy_app s2)) = "permission denied".
Proof.
  refine (demo_live no_asset [] toy_zip (Ok demo_token) demo_config demo_host (mkSystem demo_app ∅ []) 5 (advance_request 0) _ refusing_env
    (Err "permission denied") (mkEWorld (new_engine demo_config None) ∅) demo_initial eq_refl eq_refl eq_refl advance_trusted eq_refl
    advance_action eq_refl _). done.
Defined.

(** A run of the first two steps: the setup is generated, the members are
    enrolled, and the first report is signed and verified. *)
Definition working_wallet : VaultEnv := mkVaultEnv (fun p => Ok p) None None None None (Ok (replicate 24 Byte.x05)) None 0.
Definition working_member (i : nat) : MemberEnv :=
  mkMemberEnv (fixed_rand (700 + 13 * Z.of_nat i)) (fixed_rand (900 + 17 * Z.of_nat i)) (Ok (replicate 32 (z2b (1 + Z.of_nat i))))
    (Ok (replicate 32 (z2b (33 + Z.of_nat i)))) working_wallet (Ok (replicate 32 (z2b (65 + Z.of_nat i)))) (fixed_rand 99).

Definition working_env : StepEnv :=
  let sub := mkSubmitEnv 0 working_wallet working_wallet working_wallet 1002 1003 1 1 1 in
  mkStepEnv
    (mkPrepareEnv (mkLoadEnv None (fixed_rand 12345) 0 None None (fun _ => None)) (fun _ => None) (Ok "7") None (Ok sample_issue)
       (Ok (setup_key, authority_of setup_key)) 1000 working_member 1001 5)
    sub (1004, 1) (ev_exhaust refusing_env) (1006, 1) (ev_revoke refusing_env) (ev_export refusing_env).

Definition prepared : result unit * EWorld := scenario_step [] toy_zip working_env 0 (mkEWorld (new_engine demo_config None) ∅).
Definition submitted : result unit * EWorld := scenario_step [] toy_zip working_env 1 prepared.2.

Lemma two_steps_succeed :
  (let p := scenario_step [] toy_zip working_env 0 (mkEWorld (new_engine demo_config None) ∅) in
   let q := scenario_step [] toy_zip working_env 1 p.2 in
   is_ok p.1 && is_ok q.1 && (length (eg_reports (ew_engine q.2)) =? 1)%nat) = true.
Proof. vm_compute. reflexivity. Qed.

Lemma ok_pair {A} (x : result unit * A) : is_ok x.1 = true -> x = (Ok tt, x.2).
Proof. by destruct x as [[[]|] w]. Qed.

Lemma two_steps : is_ok prepared.1 = true /\ is_ok submitted.1 = true /\ length (eg_reports (ew_engine submitted.2)) = 1%nat.
Proof.
  pose proof two_steps_succeed as H. cbv zeta in H. apply andb_true_iff in H as [[H1 H2]%andb_true_iff H3%Nat.eqb_eq].
  exact (conj H1 (conj H2 H3)).
Qed.

Lemma prepared_eq : prepared = (Ok tt, prepared.2).
Proof. exact (ok_pair prepared (proj1 two_steps)). Qed.

Lemma submitted_eq : submitted = (Ok tt, submitted.2).
Proof. exact (ok_pair submitted (proj1 (proj2 two_steps))). Qed.

Lemma prepared_step : scenario_step [] toy_zip working_env 0 (mkEWorld (new_engine demo_config None) ∅) = (Ok tt, prepared.2).
Proof. exact prepared_eq. Qed.

Lemma submitted_step : scenario_step [] toy_zip working_env 1 (mkEWorld (ew_engine prepared.2) (ew_fs prepared.2)) = (Ok tt, submitted.2).
Proof.
  assert (forall w, mkEWorld (ew_engine w) (ew_fs w) = w) as -> by (by intros []). exact submitted_eq.
Qed.

#[local] Opaque prepared submitted.

Definition reported : system :=
  let a1 := finish 0 (Ok tt) (ew_engine prepared.2) advanced_app in
  let a2 := set_state (set_running 6 "提交第一份报告" (ap_state a1)) a1 in
  mkSystem (finish 1 (Ok tt) (ew_engine submitted.2) a2) (ew_fs submitted.2) [].

Lemma reported_reachable : demo_reachable no_asset [] toy_zip (Ok demo_token) demo_config demo_host reported.
Proof.
  set (a1 := finish 0 (Ok tt) (ew_engine prepared.2) advanced_app).
  set (a2 := set_state (set_running 6 "提交第一份报告" (ap_state a1)) a1).
  assert (H1 : demo_reachable no_asset [] toy_zip (Ok demo_token) demo_config demo_host (mkSystem a1 (ew_fs prepared.2) [])).
  { eapply demo_next; [apply demo_started_reachable|]. by eapply finish_step; [|exact prepared_step|]. }
  assert (H2 : demo_reachable no_asset [] toy_zip (Ok demo_token) demo_config demo_host (mkSystem a2 (ew_fs prepared.2) [1])).
  { eapply demo_next; [exact H1|].
    assert (HS : ServeHTTP no_asset 6 (advance_request 1) a1 = (content 202 [] [], a2, Some 1)).
    { refine (serve_advance no_asset 6 (advance_request 1) a1 _ eq_refl eq_refl eq_refl _ eq_refl _).
      - split_and!; try done. by right.
      - vm_compute. reflexivity. }
    exact (request_step _ _ _ _ _ _ _ _ _ [] _ HS). }
  eapply demo_next; [exact H2|]. eapply finish_step; [done| |done].
  exact submitted_step.
Qed.

Lemma demo_evidence_witness :
  (exists r v, eg_reports (ap_engine (sy_app reported)) = [r] /\ v_Reports (ap_state (sy_app reported)) = [v] /\ rv_ID v = 1) /\
  (forall r, hr_Path r = "/api/export" -> hp_Status (serve_get no_asset r (sy_app reported)) = 200 ->
     progressed [] toy_zip demo_config step_count (ap_engine (sy_app reported)) /\
     hp_Body (serve_get no_asset r (sy_app reported)) = eg_bundle (ap_engine (sy_app reported))).
Proof.
  destruct (demo_evidence no_asset [] toy_zip (Ok demo_token) demo_config demo_host reported reported_reachable) as [H1 H2].
  split; [|exact H2]. pose proof (proj2 (proj2 two_steps)) as HL.
  change (ap_engine (sy_app reported)) with (ew_engine submitted.2).
  change (v_Reports (ap_state (sy_app reported))) with (sr_view <$> eg_reports (ew_engine submitted.2)) in *.
  destruct (eg_reports (ew_engine submitted.2)) as [|r [|]]; try discriminate HL.
  exists r, (sr_view r). split; [reflexivity|]. split; [reflexivity|]. exact (proj1 (H1 0%nat (sr_view r) eq_refl)).
Defined.
